(** * Ducheved/stress: the resource-pressure engines, embedded in Rocq

    The repository holds two variants of one load generator:
    [qimi2_sim.py] (fast burst: memory, then I/O and CPU) and [stress.py]
    (slow ramp: CPU ramp beside a paced memory allocation).  This file
    embeds the functions the specification speaks about

      - [parse_size]                     (both files, identical text),
      - [mem_burst] / [allocate_slow]    (the memory-pressure loop),
      - [cpu_burst] / [run_cpu_ramp]     (the CPU worker pool),
      - [io_burst]                       (the disposable file),
      - [main] of [qimi2_sim.py]         (the burst orchestrator),

    and proves the properties of the specification about them.  It then
    embeds the functions around them

      - [read_cgroup_limits], [read_mem_current], [read_mem_peak],
        [read_cpu_stat_v2], [read_mem_events_v2], [read_self_rss]
                                         (the readers of the pseudo-files),
      - [touch_pages]                    (on the bytes of the buffer),
      - [human]                          (the sizes of the log),

    and proves further properties of all of them.

    Conventions.  Python [int] is [Z].  Python [str] is [list ascii]
    (code points below 128).  Python [float] is IEEE-754 binary64, given
    by the Standard Library's [spec_float] with [prec = 53] and
    [emax = 1024].  Times and the lengths of sleeps, which are finite
    floats, are rational numbers.  The operating system (cgroup
    pseudo-files, the allocator, the clock, the scheduler, the file
    system) is an oracle indexed by the history of the run, and every
    interaction is recorded in a trace.  The calls that can raise are
    modelled with the exceptions they raise: [float(n)] and so [human]
    and every record that shows a size, [bytearray(n)], [time.sleep(d)],
    the starts of processes and the calls on the file system. *)

From Stdlib Require Import ZArith List Bool Ascii String Lia Arith PeanoNat QArith Lqa.
From Stdlib Require Import Floats.SpecFloat.
Import ListNotations.

Local Open Scope Z_scope.

(* ================================================================== *)
(** * Python values shared by the two programs *)

(** The exceptions that the modelled code can meet. *)
Inductive exn : Type :=
| ValueError
| OverflowError
| MemoryError
| OSError.

(** A computation that either returns or raises. *)
Inductive result (A : Type) : Type :=
| Ok (a : A)
| Raise (e : exn).
Arguments Ok {A} a.
Arguments Raise {A} e.

Definition pystr := list ascii.

(** A string literal as a [pystr]. *)
Definition lit (s : string) : pystr := list_ascii_of_string s.

Definition ascii_eqb (a b : ascii) : bool :=
  (nat_of_ascii a =? nat_of_ascii b)%nat.

Fixpoint pystr_eqb (a b : pystr) : bool :=
  match a, b with
  | [], [] => true
  | x :: a', y :: b' => ascii_eqb x y && pystr_eqb a' b'
  | _, _ => false
  end.

(* ------------------------------------------------------------------ *)
(** ** [str] methods used by [parse_size] *)

(** Whitespace of [str.strip()] below code point 128: TAB..CR, FS..US
    and SPACE. *)
Definition is_space (c : ascii) : bool :=
  let n := nat_of_ascii c in
  ((9 <=? n) && (n <=? 13) || (28 <=? n) && (n <=? 32))%nat.

Fixpoint lstrip (s : pystr) : pystr :=
  match s with
  | c :: t => if is_space c then lstrip t else s
  | [] => []
  end.

Definition rstrip (s : pystr) : pystr := rev (lstrip (rev s)).

(** [s.strip()] *)
Definition strip (s : pystr) : pystr := rstrip (lstrip s).

(** Whitespace that [int()] and [float()] skip around the number in a
    string of code points below 128: TAB..CR and SPACE, not FS..US. *)
Definition is_blank (c : ascii) : bool :=
  let n := nat_of_ascii c in
  ((9 <=? n) && (n <=? 13) || (n =? 32))%nat.

Fixpoint skip_blanks (s : pystr) : pystr :=
  match s with
  | c :: t => if is_blank c then skip_blanks t else s
  | [] => []
  end.

(** The string between the blanks that [int()] and [float()] skip at
    its two ends. *)
Definition unpadded (s : pystr) : pystr :=
  rev (skip_blanks (rev (skip_blanks s))).

Definition lower_char (c : ascii) : ascii :=
  let n := nat_of_ascii c in
  if ((65 <=? n) && (n <=? 90))%nat then ascii_of_nat (n + 32) else c.

(** [s.lower()] *)
Definition lower (s : pystr) : pystr := map lower_char s.

(** [s.endswith(u)] *)
Definition endswith (s u : pystr) : bool :=
  (List.length u <=? List.length s)%nat
  && pystr_eqb (skipn (List.length s - List.length u) s) u.

(** [s[:-k]] for [k > 0]: everything but the last [k] characters. *)
Definition drop_last (k : nat) (s : pystr) : pystr :=
  firstn (List.length s - k) s.

(* ------------------------------------------------------------------ *)
(** ** Numerals *)

Definition is_digit (c : ascii) : bool :=
  let n := nat_of_ascii c in ((48 <=? n) && (n <=? 57))%nat.

Definition digit_val (c : ascii) : Z := Z.of_nat (nat_of_ascii c) - 48.

Definition is_underscore (c : ascii) : bool := ascii_eqb c "_"%char.

(** The value of a run of digits read left to right, from [acc]. *)
Fixpoint digits_from (acc : Z) (s : pystr) : Z :=
  match s with
  | [] => acc
  | c :: t => digits_from (10 * acc + digit_val c) t
  end.

Definition digits_value (s : pystr) : Z := digits_from 0 s.

(** A digit part as Python reads it: digits, where single underscores
    may stand between two digits.  [scan_digits s] splits [s] into the
    digits of its longest such prefix (underscores removed) and the
    rest. *)
Fixpoint scan_digits (s : pystr) : pystr * pystr :=
  match s with
  | c :: t =>
      if is_digit c then
        let (ds, r) :=
          match t with
          | u :: ((d :: _) as t') =>
              if is_underscore u && is_digit d then scan_digits t'
              else scan_digits t
          | _ => scan_digits t
          end in
        (c :: ds, r)
      else ([], s)
  | [] => ([], [])
  end.

(** An optional sign: [(negative, rest)]. *)
Definition scan_sign (s : pystr) : bool * pystr :=
  match s with
  | c :: t =>
      if ascii_eqb c "-"%char then (true, t)
      else if ascii_eqb c "+"%char then (false, t)
      else (false, s)
  | [] => (false, [])
  end.

(* ------------------------------------------------------------------ *)
(** ** [int(str)], base 10 *)

(** Surrounding blanks, an optional sign, one digit part, nothing else.
    Python integers are unbounded, so the value is exact.  The
    interpreter refuses a string of more than [sys.int_max_str_digits]
    digits (4300 unless the run changes it) with [ValueError]; this
    setting of the run is outside the model, which is [int()] on
    strings within the limit: the theorems on [parse_size] that read a
    digit string of any length bound it by 4300 digits. *)
Definition py_int (s : pystr) : result Z :=
  let (neg, r) := scan_sign (unpadded s) in
  let (ds, rest) := scan_digits r in
  match ds, rest with
  | _ :: _, [] => Ok (if neg then - digits_value ds else digits_value ds)
  | _, _ => Raise ValueError
  end.

(* ------------------------------------------------------------------ *)
(** ** [float]: IEEE-754 binary64 *)

Definition prec : Z := 53.
Definition emax : Z := 1024.

Definition pyfloat := spec_float.

(** The nearest binary64 (ties to even) of the quotient of two positive
    integers: the correctly rounded division of the library, whose core
    takes as many quotient bits as the format needs whatever the size of
    the operands. *)
Definition round_quotient (neg : bool) (p q : positive) : pyfloat :=
  SFdiv prec emax (S754_finite neg p 0) (S754_finite false q 0).

(** The nearest binary64 of [m * 10^e10], for [m >= 0]. *)
Definition round_decimal (neg : bool) (m e10 : Z) : pyfloat :=
  match m with
  | Zpos p =>
      if 0 <=? e10
      then round_quotient neg (p * Z.to_pos (10 ^ e10)) 1
      else round_quotient neg p (Z.to_pos (10 ^ (- e10)))
  | _ => S754_zero neg
  end.

(** An optional exponent part [e[sign]digits]: the exponent and the
    rest, or [None] when an [e] is followed by no digit. *)
Definition scan_exponent (s : pystr) : option (Z * pystr) :=
  match s with
  | c :: t =>
      if ascii_eqb (lower_char c) "e"%char then
        let (eneg, r) := scan_sign t in
        let (ds, rest) := scan_digits r in
        match ds with
        | [] => None
        | _ => Some (if eneg then - digits_value ds else digits_value ds, rest)
        end
      else Some (0, s)
  | [] => Some (0, [])
  end.

(** [float(str)]: surrounding blanks, an optional sign, then
    [inf], [infinity], [nan] (any case) or a decimal number
    [digits[.[digits]]] or [[digits].digits] with an optional exponent.
    The conversion is correctly rounded. *)
Definition py_float (s : pystr) : result pyfloat :=
  let (neg, r) := scan_sign (unpadded s) in
  let lr := lower r in
  if pystr_eqb lr (lit "inf") || pystr_eqb lr (lit "infinity")
  then Ok (S754_infinity neg)
  else if pystr_eqb lr (lit "nan") then Ok S754_nan
  else
    let (ip, r1) := scan_digits r in
    let (fp, r2) :=
      match r1 with
      | c :: t => if ascii_eqb c "."%char then scan_digits t else ([], r1)
      | [] => ([], r1)
      end in
    match ip ++ fp with
    | [] => Raise ValueError
    | ds =>
        match scan_exponent r2 with
        | Some (e, []) =>
            Ok (round_decimal neg (digits_value ds)
                  (e - Z.of_nat (List.length fp)))
        | _ => Raise ValueError
        end
    end.

(** [float(n)] for an [int]: correctly rounded; [OverflowError] when it
    does not fit. *)
Definition float_of_int (n : Z) : result pyfloat :=
  match binary_normalize prec emax n 0 false with
  | S754_infinity _ => Raise OverflowError
  | f => Ok f
  end.

(** [x * n] with [x] a float and [n] an int: [n] is converted first. *)
Definition float_mul_int (x : pyfloat) (n : Z) : result pyfloat :=
  match float_of_int n with
  | Ok y => Ok (SFmul prec emax x y)
  | Raise e => Raise e
  end.

(** [int(x)] for a float: truncation toward zero. *)
Definition int_of_float (x : pyfloat) : result Z :=
  match x with
  | S754_nan => Raise ValueError
  | S754_infinity _ => Raise OverflowError
  | S754_zero _ => Ok 0
  | S754_finite s m e =>
      let a := if 0 <=? e then Zpos m * 2 ^ e else Zpos m / 2 ^ (- e) in
      Ok (if s then - a else a)
  end.

(* ------------------------------------------------------------------ *)
(** ** [sorted(items, key=...)]: a stable sort *)

Fixpoint insert_by {A : Type} (key : A -> Z) (x : A) (l : list A) : list A :=
  match l with
  | [] => [x]
  | y :: t => if key x <=? key y then x :: l else y :: insert_by key x t
  end.

Definition sorted {A : Type} (key : A -> Z) (l : list A) : list A :=
  fold_right (insert_by key) [] l.

(* ================================================================== *)
(** * [parse_size] (qimi2_sim.py 5-10, stress.py 10-16) *)

(** The dictionary [units], in insertion order. *)
Definition units : list (pystr * Z) :=
  [ (lit "k", 1024); (lit "ki", 1024);
    (lit "m", 1024 ^ 2); (lit "mi", 1024 ^ 2);
    (lit "g", 1024 ^ 3); (lit "gi", 1024 ^ 3);
    (lit "t", 1024 ^ 4); (lit "ti", 1024 ^ 4) ].

(** The [for u, mul in ...] loop with its early [return], then the
    final [return int(s)]. *)
Fixpoint parse_size_loop (s : pystr) (us : list (pystr * Z)) : result Z :=
  match us with
  | [] => py_int s
  | (u, mul) :: rest =>
      if endswith s u then
        match py_float (drop_last (List.length u) s) with
        | Ok x =>
            match float_mul_int x mul with
            | Ok y => int_of_float y
            | Raise e => Raise e
            end
        | Raise e => Raise e
        end
      else parse_size_loop s rest
  end.

Definition parse_size (s : pystr) : result Z :=
  let s := lower (strip s) in
  parse_size_loop s
    (sorted (fun x => - Z.of_nat (List.length (fst x))) units).


(* ================================================================== *)
(** * [human] (qimi2_sim.py 12-17, stress.py 18-23) *)

Module Human.

(** [str(n)] for an [int] that is not negative: its decimal digits. *)
Fixpoint dec_digits (fuel : nat) (n : Z) (acc : pystr) : pystr :=
  match fuel with
  | O => acc
  | S fuel' =>
      let acc' := ascii_of_nat (48 + Z.to_nat (n mod 10)) :: acc in
      if n <? 10 then acc' else dec_digits fuel' (n / 10) acc'
  end.

Definition dec (n : Z) : pystr :=
  dec_digits (S (Z.to_nat (Z.log2 n))) n [].

(** The integer nearest to [num / den], ties to even, for [den > 0]. *)
Definition round_half_even (num den : Z) : Z :=
  let q := num / den in
  let r := num mod den in
  if 2 * r <? den then q
  else if den <? 2 * r then q + 1
  else if Z.even q then q else q + 1.

(** [f"{x:.2f}"]: the decimal with two places nearest to the exact
    value of [x], ties to even. *)
Definition fixed2 (x : pyfloat) : pystr :=
  match x with
  | S754_nan => lit "nan"
  | S754_infinity s => if s then lit "-inf" else lit "inf"
  | S754_zero s => if s then lit "-0.00" else lit "0.00"
  | S754_finite s m e =>
      let q := if 0 <=? e then Zpos m * 2 ^ e * 100
               else round_half_even (Zpos m * 100) (2 ^ (- e)) in
      (if s then lit "-" else []) ++ dec (q / 100) ++ lit "."
      ++ [ascii_of_nat (48 + Z.to_nat (q mod 100 / 10));
          ascii_of_nat (48 + Z.to_nat (q mod 10))]
  end.

(** The float [1024.0]. *)
Definition f1024 : pyfloat := S754_finite false 4503599627370496 (-42).

Definition unit_names : list pystr :=
  [lit "B"; lit "KiB"; lit "MiB"; lit "GiB"; lit "TiB"].

(** The loop over the unit names, with its early [return]; a loop that
    ends without one returns [None]. *)
Fixpoint human_loop (f : pyfloat) (us : list pystr) : option pystr :=
  match us with
  | [] => None
  | u :: rest =>
      if SFltb f f1024 || pystr_eqb u (lit "TiB")
      then Some (fixed2 f ++ lit " " ++ u)
      else human_loop (SFdiv prec emax f f1024) rest
  end.

(** [human(n)] for an [int], as in [stress.py]. *)
Definition human (n : Z) : result (option pystr) :=
  match float_of_int n with
  | Ok f => Ok (human_loop f unit_names)
  | Raise e => Raise e
  end.

(** [human(n)] of [qimi2_sim.py], which takes [None] as well. *)
Definition human_opt (n : option Z) : result (option pystr) :=
  match n with
  | None => Ok (Some (lit "n/a"))
  | Some k => human k
  end.

End Human.

(** The checks behind the table of whole units: [human] on [j * 1024^k]
    prints [j] with two zero decimals and the [k]-th unit name, and the
    decimal digits of [j] read back as [j]. *)
Definition whole_unit_ok (j k : nat) : bool :=
  match Human.human (Z.of_nat j * 1024 ^ Z.of_nat k) with
  | Ok (Some s) =>
      pystr_eqb s (Human.dec (Z.of_nat j) ++ lit ".00 "
                   ++ nth k Human.unit_names [])
  | _ => false
  end.

Definition dec_ok (j : nat) : bool :=
  forallb is_digit (Human.dec (Z.of_nat j))
  && (digits_value (Human.dec (Z.of_nat j)) =? Z.of_nat j)
  && negb (pystr_eqb (Human.dec (Z.of_nat j)) []).
(* ================================================================== *)
(** * The operating system as seen by the programs *)

(** A buffer made by [bytearray(n)]: the claims only look at its
    length. *)
Record bytearray : Type := mk_bytearray { ba_len : Z }.

(** A worker process handed to [multiprocessing]. *)
Record worker : Type := mk_worker {
  wk_id : Z;
  wk_pin : option Z;
  wk_stop_at : Q;
  wk_duty : option (Z * Z)
}.

(** The child of [main] in [qimi2_sim.py]: [io_burst(logger, size, dir)]. *)
Record io_job : Type := mk_io_job { io_size : Z; io_dir : pystr }.

Inductive process : Type :=
| CpuWorker (wk : worker)
| IoBurst (job : io_job).

(** A snapshot returned by [read_cgroup_limits()]. *)
Definition limits : Type := (option Z * option Z * option Z)%type.

Definition mem_limit_of (l : limits) : option Z := fst (fst l).

(** The records handed to [logger.log], by call site; the payload is the
    data the message is formatted from. *)
Inductive record : Type :=
(* qimi2_sim.py *)
| QMemBurst (want block headroom : Z) (lim : option Z)
| QStopHeadroom (cur lim : option Z)
| QPlan (bsz now : Z)
| QAllocated (allocated : Z) (cur peak lim : option Z)
| QMemoryError (allocated want : Z)
| QCpuStarted (i nproc : Z) (pin : option Z)
| QIoSkipped
| QIoWriting (size : Z) (path : pystr)
| QIoDone
| QIoError
| QIoRemoved
| QLimitsHeader
| QMemoryMax (lim : option Z)
| QCpuMax (quota period : option Z)
| QRule
| QFinal (cur peak : option Z) (deltas : option (Z * Z * Z))
| LoggerStart
| GracefulStop
(* stress.py *)
| SMemTarget (total block : Z) (pause : Q) (headroom : Z)
| SStopping (cur lim : option Z)
| SPlanNext (bsz allocated : Z) (cur : option Z)
| SProgress (allocated : Z) (nblocks : nat) (cur peak rss lim : option Z)
            (events : list (pystr * Z))
| SMemoryErrorAt (allocated total : Z)
| SDone (allocated : Z) (nblocks : nat)
| SWorkerStarted (started total : Z) (pin : option Z) (duty_on duty_off : Z).

(** File-system calls of [io_burst]. *)
Inductive fs_op : Type :=
| Makedirs (dir : pystr)
| Mkstemp (dir : pystr)
| Fdopen
| Write (data : list Byte.byte)
| Flush
| Fsync
| Close
| Remove (path : pystr).

(** Every interaction with the outside, in the order it happens. *)
Inductive event : Type :=
| EvReadCurrent (v : option Z)
| EvReadLimits (v : limits)
| EvReadPeak (v : option Z)
| EvReadRss (v : option Z)
| EvReadMemEvents (v : list (pystr * Z))
| EvReadCpuStat (v : list (pystr * Z))
| EvAlloc (n : Z)
| EvAllocFailed (n : Z)
| EvTouch (b : bytearray) (pages : Z)
| EvLog (r : record)
| EvLogClose
| EvTime (t : Q)
| EvSleep (d : Q)
| EvAffinity (cpus : option (list Z))
| EvStart (p : process)
| EvStartFailed (p : process)
| EvJoin (p : process) (timeout : option Q)
| EvFs (op : fs_op) (ok : bool)
| EvWritten (data : list Byte.byte).

Definition trace := list event.

(** The outside world: what each interaction answers, given everything
    that happened before it.  Byte counters are printed by the kernel as
    unsigned decimals, hence [N].  [write_count h n] is how many bytes
    an unbuffered [write] of [n] bytes puts in the file (at most [n]:
    a raw write may be short), and [sleep_ok h d] tells whether the
    kernel takes the deadline of a sleep of [d] seconds. *)
Record World : Type := mk_World {
  mem_current : trace -> option N;
  cgroup_limits : trace -> option N * option N * option N;
  mem_peak : trace -> option N;
  self_rss : trace -> option N;
  mem_events : trace -> list (pystr * Z);
  cpu_stat : trace -> list (pystr * Z);
  alloc_ok : trace -> Z -> bool;
  clock : trace -> Q;
  affinity : trace -> option (list Z);
  start_ok : trace -> process -> bool;
  fs_ok : trace -> fs_op -> bool;
  temp_path : trace -> pystr;
  write_count : trace -> nat -> nat;
  sleep_ok : trace -> Q -> bool
}.

(* ------------------------------------------------------------------ *)
(** ** The monad of effects: local variables, a growing trace, exceptions *)

(** How a computation ends.  [OutOfFuel] is not a Python outcome: it
    says that a [while] loop was still running when the step budget of
    the model was spent. *)
Inductive outcome (A : Type) : Type :=
| Done (a : A)
| Threw (e : exn)
| OutOfFuel.
Arguments Done {A} a.
Arguments Threw {A} e.
Arguments OutOfFuel {A}.

(** A computation over local variables [V]: the variables and the trace
    survive an exception, as they do in Python. *)
Definition M (V A : Type) : Type := V -> trace -> outcome A * V * trace.

Definition ret {V A : Type} (a : A) : M V A := fun v h => (Done a, v, h).

Definition bind {V A B : Type} (m : M V A) (k : A -> M V B) : M V B :=
  fun v h =>
    match m v h with
    | (Done a, v', h') => k a v' h'
    | (Threw e, v', h') => (Threw e, v', h')
    | (OutOfFuel, v', h') => (OutOfFuel, v', h')
    end.

Definition raise {V A : Type} (e : exn) : M V A := fun v h => (Threw e, v, h).

Definition get {V : Type} : M V V := fun v h => (Done v, v, h).

Definition put {V : Type} (v' : V) : M V unit := fun _ h => (Done tt, v', h).

Definition emit {V : Type} (e : event) : M V unit :=
  fun v h => (Done tt, v, h ++ [e]).

(** A pure Python call that may raise. *)
Definition lift {V A : Type} (r : result A) : M V A :=
  match r with
  | Ok a => ret a
  | Raise e => raise e
  end.

(** [try: m except <caught>: handler] *)
Definition try_except {V A : Type} (m : M V A) (caught : exn -> bool)
    (handler : M V A) : M V A :=
  fun v h =>
    match m v h with
    | (Threw e, v', h') => if caught e then handler v' h' else (Threw e, v', h')
    | r => r
    end.

(** [try: m finally: cleanup] *)
Definition try_finally {V A : Type} (m : M V A) (cleanup : M V unit) : M V A :=
  fun v h =>
    match m v h with
    | (OutOfFuel, v', h') => (OutOfFuel, v', h')
    | (r, v', h') =>
        match cleanup v' h' with
        | (Done _, v'', h'') => (r, v'', h'')
        | (Threw e, v'', h'') => (Threw e, v'', h'')
        | (OutOfFuel, v'', h'') => (OutOfFuel, v'', h'')
        end
    end.

(** A call of a function that has local variables [V'] of its own,
    starting from [v0]; they are gone when it returns. *)
Definition call {V V' A : Type} (m : M V' A) (v0 : V') : M V A :=
  fun v h => match m v0 h with (r, _, h') => (r, v, h') end.

Declare Scope monad_scope.
Delimit Scope monad_scope with monad.
Notation "x <- m ;; k" := (bind m (fun x => k))
  (at level 61, m at next level, right associativity) : monad_scope.
Notation "m ;;; k" := (bind m (fun _ => k))
  (at level 61, right associativity) : monad_scope.
Local Open Scope monad_scope.

(** How one pass through the body of a [while] ends. *)
Inductive flow : Type := Continue | Break.

(** [while cond: body], at most [fuel] passes. *)
Fixpoint while_loop {V : Type} (fuel : nat) (cond : V -> bool)
    (body : M V flow) : M V unit :=
  fun v h =>
    if cond v then
      match fuel with
      | O => (OutOfFuel, v, h)
      | S fuel' =>
          match body v h with
          | (Done Continue, v', h') => while_loop fuel' cond body v' h'
          | (Done Break, v', h') => (Done tt, v', h')
          | (Threw e, v', h') => (Threw e, v', h')
          | (OutOfFuel, v', h') => (OutOfFuel, v', h')
          end
      end
    else (Done tt, v, h).

(** [for x in xs: body x] *)
Fixpoint for_each {V A : Type} (xs : list A) (body : A -> M V unit) : M V unit :=
  match xs with
  | [] => ret tt
  | x :: xs' => body x ;;; for_each xs' body
  end.

Definition option_N_to_Z (o : option N) : option Z := option_map Z.of_N o.

(** The sizes that the message of a record shows through [human], in
    the order of the message: the sizes that the caller gave and what
    the loop derives from them.  The counters read from the kernel are
    shown through [human] too; they are below [2^64], where [human]
    cannot fail, and are left out here. *)
Definition sizes_shown (r : record) : list Z :=
  match r with
  | QMemBurst want block headroom _ => [want; block; headroom]
  | QPlan bsz now => [bsz; now]
  | QAllocated allocated _ _ _ => [allocated]
  | QMemoryError allocated want => [allocated; want]
  | QIoWriting size _ => [size]
  | SMemTarget total block _ headroom => [total; block; headroom]
  | SPlanNext bsz allocated _ => [bsz; allocated]
  | SProgress allocated _ _ _ _ _ _ => [allocated]
  | SMemoryErrorAt allocated total => [allocated; total]
  | SDone allocated _ => [allocated]
  | _ => []
  end.

(** The message is built before [logger.log] is entered: [human(n)] for
    every size it shows, and the first one that raises ends it. *)
Fixpoint format_sizes (l : list Z) : result unit :=
  match l with
  | [] => Ok tt
  | n :: l' =>
      match Human.human n with
      | Ok _ => format_sizes l'
      | Raise e => Raise e
      end
  end.

(** [x + n] with [x] a float and [n] an int: [n] is converted first,
    which raises [OverflowError] when it does not fit.  Times are kept
    as rationals. *)
Definition time_plus_int (x : Q) (n : Z) : result Q :=
  match float_of_int n with
  | Ok _ => Ok (x + inject_Z n)%Q
  | Raise e => Raise e
  end.

(** What [time.sleep(d)] makes of its argument before it sleeps.  The
    length is turned into a count of nanoseconds: the binary64 nearest
    to [d * 1e9].  A count beyond [2^63] in magnitude, which the product
    rounds to when it is beyond [2^63 + 1024], is refused with
    [OverflowError].  The count is then kept in 64 bits, where [2^63],
    which the product rounds to from [2^63 - 512] on, wraps to a
    negative count; a negative count is refused with [ValueError]. *)
Definition sleep_length (d : Q) : result unit :=
  let ns := (d * inject_Z (10 ^ 9))%Q in
  if Qle_bool ns (inject_Z (2 ^ 63 + 1024))
     && Qle_bool (inject_Z (- (2 ^ 63 + 1024))) ns
  then
    if Qle_bool 0 d && negb (Qle_bool (inject_Z (2 ^ 63 - 512)) ns)
    then Ok tt
    else Raise ValueError
  else Raise OverflowError.

Section Primitives.
Variable w : World.
Context {V : Type}.

(** The LimitReader: each call asks the world afresh. *)
Definition current_of (h : trace) : option Z := option_N_to_Z (mem_current w h).

Definition limits_of (h : trace) : limits :=
  let '(m, q, p) := cgroup_limits w h in
  (option_N_to_Z m, option_N_to_Z q, option_N_to_Z p).

Definition read_mem_current : M V (option Z) := fun v h =>
  let x := current_of h in (Done x, v, h ++ [EvReadCurrent x]).

Definition read_cgroup_limits : M V limits := fun v h =>
  let x := limits_of h in (Done x, v, h ++ [EvReadLimits x]).

Definition read_mem_peak : M V (option Z) := fun v h =>
    let x := option_N_to_Z (mem_peak w h) in (Done x, v, h ++ [EvReadPeak x]).

Definition read_self_rss : M V (option Z) := fun v h =>
    let x := option_N_to_Z (self_rss w h) in (Done x, v, h ++ [EvReadRss x]).

Definition read_mem_events_v2 : M V (list (pystr * Z)) := fun v h =>
    let x := mem_events w h in (Done x, v, h ++ [EvReadMemEvents x]).

Definition read_cpu_stat_v2 : M V (list (pystr * Z)) := fun v h =>
    let x := cpu_stat w h in (Done x, v, h ++ [EvReadCpuStat x]).

  (** [logger.log(f"...")]: the message is built first, which can
      raise; [log] itself swallows its own failures. *)
Definition log (r : record) : M V unit :=
    lift (format_sizes (sizes_shown r)) ;;;
    emit (EvLog r).

  (** [bytearray(n)]: [OverflowError] for a count that does not fit a
      signed 64-bit index, [ValueError] for a negative count,
      [MemoryError] when the allocator refuses. *)
Definition py_bytearray (n : Z) : M V bytearray := fun v h =>
    if (n <? - 2 ^ 63) || (2 ^ 63 <=? n) then (Threw OverflowError, v, h)
    else if n <? 0 then (Threw ValueError, v, h)
    else if alloc_ok w h n then (Done (mk_bytearray n), v, h ++ [EvAlloc n])
    else (Threw MemoryError, v, h ++ [EvAllocFailed n]).

  (** [time.time()] *)
Definition time_time : M V Q := fun v h =>
    let t := clock w h in (Done t, v, h ++ [EvTime t]).

  (** [time.sleep(d)]: the length is checked, then the kernel is asked
      to wait, which it refuses with [OSError] when the deadline is
      beyond its range. *)
Definition time_sleep (d : Q) : M V unit :=
    lift (sleep_length d) ;;;
    (fun v h =>
       if sleep_ok w h d then (Done tt, v, h ++ [EvSleep d])
       else (Threw OSError, v, h)).

  (** [sorted(os.sched_getaffinity(0))], or [None] when it raises. *)
Definition sched_getaffinity : M V (option (list Z)) := fun v h =>
    let x := option_map (sorted (fun c => c)) (affinity w h) in
    (Done x, v, h ++ [EvAffinity x]).

  (** [p = mp.Process(...); p.daemon = True; p.start()] *)
Definition start_process (p : process) : M V process := fun v h =>
    if start_ok w h p then (Done p, v, h ++ [EvStart p])
    else (Threw OSError, v, h ++ [EvStartFailed p]).

  (** [p.join(timeout)] *)
Definition join (p : process) (timeout : option Q) : M V unit :=
    emit (EvJoin p timeout).

  (** A file-system call, which succeeds or raises [OSError]. *)
Definition fs (op : fs_op) : M V unit := fun v h =>
    if fs_ok w h op then (Done tt, v, h ++ [EvFs op true])
    else (Threw OSError, v, h ++ [EvFs op false]).

  (** [f.write(data)] on a file opened with [buffering=0]: one raw
      write, which raises [OSError] or puts the first [n] bytes of
      [data] in the file and returns [n]. *)
Definition fs_write (data : list Byte.byte) : M V nat := fun v h =>
    if fs_ok w h (Write data) then
      let n := Nat.min (write_count w h (List.length data)) (List.length data) in
      (Done n, v, h ++ [EvFs (Write data) true; EvWritten (firstn n data)])
    else (Threw OSError, v, h ++ [EvFs (Write data) false]).

  (** [touch_pages(buf)]: one write at every offset of
      [range(0, len(buf), PAGE_SIZE)]; the length is unchanged. *)
Definition touch_pages (page_size : Z) (buf : bytearray) : M V unit :=
    emit (EvTouch buf ((ba_len buf + page_size - 1) / page_size)).
End Primitives.

(** [lim is not None and cur is not None and cur >= max(0, lim - headroom)];
    the two programs write the two tests in opposite order, which is the
    same for values. *)
Definition headroom_reached (lim cur : option Z) (headroom_bytes : Z) : bool :=
  match lim, cur with
  | Some l, Some c => Z.max 0 (l - headroom_bytes) <=? c
  | _, _ => false
  end.

(** The local variables of the memory loop. *)
Record mem_vars : Type := mk_mem_vars {
  blocks : list bytearray;
  allocated : Z
}.

Definition total_len (bs : list bytearray) : Z :=
  fold_right (fun b acc => ba_len b + acc) 0 bs.

Definition is_MemoryError (e : exn) : bool :=
  match e with MemoryError => true | _ => false end.

Definition any_Exception (e : exn) : bool := true.

(* ================================================================== *)
(** * qimi2_sim.py *)

Module Qimi2Sim.

Definition PAGE_SIZE : Z := 4096.

Section WithWorld.
Variable w : World.

    (** One pass of the loop of [mem_burst] (lines 97-108).  [lim] is the
        value read before the loop (line 93). *)
Definition mem_burst_body (want_bytes block_bytes headroom_bytes : Z)
        (lim : option Z) : M mem_vars flow :=
      cur <- read_mem_current w ;;
      if headroom_reached lim cur headroom_bytes then
        log (QStopHeadroom cur lim) ;;;
        ret Break
      else
        v <- get ;;
        let remain := want_bytes - allocated v in
        let bsz := Z.min block_bytes remain in
        log (QPlan bsz (allocated v)) ;;;
        blk <- py_bytearray w bsz ;;
        touch_pages PAGE_SIZE blk ;;;
        put {| blocks := blocks v ++ [blk]; allocated := allocated v + bsz |} ;;;
        cur <- read_mem_current w ;;
        peak <- read_mem_peak w ;;
        log (QAllocated (allocated v + bsz) cur peak lim) ;;;
        ret Continue.

    (** [mem_burst] (lines 91-111): the body of the function over its
        local variables, which start as [blocks=[]; allocated=0]. *)
Definition mem_burst_run (fuel : nat)
        (want_bytes block_bytes headroom_bytes : Z) : M mem_vars (list bytearray) :=
      l <- read_cgroup_limits w ;;
      let lim := mem_limit_of l in
      log (QMemBurst want_bytes block_bytes headroom_bytes lim) ;;;
      try_except
        (while_loop fuel (fun v => allocated v <? want_bytes)
           (mem_burst_body want_bytes block_bytes headroom_bytes lim))
        is_MemoryError
        (v <- get ;; log (QMemoryError (allocated v) want_bytes)) ;;;
      v <- get ;;
      ret (blocks v).

Definition mem_burst (fuel : nat)
        (want_bytes block_bytes headroom_bytes : Z) (h : trace)
      : outcome (list bytearray) * mem_vars * trace :=
      mem_burst_run fuel want_bytes block_bytes headroom_bytes
        {| blocks := []; allocated := 0 |} h.

(** [range(n)] *)
Definition py_range (n : Z) : list Z := map Z.of_nat (seq 0 (Z.to_nat n)).

(** [pin = avail[i % len(avail)]] under [not no_affinity and avail], else
    [None]. *)
Definition choose_pin (no_affinity : bool) (avail : option (list Z)) (i : Z)
  : option Z :=
  match avail with
  | Some (c :: cs) =>
      if no_affinity then None
      else Some (nth (Z.to_nat (i mod Z.of_nat (List.length (c :: cs))))
                     (c :: cs) 0)
  | _ => None
  end.

(** [cpu_burst] (lines 123-137), over its local list [procs]. *)
Definition cpu_burst (nproc duration_s : Z) (no_affinity : bool)
  : M (list process) unit :=
  now <- time_time w ;;
  stop_at <- lift (time_plus_int now (Z.max 1 duration_s)) ;;
  avail <- sched_getaffinity w ;;
  for_each (py_range nproc) (fun i =>
    let pin := choose_pin no_affinity avail i in
    p <- start_process w (CpuWorker {| wk_id := i; wk_pin := pin;
                                       wk_stop_at := stop_at;
                                       wk_duty := None |}) ;;
    procs <- get ;;
    put (procs ++ [p]) ;;;
    log (QCpuStarted (i + 1) nproc pin)) ;;;
  procs <- get ;;
  for_each procs (fun p => join p None).

(** [chunk = bytes(1024*1024)] *)
Definition chunk_len : Z := 1024 * 1024.
Definition chunk : list Byte.byte := repeat Byte.x00 (Z.to_nat chunk_len).

(** [chunk[:n]] for [0 <= n] *)
Definition chunk_prefix (n : Z) : list Byte.byte := firstn (Z.to_nat n) chunk.

(** One pass of [while left > 0] (lines 151-153), over [left]; what
    [write] returns is dropped. *)
Definition io_write_body : M Z flow :=
  left <- get ;;
  let n := Z.min left (Z.of_nat (List.length chunk)) in
  fs_write w (chunk_prefix n) ;;;
  put (left - n) ;;;
  ret Continue.

(** [with os.fdopen(fd, "wb", buffering=0) as f: body]: the file is
    closed when the block is left, whichever way. *)
Definition with_fdopen {A : Type} (body : M Z A) : M Z A :=
  fs w Fdopen ;;;
  try_finally body (fs w Close).

(** The [with] block of [io_burst] (lines 147-154). *)
Definition io_write_file (fuel : nat) (size_bytes : Z) : M Z unit :=
  with_fdopen
    (put size_bytes ;;;
     while_loop fuel (fun left => 0 <? left) io_write_body ;;;
     fs w Flush ;;;
     fs w Fsync).

(** The [finally] block of [io_burst] (lines 158-162). *)
Definition io_remove (path : pystr) : M Z unit :=
  try_except
    (fs w (Remove path) ;;; log QIoRemoved)
    any_Exception
    (ret tt).

(** [fd, path = tempfile.mkstemp(...)] *)
Definition mkstemp (dir_path : pystr) : M Z pystr :=
  fs w (Mkstemp dir_path) ;;;
  (fun v h => (Done (temp_path w h), v, h)).

(** [io_burst] (lines 139-162), over its local [left]. *)
Definition io_burst (fuel : nat) (size_bytes : Z) (dir_path : pystr)
  : M Z unit :=
  if size_bytes <=? 0 then
    log QIoSkipped
  else
    fs w (Makedirs dir_path) ;;;
    path <- mkstemp dir_path ;;
    log (QIoWriting size_bytes path) ;;;
    try_finally
      (try_except
         (io_write_file fuel size_bytes ;;; log QIoDone)
         any_Exception
         (log QIoError))
      (io_remove path).

(** The command line after [argparse]. *)
Record args : Type := mk_args {
  arg_mem_burst : pystr;
  arg_mem_block : pystr;
  arg_headroom : pystr;
  arg_cpus : Z;
  arg_duration : Z;
  arg_io_size : pystr;
  arg_io_dir : pystr;
  arg_no_affinity : bool;
  arg_logfile : pystr
}.

(** [d.get(k, 0)] and [k in d] on a dictionary kept as its items. *)
Fixpoint dict_get (d : list (pystr * Z)) (k : pystr) : option Z :=
  match d with
  | [] => None
  | (k', x) :: d' => if pystr_eqb k' k then Some x else dict_get d' k
  end.

Definition dict_get0 (d : list (pystr * Z)) (k : pystr) : Z :=
  match dict_get d k with Some x => x | None => 0 end.

(** The [[final]] record (lines 209-215). *)
Definition final_record (cur peak : option Z) (cpu0 cpu1 : list (pystr * Z))
  : record :=
  match cpu0, cpu1, dict_get cpu1 (lit "throttled_usec") with
  | _ :: _, _ :: _, Some _ =>
      let thr := dict_get0 cpu1 (lit "throttled_usec")
                 - dict_get0 cpu0 (lit "throttled_usec") in
      let nper := dict_get0 cpu1 (lit "nr_periods")
                  - dict_get0 cpu0 (lit "nr_periods") in
      let nthr := dict_get0 cpu1 (lit "nr_throttled")
                  - dict_get0 cpu0 (lit "nr_throttled") in
      QFinal cur peak (Some (thr, nthr, nper))
  | _, _, _ => QFinal cur peak None
  end.

(** [main] (lines 164-217) after [parse_args]: the statements of the
    parent process in program order.  The two signal handlers run only
    when a signal arrives and are not part of this order. *)
Definition main (fuel : nat) (a : args) : M unit unit :=
  log LoggerStart ;;;
  l <- read_cgroup_limits w ;;
  let '(mem_limit, cpu_quota, cpu_period) := l in
  log QLimitsHeader ;;;
  log (QMemoryMax mem_limit) ;;;
  log (QCpuMax cpu_quota cpu_period) ;;;
  log QRule ;;;
  cpu0 <- read_cpu_stat_v2 w ;;
  want_bytes <- lift (parse_size (arg_mem_burst a)) ;;
  block_bytes <- lift (parse_size (arg_mem_block a)) ;;
  headroom_bytes <- lift (parse_size (arg_headroom a)) ;;
  blocks <- call (mem_burst_run fuel want_bytes block_bytes headroom_bytes)
                 {| blocks := []; allocated := 0 |} ;;
  io_size <- lift (parse_size (arg_io_size a)) ;;
  io_proc <- start_process w
               (IoBurst {| io_size := io_size; io_dir := arg_io_dir a |}) ;;
  call (cpu_burst (Z.max 1 (arg_cpus a)) (Z.max 1 (arg_duration a))
                  (arg_no_affinity a)) [] ;;;
  join io_proc (Some 1%Q) ;;;
  cur <- read_mem_current w ;;
  peak <- read_mem_peak w ;;
  cpu1 <- read_cpu_stat_v2 w ;;
  log (final_record cur peak cpu0 cpu1) ;;;
  log GracefulStop ;;;
  emit EvLogClose.

End WithWorld.
End Qimi2Sim.

(* ================================================================== *)
(** * stress.py *)

Module Stress.

Definition PAGE_SIZE : Z := 4096.

Section WithWorld.
Variable w : World.

    (** One pass of the loop of [allocate_slow] (lines 118-131). *)
Definition allocate_slow_body (total_bytes block_bytes : Z) (pause_sec : Q)
        (headroom_bytes : Z) : M mem_vars flow :=
      cur <- read_mem_current w ;;
      l <- read_cgroup_limits w ;;
      let lim := mem_limit_of l in
      if headroom_reached lim cur headroom_bytes then
        log (SStopping cur lim) ;;;
        ret Break
      else
        v <- get ;;
        let remaining := total_bytes - allocated v in
        let bsz := Z.min block_bytes remaining in
        log (SPlanNext bsz (allocated v) cur) ;;;
        blk <- py_bytearray w bsz ;;
        touch_pages PAGE_SIZE blk ;;;
        put {| blocks := blocks v ++ [blk]; allocated := allocated v + bsz |} ;;;
        cur <- read_mem_current w ;;
        peak <- read_mem_peak w ;;
        rss <- read_self_rss w ;;
        ev <- read_mem_events_v2 w ;;
        log (SProgress (allocated v + bsz) (S (List.length (blocks v)))
                       cur peak rss lim ev) ;;;
        time_sleep w pause_sec ;;;
        ret Continue.

    (** [allocate_slow] (lines 113-136). *)
Definition allocate_slow_run (fuel : nat) (total_bytes block_bytes : Z)
        (pause_sec : Q) (headroom_bytes : Z) : M mem_vars (list bytearray) :=
      start <- time_time w ;;
      log (SMemTarget total_bytes block_bytes pause_sec headroom_bytes) ;;;
      try_except
        (while_loop fuel (fun v => allocated v <? total_bytes)
           (allocate_slow_body total_bytes block_bytes pause_sec headroom_bytes))
        is_MemoryError
        (v <- get ;; log (SMemoryErrorAt (allocated v) total_bytes)) ;;;
      now <- time_time w ;;
      v <- get ;;
      log (SDone (allocated v) (List.length (blocks v))) ;;;
      ret (blocks v).

Definition allocate_slow (fuel : nat) (total_bytes block_bytes : Z)
        (pause_sec : Q) (headroom_bytes : Z) (h : trace)
      : outcome (list bytearray) * mem_vars * trace :=
      allocate_slow_run fuel total_bytes block_bytes pause_sec headroom_bytes
        {| blocks := []; allocated := 0 |} h.

(** The local variables of [run_cpu_ramp]. *)
Record ramp_vars : Type := mk_ramp_vars {
  workers : list process;
  started : Z
}.

(** [pin = available[started % len(available)]] under
    [not no_affinity and available], else [None]. *)
Definition choose_pin (no_affinity : bool) (available : option (list Z))
    (i : Z) : option Z :=
  match available with
  | Some (c :: cs) =>
      if no_affinity then None
      else Some (nth (Z.to_nat (i mod Z.of_nat (List.length (c :: cs))))
                     (c :: cs) 0)
  | _ => None
  end.

(** One evaluation of [time.time() < stop_at] and, when it holds, one
    pass of the loop of [run_cpu_ramp] (lines 157-169). *)
Definition run_cpu_ramp_body (stop_at : Q) (available : option (list Z))
    (total_cpus : Z) (ramp_every : Q) (duty_on_ms duty_off_ms : Z)
    (no_affinity : bool) : M ramp_vars flow :=
  now <- time_time w ;;
  if Qle_bool stop_at now then ret Break
  else
    v <- get ;;
    if started v <? total_cpus then
      let pin := choose_pin no_affinity available (started v) in
      p <- start_process w
             (CpuWorker {| wk_id := started v; wk_pin := pin;
                           wk_stop_at := stop_at;
                           wk_duty := Some (duty_on_ms, duty_off_ms) |}) ;;
      put {| workers := workers v ++ [p]; started := started v + 1 |} ;;;
      log (SWorkerStarted (started v + 1) total_cpus pin
                          duty_on_ms duty_off_ms) ;;;
      time_sleep w ramp_every ;;;
      ret Continue
    else
      time_sleep w (1 # 2) ;;;
      ret Continue.

(** [run_cpu_ramp] (lines 150-171). *)
Definition run_cpu_ramp (fuel : nat) (total_cpus duration : Z)
    (ramp_every : Q) (duty_on_ms duty_off_ms : Z) (no_affinity : bool)
  : M ramp_vars unit :=
  now <- time_time w ;;
  stop_at <- lift (time_plus_int now (Z.max 1 duration)) ;;
  available <- sched_getaffinity w ;;
  while_loop fuel (fun _ => true)
    (run_cpu_ramp_body stop_at available total_cpus ramp_every
                       duty_on_ms duty_off_ms no_affinity) ;;;
  v <- get ;;
  for_each (workers v) (fun p => join p (Some 1%Q)).

End WithWorld.
End Stress.

(* ================================================================== *)
(** * Notions used to state the properties *)

(** The integers that [float()] converts, and that [human] can show:
    those below [2^1024 - 2^970] in magnitude, half-way between the
    largest binary64 and [2^1024]. *)
Definition fits_float (n : Z) : Prop := Z.abs n < 2 ^ 1024 - 2 ^ 970.

(** The counts that [bytearray()] takes as a size or refuses as
    negative: the signed 64-bit integers. *)
Definition fits_index (n : Z) : Prop := - 2 ^ 63 <= n < 2 ^ 63.

(** The lengths that [time.sleep] takes: from zero up to the count of
    nanoseconds that still fits 64 bits. *)
Definition sleepable (d : Q) : Prop :=
  (0 <= d)%Q /\ (d * inject_Z (10 ^ 9) < inject_Z (2 ^ 63 - 512))%Q.

(** The kernel takes every sleep. *)
Definition sleeps_succeed (w : World) : Prop :=
  forall h d, sleep_ok w h d = true.

(** The sum of the sizes of the allocations that succeeded in a trace. *)
Definition allocated_in (t : trace) : Z :=
  fold_right (fun e acc => match e with EvAlloc n => n + acc | _ => acc end) 0 t.

(** The sizes of the allocations that succeeded in a trace, in order. *)
Fixpoint allocs_of (t : trace) : list Z :=
  match t with
  | [] => []
  | EvAlloc n :: t' => n :: allocs_of t'
  | _ :: t' => allocs_of t'
  end.

Definition is_alloc_event (e : event) : bool :=
  match e with
  | EvAlloc _ | EvAllocFailed _ => true
  | _ => false
  end.

(** No allocation is attempted in [t]. *)
Definition no_alloc (t : trace) : Prop := forallb (fun e => negb (is_alloc_event e)) t = true.

(** Each block has the size planned for it: the block size, cut to what
    was still missing when it was appended; [done] is what had been
    allocated before the first block of the list. *)
Fixpoint planned (target block_bytes done : Z) (bs : list bytearray) : Prop :=
  match bs with
  | [] => True
  | b :: bs' =>
      ba_len b = Z.min block_bytes (target - done)
      /\ planned target block_bytes (done + ba_len b) bs'
  end.

(** What one pass of either loop can do, seen from outside: [t] is what
    the pass adds to the trace. *)
Inductive pass (target block_bytes : Z) (v : mem_vars)
  : outcome flow -> mem_vars -> trace -> Prop :=
| pass_stop t :
    no_alloc t ->
    pass target block_bytes v (Done Break) v t
| pass_refused e t :
    e <> MemoryError ->
    no_alloc t ->
    pass target block_bytes v (Threw e) v t
| pass_exhausted t :
    0 <= Z.min block_bytes (target - allocated v) ->
    no_alloc t ->
    pass target block_bytes v (Threw MemoryError) v
      (t ++ [EvAllocFailed (Z.min block_bytes (target - allocated v))])
| pass_appended r t1 t2 :
    let bsz := Z.min block_bytes (target - allocated v) in
    0 <= bsz ->
    no_alloc t1 -> no_alloc t2 ->
    r = Done Continue \/ (exists e, r = Threw e /\ e <> MemoryError) ->
    pass target block_bytes v r
      {| blocks := blocks v ++ [mk_bytearray bsz]; allocated := allocated v + bsz |}
      (t1 ++ EvAlloc bsz :: t2).

(** The invariant of the loop: the counter is the sum of the blocks,
    every block has its planned size, and the counter stays between
    zero and the target (or at zero for a negative target). *)
Definition mem_inv (target block_bytes : Z) (v : mem_vars) : Prop :=
  allocated v = total_len (blocks v)
  /\ planned target block_bytes 0 (blocks v)
  /\ 0 <= allocated v <= Z.max 0 target.

(** What the loop adds to the trace: the counter grows by the
    allocations that succeeded, whose buffers are the blocks appended;
    an allocation fails at most once, as the last event, and exactly
    when the loop ends by [MemoryError]. *)
Definition loop_trace_spec (target block_bytes : Z) (v : mem_vars) (h : trace) (r : outcome unit)
    (v' : mem_vars) (h' : trace) : Prop :=
  exists t, h' = h ++ t
    /\ allocated v' = allocated v + allocated_in t
    /\ map ba_len (blocks v') = map ba_len (blocks v) ++ allocs_of t
    /\ match r with
       | Threw MemoryError =>
           exists t0, t = t0 ++ [EvAllocFailed
                                  (Z.min block_bytes (target - allocated v'))]
                      /\ forall n, ~ In (EvAllocFailed n) t0
       | _ => forall n, ~ In (EvAllocFailed n) t
       end.


(** What [mem_burst] makes of the ending of its loop (lines 109-111). *)
Definition mem_burst_finish (want : Z) (res : outcome unit * mem_vars * trace)
  : outcome (list bytearray) * mem_vars * trace :=
  match res with
  | (Done _, v, h) => (Done (blocks v), v, h)
  | (Threw e, v, h) =>
      if is_MemoryError e
      then (log (QMemoryError (allocated v) want) ;;;
            v' <- get ;; ret (blocks v')) v h
      else (Threw e, v, h)
  | (OutOfFuel, v, h) => (OutOfFuel, v, h)
  end.

(** What [allocate_slow] makes of the ending of its loop (lines 132-136). *)
Definition allocate_slow_finish (w : World) (total : Z)
    (res : outcome unit * mem_vars * trace)
  : outcome (list bytearray) * mem_vars * trace :=
  let done : M mem_vars (list bytearray) :=
    now <- time_time w ;;
    v <- get ;;
    log (SDone (allocated v) (List.length (blocks v))) ;;;
    ret (blocks v) in
  match res with
  | (Done _, v, h) => done v h
  | (Threw e, v, h) =>
      if is_MemoryError e
      then (log (SMemoryErrorAt (allocated v) total) ;;; done) v h
      else (Threw e, v, h)
  | (OutOfFuel, v, h) => (OutOfFuel, v, h)
  end.

(** The sizes given to a run can all be shown in its first record. *)
Definition sizes_fit (l : list Z) : Prop := Forall fits_float l.

(** A world without telemetry in which every request succeeds; its
    clock advances by one second at every interaction. *)
Definition quiet_world : World :=
  {| mem_current := fun _ => None;
     cgroup_limits := fun _ => (None, None, None);
     mem_peak := fun _ => None;
     self_rss := fun _ => None;
     mem_events := fun _ => [];
     cpu_stat := fun _ => [];
     alloc_ok := fun _ _ => true;
     clock := fun h => inject_Z (Z.of_nat (List.length h));
     affinity := fun _ => None;
     start_ok := fun _ _ => true;
     fs_ok := fun _ _ => true;
     temp_path := fun _ => lit "/tmp/qimi2_0.bin";
     write_count := fun _ n => n;
     sleep_ok := fun _ _ => true |}.

(** A simulated cgroup: the usage reported is what the program has
    allocated so far, under the given memory limit. *)
Definition metered_world (limit : option N) : World :=
  {| mem_current := fun h => Some (Z.to_N (allocated_in h));
     cgroup_limits := fun _ => (limit, None, None);
     mem_peak := fun h => Some (Z.to_N (allocated_in h));
     self_rss := fun _ => None;
     mem_events := fun _ => [];
     cpu_stat := fun _ => [];
     alloc_ok := fun _ _ => true;
     clock := fun h => inject_Z (Z.of_nat (List.length h));
     affinity := fun _ => None;
     start_ok := fun _ _ => true;
     fs_ok := fun _ _ => true;
     temp_path := fun _ => lit "/tmp/qimi2_0.bin";
     write_count := fun _ n => n;
     sleep_ok := fun _ _ => true |}.

(** The blocks a run returned, when it returned. *)
Definition returned (res : outcome (list bytearray) * mem_vars * trace)
  : option (list bytearray) :=
  match res with
  | (Done bs, _, _) => Some bs
  | _ => None
  end.

(** The properties of the blocks of a run, wherever it stands: the
    counter is the sum of their sizes, each has its planned size, the sum
    is within the target, and what is returned is this list. *)
Definition within_target (target block_bytes : Z)
    (res : outcome (list bytearray) * mem_vars * trace) : Prop :=
  let '(r, v, _) := res in
  allocated v = total_len (blocks v)
  /\ planned target block_bytes 0 (blocks v)
  /\ total_len (blocks v) <= target
  /\ forall bs, r = Done bs -> bs = blocks v /\ total_len bs <= target.

(** A world like [quiet_world] whose allocator gives out at most
    [capacity] bytes in total. *)
Definition bounded_world (capacity : Z) : World :=
  {| mem_current := fun _ => None;
     cgroup_limits := fun _ => (None, None, None);
     mem_peak := fun _ => None;
     self_rss := fun _ => None;
     mem_events := fun _ => [];
     cpu_stat := fun _ => [];
     alloc_ok := fun h n => allocated_in h + n <=? capacity;
     clock := fun h => inject_Z (Z.of_nat (List.length h));
     affinity := fun _ => None;
     start_ok := fun _ _ => true;
     fs_ok := fun _ _ => true;
     temp_path := fun _ => lit "/tmp/qimi2_0.bin";
     write_count := fun _ n => n;
     sleep_ok := fun _ _ => true |}.

(** Allocation exhaustion is handled: the run never ends by
    [MemoryError], and when an allocation failed in what the run added
    to the trace [h], the run returned its blocks, which are the buffers
    of the allocations that succeeded, the counter is their sum, and the
    record [rec] of the counter was logged. *)
Definition exhaustion_handled (h : trace) (rec : Z -> record)
    (res : outcome (list bytearray) * mem_vars * trace) : Prop :=
  let '(r, v, h') := res in
  r <> Threw MemoryError
  /\ exists t, h' = h ++ t
     /\ forall n, In (EvAllocFailed n) t ->
          r = Done (blocks v)
          /\ map ba_len (blocks v) = allocs_of t
          /\ allocated v = allocated_in t
          /\ allocated v = total_len (blocks v)
          /\ In (EvLog (rec (allocated v))) t.

(** The allocator of [w] has [capacity] bytes to give to what runs
    after the history [h]: a request is granted when it fits beside
    what was granted since. *)
Definition gives_at_most (w : World) (h : trace) (capacity : Z) : Prop :=
  forall t n, alloc_ok w (h ++ t) n = (allocated_in t + n <=? capacity).

(** The run met exhaustion after [k] blocks of [block_bytes] bytes: it
    returned these [k] blocks, its counter is their sum, what it added
    to the trace [h] holds their [k] allocations, an allocation that
    failed, and the record [rec] of the counter. *)
Definition exhausted_after (k : nat) (block_bytes : Z) (rec : Z -> record)
    (h : trace) (res : outcome (list bytearray) * mem_vars * trace) : Prop :=
  let '(r, v, h') := res in
  r = Done (repeat (mk_bytearray block_bytes) k)
  /\ blocks v = repeat (mk_bytearray block_bytes) k
  /\ allocated v = Z.of_nat k * block_bytes
  /\ exists t n,
       h' = h ++ t
       /\ allocs_of t = repeat block_bytes k
       /\ In (EvAllocFailed n) t
       /\ In (EvLog (rec (Z.of_nat k * block_bytes))) t.

(** The least number of blocks of [b] bytes that hold [a] bytes, for
    [1 <= b]: the ceiling of [a / b]. *)
Definition ceil_div (a b : Z) : Z := (a + b - 1) / b.

(** The headroom check can never fire in [w]: whatever limit and
    whatever usage the LimitReader reports, at any time. *)
Definition headroom_never_reached (w : World) (headroom : Z) : Prop :=
  forall h h',
    headroom_reached (mem_limit_of (limits_of w h)) (current_of w h') headroom
    = false.

Definition allocations_succeed (w : World) : Prop :=
  forall h n, alloc_ok w h n = true.

(** A run needs exactly [n] passes: with [n] passes or more allowed it
    returns [n] blocks whose sizes add up to the target, with fewer it is
    still in its loop. *)
Definition takes_passes (n : nat) (target : Z) (fuel : nat)
    (res : outcome (list bytearray) * mem_vars * trace) : Prop :=
  let '(r, v, _) := res in
  if (n <=? fuel)%nat
  then r = Done (blocks v) /\ List.length (blocks v) = n /\ allocated v = target
  else r = OutOfFuel.

(** A run is still in its loop after [fuel] passes, having appended
    [fuel] empty blocks and advanced its counter by nothing. *)
Definition never_advances (fuel : nat)
    (res : outcome (list bytearray) * mem_vars * trace) : Prop :=
  let '(r, v, _) := res in
  r = OutOfFuel /\ allocated v = 0 /\ List.length (blocks v) = fuel
  /\ Forall (fun b => ba_len b = 0) (blocks v).

Definition MiB : Z := 1024 * 1024.

(** The headroom scenario of the specification: the limit is 200 MiB,
    every allocation succeeds, the usage reported stays below the
    headroom mark (or is unknown) while no block or one block of 80 MiB
    has been allocated, and is 160 MiB once two blocks of 80 MiB have
    been. *)
Definition headroom_scenario (w : World) : Prop :=
  (forall h, mem_limit_of (limits_of w h) = Some (200 * MiB))
  /\ allocations_succeed w
  /\ (forall h, allocs_of h = [] \/ allocs_of h = [80 * MiB] ->
        headroom_reached (Some (200 * MiB)) (current_of w h) (50 * MiB) = false)
  /\ (forall h, allocs_of h = [80 * MiB; 80 * MiB] ->
        current_of w h = Some (160 * MiB)).

(** The run returned exactly two blocks of 80 MiB, 160 MiB in all,
    allocated nothing else, and logged the record [stop]. *)
Definition stopped_after_two_blocks (stop : record)
    (res : outcome (list bytearray) * mem_vars * trace) : Prop :=
  let '(r, v, h') := res in
  r = Done [mk_bytearray (80 * MiB); mk_bytearray (80 * MiB)]
  /\ allocated v = 160 * MiB
  /\ total_len (blocks v) = 160 * MiB
  /\ allocs_of h' = [80 * MiB; 80 * MiB]
  /\ (forall n, ~ In (EvAllocFailed n) h')
  /\ In (EvLog stop) h'.

(** The general rule of the headroom stop in [mem_burst]: wherever the
    loop stands with work left, if the limit [l] it holds and the usage
    [c] it samples are both known and [c >= l - headroom], the loop ends
    in that pass, with the variables as they were, after the sample and
    the stop record and nothing else. *)
Definition burst_stops_at_mark (w : World) : Prop :=
  forall want block_bytes headroom l c v h fuel,
    allocated v < want ->
    current_of w h = Some c ->
    l - headroom <= c ->
    while_loop (S fuel) (fun v => allocated v <? want)
      (Qimi2Sim.mem_burst_body w want block_bytes headroom (Some l)) v h
    = (Done tt, v,
       h ++ [EvReadCurrent (Some c);
             EvLog (QStopHeadroom (Some c) (Some l))]).

(** The same rule in [allocate_slow], whose pass reads the limit after
    the usage. *)
Definition ramp_stops_at_mark (w : World) : Prop :=
  forall total block_bytes pause headroom l c v h fuel,
    allocated v < total ->
    current_of w h = Some c ->
    mem_limit_of (limits_of w (h ++ [EvReadCurrent (Some c)])) = Some l ->
    l - headroom <= c ->
    while_loop (S fuel) (fun v => allocated v <? total)
      (Stress.allocate_slow_body w total block_bytes pause headroom) v h
    = (Done tt, v,
       h ++ [EvReadCurrent (Some c);
             EvReadLimits (limits_of w (h ++ [EvReadCurrent (Some c)]));
             EvLog (SStopping (Some c) (Some l))]).

(* ------------------------------------------------------------------ *)
(** ** Fresh reads before each headroom check *)










Definition trace_of {A V : Type} (res : outcome A * V * trace) : trace :=
  snd res.



(* ------------------------------------------------------------------ *)
(** ** Workers started and joined *)

(** The processes started in a trace, in order. *)
Fixpoint started_in (t : trace) : list process :=
  match t with
  | [] => []
  | EvStart p :: t' => p :: started_in t'
  | _ :: t' => started_in t'
  end.

(** The joins of a trace, in order, each with its timeout. *)
Fixpoint joined_in (t : trace) : list (process * option Q) :=
  match t with
  | [] => []
  | EvJoin p timeout :: t' => (p, timeout) :: joined_in t'
  | _ :: t' => joined_in t'
  end.

(** Every join of the trace has a timeout. *)
Definition joins_bounded (t : trace) : bool :=
  forallb (fun j => match snd j with Some _ => true | None => false end)
          (joined_in t).

(** What a run of a worker pool adds to the trace [h]: every join in it
    is made with the timeout [timeout], and when the run returns, the
    processes joined are the processes started, in the same order. *)
Definition joins_all_with {V : Type} (timeout : option Q) (h : trace)
    (res : outcome unit * V * trace) : Prop :=
  exists t, trace_of res = h ++ t
    /\ (forall j, In j (joined_in t) -> snd j = timeout)
    /\ (fst (fst res) = Done tt ->
        joined_in t = map (fun p => (p, timeout)) (started_in t)).

(* ------------------------------------------------------------------ *)
(** ** The temporary file *)

(** The file-system calls of a trace, in order, each with its result. *)
Fixpoint fs_calls (t : trace) : list (fs_op * bool) :=
  match t with
  | [] => []
  | EvFs op ok :: t' => (op, ok) :: fs_calls t'
  | _ :: t' => fs_calls t'
  end.

(** The bytes handed to the [write] calls that returned, in order. *)
Fixpoint written_in (t : trace) : list Byte.byte :=
  match t with
  | [] => []
  | EvFs (Write data) true :: t' => data ++ written_in t'
  | _ :: t' => written_in t'
  end.

(** The bytes that the [write] calls put in the file, in order. *)
Fixpoint stored_in (t : trace) : list Byte.byte :=
  match t with
  | [] => []
  | EvWritten data :: t' => data ++ stored_in t'
  | _ :: t' => stored_in t'
  end.

(** No write of [w] is short: each puts its whole buffer in the file. *)
Definition writes_whole (w : World) : Prop :=
  forall h n, (n <= write_count w h n)%nat.



(** The name [mkstemp] gives when [io_burst] is entered with the
    history [h] and both [makedirs] and [mkstemp] succeed. *)
Definition temp_file (w : World) (h : trace) (dir_path : pystr) : pystr :=
  temp_path w (h ++ [EvFs (Makedirs dir_path) true;
                     EvFs (Mkstemp dir_path) true]).






(* ------------------------------------------------------------------ *)
(** ** The order of the burst orchestrator *)

(** The memory engine at work: its allocations and its own records. *)
Definition is_memory_work (e : event) : bool :=
  match e with
  | EvAlloc _ | EvAllocFailed _ | EvTouch _ _ => true
  | EvLog (QMemBurst _ _ _ _) | EvLog (QPlan _ _) | EvLog (QStopHeadroom _ _)
  | EvLog (QAllocated _ _ _ _) | EvLog (QMemoryError _ _) => true
  | _ => false
  end.

(** A process is started, fails to start, or is waited for. *)
Definition is_unit_event (e : event) : bool :=
  match e with
  | EvStart _ | EvStartFailed _ | EvJoin _ _ => true
  | _ => false
  end.

Definition none_of (P : event -> bool) (t : trace) : Prop :=
  forallb (fun e => negb (P e)) t = true.

(** The order the specification gives: no process is started once the
    memory engine has been at work. *)
Fixpoint starts_precede_memory_from (seen_memory : bool) (t : trace) : bool :=
  match t with
  | [] => true
  | e :: t' =>
      if is_memory_work e then starts_precede_memory_from true t'
      else match e with
           | EvStart _ => negb seen_memory
                          && starts_precede_memory_from seen_memory t'
           | _ => starts_precede_memory_from seen_memory t'
           end
  end.

Definition starts_precede_memory (t : trace) : bool :=
  starts_precede_memory_from false t.

(** The order of [main] in [qimi2_sim.py] when it returns: the first
    telemetry and the parsing; then the memory engine, inline, with no
    process started or joined meanwhile; then the start of the I/O
    process; then the CPU workers, each started and then each joined
    with no timeout, with no memory work meanwhile; then the join of the
    I/O process, bounded by one second; then the final sample, the
    summary and the closing of the log. *)
Definition memory_then_units (h : trace) (res : outcome unit * unit * trace)
  : Prop :=
  exists t_pre t_mem job t_cpu cur peak cpu1 deltas,
    trace_of res =
      h ++ t_pre ++ t_mem ++ EvStart (IoBurst job) :: t_cpu
        ++ [EvJoin (IoBurst job) (Some 1%Q);
            EvReadCurrent cur; EvReadPeak peak; EvReadCpuStat cpu1;
            EvLog (QFinal cur peak deltas);
            EvLog GracefulStop; EvLogClose]
    /\ none_of is_memory_work t_pre /\ none_of is_unit_event t_pre
    /\ none_of is_unit_event t_mem
    /\ none_of is_memory_work t_cpu
    /\ Forall (fun p => match p with CpuWorker _ => True | _ => False end)
              (started_in t_cpu)
    /\ joined_in t_cpu = map (fun p => (p, None)) (started_in t_cpu).

(** A small command line: 2 bytes in blocks of 1, one worker, no I/O. *)
Definition small_args : Qimi2Sim.args :=
  {| Qimi2Sim.arg_mem_burst := lit "2";
     Qimi2Sim.arg_mem_block := lit "1";
     Qimi2Sim.arg_headroom := lit "0";
     Qimi2Sim.arg_cpus := 1;
     Qimi2Sim.arg_duration := 1;
     Qimi2Sim.arg_io_size := lit "0";
     Qimi2Sim.arg_io_dir := lit "/tmp";
     Qimi2Sim.arg_no_affinity := false;
     Qimi2Sim.arg_logfile := lit "./qimi2_sim.log" |}.

(* ------------------------------------------------------------------ *)
(** ** Size strings *)

Definition all_spaces (s : pystr) : Prop :=
  Forall (fun c => is_space c = true) s.

Definition all_digits (s : pystr) : Prop :=
  Forall (fun c => is_digit c = true) s.

(** The names of the units, as [parse_size] tries them. *)
Definition unit_names : list pystr :=
  map fst (sorted (fun x => - Z.of_nat (List.length (fst x))) units).

(** [power(unit)]: 1 for k and ki, 2 for m and mi, 3 for g and gi, 4
    for t and ti. *)
Definition unit_power (u : pystr) : Z :=
  match u with
  | c :: _ =>
      if ascii_eqb c "k" then 1
      else if ascii_eqb c "m" then 2
      else if ascii_eqb c "g" then 3
      else if ascii_eqb c "t" then 4
      else 0
  | [] => 0
  end.

(** The decimal number with the digits [P] and [F] of them after the
    point, [P / 10^F], is zero or a binary64 float below [2^53]: a
    mantissa of 53 bits over a power of two. *)
Definition exact_double (P F : Z) : Prop :=
  P = 0
  \/ exists (q : positive) (a : Z),
       2 ^ 52 <= Zpos q < 2 ^ 53 /\ 0 <= a <= 1074
       /\ P * 2 ^ a = Zpos q * 10 ^ F.

(** A decimal number as written: digits, then nothing or a point and
    digits. *)
Definition numeral (ip : pystr) (fp : option pystr) : pystr :=
  ip ++ match fp with Some f => lit "." ++ f | None => [] end.

Definition fraction_digits (fp : option pystr) : pystr :=
  match fp with Some f => f | None => [] end.

(** * Auxiliary predicates of the proofs *)



(** While a pool starts its workers: the list it keeps is the list of
    the processes started so far, and nothing has been joined. *)
Definition starting (h : trace) (procs : list process) (h' : trace) : Prop :=
  exists t, h' = h ++ t /\ procs = started_in t /\ joined_in t = [].

(** [cpu_burst] from the line after the one that computes [stop_at]
    (lines 125-137). *)
Definition cpu_burst_from (w : World) (nproc : Z) (no_affinity : bool)
    (stop_at : Q) : M (list process) unit :=
  avail <- sched_getaffinity w ;;
  for_each (Qimi2Sim.py_range nproc) (fun i =>
    let pin := Qimi2Sim.choose_pin no_affinity avail i in
    p <- start_process w (CpuWorker {| wk_id := i; wk_pin := pin;
                                       wk_stop_at := stop_at;
                                       wk_duty := None |}) ;;
    procs <- get ;;
    put (procs ++ [p]) ;;;
    log (QCpuStarted (i + 1) nproc pin)) ;;;
  procs <- get ;;
  for_each procs (fun p => join p None).

(** [run_cpu_ramp] from the line after the one that computes [stop_at]
    (lines 152-171). *)
Definition run_cpu_ramp_from (w : World) (fuel : nat) (total_cpus : Z)
    (ramp_every : Q) (duty_on_ms duty_off_ms : Z) (no_affinity : bool)
    (stop_at : Q) : M Stress.ramp_vars unit :=
  available <- sched_getaffinity w ;;
  while_loop fuel (fun _ => true)
    (Stress.run_cpu_ramp_body w stop_at available total_cpus ramp_every
                              duty_on_ms duty_off_ms no_affinity) ;;;
  v <- get ;;
  for_each (Stress.workers v) (fun p => join p (Some 1%Q)).

(** What a [write] of [data] puts in the file. *)
Definition taken (w : World) (h : trace) (data : list Byte.byte)
  : list Byte.byte :=
  firstn (Nat.min (write_count w h (List.length data)) (List.length data)) data.

(** What the write loop adds to the trace is made of [write] calls. *)
Definition only_writes (t : trace) : Prop :=
  Forall (fun c => match fst c with Write _ => True | _ => False end)
         (fs_calls t).

(** The worker pool does no memory work and starts CPU workers only. *)
Definition pool_trace (t : trace) : Prop :=
  none_of is_memory_work t
  /\ Forall (fun p => match p with CpuWorker _ => True | _ => False end)
            (started_in t).

(** The letters of the unit suffixes, in either case. *)
Definition is_unit_letter (c : ascii) : bool :=
  let l := lower_char c in
  ascii_eqb l "k" || ascii_eqb l "i" || ascii_eqb l "m" || ascii_eqb l "g"
  || ascii_eqb l "t".

(** The character after a run of digits does not continue the run. *)
Definition ends_run (rest : pystr) : Prop :=
  match rest with
  | [] => True
  | c :: _ => is_digit c = false /\ is_underscore c = false
  end.

(** A mantissa of 53 bits. *)
Definition normal_mantissa (q : positive) : Prop :=
  2 ^ 52 <= Zpos q < 2 ^ 53.

(** What [parse_size] does once it has found the unit [u]. *)
Definition convert (num : pystr) (mul : Z) : result Z :=
  match py_float num with
  | Ok x =>
      match float_mul_int x mul with
      | Ok y => int_of_float y
      | Raise e => Raise e
      end
  | Raise e => Raise e
  end.

(** A unit written in any case. *)
Definition spells (U u : pystr) : Prop :=
  lower U = u /\ exists m, In (u, m) units.

(* ------------------------------------------------------------------ *)
(** ** Edge cases of the memory loop *)

(** The run ended by the exception [e], keeping no block and having
    attempted no allocation since the history [h]. *)
Definition raised_empty_handed (e : exn) (h : trace)
    (res : outcome (list bytearray) * mem_vars * trace) : Prop :=
  let '(r, v, h') := res in
  r = Threw e /\ blocks v = [] /\ exists t, h' = h ++ t /\ no_alloc t.

(** What [bytearray(n)] raises for a negative [n]: [ValueError] for a
    signed 64-bit integer, [OverflowError] below. *)
Definition refusal_of (n : Z) : exn :=
  if - 2 ^ 63 <=? n then ValueError else OverflowError.

(** The run returned no block and attempted no allocation since the
    history [h], after logging the record [stop]. *)
Definition returned_empty_handed (stop : record -> Prop) (h : trace)
    (res : outcome (list bytearray) * mem_vars * trace) : Prop :=
  returned res = Some []
  /\ exists t, trace_of res = h ++ t /\ no_alloc t
       /\ exists r, In (EvLog r) t /\ stop r.

(** The limit is always known and is not above the headroom, and the
    usage is always known. *)
Definition limit_within_headroom (w : World) (headroom : Z) : Prop :=
  (forall h, exists l, mem_limit_of (limits_of w h) = Some l /\ l <= headroom)
  /\ (forall h, current_of w h <> None).

(** A cgroup with a limit of 100 bytes and a usage of 10 bytes. *)
Definition tight_world : World :=
  {| mem_current := fun _ => Some 10%N;
     cgroup_limits := fun _ => (Some 100%N, None, None);
     mem_peak := fun _ => None;
     self_rss := fun _ => None;
     mem_events := fun _ => [];
     cpu_stat := fun _ => [];
     alloc_ok := fun _ _ => true;
     clock := fun h => inject_Z (Z.of_nat (List.length h));
     affinity := fun _ => None;
     start_ok := fun _ _ => true;
     fs_ok := fun _ _ => true;
     temp_path := fun _ => lit "/tmp/qimi2_0.bin";
     write_count := fun _ n => n;
     sleep_ok := fun _ _ => true |}.

Definition is_stop_record (r : record) : Prop :=
  match r with
  | QStopHeadroom _ _ | SStopping _ _ => True
  | _ => False
  end.

(** In the trace [t], every allocation that succeeded is followed at
    once by the touching of the buffer it returned, over all its pages. *)
Fixpoint allocs_touched (page_size : Z) (t : trace) : bool :=
  match t with
  | [] => true
  | EvAlloc n :: t' =>
      match t' with
      | EvTouch b pages :: _ =>
          (ba_len b =? n) && (pages =? ceil_div n page_size)
          && allocs_touched page_size t'
      | _ => false
      end
  | _ :: t' => allocs_touched page_size t'
  end.

(* ------------------------------------------------------------------ *)
(** ** The worker pools *)

Definition starts_succeed (w : World) : Prop :=
  forall h p, start_ok w h p = true.

(** The worker number [i] of [cpu_burst]. *)
Definition burst_worker (stop_at : Q) (no_affinity : bool)
    (avail : option (list Z)) (i : Z) : process :=
  CpuWorker {| wk_id := i;
               wk_pin := Qimi2Sim.choose_pin no_affinity avail i;
               wk_stop_at := stop_at;
               wk_duty := None |}.

(** The numbers of the CPU workers of a list of processes. *)
Definition worker_ids (ps : list process) : list Z :=
  flat_map (fun p => match p with CpuWorker wk => [wk_id wk] | _ => [] end) ps.

(** What [cpu_burst] entered with the history [h] reads first: the time
    its workers stop at and the CPUs it may pin them to. *)
Definition burst_stop_at (w : World) (h : trace) (duration_s : Z) : Q :=
  (clock w h + inject_Z (Z.max 1 duration_s))%Q.

Definition burst_avail (w : World) (h : trace) : option (list Z) :=
  option_map (sorted (fun c => c)) (affinity w (h ++ [EvTime (clock w h)])).

(** A world like [quiet_world] that allows the CPUs 3, 1 and 2. *)
Definition three_cpu_world : World :=
  {| mem_current := fun _ => None;
     cgroup_limits := fun _ => (None, None, None);
     mem_peak := fun _ => None;
     self_rss := fun _ => None;
     mem_events := fun _ => [];
     cpu_stat := fun _ => [];
     alloc_ok := fun _ _ => true;
     clock := fun h => inject_Z (Z.of_nat (List.length h));
     affinity := fun _ => Some [3; 1; 2];
     start_ok := fun _ _ => true;
     fs_ok := fun _ _ => true;
     temp_path := fun _ => lit "/tmp/qimi2_0.bin";
     write_count := fun _ n => n;
     sleep_ok := fun _ _ => true |}.

(** What [run_cpu_ramp] keeps true of its variables: [started] counts
    the workers of the list, which are numbered from 0 in the order of
    the list, and stays within [total_cpus]. *)
Definition ramp_inv (total_cpus : Z) (v : Stress.ramp_vars) : Prop :=
  Stress.started v = Z.of_nat (List.length (Stress.workers v))
  /\ worker_ids (Stress.workers v) = Qimi2Sim.py_range (Stress.started v)
  /\ Stress.started v <= Z.max 0 total_cpus.

(** The time spent in [time.sleep] in a trace. *)
Definition slept (t : trace) : Q :=
  fold_right (fun e acc => match e with EvSleep d => (d + acc)%Q | _ => acc end)
             0%Q t.

(** Time does not run backwards, and a sleep lasts at least as long as
    asked. *)
Definition clock_counts_sleep (w : World) : Prop :=
  forall h t, (clock w h + slept t <= clock w (h ++ t))%Q.

(** A world like [quiet_world] whose clock advances by one second at
    every interaction and by the length of every sleep. *)
Definition ticking_world : World :=
  {| mem_current := fun _ => None;
     cgroup_limits := fun _ => (None, None, None);
     mem_peak := fun _ => None;
     self_rss := fun _ => None;
     mem_events := fun _ => [];
     cpu_stat := fun _ => [];
     alloc_ok := fun _ _ => true;
     clock := fun h => (inject_Z (Z.of_nat (List.length h)) + slept h)%Q;
     affinity := fun _ => None;
     start_ok := fun _ _ => true;
     fs_ok := fun _ _ => true;
     temp_path := fun _ => lit "/tmp/qimi2_0.bin";
     write_count := fun _ n => n;
     sleep_ok := fun _ _ => true |}.

(* ------------------------------------------------------------------ *)
(** ** The burst orchestrator again *)

(** The history when [main] of [qimi2_sim.py], entered with [h], comes
    to its size arguments: the logger is open, the limits are read and
    logged, and the CPU statistics are read (lines 177-189). *)
Definition main_prelude (w : World) (h : trace) : trace :=
  let h1 := h ++ [EvLog LoggerStart] in
  let l := limits_of w h1 in
  let h2 := h1 ++ [EvReadLimits l; EvLog QLimitsHeader;
                   EvLog (QMemoryMax (fst (fst l)));
                   EvLog (QCpuMax (snd (fst l)) (snd l)); EvLog QRule] in
  h2 ++ [EvReadCpuStat (cpu_stat w h2)].

(** The first of the three memory sizes of the command line that is
    refused is refused by [e]. *)
Definition memory_size_refused (a : Qimi2Sim.args) (e : exn) : Prop :=
  parse_size (Qimi2Sim.arg_mem_burst a) = Raise e
  \/ (exists want, parse_size (Qimi2Sim.arg_mem_burst a) = Ok want
        /\ (parse_size (Qimi2Sim.arg_mem_block a) = Raise e
            \/ exists blk, parse_size (Qimi2Sim.arg_mem_block a) = Ok blk
                 /\ parse_size (Qimi2Sim.arg_headroom a) = Raise e)).

(** A command line like [small_args] with another I/O size. *)
Definition args_with_io_size (s : pystr) : Qimi2Sim.args :=
  {| Qimi2Sim.arg_mem_burst := lit "2";
     Qimi2Sim.arg_mem_block := lit "1";
     Qimi2Sim.arg_headroom := lit "0";
     Qimi2Sim.arg_cpus := 0;
     Qimi2Sim.arg_duration := 1;
     Qimi2Sim.arg_io_size := s;
     Qimi2Sim.arg_io_dir := lit "/tmp";
     Qimi2Sim.arg_no_affinity := false;
     Qimi2Sim.arg_logfile := lit "./qimi2_sim.log" |}.

(** The processes of a run of [main] of [qimi2_sim.py] that returned,
    over what it added to the trace: first the I/O process, for the size
    and the directory of the command line, then [max(1, cpus)] CPU
    workers numbered from 0, which are joined without a timeout before
    the I/O process is, for one second at most. *)
Definition burst_census (a : Qimi2Sim.args) (t : trace) : Prop :=
  exists job workers,
    started_in t = IoBurst job :: workers
    /\ parse_size (Qimi2Sim.arg_io_size a) = Ok (io_size job)
    /\ io_dir job = Qimi2Sim.arg_io_dir a
    /\ List.length workers = Z.to_nat (Z.max 1 (Qimi2Sim.arg_cpus a))
    /\ (1 <= List.length workers)%nat
    /\ worker_ids workers = Qimi2Sim.py_range (Z.max 1 (Qimi2Sim.arg_cpus a))
    /\ joined_in t
       = map (fun p => (p, None)) workers ++ [(IoBurst job, Some 1%Q)].

(* ------------------------------------------------------------------ *)
(** ** The temporary file again *)

(** What the record [[io] done] stands for in the trace [t] of a run of
    [io_burst] for [size_bytes] bytes: all the bytes were handed to
    [write], by calls that all returned, the file was flushed, synced
    and closed, and no error was logged; the bytes are all in the file
    when no write was short. *)
Definition io_done_is_true (w : World) (size_bytes : Z) (t : trace) : Prop :=
  In (EvLog QIoDone) t ->
  written_in t = repeat Byte.x00 (Z.to_nat size_bytes)
  /\ (writes_whole w -> stored_in t = repeat Byte.x00 (Z.to_nat size_bytes))
  /\ In (EvFs Flush true) t /\ In (EvFs Fsync true) t
  /\ In (EvFs Close true) t
  /\ ~ In (EvLog QIoError) t.

(** A world like [quiet_world] whose file system refuses [fsync]. *)
Definition no_fsync_world : World :=
  {| mem_current := fun _ => None;
     cgroup_limits := fun _ => (None, None, None);
     mem_peak := fun _ => None;
     self_rss := fun _ => None;
     mem_events := fun _ => [];
     cpu_stat := fun _ => [];
     alloc_ok := fun _ _ => true;
     clock := fun h => inject_Z (Z.of_nat (List.length h));
     affinity := fun _ => None;
     start_ok := fun _ _ => true;
     fs_ok := fun _ op => match op with Fsync => false | _ => true end;
     temp_path := fun _ => lit "/tmp/qimi2_0.bin";
     write_count := fun _ n => n;
     sleep_ok := fun _ _ => true |}.

Definition is_write_event (e : event) : Prop :=
  match e with
  | EvFs (Write _) _ | EvWritten _ => True
  | _ => False
  end.

(* ================================================================== *)
(** * The readers of the cgroup pseudo-files

    [read_cgroup_limits], [read_mem_current], [read_mem_peak] and
    [read_cpu_stat_v2] have the same text in the two programs;
    [read_mem_events_v2] and [read_self_rss] are in [stress.py].  They
    are the functions behind the oracles of [World].  Every exception
    raised inside them is caught by an [except Exception] of their own,
    so that which exception it is does not matter: a step that raises
    is a step that gives [None]. *)

Module Cgroup.

(** The pseudo-files: the text that [open(p).read()] gives, or [None]
    when the file cannot be opened or read.  Text is what Python's text
    layer delivers: line ends are ["\n"]. *)
Definition files : Type := pystr -> option pystr.

Definition newline : ascii := "010"%char.

(** [s.split()]: the words of [s], separated by runs of whitespace.
    [split_aux s] is the word that starts [s] (empty when [s] starts
    with whitespace) and the words after it. *)
Fixpoint split_aux (s : pystr) : pystr * list pystr :=
  match s with
  | [] => ([], [])
  | c :: t =>
      let (wd, ws) := split_aux t in
      if is_space c
      then ([], match wd with [] => ws | _ => wd :: ws end)
      else (c :: wd, ws)
  end.

Definition split (s : pystr) : list pystr :=
  let (wd, ws) := split_aux s in
  match wd with [] => ws | _ => wd :: ws end.

(** [for line in f]: the lines of a text, each with its line end. *)
Fixpoint readlines (s : pystr) : list pystr :=
  match s with
  | [] => []
  | c :: t =>
      if ascii_eqb c newline then [c] :: readlines t
      else match readlines t with
           | [] => [[c]]
           | l :: ls => (c :: l) :: ls
           end
  end.

(** [s.startswith(p)] *)
Definition startswith (s p : pystr) : bool :=
  pystr_eqb (firstn (List.length p) s) p.

(** [d[k] = x] on a dictionary kept as its items, in insertion order. *)
Fixpoint dict_set (d : list (pystr * Z)) (k : pystr) (x : Z)
  : list (pystr * Z) :=
  match d with
  | [] => [(k, x)]
  | (k', y) :: d' =>
      if pystr_eqb k' k then (k', x) :: d' else (k', y) :: dict_set d' k x
  end.

(** [int(v)] where a failure is caught. *)
Definition int_of (v : pystr) : option Z :=
  match py_int v with
  | Ok n => Some n
  | Raise _ => None
  end.

(** [with open(p) as f: ... int(f.read().strip())] where a failure is
    caught. *)
Definition read_int_file (fs : files) (p : pystr) : option Z :=
  match fs p with
  | Some c => int_of (strip c)
  | None => None
  end.

(** [for p in paths: try: ... return int(f.read().strip()) except
    Exception: pass] *)
Fixpoint first_int (fs : files) (paths : list pystr) : option Z :=
  match paths with
  | [] => None
  | p :: paths' =>
      match read_int_file fs p with
      | Some n => Some n
      | None => first_int fs paths'
      end
  end.

(** [read_mem_current] (qimi2_sim.py 57-65, stress.py 70-78) *)
Definition read_mem_current (fs : files) : option Z :=
  match read_int_file fs (lit "/sys/fs/cgroup/memory.current") with
  | Some n => Some n
  | None =>
      first_int fs [lit "/sys/fs/cgroup/memory/memory.usage_in_bytes";
                    lit "/sys/fs/cgroup/memory.usage_in_bytes"]
  end.

(** [read_mem_peak] (qimi2_sim.py 67-75, stress.py 80-88) *)
Definition read_mem_peak (fs : files) : option Z :=
  match read_int_file fs (lit "/sys/fs/cgroup/memory.peak") with
  | Some n => Some n
  | None =>
      first_int fs [lit "/sys/fs/cgroup/memory/memory.max_usage_in_bytes";
                    lit "/sys/fs/cgroup/memory.max_usage_in_bytes"]
  end.

(** [read_cgroup_limits] (qimi2_sim.py 33-55, stress.py 46-68) *)
Definition read_cgroup_limits (fs : files) : option Z * option Z * option Z :=
  (* the first [try] *)
  let mem_limit :=
    match fs (lit "/sys/fs/cgroup/memory.max") with
    | Some c =>
        let v := strip c in
        if pystr_eqb v (lit "max") then None else int_of v
    | None => None
    end in
  (* [if mem_limit is None: for p in (...)] *)
  let mem_limit :=
    match mem_limit with
    | Some n => Some n
    | None =>
        first_int fs [lit "/sys/fs/cgroup/memory/memory.limit_in_bytes";
                      lit "/sys/fs/cgroup/memory.limit_in_bytes"]
    end in
  (* the [try] on [cpu.max]: the quota is assigned before the period is
     converted *)
  let '(cpu_quota, cpu_period) :=
    match fs (lit "/sys/fs/cgroup/cpu.max") with
    | Some c =>
        match split (strip c) with
        | [a0; a1] =>
            if negb (pystr_eqb a0 (lit "max")) then
              match int_of a0 with
              | Some q =>
                  match int_of a1 with
                  | Some p => (Some q, Some p)
                  | None => (Some q, None)
                  end
              | None => (None, None)
              end
            else (None, None)
        | _ => (None, None)
        end
    | None => (None, None)
    end in
  (* [if cpu_quota is None or cpu_period is None] *)
  let '(cpu_quota, cpu_period) :=
    match cpu_quota, cpu_period with
    | Some _, Some _ => (cpu_quota, cpu_period)
    | _, _ =>
        match read_int_file fs (lit "/sys/fs/cgroup/cpu/cpu.cfs_quota_us") with
        | Some q =>
            match read_int_file fs (lit "/sys/fs/cgroup/cpu/cpu.cfs_period_us") with
            | Some p => if 0 <? q then (Some q, Some p)
                        else (cpu_quota, cpu_period)
            | None => (cpu_quota, cpu_period)
            end
        | None => (cpu_quota, cpu_period)
        end
    end in
  (mem_limit, cpu_quota, cpu_period).

(** [for line in f: k, v = line.strip().split(); d[k] = int(v)]: the
    dictionary after the lines, and whether all of them were read
    without an exception. *)
Fixpoint fill (d : list (pystr * Z)) (ls : list pystr)
  : list (pystr * Z) * bool :=
  match ls with
  | [] => (d, true)
  | line :: ls' =>
      match split (strip line) with
      | [k; v] =>
          match int_of v with
          | Some n => fill (dict_set d k n) ls'
          | None => (d, false)
          end
      | _ => (d, false)
      end
  end.

(** [read_cpu_stat_v2] (qimi2_sim.py 77-86) *)
Definition read_cpu_stat_v2 (fs : files) : list (pystr * Z) :=
  match fs (lit "/sys/fs/cgroup/cpu.stat") with
  | Some c => fst (fill [] (readlines c))
  | None => []
  end.

(** The loop of [read_mem_events_v2] over the file names left, with the
    dictionary [d] filled so far. *)
Fixpoint events_from (fs : files) (d : list (pystr * Z)) (names : list pystr)
  : list (pystr * Z) :=
  match names with
  | [] => d
  | fname :: names' =>
      match fs (lit "/sys/fs/cgroup/" ++ fname) with
      | Some c =>
          let (d', complete) := fill d (readlines c) in
          if complete then d' else events_from fs d' names'
      | None => events_from fs d names'
      end
  end.

(** [read_mem_events_v2] (stress.py 90-99) *)
Definition read_mem_events_v2 (fs : files) : list (pystr * Z) :=
  events_from fs [] [lit "memory.events.local"; lit "memory.events"].

(** The loop of [read_self_rss]: [line.split()[1]] raises when the line
    has one word only. *)
Fixpoint find_rss (ls : list pystr) : option Z :=
  match ls with
  | [] => None
  | line :: ls' =>
      if startswith line (lit "VmRSS:") then
        match split line with
        | _ :: kb :: _ =>
            match int_of kb with
            | Some n => Some (n * 1024)
            | None => None
            end
        | _ => None
        end
      else find_rss ls'
  end.

(** [read_self_rss] (stress.py 101-108) *)
Definition read_self_rss (fs : files) : option Z :=
  match fs (lit "/proc/self/status") with
  | Some c => find_rss (readlines c)
  | None => None
  end.

End Cgroup.

(* ------------------------------------------------------------------ *)
(** ** What the pseudo-files hold *)

(** A word: characters that are not whitespace, one at least. *)
Definition is_word (k : pystr) : Prop :=
  k <> [] /\ Forall (fun c => is_space c = false) k.

(** The file [p] holds the unsigned decimal [ds], as the kernel prints
    it, possibly with whitespace around (the line end, for one). *)
Definition holds_number (fs : Cgroup.files) (p ds : pystr) : Prop :=
  all_digits ds /\ ds <> []
  /\ exists ws1 ws2, all_spaces ws1 /\ all_spaces ws2
       /\ fs p = Some (ws1 ++ ds ++ ws2).

(** The file [p] holds the text [s], possibly with whitespace around. *)
Definition holds_text (fs : Cgroup.files) (p s : pystr) : Prop :=
  exists ws1 ws2, all_spaces ws1 /\ all_spaces ws2
    /\ fs p = Some (ws1 ++ s ++ ws2).

(** The file [p] is of no use: it cannot be read, or what it holds is
    not an integer. *)
Definition unusable (fs : Cgroup.files) (p : pystr) : Prop :=
  Cgroup.read_int_file fs p = None.

(** A line [key value] of a flat keyed file such as [cpu.stat], as the
    kernel prints it: a word, one space, an unsigned decimal, the line
    end. *)
Definition stat_item (kv : pystr * pystr) : Prop :=
  is_word (fst kv) /\ all_digits (snd kv) /\ snd kv <> [].

Definition render_line (kv : pystr * pystr) : pystr :=
  fst kv ++ lit " " ++ snd kv ++ [Cgroup.newline].

Definition render (items : list (pystr * pystr)) : pystr :=
  List.concat (map render_line items).

(** The dictionary that the lines [items] make, from [d]. *)
Definition dict_of (d : list (pystr * Z)) (items : list (pystr * pystr))
  : list (pystr * Z) :=
  fold_left (fun d kv => Cgroup.dict_set d (fst kv) (digits_value (snd kv)))
            items d.

(** The value of the last line for the key [k]. *)
Fixpoint last_value (items : list (pystr * pystr)) (k : pystr) : option Z :=
  match items with
  | [] => None
  | (k', ds) :: rest =>
      match last_value rest k with
      | Some x => Some x
      | None => if pystr_eqb k' k then Some (digits_value ds) else None
      end
  end.

(** A line that [fill] cannot read: it has no line end inside, and is
    not made of two words of which the second is an integer. *)
Definition malformed (line : pystr) : Prop :=
  Forall (fun c => ascii_eqb c Cgroup.newline = false) line
  /\ match Cgroup.split (strip (line ++ [Cgroup.newline])) with
     | [_; v] => Cgroup.int_of v = None
     | _ => True
     end.

(** Spaces and tabs. *)
Definition all_blanks (s : pystr) : Prop :=
  Forall (fun c => c = " "%char \/ c = "009"%char) s.

(** Lines, none of which starts with [VmRSS:]. *)
Definition no_rss_line (ls : list pystr) : Prop :=
  Forall (fun l => Forall (fun c => ascii_eqb c Cgroup.newline = false) l
                   /\ Cgroup.startswith (l ++ [Cgroup.newline]) (lit "VmRSS:")
                      = false) ls.

Definition with_line_ends (ls : list pystr) : pystr :=
  List.concat (map (fun l => l ++ [Cgroup.newline]) ls).

(** Pseudo-files given as a list of paths and texts. *)
Fixpoint files_of (l : list (pystr * pystr)) : Cgroup.files :=
  fun p =>
    match l with
    | [] => None
    | (q, c) :: l' => if pystr_eqb q p then Some c else files_of l' p
    end.

(** The two stages of [read_cgroup_limits] on the CPU side, by name:
    what the [try] on [cpu.max] leaves in [(cpu_quota, cpu_period)], and
    what the [try] on the two [cfs] files makes of it. *)
Definition cpu_max_stage (fs : Cgroup.files) : option Z * option Z :=
  match fs (lit "/sys/fs/cgroup/cpu.max") with
  | Some c =>
      match Cgroup.split (strip c) with
      | [a0; a1] =>
          if negb (pystr_eqb a0 (lit "max")) then
            match Cgroup.int_of a0 with
            | Some q =>
                match Cgroup.int_of a1 with
                | Some p => (Some q, Some p)
                | None => (Some q, None)
                end
            | None => (None, None)
            end
          else (None, None)
      | _ => (None, None)
      end
  | None => (None, None)
  end.

Definition cfs_stage (fs : Cgroup.files) (qp : option Z * option Z)
  : option Z * option Z :=
  match qp with
  | (Some _, Some _) => qp
  | _ =>
      match Cgroup.read_int_file fs (lit "/sys/fs/cgroup/cpu/cpu.cfs_quota_us") with
      | Some q =>
          match Cgroup.read_int_file fs (lit "/sys/fs/cgroup/cpu/cpu.cfs_period_us") with
          | Some p => if 0 <? q then (Some q, Some p) else qp
          | None => qp
          end
      | None => qp
      end
  end.

(** The quota and the period that [read_cgroup_limits] returns. *)
Definition cpu_limits (fs : Cgroup.files) : option Z * option Z :=
  let '(_, q, p) := Cgroup.read_cgroup_limits fs in (q, p).

(** The value of the last line for [k], or 0: [d.get(k, 0)]. *)
Definition value0 (items : list (pystr * pystr)) (k : pystr) : Z :=
  match last_value items k with
  | Some x => x
  | None => 0
  end.

(* ------------------------------------------------------------------ *)
(** ** [touch_pages] on the bytes of the buffer
    (qimi2_sim.py 88-89, stress.py 110-111) *)

Module Bytes.

(** [range(start, stop, step)] for a positive [step]. *)
Definition py_range3 (start stop step : Z) : list Z :=
  map (fun i => start + Z.of_nat i * step)
      (seq 0 (Z.to_nat (ceil_div (stop - start) step))).

(** [buf[off] = b] on a [bytearray]: a negative offset counts from the
    end, and an offset out of range raises [IndexError] ([None]). *)
Definition set_byte (buf : list Byte.byte) (off : Z) (b : Byte.byte)
  : option (list Byte.byte) :=
  let len := Z.of_nat (List.length buf) in
  let i := if off <? 0 then off + len else off in
  if (0 <=? i) && (i <? len)
  then Some (firstn (Z.to_nat i) buf ++ b :: skipn (S (Z.to_nat i)) buf)
  else None.

(** [for off in offs: buf[off] = 1] *)
Fixpoint touch_at (offs : list Z) (buf : list Byte.byte)
  : option (list Byte.byte) :=
  match offs with
  | [] => Some buf
  | off :: offs' =>
      match set_byte buf off Byte.x01 with
      | Some buf' => touch_at offs' buf'
      | None => None
      end
  end.

(** [touch_pages(buf)] *)
Definition touch_pages (page_size : Z) (buf : list Byte.byte)
  : option (list Byte.byte) :=
  touch_at (py_range3 0 (Z.of_nat (List.length buf)) page_size) buf.

End Bytes.

(** The buffer [buf'] is [buf] with a 1 at the start of every page. *)
Definition pages_touched (page_size : Z) (buf buf' : list Byte.byte) : Prop :=
  List.length buf' = List.length buf
  /\ forall i, (i < List.length buf)%nat ->
       nth i buf' Byte.x00
       = if Z.of_nat i mod page_size =? 0 then Byte.x01 else nth i buf Byte.x00.
(* ================================================================== *)
(** * The integers that [float()] takes *)

Lemma iter_pos_nat {A : Type} (f : A -> A) (n : positive) (x : A) :
  iter_pos f n x = Nat.iter (Pos.to_nat n) f x.
Proof.
  revert x. induction n as [n IH | n IH | ]; intros x; cbn [iter_pos].
  - rewrite !IH, Pos2Nat.inj_xI.
    replace (S (2 * Pos.to_nat n)) with (Pos.to_nat n + (Pos.to_nat n + 1))%nat
      by lia.
    rewrite !Nat.iter_add. reflexivity.
  - rewrite !IH, Pos2Nat.inj_xO.
    replace (2 * Pos.to_nat n)%nat with (Pos.to_nat n + Pos.to_nat n)%nat by lia.
    rewrite Nat.iter_add. reflexivity.
  - reflexivity.
Qed.

Lemma Zdigits2_log2 (p : positive) :
  Zdigits2 (Zpos p) = Z.log2 (Zpos p) + 1.
Proof.
  assert (H : forall p, digits2_pos p = Pos.size p)
    by (induction p0; simpl; congruence).
  cbn [Zdigits2]. rewrite H.
  destruct p; cbn [Z.log2 Pos.size]; lia.
Qed.

Lemma Zdigits2_bounds (p : positive) (d : Z) :
  0 < d -> 2 ^ (d - 1) <= Zpos p < 2 ^ d -> Zdigits2 (Zpos p) = d.
Proof.
  intros Hd Hp. rewrite Zdigits2_log2.
  rewrite (Z.log2_unique (Zpos p) (d - 1)); [lia | lia |].
  replace (Z.succ (d - 1)) with d by lia. exact Hp.
Qed.

Lemma Zdigits2_spec (p : positive) :
  0 < Zdigits2 (Zpos p)
  /\ 2 ^ (Zdigits2 (Zpos p) - 1) <= Zpos p < 2 ^ Zdigits2 (Zpos p).
Proof.
  rewrite Zdigits2_log2.
  pose proof (Z.log2_nonneg (Zpos p)).
  pose proof (Z.log2_spec (Zpos p) ltac:(lia)) as Hs.
  replace (Z.log2 (Zpos p) + 1 - 1) with (Z.log2 (Zpos p)) by lia.
  replace (Z.succ (Z.log2 (Zpos p))) with (Z.log2 (Zpos p) + 1) in Hs by lia.
  split; [lia | exact Hs].
Qed.

(** One shift to the right of a mantissa that is not negative: the
    bit that leaves becomes the round bit, and the sticky bit gathers
    the round bits before it. *)
Lemma shr_1_nonneg (m : Z) (r s : bool) :
  0 <= m ->
  shr_1 {| shr_m := m; shr_r := r; shr_s := s |}
  = {| shr_m := m / 2; shr_r := Z.odd m; shr_s := r || s |}.
Proof.
  intros Hm. destruct m as [|p|p]; try lia.
  - reflexivity.
  - destruct p as [p|p|]; cbn [shr_1 Z.odd].
    + f_equal. rewrite Pos2Z.inj_xI.
      apply (Z.div_unique _ 2 _ 1); lia.
    + f_equal. rewrite Pos2Z.inj_xO.
      apply (Z.div_unique _ 2 _ 0); lia.
    + reflexivity.
Qed.

Lemma iter_shr_nonneg (k : nat) (m : Z) :
  0 <= m ->
  exists s,
    Nat.iter (S k) shr_1 {| shr_m := m; shr_r := false; shr_s := false |}
    = {| shr_m := m / 2 ^ Z.of_nat (S k);
         shr_r := Z.odd (m / 2 ^ Z.of_nat k);
         shr_s := s |}.
Proof.
  intros Hm. induction k as [|k [s IH]].
  - exists false. cbn [Nat.iter]. rewrite shr_1_nonneg by exact Hm.
    change (2 ^ Z.of_nat 1) with 2. change (2 ^ Z.of_nat 0) with 1.
    rewrite Z.div_1_r. reflexivity.
  - rewrite Nat.iter_succ, IH.
    rewrite shr_1_nonneg by (apply Z.div_pos; [exact Hm | apply Z.pow_pos_nonneg; lia]).
    eexists. f_equal.
    rewrite Z.div_div by (try apply Z.pow_pos_nonneg; lia).
    rewrite (Nat2Z.inj_succ (S k)), Z.pow_succ_r by lia.
    f_equal. ring.
Qed.

(** Rounding to nearest, ties to even, from the round and sticky bits. *)
Lemma round_nearest_even_bits (m : Z) (r s : bool) :
  round_nearest_even m
    (loc_of_shr_record {| shr_m := m; shr_r := r; shr_s := s |})
  = if r && (s || Z.odd m) then m + 1 else m.
Proof.
  destruct r, s; cbn [loc_of_shr_record round_nearest_even andb orb];
    try reflexivity.
  rewrite <- Z.negb_even. destruct (Z.even m); reflexivity.
Qed.

(** A second pass through [shr_fexp] leaves a mantissa of 53 bits as it
    is and halves [2^53]. *)
Lemma shr_fexp_normal (q : positive) (e : Z) :
  2 ^ 52 <= Zpos q < 2 ^ 53 ->
  -1074 <= e ->
  shr_fexp prec emax (Zpos q) e loc_Exact
  = ({| shr_m := Zpos q; shr_r := false; shr_s := false |}, e).
Proof.
  intros Hq He. unfold shr_fexp.
  rewrite (Zdigits2_bounds q 53) by (try lia; exact Hq).
  unfold fexp, emin, prec, emax.
  replace (Z.max (53 + e - 53) (3 - 1024 - 53) - e) with 0 by lia.
  reflexivity.
Qed.

Lemma shr_fexp_carry (e : Z) :
  -1074 <= e ->
  shr_fexp prec emax (2 ^ 53) e loc_Exact
  = ({| shr_m := 2 ^ 52; shr_r := false; shr_s := false |}, e + 1).
Proof.
  intros He. unfold shr_fexp.
  change (Zdigits2 (2 ^ 53)) with 54.
  unfold fexp, emin, prec, emax.
  replace (Z.max (54 + e - 53) (3 - 1024 - 53) - e) with 1 by lia.
  reflexivity.
Qed.

(** The rounding of a positive integer of [53 + k] bits, [k >= 1]: the
    [k] low bits are dropped, and the mantissa is rounded up only when
    the first of them is set, and always when the mantissa is odd as
    well. *)
Lemma binary_round_aux_long (s : bool) (p : positive) (k : Z) :
  1 <= k ->
  Zdigits2 (Zpos p) = 53 + k ->
  exists up : bool,
    (up = true -> Z.odd (Zpos p / 2 ^ (k - 1)) = true)
    /\ (Z.odd (Zpos p / 2 ^ (k - 1)) = true ->
        Z.odd (Zpos p / 2 ^ k) = true -> up = true)
    /\ binary_round_aux prec emax s (Zpos p) 0 loc_Exact
       = let m := Zpos p / 2 ^ k + (if up then 1 else 0) in
         if m =? 2 ^ 53
         then if k + 1 <=? 971 then S754_finite s (2 ^ 52) (k + 1)
              else S754_infinity s
         else if k <=? 971 then S754_finite s (Z.to_pos m) k
              else S754_infinity s.
Proof.
  intros Hk Hd.
  destruct (Zdigits2_spec p) as (_ & Hp). rewrite Hd in Hp.
  replace (53 + k - 1) with (52 + k) in Hp by lia.
  rewrite !Z.pow_add_r in Hp by lia.
  assert (H2k : 0 < 2 ^ k) by (apply Z.pow_pos_nonneg; lia).
  assert (Hm1 : 2 ^ 52 <= Zpos p / 2 ^ k < 2 ^ 53).
  { split.
    - apply Z.div_le_lower_bound; [exact H2k | lia].
    - apply Z.div_lt_upper_bound; [exact H2k | lia]. }
  assert (Hfirst : exists sb,
    shr_fexp prec emax (Zpos p) 0 loc_Exact
    = ({| shr_m := Zpos p / 2 ^ k;
          shr_r := Z.odd (Zpos p / 2 ^ (k - 1));
          shr_s := sb |}, k)).
  { unfold shr_fexp. rewrite Hd.
    unfold fexp, emin, prec, emax.
    replace (Z.max (53 + k + 0 - 53) (3 - 1024 - 53) - 0) with k by lia.
    cbn [shr_record_of_loc]. unfold shr.
    destruct k as [|kp|kp]; try lia.
    rewrite iter_pos_nat.
    destruct (Pos.to_nat kp) as [|n] eqn:En; [lia|].
    destruct (iter_shr_nonneg n (Zpos p) ltac:(lia)) as (sb & E).
    exists sb. rewrite E.
    replace (Z.of_nat (S n)) with (Zpos kp) by lia.
    replace (Z.of_nat n) with (Zpos kp - 1) by lia.
    reflexivity. }
  destruct Hfirst as (sb & Hfirst).
  exists (Z.odd (Zpos p / 2 ^ (k - 1)) && (sb || Z.odd (Zpos p / 2 ^ k))).
  split; [intros H; apply andb_prop in H; tauto|].
  split; [intros -> ->; rewrite orb_true_r; reflexivity|].
  unfold binary_round_aux. rewrite Hfirst.
  cbn [shr_m]. rewrite round_nearest_even_bits.
  cbv zeta.
  destruct (Z.odd (Zpos p / 2 ^ (k - 1)) && (sb || Z.odd (Zpos p / 2 ^ k))).
  - destruct (Z.eqb_spec (Zpos p / 2 ^ k + 1) (2 ^ 53)) as [E | E].
    + rewrite E, shr_fexp_carry by lia. reflexivity.
    + destruct (Zpos p / 2 ^ k + 1) as [|q|q] eqn:Eq; try lia.
      rewrite shr_fexp_normal by lia. reflexivity.
  - rewrite Z.add_0_r.
    destruct (Z.eqb_spec (Zpos p / 2 ^ k) (2 ^ 53)) as [E | E]; [lia|].
    destruct (Zpos p / 2 ^ k) as [|q|q] eqn:Eq; try lia.
    rewrite shr_fexp_normal by lia. reflexivity.
Qed.

Lemma binary_round_aux_normal (s : bool) (q : positive) (e : Z) :
  2 ^ 52 <= Zpos q < 2 ^ 53 ->
  -1074 <= e <= 971 ->
  binary_round_aux prec emax s (Zpos q) e loc_Exact = S754_finite s q e.
Proof.
  intros Hq He. unfold binary_round_aux.
  rewrite shr_fexp_normal by (try lia; exact Hq).
  cbn [shr_m loc_of_shr_record round_nearest_even].
  rewrite shr_fexp_normal by (try lia; exact Hq).
  cbn [shr_m]. unfold prec, emax.
  replace (e <=? 1024 - 53) with true by lia. reflexivity.
Qed.

Lemma pos_iter_xO (p d : positive) :
  Zpos (Pos.iter xO p d) = Zpos p * 2 ^ Zpos d.
Proof.
  rewrite <- Z.shiftl_mul_pow2 by lia. cbn [Z.shiftl].
  apply (Pos.iter_swap_gen _ _ Zpos xO (Z.mul 2)). reflexivity.
Qed.

(** An integer of at most 53 bits is a float. *)
Lemma binary_round_short (s : bool) (p : positive) :
  Zdigits2 (Zpos p) <= 53 ->
  exists m e, binary_round prec emax s p 0 = S754_finite s m e.
Proof.
  intros Hd.
  destruct (Zdigits2_spec p) as (Hpos & Hp).
  unfold binary_round.
  change (Zpos (digits2_pos p)) with (Zdigits2 (Zpos p)).
  unfold fexp, emin, prec, emax.
  replace (Z.max (Zdigits2 (Zpos p) + 0 - 53) (3 - 1024 - 53))
    with (Zdigits2 (Zpos p) - 53) by lia.
  unfold shl_align. rewrite Z.sub_0_r.
  destruct (Zdigits2 (Zpos p) - 53) as [|dd|dd] eqn:Ed; try lia.
  - eexists _, _. apply binary_round_aux_normal; [|lia].
    replace (Zdigits2 (Zpos p)) with 53 in Hp by lia. exact Hp.
  - eexists _, _. apply binary_round_aux_normal; [|lia].
    rewrite pos_iter_xO.
    replace (Zdigits2 (Zpos p)) with (53 - Zpos dd) in Hp by lia.
    assert (H52 : 2 ^ 52 = 2 ^ (53 - Zpos dd - 1) * 2 ^ Zpos dd)
      by (rewrite <- Z.pow_add_r by lia; f_equal; lia).
    assert (H53 : 2 ^ 53 = 2 ^ (53 - Zpos dd) * 2 ^ Zpos dd)
      by (rewrite <- Z.pow_add_r by lia; f_equal; lia).
    rewrite H52, H53.
    assert (0 < 2 ^ Zpos dd) by (apply Z.pow_pos_nonneg; lia).
    nia.
Qed.

(** The largest integers that [float()] takes lie just below
    [2^1024 - 2^970], half-way between the largest float and [2^1024]. *)
Lemma binary_round_range (s : bool) (p : positive) :
  (Zpos p < 2 ^ 1024 - 2 ^ 970 ->
   exists m e, binary_round prec emax s p 0 = S754_finite s m e)
  /\ (2 ^ 1024 - 2 ^ 970 <= Zpos p ->
      binary_round prec emax s p 0 = S754_infinity s).
Proof.
  destruct (Zdigits2_spec p) as (Hpos & Hp).
  destruct (Z_le_gt_dec (Zdigits2 (Zpos p)) 53) as [Hshort | Hlong].
  { split; [intros _; apply binary_round_short; exact Hshort|].
    intros Hbig. exfalso.
    assert (2 ^ Zdigits2 (Zpos p) <= 2 ^ 53)
      by (apply Z.pow_le_mono_r; lia).
    assert (2 ^ 53 < 2 ^ 1024 - 2 ^ 970) by reflexivity.
    lia. }
  remember (Zdigits2 (Zpos p) - 53) as k eqn:Edk.
  assert (Hk : 1 <= k) by lia.
  assert (Hd : Zdigits2 (Zpos p) = 53 + k) by lia.
  clear Edk.
  destruct (binary_round_aux_long s p k Hk Hd) as (up & Hup1 & Hup2 & E).
  assert (Hround : binary_round prec emax s p 0
                   = binary_round_aux prec emax s (Zpos p) 0 loc_Exact).
  { unfold binary_round.
    change (Zpos (digits2_pos p)) with (Zdigits2 (Zpos p)).
    unfold fexp, emin, prec, emax. rewrite Hd.
    replace (Z.max (53 + k + 0 - 53) (3 - 1024 - 53)) with k by lia.
    unfold shl_align. rewrite Z.sub_0_r.
    destruct k; try lia; reflexivity. }
  rewrite Hround, E. clear Hround E. cbv zeta.
  rewrite Hd in Hp. replace (53 + k - 1) with (52 + k) in Hp by lia.
  remember (2 ^ 970) as A eqn:EA.
  assert (HA : 0 < A) by (subst A; reflexivity).
  assert (E1024 : 2 ^ 1024 = 2 ^ 54 * A) by (subst A; reflexivity).
  (* the mantissa and the round bit when there are 1024 bits *)
  assert (Hedge : k = 971 ->
                  (2 ^ 54 * A - A <= Zpos p ->
                   Zpos p / 2 ^ k = 2 ^ 53 - 1
                   /\ Z.odd (Zpos p / 2 ^ (k - 1)) = true)
                  /\ (Zpos p < 2 ^ 54 * A - A ->
                      Zpos p / 2 ^ k = 2 ^ 53 - 1 ->
                      Z.odd (Zpos p / 2 ^ (k - 1)) = false)).
  { intros ->.
    replace (2 ^ (52 + 971)) with (2 ^ 53 * A) in Hp by (subst A; reflexivity).
    replace (2 ^ (53 + 971)) with (2 ^ 54 * A) in Hp by (subst A; reflexivity).
    replace (2 ^ 971) with (A * 2) by (subst A; reflexivity).
    replace (2 ^ (971 - 1)) with A by (subst A; reflexivity).
    rewrite <- Z.div_div by lia.
    split.
    - intros Hbig.
      assert (Hq : Zpos p / A = 2 ^ 54 - 1).
      { apply Z.le_antisymm.
        - assert (Zpos p / A < 2 ^ 54)
            by (apply Z.div_lt_upper_bound; lia). lia.
        - apply Z.div_le_lower_bound; lia. }
      rewrite Hq. split; reflexivity.
    - intros Hsmall Hm.
      assert (Hq : Zpos p / A < 2 ^ 54 - 1)
        by (apply Z.div_lt_upper_bound; lia).
      pose proof (Z.div_mod (Zpos p / A) 2 ltac:(lia)) as Hdm.
      pose proof (Z.mod_pos_bound (Zpos p / A) 2 ltac:(lia)) as Hb.
      rewrite Zodd_mod.
      destruct (Z.eqb_spec (Zpos p / A mod 2) 1); [lia | reflexivity]. }
  assert (Hm1 : 2 ^ 52 <= Zpos p / 2 ^ k < 2 ^ 53).
  { rewrite !Z.pow_add_r in Hp by lia.
    assert (0 < 2 ^ k) by (apply Z.pow_pos_nonneg; lia).
    split.
    - apply Z.div_le_lower_bound; lia.
    - apply Z.div_lt_upper_bound; lia. }
  assert (Hkd : forall c, 0 <= c -> Zpos p < 2 ^ c -> 52 + k < c).
  { intros c Hc Hlt.
    destruct (Z_lt_le_dec (52 + k) c) as [|Hle]; [assumption|].
    assert (2 ^ c <= 2 ^ (52 + k)) by (apply Z.pow_le_mono_r; lia). lia. }
  assert (Hdk : forall c, 0 <= c -> 2 ^ c <= Zpos p -> c < 53 + k).
  { intros c Hc Hle.
    destruct (Z_lt_le_dec c (53 + k)) as [|Hge]; [assumption|].
    assert (2 ^ (53 + k) <= 2 ^ c) by (apply Z.pow_le_mono_r; lia). lia. }
  split.
  - intros Hfit.
    assert (Hk971 : k <= 971).
    { assert (52 + k < 1024) by (apply Hkd; lia). lia. }
    replace (k <=? 971) with true by lia.
    destruct (Z.eqb_spec (Zpos p / 2 ^ k + (if up then 1 else 0)) (2 ^ 53))
      as [Em | Em].
    + destruct (Z.leb_spec (k + 1) 971); [eexists _, _; reflexivity|].
      exfalso. assert (k = 971) by lia.
      destruct (Hedge H0) as (_ & Hno).
      destruct up; [|lia].
      rewrite Hno in Hup1; [specialize (Hup1 eq_refl); discriminate | lia | lia].
    + eexists _, _; reflexivity.
  - intros Hbig.
    assert (Hk971 : 971 <= k).
    { assert (1023 < 53 + k).
      { apply Hdk; [lia|].
        assert (2 ^ 1023 <= 2 ^ 54 * A - A) by (subst A; discriminate). lia. }
      lia. }
    destruct (Z.eq_dec k 971) as [Ek | Ek].
    + destruct (Hedge Ek) as (Hyes & _).
      destruct (Hyes ltac:(lia)) as (Hm & Hr).
      assert (Hup : up = true).
      { apply Hup2; [exact Hr|]. rewrite Hm. reflexivity. }
      rewrite Hup, Hm. subst k. reflexivity.
    + replace (k <=? 971) with false by lia.
      replace (k + 1 <=? 971) with false by lia.
      destruct (_ =? _); reflexivity.
Qed.

(** [float(n)] returns exactly when [|n| < 2^1024 - 2^970]; beyond, it
    raises [OverflowError]. *)
Lemma float_of_int_fits (n : Z) :
  Z.abs n < 2 ^ 1024 - 2 ^ 970 -> exists f, float_of_int n = Ok f.
Proof.
  intros Hn. unfold float_of_int, binary_normalize.
  destruct n as [|p|p].
  - eexists; reflexivity.
  - destruct (proj1 (binary_round_range false p) Hn) as (m & e & ->).
    eexists; reflexivity.
  - destruct (proj1 (binary_round_range true p) Hn) as (m & e & ->).
    eexists; reflexivity.
Qed.

Lemma float_of_int_overflows (n : Z) :
  2 ^ 1024 - 2 ^ 970 <= Z.abs n -> float_of_int n = Raise OverflowError.
Proof.
  intros Hn. unfold float_of_int, binary_normalize.
  destruct n as [|p|p].
  - exfalso. assert (0 < 2 ^ 1024 - 2 ^ 970) by reflexivity.
    change (Z.abs 0) with 0 in Hn. lia.
  - rewrite (proj2 (binary_round_range false p) Hn). reflexivity.
  - rewrite (proj2 (binary_round_range true p) Hn). reflexivity.
Qed.
(* ================================================================== *)
(** * The primitives, case by case *)

Lemma human_fits (n : Z) : fits_float n -> exists s, Human.human n = Ok s.
Proof.
  intros Hn. unfold Human.human.
  destruct (float_of_int_fits n Hn) as (f & ->). eexists; reflexivity.
Qed.

Lemma human_overflows (n : Z) :
  ~ fits_float n -> Human.human n = Raise OverflowError.
Proof.
  intros Hn. unfold Human.human.
  rewrite float_of_int_overflows; [reflexivity|]. unfold fits_float in Hn. lia.
Qed.

Lemma fits_float_dec (n : Z) : {fits_float n} + {~ fits_float n}.
Proof. unfold fits_float. destruct (Z_lt_dec (Z.abs n) (2 ^ 1024 - 2 ^ 970)); auto. Qed.

Lemma format_sizes_fits (l : list Z) :
  Forall fits_float l -> format_sizes l = Ok tt.
Proof.
  induction 1 as [|n l Hn _ IH]; [reflexivity|].
  cbn [format_sizes]. destruct (human_fits n Hn) as (s & ->). exact IH.
Qed.

Lemma format_sizes_cases (l : list Z) :
  (Forall fits_float l /\ format_sizes l = Ok tt)
  \/ (~ Forall fits_float l /\ format_sizes l = Raise OverflowError).
Proof.
  induction l as [|n l IH]; [left; split; [constructor | reflexivity]|].
  cbn [format_sizes].
  destruct (fits_float_dec n) as [Hn | Hn].
  - destruct (human_fits n Hn) as (s & ->).
    destruct IH as [(Hl & E) | (Hl & E)].
    + left. split; [constructor; assumption | exact E].
    + right. split; [|exact E]. intros H. inversion H; auto.
  - right. rewrite (human_overflows n Hn). split; [|reflexivity].
    intros H. inversion H; auto.
Qed.

(** A record is logged, or building its message raises [OverflowError]
    and nothing is logged. *)
Lemma log_cases {V : Type} (r : record) (v : V) (h : trace) :
  (Forall fits_float (sizes_shown r)
   /\ log r v h = (Done tt, v, h ++ [EvLog r]))
  \/ (~ Forall fits_float (sizes_shown r)
      /\ log r v h = (Threw OverflowError, v, h)).
Proof.
  unfold log, bind, lift, emit.
  destruct (format_sizes_cases (sizes_shown r)) as [(H & ->) | (H & ->)];
    [left | right]; split; auto.
Qed.

Lemma log_fits {V : Type} (r : record) (v : V) (h : trace) :
  Forall fits_float (sizes_shown r) ->
  log r v h = (Done tt, v, h ++ [EvLog r]).
Proof.
  intros H. destruct (log_cases r v h) as [(_ & E) | (Hn & _)];
    [exact E | contradiction].
Qed.

Lemma log_plain {V : Type} (r : record) (v : V) (h : trace) :
  sizes_shown r = [] -> log r v h = (Done tt, v, h ++ [EvLog r]).
Proof. intros E. apply log_fits. rewrite E. constructor. Qed.

Lemma log_then {V A : Type} (r : record) (k : M V A) (v : V) (h : trace) :
  (Forall fits_float (sizes_shown r)
   /\ (log r ;;; k) v h = k v (h ++ [EvLog r]))
  \/ (~ Forall fits_float (sizes_shown r)
      /\ (log r ;;; k) v h = (Threw OverflowError, v, h)).
Proof.
  unfold bind.
  destruct (log_cases r v h) as [(Hf & ->) | (Hf & ->)];
    [left | right]; (split; [exact Hf | reflexivity]).
Qed.

(** [bytearray(n)], case by case. *)
Lemma py_bytearray_cases {V : Type} (w : World) (n : Z) (v : V) (h : trace) :
  (0 <= n < 2 ^ 63 /\ alloc_ok w h n = true
   /\ py_bytearray w n v h = (Done (mk_bytearray n), v, h ++ [EvAlloc n]))
  \/ (0 <= n < 2 ^ 63 /\ alloc_ok w h n = false
      /\ py_bytearray w n v h = (Threw MemoryError, v, h ++ [EvAllocFailed n]))
  \/ (- 2 ^ 63 <= n < 0 /\ py_bytearray w n v h = (Threw ValueError, v, h))
  \/ (~ fits_index n /\ py_bytearray w n v h = (Threw OverflowError, v, h)).
Proof.
  unfold py_bytearray, fits_index.
  destruct (Z.ltb_spec n (- 2 ^ 63)); cbn [orb];
    [right; right; right; split; [lia | reflexivity]|].
  destruct (Z.leb_spec (2 ^ 63) n);
    [right; right; right; split; [lia | reflexivity]|].
  destruct (Z.ltb_spec n 0);
    [right; right; left; split; [lia | reflexivity]|].
  destruct (alloc_ok w h n) eqn:E;
    [left | right; left]; repeat split; auto; lia.
Qed.

(** [time.sleep(d)], case by case. *)
Lemma sleep_length_sleepable (d : Q) : sleepable d -> sleep_length d = Ok tt.
Proof.
  intros (H0 & Hn). unfold sleep_length.
  assert (E1 : Qle_bool (d * inject_Z (10 ^ 9)) (inject_Z (2 ^ 63 + 1024)) = true).
  { apply Qle_bool_iff. apply Qlt_le_weak.
    eapply Qlt_le_trans; [exact Hn|]. rewrite <- Zle_Qle. lia. }
  assert (E2 : Qle_bool (inject_Z (- (2 ^ 63 + 1024))) (d * inject_Z (10 ^ 9)) = true).
  { apply Qle_bool_iff.
    apply Qle_trans with (inject_Z 0); [rewrite <- Zle_Qle; lia|].
    apply Qmult_le_0_compat; [exact H0|].
    change 0%Q with (inject_Z 0). rewrite <- Zle_Qle. lia. }
  assert (E3 : Qle_bool 0 d = true) by (apply Qle_bool_iff; exact H0).
  assert (E4 : Qle_bool (inject_Z (2 ^ 63 - 512)) (d * inject_Z (10 ^ 9)) = false).
  { destruct (Qle_bool (inject_Z (2 ^ 63 - 512)) _) eqn:E; [|reflexivity].
    apply Qle_bool_iff in E. exfalso. exact (Qlt_not_le _ _ Hn E). }
  rewrite E1, E2, E3, E4. reflexivity.
Qed.

Lemma sleep_length_cases (d : Q) :
  sleep_length d = Ok tt
  \/ sleep_length d = Raise ValueError
  \/ sleep_length d = Raise OverflowError.
Proof.
  unfold sleep_length.
  destruct (_ && _); [|auto]. destruct (_ && _); auto.
Qed.

Lemma time_sleep_cases {V : Type} (w : World) (d : Q) (v : V) (h : trace) :
  time_sleep w d v h = (Done tt, v, h ++ [EvSleep d])
  \/ exists e, e <> MemoryError /\ time_sleep w d v h = (Threw e, v, h).
Proof.
  unfold time_sleep, bind, lift.
  destruct (sleep_length_cases d) as [-> | [-> | ->]]; cbn [ret raise].
  - destruct (sleep_ok w h d); [left; reflexivity|].
    right. exists OSError. split; [discriminate | reflexivity].
  - right. exists ValueError. split; [discriminate | reflexivity].
  - right. exists OverflowError. split; [discriminate | reflexivity].
Qed.

Lemma time_sleep_ok {V : Type} (w : World) (d : Q) (v : V) (h : trace) :
  sleepable d -> sleep_ok w h d = true ->
  time_sleep w d v h = (Done tt, v, h ++ [EvSleep d]).
Proof.
  intros Hd Hk. unfold time_sleep, bind, lift.
  rewrite (sleep_length_sleepable d Hd). cbn [ret]. rewrite Hk. reflexivity.
Qed.

(** [x + n] for a time and an int. *)
Lemma time_plus_int_fits (x : Q) (n : Z) :
  fits_float n -> time_plus_int x n = Ok (x + inject_Z n)%Q.
Proof.
  intros Hn. unfold time_plus_int.
  destruct (float_of_int_fits n Hn) as (f & ->). reflexivity.
Qed.

Lemma time_plus_int_cases (x : Q) (n : Z) :
  (fits_float n /\ time_plus_int x n = Ok (x + inject_Z n)%Q)
  \/ (~ fits_float n /\ time_plus_int x n = Raise OverflowError).
Proof.
  destruct (fits_float_dec n) as [Hn | Hn].
  - left. split; [exact Hn | apply time_plus_int_fits; exact Hn].
  - right. split; [exact Hn|]. unfold time_plus_int.
    rewrite float_of_int_overflows; [reflexivity|]. unfold fits_float in Hn. lia.
Qed.
(* ================================================================== *)
(** * Reasoning about [while] loops *)

(** Induction over the passes of a loop: a relation between the state
    before the loop and its ending holds as soon as it holds where the
    loop can end and is carried backwards over one more pass. *)
Lemma while_loop_ind {V : Type} (cond : V -> bool) (body : M V flow)
    (P : V -> trace -> outcome unit -> V -> trace -> Prop) :
  (forall v h, cond v = false -> P v h (Done tt) v h) ->
  (forall v h, cond v = true -> P v h OutOfFuel v h) ->
  (forall v h v1 h1, cond v = true ->
      body v h = (Done Break, v1, h1) -> P v h (Done tt) v1 h1) ->
  (forall v h e v1 h1, cond v = true ->
      body v h = (Threw e, v1, h1) -> P v h (Threw e) v1 h1) ->
  (forall v h v1 h1, cond v = true ->
      body v h = (OutOfFuel, v1, h1) -> P v h OutOfFuel v1 h1) ->
  (forall v h v1 h1 r v2 h2, cond v = true ->
      body v h = (Done Continue, v1, h1) ->
      P v1 h1 r v2 h2 -> P v h r v2 h2) ->
  forall fuel v h r v' h',
    while_loop fuel cond body v h = (r, v', h') -> P v h r v' h'.
Proof.
  intros Hexit Hfuel Hbreak Hthrew Hout Hstep.
  induction fuel as [|fuel IH]; intros v h r v' h' Hrun; simpl in Hrun.
  - destruct (cond v) eqn:Hc; inversion Hrun; subst; auto.
  - destruct (cond v) eqn:Hc.
    + destruct (body v h) as [[rb v1] h1] eqn:Hb.
      destruct rb as [[|]|e|].
      * eapply Hstep; eauto.
      * inversion Hrun; subst. eapply Hbreak; eauto.
      * inversion Hrun; subst. eapply Hthrew; eauto.
      * inversion Hrun; subst. eapply Hout; eauto.
    + inversion Hrun; subst; auto.
Qed.

Lemma while_loop_exit {V : Type} (fuel : nat) (cond : V -> bool)
    (body : M V flow) (v : V) (h : trace) :
  cond v = false -> while_loop fuel cond body v h = (Done tt, v, h).
Proof. intros Hc. destruct fuel; simpl; rewrite Hc; reflexivity. Qed.

Lemma while_loop_spent {V : Type} (cond : V -> bool) (body : M V flow)
    (v : V) (h : trace) :
  cond v = true -> while_loop 0 cond body v h = (OutOfFuel, v, h).
Proof. intros Hc. simpl; rewrite Hc; reflexivity. Qed.

Lemma while_loop_continue {V : Type} (fuel : nat) (cond : V -> bool)
    (body : M V flow) (v v1 : V) (h h1 : trace) :
  cond v = true -> body v h = (Done Continue, v1, h1) ->
  while_loop (S fuel) cond body v h = while_loop fuel cond body v1 h1.
Proof. intros Hc Hb. simpl; rewrite Hc, Hb; reflexivity. Qed.

Lemma while_loop_break {V : Type} (fuel : nat) (cond : V -> bool)
    (body : M V flow) (v v1 : V) (h h1 : trace) :
  cond v = true -> body v h = (Done Break, v1, h1) ->
  while_loop (S fuel) cond body v h = (Done tt, v1, h1).
Proof. intros Hc Hb. simpl; rewrite Hc, Hb; reflexivity. Qed.

Lemma while_loop_threw {V : Type} (fuel : nat) (cond : V -> bool)
    (body : M V flow) (v v1 : V) (h h1 : trace) (e : exn) :
  cond v = true -> body v h = (Threw e, v1, h1) ->
  while_loop (S fuel) cond body v h = (Threw e, v1, h1).
Proof. intros Hc Hb. simpl; rewrite Hc, Hb; reflexivity. Qed.

(* ================================================================== *)
(** * The memory-pressure loop: lemmas for both programs *)

Lemma total_len_app (bs : list bytearray) (b : bytearray) :
  total_len (bs ++ [b]) = total_len bs + ba_len b.
Proof.
  induction bs as [|x bs IH]; simpl; [lia|].
  unfold total_len in *; simpl; lia.
Qed.

Lemma planned_app (target block_bytes : Z) (bs : list bytearray) :
  forall done b,
    planned target block_bytes done bs ->
    ba_len b = Z.min block_bytes (target - (done + total_len bs)) ->
    planned target block_bytes done (bs ++ [b]).
Proof.
  induction bs as [|x bs IH]; intros done b Hp Hb; simpl in *.
  - split; [|exact I]. rewrite Hb. f_equal. unfold total_len; simpl. lia.
  - destruct Hp as [Hx Hp]. split; [exact Hx|].
    apply IH; [exact Hp|]. rewrite Hb. f_equal.
    unfold total_len; simpl. fold (total_len bs). lia.
Qed.

Lemma allocated_in_app (t1 t2 : trace) :
  allocated_in (t1 ++ t2) = allocated_in t1 + allocated_in t2.
Proof.
  induction t1 as [|e t1 IH]; simpl; [lia|].
  destruct e; simpl; lia.
Qed.

Lemma allocs_of_app (t1 t2 : trace) :
  allocs_of (t1 ++ t2) = allocs_of t1 ++ allocs_of t2.
Proof.
  induction t1 as [|e t1 IH]; simpl; [reflexivity|].
  destruct e; simpl; rewrite ?IH; reflexivity.
Qed.

Lemma no_alloc_allocs_of (t : trace) : no_alloc t -> allocs_of t = [].
Proof.
  unfold no_alloc. induction t as [|e t IH]; simpl; [reflexivity|].
  intros H. apply andb_prop in H as [He Ht].
  destruct e; simpl in *; try discriminate; auto.
Qed.

Lemma no_alloc_app (t1 t2 : trace) :
  no_alloc t1 -> no_alloc t2 -> no_alloc (t1 ++ t2).
Proof.
  unfold no_alloc; intros H1 H2. rewrite forallb_app, H1, H2. reflexivity.
Qed.

Lemma no_alloc_allocated_in (t : trace) : no_alloc t -> allocated_in t = 0.
Proof.
  unfold no_alloc. induction t as [|e t IH]; simpl; [reflexivity|].
  intros H. apply andb_prop in H as [He Ht].
  destruct e; simpl in *; try discriminate; auto.
Qed.

Lemma no_alloc_not_failed (t : trace) (n : Z) :
  no_alloc t -> ~ In (EvAllocFailed n) t.
Proof.
  unfold no_alloc. intros H Hin.
  rewrite forallb_forall in H. apply H in Hin. discriminate.
Qed.

Lemma no_failure_around (t1 t2 : trace) (b n : Z) :
  no_alloc t1 -> no_alloc t2 -> ~ In (EvAllocFailed n) (t1 ++ EvAlloc b :: t2).
Proof.
  intros H1 H2 Hin. apply in_app_or in Hin as [Hin | [Hin | Hin]].
  - exact (no_alloc_not_failed _ _ H1 Hin).
  - discriminate.
  - exact (no_alloc_not_failed _ _ H2 Hin).
Qed.

Lemma mem_inv_init (target block_bytes : Z) :
  mem_inv target block_bytes {| blocks := []; allocated := 0 |}.
Proof. unfold mem_inv; simpl. repeat split; lia. Qed.

Lemma pass_keeps_inv (target block_bytes : Z) (v v' : mem_vars)
    (r : outcome flow) (t : trace) :
  allocated v < target ->
  pass target block_bytes v r v' t ->
  mem_inv target block_bytes v -> mem_inv target block_bytes v'.
Proof.
  intros Hlt Hp (Hsum & Hpl & Hle).
  destruct Hp as [ | | | r t1 t2 bsz Hb H1 H2 Hr];
    try (split; [|split]; assumption).
  unfold mem_inv; simpl. repeat split.
  - rewrite total_len_app; simpl. lia.
  - apply planned_app; [exact Hpl|]. simpl. rewrite <- Hsum. reflexivity.
  - lia.
  - subst bsz. lia.
Qed.

(** Unfolds the monad in a hypothesis or the goal. *)
Ltac unfold_monad :=
  unfold log, join, touch_pages, lift, call in *;
  unfold bind, ret, raise, get, put, emit,
    read_mem_current, read_cgroup_limits, read_mem_peak, read_self_rss,
    read_mem_events_v2, read_cpu_stat_v2, py_bytearray,
    time_time, time_sleep, sched_getaffinity, start_process, fs in *.

(** Unfolds the monad and leaves the calls that can raise as they are. *)
Ltac unfold_steps :=
  unfold join, touch_pages, call in *;
  unfold bind, ret, raise, get, put, emit,
    read_mem_current, read_cgroup_limits, read_mem_peak, read_self_rss,
    read_mem_events_v2, read_cpu_stat_v2,
    time_time, sched_getaffinity, start_process, fs in *.

(** The next record is logged or its message raises. *)
Ltac log_step :=
  match goal with
  | |- context [log ?r ?v ?h] =>
      destruct (log_cases r v h) as [(_ & ->) | (_ & ->)]
  end.

Ltac alloc_step Hb Ha :=
  match goal with
  | |- context [py_bytearray ?w ?n ?v ?h] =>
      destruct (py_bytearray_cases w n v h)
        as [(Hb & Ha & ->) | [(Hb & Ha & ->) | [(Hb & ->) | (Hb & ->)]]]
  end.

Ltac sleep_step e He :=
  match goal with
  | |- context [time_sleep ?w ?d ?v ?h] =>
      destruct (time_sleep_cases w d v h) as [-> | (e & He & ->)]
  end.

(** Splits a pass on every call that can raise. *)
Ltac body_split :=
  repeat first
    [ log_step
    | match goal with
      | |- context [py_bytearray ?w ?n ?v ?h] =>
          destruct (py_bytearray_cases w n v h)
            as [(_ & _ & ->) | [(_ & _ & ->) | [(_ & ->) | (_ & ->)]]]
      end
    | match goal with
      | |- context [time_sleep ?w ?d ?v ?h] =>
          destruct (time_sleep_cases w d v h) as [-> | (? & _ & ->)]
      end ].

(** Reads the ending of a pass off its equation and names what it
    added to the trace. *)
Ltac body_result :=
  let H := fresh "H" in
  intros H; injection H as ? ? ?;
  repeat match goal with
         | E : _ = ?x |- _ => is_var x; subst x
         end;
  eexists; repeat rewrite <- app_assoc; (split; [reflexivity|]);
  cbn [app].

Ltac no_alloc_tac :=
  repeat (apply no_alloc_app); reflexivity.

(** Closes a case of a pass: the result is read off the equation, and
    the trace is put in the shape of the constructor [c]. *)
Ltac pass_case c :=
  let H := fresh "H" in
  intros H; injection H as ? ? ?;
  repeat match goal with
         | E : _ = ?x |- _ => is_var x; subst x
         end;
  eexists; repeat rewrite <- app_assoc; (split; [reflexivity|]);
  cbn [app]; c.

Lemma mem_burst_body_pass (w : World) (want block_bytes headroom : Z)
    (lim : option Z) (v v' : mem_vars) (h h' : trace) (r : outcome flow) :
  Qimi2Sim.mem_burst_body w want block_bytes headroom lim v h = (r, v', h') ->
  exists t, h' = h ++ t /\ pass want block_bytes v r v' t.
Proof.
  unfold Qimi2Sim.mem_burst_body. unfold_steps.
  destruct (headroom_reached lim _ headroom).
  - rewrite log_plain by reflexivity.
    pass_case ltac:(apply pass_stop; reflexivity).
  - log_step.
    + alloc_step Hb Ha.
      * log_step.
        -- pass_case ltac:(
             apply (pass_appended want block_bytes v (Done Continue)
                      [EvReadCurrent _; EvLog _] [_; _; _; _]);
             [lia | reflexivity | reflexivity | left; reflexivity]).
        -- pass_case ltac:(
             apply (pass_appended want block_bytes v (Threw OverflowError)
                      [EvReadCurrent _; EvLog _] [_; _; _]);
             [lia | reflexivity | reflexivity
             | right; eexists; split; [reflexivity | discriminate]]).
      * pass_case ltac:(
          apply (pass_exhausted want block_bytes v [EvReadCurrent _; EvLog _]);
          [lia | reflexivity]).
      * pass_case ltac:(apply pass_refused; [discriminate | reflexivity]).
      * pass_case ltac:(apply pass_refused; [discriminate | reflexivity]).
    + pass_case ltac:(apply pass_refused; [discriminate | reflexivity]).
Qed.

Lemma allocate_slow_body_pass (w : World) (total block_bytes : Z) (pause : Q)
    (headroom : Z) (v v' : mem_vars) (h h' : trace) (r : outcome flow) :
  Stress.allocate_slow_body w total block_bytes pause headroom v h = (r, v', h') ->
  exists t, h' = h ++ t /\ pass total block_bytes v r v' t.
Proof.
  unfold Stress.allocate_slow_body. unfold_steps.
  destruct (headroom_reached _ _ headroom).
  - rewrite log_plain by reflexivity.
    pass_case ltac:(apply pass_stop; reflexivity).
  - log_step.
    + alloc_step Hb Ha.
      * log_step.
        -- sleep_step e He.
           ++ pass_case ltac:(
                apply (pass_appended total block_bytes v (Done Continue)
                         [EvReadCurrent _; EvReadLimits _; EvLog _]
                         [_; _; _; _; _; _; _]);
                [lia | reflexivity | reflexivity | left; reflexivity]).
           ++ pass_case ltac:(
                apply (pass_appended total block_bytes v (Threw e)
                         [EvReadCurrent _; EvReadLimits _; EvLog _]
                         [_; _; _; _; _; _]);
                [lia | reflexivity | reflexivity
                | right; eexists; split; [reflexivity | assumption]]).
        -- pass_case ltac:(
             apply (pass_appended total block_bytes v (Threw OverflowError)
                      [EvReadCurrent _; EvReadLimits _; EvLog _]
                      [_; _; _; _; _]);
             [lia | reflexivity | reflexivity
             | right; eexists; split; [reflexivity | discriminate]]).
      * pass_case ltac:(
          apply (pass_exhausted total block_bytes v
                   [EvReadCurrent _; EvReadLimits _; EvLog _]);
          [lia | reflexivity]).
      * pass_case ltac:(apply pass_refused; [discriminate | reflexivity]).
      * pass_case ltac:(apply pass_refused; [discriminate | reflexivity]).
    + pass_case ltac:(apply pass_refused; [discriminate | reflexivity]).
Qed.

(** A size between two sizes that can be shown can be shown. *)
Lemma fits_float_between (a b n : Z) :
  fits_float a -> fits_float b -> a <= n <= b -> fits_float n.
Proof. unfold fits_float. lia. Qed.

Lemma fits_float_small (n : Z) : Z.abs n <= 2 ^ 64 -> fits_float n.
Proof.
  unfold fits_float. intros Hn.
  assert (2 ^ 64 < 2 ^ 1024 - 2 ^ 970) by reflexivity. lia.
Qed.

(** A pass that allocates, and a pass whose allocation is refused. *)
Lemma mem_burst_body_allocates (w : World) (want block_bytes headroom : Z)
    (lim : option Z) (v : mem_vars) (h : trace) :
  let bsz := Z.min block_bytes (want - allocated v) in
  let t1 := [EvReadCurrent (current_of w h); EvLog (QPlan bsz (allocated v))] in
  headroom_reached lim (current_of w h) headroom = false ->
  0 <= bsz < 2 ^ 63 ->
  fits_float bsz -> fits_float (allocated v) ->
  fits_float (allocated v + bsz) ->
  alloc_ok w (h ++ t1) bsz = true ->
  exists pages cur peak,
    Qimi2Sim.mem_burst_body w want block_bytes headroom lim v h =
    (Done Continue,
     {| blocks := blocks v ++ [mk_bytearray bsz];
        allocated := allocated v + bsz |},
     h ++ t1 ++ EvAlloc bsz
       :: [EvTouch (mk_bytearray bsz) pages; EvReadCurrent cur;
           EvReadPeak peak;
           EvLog (QAllocated (allocated v + bsz) cur peak lim)]).
Proof.
  intros bsz t1 Hhr Hb Hf1 Hf2 Hf3 Hok. subst t1.
  unfold Qimi2Sim.mem_burst_body. unfold_steps. rewrite Hhr.
  rewrite log_fits by (repeat constructor; assumption).
  fold bsz. rewrite <- app_assoc. cbn [app].
  destruct (py_bytearray_cases w bsz v
              (h ++ [EvReadCurrent (current_of w h);
                     EvLog (QPlan bsz (allocated v))]))
    as [(_ & _ & ->) | [(_ & Ha & _) | [(Hn & _) | (Hn & _)]]];
    [| congruence | lia | unfold fits_index in Hn; lia].
  rewrite log_fits by (repeat constructor; assumption).
  eexists _, _, _. repeat rewrite <- app_assoc. cbn [app]. reflexivity.
Qed.

Lemma mem_burst_body_exhausts (w : World) (want block_bytes headroom : Z)
    (lim : option Z) (v : mem_vars) (h : trace) :
  let bsz := Z.min block_bytes (want - allocated v) in
  let t1 := [EvReadCurrent (current_of w h); EvLog (QPlan bsz (allocated v))] in
  headroom_reached lim (current_of w h) headroom = false ->
  0 <= bsz < 2 ^ 63 ->
  fits_float bsz -> fits_float (allocated v) ->
  alloc_ok w (h ++ t1) bsz = false ->
  Qimi2Sim.mem_burst_body w want block_bytes headroom lim v h =
  (Threw MemoryError, v, h ++ t1 ++ [EvAllocFailed bsz]).
Proof.
  intros bsz t1 Hhr Hb Hf1 Hf2 Hok. subst t1.
  unfold Qimi2Sim.mem_burst_body. unfold_steps. rewrite Hhr.
  rewrite log_fits by (repeat constructor; assumption).
  fold bsz. rewrite <- app_assoc. cbn [app].
  destruct (py_bytearray_cases w bsz v
              (h ++ [EvReadCurrent (current_of w h);
                     EvLog (QPlan bsz (allocated v))]))
    as [(_ & Ha & _) | [(_ & _ & ->) | [(Hn & _) | (Hn & _)]]];
    [congruence | | lia | unfold fits_index in Hn; lia].
  repeat rewrite <- app_assoc. reflexivity.
Qed.

Lemma allocate_slow_body_allocates (w : World) (total block_bytes : Z)
    (pause : Q) (headroom : Z) (v : mem_vars) (h : trace) :
  let bsz := Z.min block_bytes (total - allocated v) in
  let cur := current_of w h in
  let l := limits_of w (h ++ [EvReadCurrent cur]) in
  let t1 := [EvReadCurrent cur; EvReadLimits l;
             EvLog (SPlanNext bsz (allocated v) cur)] in
  headroom_reached (mem_limit_of l) cur headroom = false ->
  0 <= bsz < 2 ^ 63 ->
  fits_float bsz -> fits_float (allocated v) ->
  fits_float (allocated v + bsz) ->
  alloc_ok w (h ++ t1) bsz = true ->
  sleepable pause -> sleeps_succeed w ->
  exists pages cur' peak rss ev,
    Stress.allocate_slow_body w total block_bytes pause headroom v h =
    (Done Continue,
     {| blocks := blocks v ++ [mk_bytearray bsz];
        allocated := allocated v + bsz |},
     h ++ t1 ++ EvAlloc bsz
       :: [EvTouch (mk_bytearray bsz) pages; EvReadCurrent cur';
           EvReadPeak peak; EvReadRss rss; EvReadMemEvents ev;
           EvLog (SProgress (allocated v + bsz) (S (List.length (blocks v)))
                    cur' peak rss (mem_limit_of l) ev);
           EvSleep pause]).
Proof.
  intros bsz cur l t1 Hhr Hb Hf1 Hf2 Hf3 Hok Hp Hs. subst t1.
  unfold Stress.allocate_slow_body. unfold_steps.
  fold cur. fold l. rewrite Hhr.
  rewrite log_fits by (repeat constructor; assumption).
  fold bsz. repeat rewrite <- app_assoc. cbn [app].
  destruct (py_bytearray_cases w bsz v
              (h ++ [EvReadCurrent cur; EvReadLimits l;
                     EvLog (SPlanNext bsz (allocated v) cur)]))
    as [(_ & _ & ->) | [(_ & Ha & _) | [(Hn & _) | (Hn & _)]]];
    [| congruence | lia | unfold fits_index in Hn; lia].
  rewrite log_fits by (repeat constructor; assumption).
  rewrite time_sleep_ok by (try exact Hp; apply Hs).
  eexists _, _, _, _, _. repeat rewrite <- app_assoc. cbn [app]. reflexivity.
Qed.

Lemma allocate_slow_body_exhausts (w : World) (total block_bytes : Z)
    (pause : Q) (headroom : Z) (v : mem_vars) (h : trace) :
  let bsz := Z.min block_bytes (total - allocated v) in
  let cur := current_of w h in
  let l := limits_of w (h ++ [EvReadCurrent cur]) in
  let t1 := [EvReadCurrent cur; EvReadLimits l;
             EvLog (SPlanNext bsz (allocated v) cur)] in
  headroom_reached (mem_limit_of l) cur headroom = false ->
  0 <= bsz < 2 ^ 63 ->
  fits_float bsz -> fits_float (allocated v) ->
  alloc_ok w (h ++ t1) bsz = false ->
  Stress.allocate_slow_body w total block_bytes pause headroom v h =
  (Threw MemoryError, v, h ++ t1 ++ [EvAllocFailed bsz]).
Proof.
  intros bsz cur l t1 Hhr Hb Hf1 Hf2 Hok. subst t1.
  unfold Stress.allocate_slow_body. unfold_steps.
  fold cur. fold l. rewrite Hhr.
  rewrite log_fits by (repeat constructor; assumption).
  fold bsz. repeat rewrite <- app_assoc. cbn [app].
  destruct (py_bytearray_cases w bsz v
              (h ++ [EvReadCurrent cur; EvReadLimits l;
                     EvLog (SPlanNext bsz (allocated v) cur)]))
    as [(_ & Ha & _) | [(_ & _ & ->) | [(Hn & _) | (Hn & _)]]];
    [congruence | | lia | unfold fits_index in Hn; lia].
  repeat rewrite <- app_assoc. reflexivity.
Qed.

Section MemoryLoop.
Variables target block_bytes : Z.
Variable body : M mem_vars flow.
Hypothesis body_pass : forall v h r v' h',
    body v h = (r, v', h') ->
    exists t, h' = h ++ t /\ pass target block_bytes v r v' t.

Let cond : mem_vars -> bool := fun v => allocated v <? target.

  (** The invariant holds wherever the loop stands when it ends or when
      the fuel is spent, that is, after any number of passes. *)
Lemma loop_keeps_inv (fuel : nat) (v v' : mem_vars) (h h' : trace)
      (r : outcome unit) :
    while_loop fuel cond body v h = (r, v', h') ->
    mem_inv target block_bytes v -> mem_inv target block_bytes v'.
  Proof.
    revert fuel v h r v' h'.
    apply (while_loop_ind cond body
             (fun v _ _ v' _ => mem_inv target block_bytes v ->
                                mem_inv target block_bytes v')); auto.
    - intros v h v1 h1 Hc Hb Hi.
      apply body_pass in Hb as (t & _ & Hp).
      eapply pass_keeps_inv; eauto. unfold cond in Hc; lia.
    - intros v h e v1 h1 Hc Hb Hi.
      apply body_pass in Hb as (t & _ & Hp).
      eapply pass_keeps_inv; eauto. unfold cond in Hc; lia.
    - intros v h v1 h1 Hc Hb Hi.
      apply body_pass in Hb as (t & _ & Hp).
      eapply pass_keeps_inv; eauto. unfold cond in Hc; lia.
    - intros v h v1 h1 r v2 h2 Hc Hb IH Hi. apply IH.
      apply body_pass in Hb as (t & _ & Hp).
      eapply pass_keeps_inv; eauto. unfold cond in Hc; lia.
  Qed.

(** What one pass adds, whichever way it ends. *)
Lemma pass_effect (v v' : mem_vars) (r : outcome flow) (t : trace) :
  pass target block_bytes v r v' t ->
  allocated v' = allocated v + allocated_in t
  /\ map ba_len (blocks v') = map ba_len (blocks v) ++ allocs_of t
  /\ (r <> Threw MemoryError -> forall n, ~ In (EvAllocFailed n) t)
  /\ (r = Threw MemoryError ->
      exists t0, t = t0 ++ [EvAllocFailed
                             (Z.min block_bytes (target - allocated v'))]
                 /\ forall n, ~ In (EvAllocFailed n) t0).
Proof.
  intros Hp.
  destruct Hp as [t Hn | e t He Hn | t Hle Hn | r t1 t2 bsz Hb H1 H2 Hrr].
  - rewrite (no_alloc_allocated_in _ Hn), (no_alloc_allocs_of _ Hn), app_nil_r.
    repeat split; try lia; try discriminate.
    intros _ n; apply no_alloc_not_failed; exact Hn.
  - rewrite (no_alloc_allocated_in _ Hn), (no_alloc_allocs_of _ Hn), app_nil_r.
    repeat split; try lia.
    + intros _ n; apply no_alloc_not_failed; exact Hn.
    + intros E; injection E as ->; contradiction He; reflexivity.
  - rewrite allocated_in_app, allocs_of_app, (no_alloc_allocated_in _ Hn),
      (no_alloc_allocs_of _ Hn). simpl. rewrite app_nil_r.
    repeat split; try lia.
    + intros Hne; contradiction Hne; reflexivity.
    + intros _. exists t. split; [reflexivity|].
      intros n; apply no_alloc_not_failed; exact Hn.
  - rewrite allocated_in_app, allocs_of_app, (no_alloc_allocated_in _ H1),
      (no_alloc_allocs_of _ H1). simpl.
    rewrite (no_alloc_allocated_in _ H2), (no_alloc_allocs_of _ H2).
    rewrite map_app. simpl. fold bsz.
    repeat split; try lia.
    + intros _ n. apply no_failure_around; assumption.
    + intros ->. destruct Hrr as [Hrr | (e & Hrr & He)]; [discriminate|].
      injection Hrr as <-. contradiction He; reflexivity.
Qed.

Lemma pass_trace_end (v v' : mem_vars) (h : trace) (r : outcome flow)
    (t : trace) (r' : outcome unit) :
  pass target block_bytes v r v' t ->
  match r, r' with
  | Done Break, Done tt => True
  | Threw e, Threw e' => e = e'
  | OutOfFuel, OutOfFuel => True
  | _, _ => False
  end ->
  loop_trace_spec target block_bytes v h r' v' (h ++ t).
Proof.
  intros Hp Hr. exists t. split; [reflexivity|].
  destruct (pass_effect _ _ _ _ Hp) as (Hsum & Hbl & Hok & Hfail).
  split; [exact Hsum|]. split; [exact Hbl|].
  destruct r as [[|]|e|], r' as [[]|e'|]; try contradiction;
    try (apply Hok; discriminate).
  subst e'. destruct e; try (apply Hok; discriminate).
  apply Hfail; reflexivity.
Qed.

Lemma loop_trace (fuel : nat) (v v' : mem_vars) (h h' : trace)
    (r : outcome unit) :
  while_loop fuel cond body v h = (r, v', h') ->
  loop_trace_spec target block_bytes v h r v' h'.
Proof.
  revert fuel v h r v' h'.
  apply (while_loop_ind cond body (loop_trace_spec target block_bytes)).
  - intros v h _. exists []. rewrite !app_nil_r. simpl.
    repeat split; [lia | intros n []].
  - intros v h _. exists []. rewrite !app_nil_r. simpl.
    repeat split; [lia | intros n []].
  - intros v h v1 h1 _ Hb.
    apply body_pass in Hb as (t & -> & Hp).
    eapply pass_trace_end; eauto. exact I.
  - intros v h e v1 h1 _ Hb.
    apply body_pass in Hb as (t & -> & Hp).
    eapply pass_trace_end; eauto. reflexivity.
  - intros v h v1 h1 _ Hb.
    apply body_pass in Hb as (t & -> & Hp).
    eapply pass_trace_end; eauto. exact I.
  - intros v h v1 h1 r v2 h2 _ Hb (t2 & -> & Hsum & Hbl & Hr).
    apply body_pass in Hb as (t & -> & Hp).
    destruct (pass_effect _ _ _ _ Hp) as (Hs1 & Hb1 & Hnf & _).
    assert (Hnf' : forall n, ~ In (EvAllocFailed n) t)
      by (apply Hnf; discriminate).
    exists (t ++ t2). rewrite app_assoc. split; [reflexivity|].
    split; [rewrite allocated_in_app; lia|].
    split; [rewrite allocs_of_app, app_assoc, <- Hb1; exact Hbl|].
    destruct r as [[]|[]|]; try (intros n Hin;
      apply in_app_or in Hin as [Hin|Hin]; [eapply Hnf' | eapply Hr]; eauto).
    destruct Hr as (t0 & -> & Ht0).
    exists (t ++ t0). rewrite app_assoc. split; [reflexivity|].
    intros n Hin.
    apply in_app_or in Hin as [Hin|Hin]; [eapply Hnf' | eapply Ht0]; eauto.
Qed.
End MemoryLoop.

(* ------------------------------------------------------------------ *)
(** ** The two functions around their loops *)

Lemma sizes_fit_dec (l : list Z) : {sizes_fit l} + {~ sizes_fit l}.
Proof. apply Forall_dec. exact fits_float_dec. Qed.

(** When a size cannot be shown, the first record raises and the loop
    is never entered. *)
Lemma mem_burst_refused (w : World) (fuel : nat) (want block_bytes headroom : Z)
    (h : trace) :
  ~ sizes_fit [want; block_bytes; headroom] ->
  Qimi2Sim.mem_burst w fuel want block_bytes headroom h =
  (Threw OverflowError, {| blocks := []; allocated := 0 |},
   h ++ [EvReadLimits (limits_of w h)]).
Proof.
  intros Hbad.
  unfold Qimi2Sim.mem_burst, Qimi2Sim.mem_burst_run. unfold_steps.
  match goal with
  | |- context [log ?r ?v ?h] =>
      destruct (log_cases r v h) as [(Hfit & _) | (_ & ->)]
  end; [contradiction | reflexivity].
Qed.

Lemma mem_burst_eq (w : World) (fuel : nat) (want block_bytes headroom : Z)
    (h : trace) :
  sizes_fit [want; block_bytes; headroom] ->
  Qimi2Sim.mem_burst w fuel want block_bytes headroom h =
  let l := limits_of w h in
  mem_burst_finish want
    (while_loop fuel (fun v => allocated v <? want)
       (Qimi2Sim.mem_burst_body w want block_bytes headroom (mem_limit_of l))
       {| blocks := []; allocated := 0 |}
       (h ++ [EvReadLimits l;
              EvLog (QMemBurst want block_bytes headroom (mem_limit_of l))])).
Proof.
  intros Hfit.
  unfold Qimi2Sim.mem_burst, Qimi2Sim.mem_burst_run, try_except.
  unfold_steps. rewrite log_fits by exact Hfit.
  rewrite <- app_assoc. cbn [app mem_burst_finish].
  destruct (while_loop _ _ _ _ _) as [[r v] h2].
  destruct r as [[]|e|]; cbn [mem_burst_finish]; try reflexivity.
  destruct (is_MemoryError e); [|reflexivity].
  unfold bind, ret, get.
  destruct (log _ _ _) as [[[[]|e'|] v'] h']; reflexivity.
Qed.

Lemma allocate_slow_refused (w : World) (fuel : nat) (total block_bytes : Z)
    (pause : Q) (headroom : Z) (h : trace) :
  ~ sizes_fit [total; block_bytes; headroom] ->
  Stress.allocate_slow w fuel total block_bytes pause headroom h =
  (Threw OverflowError, {| blocks := []; allocated := 0 |},
   h ++ [EvTime (clock w h)]).
Proof.
  intros Hbad.
  unfold Stress.allocate_slow, Stress.allocate_slow_run. unfold_steps.
  match goal with
  | |- context [log ?r ?v ?h] =>
      destruct (log_cases r v h) as [(Hfit & _) | (_ & ->)]
  end; [contradiction | reflexivity].
Qed.

Lemma allocate_slow_eq (w : World) (fuel : nat) (total block_bytes : Z)
    (pause : Q) (headroom : Z) (h : trace) :
  sizes_fit [total; block_bytes; headroom] ->
  Stress.allocate_slow w fuel total block_bytes pause headroom h =
  allocate_slow_finish w total
    (while_loop fuel (fun v => allocated v <? total)
       (Stress.allocate_slow_body w total block_bytes pause headroom)
       {| blocks := []; allocated := 0 |}
       (h ++ [EvTime (clock w h);
              EvLog (SMemTarget total block_bytes pause headroom)])).
Proof.
  intros Hfit.
  unfold Stress.allocate_slow, Stress.allocate_slow_run, try_except.
  unfold_steps. rewrite log_fits by exact Hfit.
  rewrite <- app_assoc. cbn [app].
  destruct (while_loop _ _ _ _ _) as [[r v] h2].
  unfold allocate_slow_finish. unfold_steps.
  destruct r as [[]|e|]; try reflexivity.
  destruct (is_MemoryError e); reflexivity.
Qed.

(** What the two endings give, case by case. *)
Lemma mem_burst_finish_cases (want : Z) (r : outcome unit) (v : mem_vars)
    (h : trace) :
  let res := mem_burst_finish want (r, v, h) in
  snd (fst res) = v
  /\ ((r = OutOfFuel /\ res = (OutOfFuel, v, h))
      \/ (exists u, r = Done u /\ res = (Done (blocks v), v, h))
      \/ (exists e, r = Threw e /\ e <> MemoryError /\ res = (Threw e, v, h))
      \/ (r = Threw MemoryError /\ sizes_fit [allocated v; want]
          /\ res = (Done (blocks v), v,
                    h ++ [EvLog (QMemoryError (allocated v) want)]))
      \/ (r = Threw MemoryError /\ ~ sizes_fit [allocated v; want]
          /\ res = (Threw OverflowError, v, h))).
Proof.
  cbv zeta. destruct r as [u|e|]; cbn [mem_burst_finish].
  - split; [reflexivity|]. right; left. eauto.
  - destruct e; cbn [is_MemoryError];
      try (split; [reflexivity|]; right; right; left; eexists;
           repeat split; discriminate).
    unfold bind, ret, get.
    destruct (log_cases (QMemoryError (allocated v) want) v h)
      as [(Hf & ->) | (Hf & ->)]; (split; [reflexivity|]).
    + right; right; right; left. auto.
    + right; right; right; right. auto.
  - split; [reflexivity|]. left. auto.
Qed.

Lemma allocate_slow_finish_cases (w : World) (total : Z) (r : outcome unit)
    (v : mem_vars) (h : trace) :
  let res := allocate_slow_finish w total (r, v, h) in
  let done := SDone (allocated v) (List.length (blocks v)) in
  let caught := SMemoryErrorAt (allocated v) total in
  snd (fst res) = v
  /\ ((r = OutOfFuel /\ res = (OutOfFuel, v, h))
      \/ (exists e, r = Threw e /\ e <> MemoryError /\ res = (Threw e, v, h))
      \/ (exists u, r = Done u /\ fits_float (allocated v)
          /\ res = (Done (blocks v), v,
                    h ++ [EvTime (clock w h); EvLog done]))
      \/ (exists u, r = Done u /\ ~ fits_float (allocated v)
          /\ res = (Threw OverflowError, v, h ++ [EvTime (clock w h)]))
      \/ (r = Threw MemoryError /\ sizes_fit [allocated v; total]
          /\ res = (Done (blocks v), v,
                    h ++ [EvLog caught; EvTime (clock w (h ++ [EvLog caught]));
                          EvLog done]))
      \/ (r = Threw MemoryError /\ ~ sizes_fit [allocated v; total]
          /\ res = (Threw OverflowError, v, h))).
Proof.
  cbv zeta.
  assert (Hdone : forall h0,
    (fits_float (allocated v)
     /\ (now <- time_time w ;; v0 <- get ;;
         log (SDone (allocated v0) (List.length (blocks v0))) ;;;
         ret (blocks v0)) v h0
        = (Done (blocks v), v,
           h0 ++ [EvTime (clock w h0);
                  EvLog (SDone (allocated v) (List.length (blocks v)))]))
    \/ (~ fits_float (allocated v)
        /\ (now <- time_time w ;; v0 <- get ;;
            log (SDone (allocated v0) (List.length (blocks v0))) ;;;
            ret (blocks v0)) v h0
           = (Threw OverflowError, v, h0 ++ [EvTime (clock w h0)]))).
  { intros h0. unfold_steps.
    destruct (log_cases (SDone (allocated v) (List.length (blocks v))) v
                (h0 ++ [EvTime (clock w h0)])) as [(Hf & ->) | (Hf & ->)].
    - left. split; [inversion Hf; assumption|].
      rewrite <- app_assoc. reflexivity.
    - right. split; [|reflexivity].
      intros Hfit. apply Hf. constructor; [exact Hfit | constructor]. }
  assert (Hcaught :
    (sizes_fit [allocated v; total]
     /\ (log (SMemoryErrorAt (allocated v) total) ;;;
         now <- time_time w ;; v0 <- get ;;
         log (SDone (allocated v0) (List.length (blocks v0))) ;;;
         ret (blocks v0)) v h
        = (Done (blocks v), v,
           h ++ [EvLog (SMemoryErrorAt (allocated v) total);
                 EvTime (clock w (h ++ [EvLog (SMemoryErrorAt (allocated v)
                                                 total)]));
                 EvLog (SDone (allocated v) (List.length (blocks v)))]))
    \/ (~ sizes_fit [allocated v; total]
        /\ (log (SMemoryErrorAt (allocated v) total) ;;;
            now <- time_time w ;; v0 <- get ;;
            log (SDone (allocated v0) (List.length (blocks v0))) ;;;
            ret (blocks v0)) v h
           = (Threw OverflowError, v, h))).
  { match goal with
    | |- context [(log ?r ;;; ?k) v h] =>
        destruct (log_then r k v h) as [(Hf & ->) | (Hf & ->)]
    end.
    - left. split; [exact Hf|].
      assert (Hfa : fits_float (allocated v)) by (inversion Hf; assumption).
      destruct (Hdone (h ++ [EvLog (SMemoryErrorAt (allocated v) total)]))
        as [(_ & ->) | (Hn & _)]; [|contradiction].
      rewrite <- app_assoc. reflexivity.
    - right. split; [exact Hf | reflexivity]. }
  destruct r as [u|e|]; cbn [allocate_slow_finish].
  - destruct (Hdone h) as [(Hf & ->) | (Hf & ->)]; (split; [reflexivity|]).
    + right; right; left. eauto.
    + right; right; right; left. eauto.
  - destruct e; cbn [is_MemoryError];
      try (split; [reflexivity|]; right; left; eexists;
           repeat split; discriminate).
    destruct Hcaught as [(Hf & ->) | (Hf & ->)]; (split; [reflexivity|]).
    + right; right; right; right; left. auto.
    + right; right; right; right; right. auto.
  - split; [reflexivity|]. left. auto.
Qed.

(** Either ending keeps the variables and returns their blocks. *)
Lemma mem_burst_finish_keeps (want : Z) (r : outcome unit) (v : mem_vars)
    (h : trace) :
  exists r' h',
    mem_burst_finish want (r, v, h) = (r', v, h')
    /\ forall bs, r' = Done bs -> bs = blocks v.
Proof.
  destruct (mem_burst_finish_cases want r v h) as (_ & Hc). cbv zeta in Hc.
  destruct Hc as [(_ & ->) | [(u & _ & ->) | [(e & _ & _ & ->)
    | [(_ & _ & ->) | (_ & _ & ->)]]]];
    eexists _, _; (split; [reflexivity|]); intros bs E;
    try discriminate; injection E as <-; reflexivity.
Qed.

Lemma allocate_slow_finish_keeps (w : World) (total : Z) (r : outcome unit)
    (v : mem_vars) (h : trace) :
  exists r' h',
    allocate_slow_finish w total (r, v, h) = (r', v, h')
    /\ forall bs, r' = Done bs -> bs = blocks v.
Proof.
  destruct (allocate_slow_finish_cases w total r v h) as (_ & Hc).
  cbv zeta in Hc.
  destruct Hc as [(_ & ->) | [(e & _ & _ & ->) | [(u & _ & _ & ->)
    | [(u & _ & _ & ->) | [(_ & _ & ->) | (_ & _ & ->)]]]]];
    eexists _, _; (split; [reflexivity|]); intros bs E;
    try discriminate; injection E as <-; reflexivity.
Qed.

(* ================================================================== *)
(** * The memory-pressure engine: properties *)

Lemma mem_burst_loop_inv (w : World) (fuel : nat) (want block_bytes headroom : Z)
    (lim : option Z) (h h' : trace) (r : outcome unit) (v : mem_vars) :
  while_loop fuel (fun v => allocated v <? want)
    (Qimi2Sim.mem_burst_body w want block_bytes headroom lim)
    {| blocks := []; allocated := 0 |} h = (r, v, h') ->
  mem_inv want block_bytes v.
Proof.
  intros Hrun.
  eapply (loop_keeps_inv want block_bytes) in Hrun;
    [exact Hrun | | apply mem_inv_init].
  intros; eapply mem_burst_body_pass; eauto.
Qed.

Lemma allocate_slow_loop_inv (w : World) (fuel : nat) (total block_bytes : Z)
    (pause : Q) (headroom : Z) (h h' : trace) (r : outcome unit) (v : mem_vars) :
  while_loop fuel (fun v => allocated v <? total)
    (Stress.allocate_slow_body w total block_bytes pause headroom)
    {| blocks := []; allocated := 0 |} h = (r, v, h') ->
  mem_inv total block_bytes v.
Proof.
  intros Hrun.
  eapply (loop_keeps_inv total block_bytes) in Hrun;
    [exact Hrun | | apply mem_inv_init].
  intros; eapply allocate_slow_body_pass; eauto.
Qed.

Lemma mem_inv_within (target block_bytes : Z) (v : mem_vars) :
  0 <= target ->
  mem_inv target block_bytes v ->
  allocated v = total_len (blocks v)
  /\ planned target block_bytes 0 (blocks v)
  /\ total_len (blocks v) <= target.
Proof. intros Ht (Hs & Hp & Hle). repeat split; auto. lia. Qed.

(** C1 (amended).  For a target that is not negative, in [mem_burst] and
    in [allocate_slow], with any block size and headroom, in any world
    (limit known or not) and after any number of passes: the counter
    [allocated] equals the sum of the sizes of the blocks appended so
    far, every block has size [min(block_bytes, target - allocated)] for
    the counter at the time it was appended, and the sum never exceeds
    the target; the list returned is the list of these blocks. *)
Theorem total_never_exceeds_target (w : World) (fuel : nat)
    (target block_bytes headroom : Z) (pause : Q) (h : trace) :
  0 <= target ->
  within_target target block_bytes
    (Qimi2Sim.mem_burst w fuel target block_bytes headroom h)
  /\ within_target target block_bytes
       (Stress.allocate_slow w fuel target block_bytes pause headroom h).
Proof.
  intros Ht. split.
  - destruct (sizes_fit_dec [target; block_bytes; headroom]) as [Hfit | Hbad].
    2:{ rewrite mem_burst_refused by exact Hbad.
        unfold within_target. cbn [blocks allocated total_len fold_right planned].
        repeat split; try lia; discriminate. }
    rewrite mem_burst_eq by exact Hfit. cbv zeta.
    destruct (while_loop _ _ _ _ _) as [[r v] h2] eqn:Hrun.
    apply mem_burst_loop_inv in Hrun.
    destruct (mem_inv_within _ _ _ Ht Hrun) as (Hs & Hp & Hle).
    destruct (mem_burst_finish_keeps target r v h2) as (r' & h' & -> & Hbs).
    unfold within_target.
    split; [exact Hs | split; [exact Hp | split; [exact Hle |]]].
    intros bs E. rewrite (Hbs bs E). auto.
  - destruct (sizes_fit_dec [target; block_bytes; headroom]) as [Hfit | Hbad].
    2:{ rewrite allocate_slow_refused by exact Hbad.
        unfold within_target. cbn [blocks allocated total_len fold_right planned].
        repeat split; try lia; discriminate. }
    rewrite allocate_slow_eq by exact Hfit.
    destruct (while_loop _ _ _ _ _) as [[r v] h2] eqn:Hrun.
    apply allocate_slow_loop_inv in Hrun.
    destruct (mem_inv_within _ _ _ Ht Hrun) as (Hs & Hp & Hle).
    destruct (allocate_slow_finish_keeps w target r v h2) as (r' & h' & -> & Hbs).
    unfold within_target.
    split; [exact Hs | split; [exact Hp | split; [exact Hle |]]].
    intros bs E. rewrite (Hbs bs E). auto.
Qed.

Lemma total_never_exceeds_target_witness :
  0 <= 10
  /\ within_target 10 4 (Qimi2Sim.mem_burst (metered_world None) 5 10 4 0 [])
  /\ within_target 10 4
       (Stress.allocate_slow (metered_world None) 5 10 4 (1 # 2) 0 []).
Proof.
  split; [lia|].
  apply (total_never_exceeds_target (metered_world None) 5 10 4 0 (1 # 2) []).
  lia.
Defined.

(** C1 as stated, with any target: for the target [-1] the loop is not
    entered, [mem_burst] returns the empty list, and the sum of its
    sizes, 0, exceeds the target. *)
Lemma negative_target_is_exceeded :
  returned (Qimi2Sim.mem_burst quiet_world 1 (-1) 1 0 []) = Some []
  /\ ~ within_target (-1) 1 (Qimi2Sim.mem_burst quiet_world 1 (-1) 1 0 []).
Proof.
  split; [reflexivity|].
  intros H. vm_compute in H. destruct H as (_ & _ & Hle & _).
  apply Hle. reflexivity.
Qed.

(** The counter of a loop that was entered can be shown when the target
    can. *)
Lemma mem_inv_fits (target block_bytes : Z) (v : mem_vars) :
  fits_float target ->
  mem_inv target block_bytes v ->
  fits_float (allocated v).
Proof.
  intros Ht (_ & _ & Hle). unfold fits_float in *. lia.
Qed.

(** What a run whose loop did not end by [MemoryError] adds to the
    trace holds no failed allocation. *)
Lemma no_failure_after (t : trace) (r : record) (q : Q) :
  (forall n, ~ In (EvAllocFailed n) t) ->
  (forall n, ~ In (EvAllocFailed n) ([EvTime q; EvLog r] ++ t))
  /\ (forall x n, ~ In (EvAllocFailed n) (x :: EvLog r :: t) \/
                  exists m, x = EvAllocFailed m).
Proof.
  intros Ht. split.
  - intros n [E | [E | Hin]]; try discriminate. exact (Ht n Hin).
  - intros x n. destruct x; try (left; intros [E | [E | Hin]];
      try discriminate; exact (Ht n Hin)).
    right. eexists; reflexivity.
Qed.

Section Exhaustion.
Variables (want block_bytes capacity : Z) (h : trace).
Variable body : M mem_vars flow.
Hypothesis block_positive : 1 <= block_bytes.
Hypothesis capacity_short : 0 <= capacity < want.
Hypothesis body_allocates : forall v t,
  allocated v = allocated_in t -> 0 <= allocated v ->
  allocated v + block_bytes <= capacity ->
  exists t1 t2,
    no_alloc t1 /\ no_alloc t2
    /\ body v (h ++ t) =
       (Done Continue,
        {| blocks := blocks v ++ [mk_bytearray block_bytes];
           allocated := allocated v + block_bytes |},
        h ++ t ++ t1 ++ EvAlloc block_bytes :: t2).
Hypothesis body_exhausts : forall v t,
  allocated v = allocated_in t -> 0 <= allocated v <= capacity ->
  capacity < allocated v + block_bytes ->
  exists t1 n,
    no_alloc t1
    /\ body v (h ++ t) = (Threw MemoryError, v, h ++ t ++ t1 ++ [EvAllocFailed n]).

Let cond : mem_vars -> bool := fun v => allocated v <? want.

(** With [j] whole blocks left in the allocator, the loop appends [j]
    blocks and ends by [MemoryError] in the pass after them. *)
Lemma loop_exhausts (j : nat) :
  forall fuel v t,
    (j < fuel)%nat ->
    allocated v = allocated_in t -> 0 <= allocated v ->
    allocated v + Z.of_nat j * block_bytes <= capacity
      < allocated v + (Z.of_nat j + 1) * block_bytes ->
    exists t' n,
      while_loop fuel cond body v (h ++ t) =
      (Threw MemoryError,
       {| blocks := blocks v ++ repeat (mk_bytearray block_bytes) j;
          allocated := allocated v + Z.of_nat j * block_bytes |},
       h ++ t ++ t' ++ [EvAllocFailed n])
      /\ allocs_of t' = repeat block_bytes j.
Proof.
  induction j as [|j IH]; intros fuel v t Hfuel Hsum H0 Hcap;
    (destruct fuel as [|fuel]; [lia|]);
    assert (Hc : cond v = true) by (unfold cond; lia).
  - destruct (body_exhausts v t Hsum) as (t1 & n & Hn & Hb); [lia | lia |].
    exists t1, n. rewrite (while_loop_threw fuel cond body v _ _ _ _ Hc Hb).
    split; [|apply no_alloc_allocs_of; exact Hn].
    f_equal. f_equal. destruct v; cbn [blocks allocated repeat].
    rewrite app_nil_r. f_equal. lia.
  - destruct (body_allocates v t Hsum H0) as (t1 & t2 & Hn1 & Hn2 & Hb); [lia|].
    rewrite (while_loop_continue fuel cond body v _ _ _ Hc Hb).
    set (v1 := {| blocks := _; allocated := _ |}) in *.
    replace (h ++ t ++ t1 ++ EvAlloc block_bytes :: t2)
      with (h ++ (t ++ t1 ++ EvAlloc block_bytes :: t2)) by reflexivity.
    destruct (IH fuel v1 (t ++ t1 ++ EvAlloc block_bytes :: t2))
      as (t' & n & Hrun & Hallocs).
    + lia.
    + subst v1. cbn [allocated].
      rewrite !allocated_in_app. cbn [allocated_in fold_right].
      fold (allocated_in t2).
      rewrite (no_alloc_allocated_in _ Hn1), (no_alloc_allocated_in _ Hn2). lia.
    + subst v1. cbn [allocated]. lia.
    + subst v1. cbn [allocated]. lia.
    + exists (t1 ++ EvAlloc block_bytes :: t2 ++ t'), n.
      rewrite Hrun. split.
      * subst v1. cbn [blocks allocated]. f_equal; [f_equal|].
        -- f_equal; [|lia]. rewrite <- app_assoc. reflexivity.
        -- repeat (rewrite <- app_assoc || rewrite <- app_comm_cons).
           reflexivity.
      * rewrite allocs_of_app. cbn [allocs_of]. rewrite allocs_of_app.
        rewrite (no_alloc_allocs_of _ Hn1), (no_alloc_allocs_of _ Hn2), Hallocs.
        reflexivity.
Qed.
End Exhaustion.

(** The number of whole blocks that fit the capacity. *)
Lemma whole_blocks (capacity block_bytes : Z) :
  0 <= capacity -> 1 <= block_bytes ->
  let k := Z.to_nat (capacity / block_bytes) in
  Z.of_nat k * block_bytes <= capacity < (Z.of_nat k + 1) * block_bytes.
Proof.
  intros Hc Hb k. subst k.
  pose proof (Z.div_pos capacity block_bytes Hc ltac:(lia)).
  rewrite Z2Nat.id by assumption.
  pose proof (Z.div_mod capacity block_bytes ltac:(lia)) as Hdm.
  pose proof (Z.mod_pos_bound capacity block_bytes ltac:(lia)) as Hm.
  nia.
Qed.

(** C5.  In [mem_burst] and in [allocate_slow], allocation exhaustion
    does not reach the caller.  In any world, no run ends by
    [MemoryError], and a run in which an allocation failed returned the
    blocks allocated before the failure, its counter is their sum (the
    failed request is not counted), and the record carrying this
    partial total was logged.  And exhaustion is met and handled in
    this way: when the allocator has [capacity] bytes to give, less than
    the target, the sizes can be shown in the log, the headroom check
    never fires and the pauses are taken, a run with fuel for it
    returns the [capacity / block_bytes] whole blocks that fit, after
    the failure of the next request and the record of their total. *)
Theorem memory_error_is_caught (w : World) (fuel : nat)
    (want block_bytes headroom : Z) (pause : Q) (h : trace) :
  (exhaustion_handled h (fun a => QMemoryError a want)
     (Qimi2Sim.mem_burst w fuel want block_bytes headroom h)
   /\ exhaustion_handled h (fun a => SMemoryErrorAt a want)
        (Stress.allocate_slow w fuel want block_bytes pause headroom h))
  /\ (forall capacity,
        gives_at_most w h capacity ->
        0 <= capacity < want ->
        1 <= block_bytes < 2 ^ 63 ->
        sizes_fit [want; block_bytes; headroom] ->
        headroom_never_reached w headroom ->
        sleepable pause -> sleeps_succeed w ->
        (Z.to_nat (capacity / block_bytes) < fuel)%nat ->
        exhausted_after (Z.to_nat (capacity / block_bytes)) block_bytes
          (fun a => QMemoryError a want) h
          (Qimi2Sim.mem_burst w fuel want block_bytes headroom h)
        /\ exhausted_after (Z.to_nat (capacity / block_bytes)) block_bytes
             (fun a => SMemoryErrorAt a want) h
             (Stress.allocate_slow w fuel want block_bytes pause headroom h)).
Proof.
  split; [split|].
  - destruct (sizes_fit_dec [want; block_bytes; headroom]) as [Hfit | Hbad].
    2:{ rewrite mem_burst_refused by exact Hbad. unfold exhaustion_handled.
        split; [discriminate|]. eexists. split; [reflexivity|].
        intros n [E | []]; discriminate. }
    rewrite mem_burst_eq by exact Hfit. cbv zeta.
    destruct (while_loop _ _ _ _ _) as [[r v] h2] eqn:Hrun.
    pose proof (mem_burst_loop_inv _ _ _ _ _ _ _ _ _ _ Hrun) as Hinv.
    assert (Hfa : fits_float (allocated v)).
    { eapply mem_inv_fits; [|exact Hinv]. inversion Hfit; assumption. }
    destruct Hinv as (Hs & _ & _).
    eapply (loop_trace want block_bytes) in Hrun;
      [| intros; eapply mem_burst_body_pass; eauto].
    destruct Hrun as (t & -> & Hsum & Hbl & Hr). simpl in Hsum, Hbl.
    destruct (mem_burst_finish_cases want r v
                ((h ++ [EvReadLimits (limits_of w h);
                        EvLog (QMemBurst want block_bytes headroom
                                 (mem_limit_of (limits_of w h)))]) ++ t))
      as (_ & Hc). cbv zeta in Hc. unfold exhaustion_handled.
    destruct Hc as [(-> & ->) | [(u & -> & ->) | [(e & -> & He & ->)
      | [(-> & _ & ->) | (-> & Hn & _)]]]].
    + split; [discriminate|]. eexists. rewrite <- app_assoc.
      split; [reflexivity|]. intros n Hin. exfalso.
      simpl in Hin. destruct Hin as [Hin | [Hin | Hin]]; try discriminate.
      exact (Hr n Hin).
    + split; [discriminate|]. eexists. rewrite <- app_assoc.
      split; [reflexivity|]. intros n Hin. exfalso.
      simpl in Hin. destruct Hin as [Hin | [Hin | Hin]]; try discriminate.
      exact (Hr n Hin).
    + split; [intros E; injection E as ->; contradiction He; reflexivity|].
      eexists. rewrite <- app_assoc.
      split; [reflexivity|]. intros n Hin. exfalso.
      simpl in Hin. destruct Hin as [Hin | [Hin | Hin]]; try discriminate.
      destruct e; try (exact (Hr n Hin)). contradiction He; reflexivity.
    + split; [discriminate|]. destruct Hr as (t0 & -> & Ht0).
      eexists. rewrite <- !app_assoc. split; [reflexivity|].
      intros n _. simpl.
      rewrite Hbl, Hsum, !allocs_of_app, !allocated_in_app. simpl.
      rewrite app_nil_r. repeat split; try lia.
      * rewrite <- Hs, Hsum, allocated_in_app. simpl. lia.
      * right. right. apply in_or_app. right. right.
        left. reflexivity.
    + exfalso. apply Hn. constructor; [exact Hfa|].
      constructor; [inversion Hfit; assumption | constructor].
  - destruct (sizes_fit_dec [want; block_bytes; headroom]) as [Hfit | Hbad].
    2:{ rewrite allocate_slow_refused by exact Hbad. unfold exhaustion_handled.
        split; [discriminate|]. eexists. split; [reflexivity|].
        intros n [E | []]; discriminate. }
    rewrite allocate_slow_eq by exact Hfit.
    destruct (while_loop _ _ _ _ _) as [[r v] h2] eqn:Hrun.
    pose proof (allocate_slow_loop_inv _ _ _ _ _ _ _ _ _ _ Hrun) as Hinv.
    assert (Hfa : fits_float (allocated v)).
    { eapply mem_inv_fits; [|exact Hinv]. inversion Hfit; assumption. }
    destruct Hinv as (Hs & _ & _).
    eapply (loop_trace want block_bytes) in Hrun;
      [| intros; eapply allocate_slow_body_pass; eauto].
    destruct Hrun as (t & -> & Hsum & Hbl & Hr). simpl in Hsum, Hbl.
    destruct (allocate_slow_finish_cases w want r v
                ((h ++ [EvTime (clock w h);
                        EvLog (SMemTarget want block_bytes pause headroom)])
                 ++ t))
      as (_ & Hc). cbv zeta in Hc. unfold exhaustion_handled.
    destruct Hc as [(-> & ->) | [(e & -> & He & ->) | [(u & -> & _ & ->)
      | [(u & -> & _ & ->) | [(-> & _ & ->) | (-> & Hn & _)]]]]].
    + split; [discriminate|]. eexists. rewrite <- app_assoc.
      split; [reflexivity|]. intros n Hin. exfalso.
      simpl in Hin. destruct Hin as [Hin | [Hin | Hin]]; try discriminate.
      exact (Hr n Hin).
    + split; [intros E; injection E as ->; contradiction He; reflexivity|].
      eexists. rewrite <- app_assoc.
      split; [reflexivity|]. intros n Hin. exfalso.
      simpl in Hin. destruct Hin as [Hin | [Hin | Hin]]; try discriminate.
      destruct e; try (exact (Hr n Hin)). contradiction He; reflexivity.
    + split; [discriminate|]. eexists. rewrite <- !app_assoc.
      split; [reflexivity|]. intros n Hin. exfalso.
      simpl in Hin. destruct Hin as [Hin | [Hin | Hin]]; try discriminate.
      apply in_app_or in Hin as [Hin | [Hin | [Hin | []]]]; try discriminate.
      exact (Hr n Hin).
    + split; [discriminate|]. eexists. rewrite <- !app_assoc.
      split; [reflexivity|]. intros n Hin. exfalso.
      simpl in Hin. destruct Hin as [Hin | [Hin | Hin]]; try discriminate.
      apply in_app_or in Hin as [Hin | [Hin | []]]; try discriminate.
      exact (Hr n Hin).
    + split; [discriminate|]. destruct Hr as (t0 & -> & Ht0).
      eexists. rewrite <- !app_assoc. split; [reflexivity|].
      intros n _. simpl.
      rewrite Hbl, Hsum, !allocs_of_app, !allocated_in_app. simpl.
      rewrite app_nil_r. repeat split; try lia.
      * rewrite <- Hs, Hsum, allocated_in_app. simpl. lia.
      * right. right. apply in_or_app. right. right.
        left. reflexivity.
    + exfalso. apply Hn. constructor; [exact Hfa|].
      constructor; [inversion Hfit; assumption | constructor].
  - intros capacity Hgive Hcap Hblock Hfit Hnever Hpause Hsleep Hfuel.
    assert (Hfw : fits_float want) by (inversion Hfit; assumption).
    assert (Hf0 : fits_float 0) by (apply fits_float_small; simpl; lia).
    pose proof (whole_blocks capacity block_bytes ltac:(lia) ltac:(lia)) as Hk.
    cbv zeta in Hk.
    set (k := Z.to_nat (capacity / block_bytes)) in *.
    split.
    + rewrite mem_burst_eq by exact Hfit. cbv zeta.
      set (t0 := [EvReadLimits (limits_of w h);
                  EvLog (QMemBurst want block_bytes headroom
                           (mem_limit_of (limits_of w h)))]).
      destruct (loop_exhausts want block_bytes capacity h
                  (Qimi2Sim.mem_burst_body w want block_bytes headroom
                     (mem_limit_of (limits_of w h)))
                  ltac:(lia) Hcap) with (j := k) (fuel := fuel)
                  (v := {| blocks := []; allocated := 0 |}) (t := t0)
        as (t' & n & Hrun & Hallocs).
      * intros v t Hsum H0 Hle.
        replace (Z.min block_bytes (want - allocated v)) with block_bytes
          in * by lia.
        destruct (mem_burst_body_allocates w want block_bytes headroom
                    (mem_limit_of (limits_of w h)) v (h ++ t))
          as (pg & c & p & Hb); cbv zeta;
          replace (Z.min block_bytes (want - allocated v)) with block_bytes
            by lia.
        -- apply Hnever.
        -- lia.
        -- apply (fits_float_between 0 want); auto; lia.
        -- apply (fits_float_between 0 want); auto; lia.
        -- apply (fits_float_between 0 want); auto; lia.
        -- rewrite <- app_assoc, Hgive, allocated_in_app. cbn.
           rewrite <- Hsum. lia.
        -- eexists [_; _], [_; _; _; _].
           split; [|split]; cycle 2.
           { rewrite Hb.
             replace (Z.min block_bytes (want - allocated v))
               with block_bytes by lia.
             repeat rewrite <- app_assoc. reflexivity. }
           all: reflexivity.
      * intros v t Hsum H0 Hlt.
        set (bsz := Z.min block_bytes (want - allocated v)).
        assert (Hbsz : 0 < bsz <= block_bytes) by (subst bsz; lia).
        exists [EvReadCurrent (current_of w (h ++ t));
                EvLog (QPlan bsz (allocated v))], bsz.
        split; [reflexivity|].
        rewrite (mem_burst_body_exhausts w want block_bytes headroom
                   (mem_limit_of (limits_of w h)) v (h ++ t)); cbv zeta;
          fold bsz.
        -- repeat rewrite <- app_assoc. reflexivity.
        -- apply Hnever.
        -- lia.
        -- apply (fits_float_between 0 want); auto; subst bsz; lia.
        -- apply (fits_float_between 0 want); auto; lia.
        -- rewrite <- app_assoc, Hgive, allocated_in_app. cbn.
           rewrite <- Hsum. subst bsz. lia.
      * exact Hfuel.
      * reflexivity.
      * cbn [allocated]. lia.
      * cbn [allocated]. lia.
      * subst t0. rewrite Hrun. cbn [blocks allocated app] in *.
        match goal with
        | |- context [mem_burst_finish want (?r, ?v, ?h)] =>
            destruct (mem_burst_finish_cases want r v h) as (_ & Hc)
        end.
        cbv zeta in Hc. cbn [blocks allocated] in Hc.
        destruct Hc as [(E & _) | [(u & E & _) | [(e & E & He & _)
          | [(_ & _ & Eres) | (_ & Hn & _)]]]]; try discriminate.
        -- injection E as <-. contradiction He; reflexivity.
        -- unfold trace in *. rewrite Eres. unfold exhausted_after. cbn [blocks allocated].
           repeat split; try lia.
           eexists _, n. split; [rewrite <- !app_assoc; reflexivity|].
           split.
           { rewrite allocs_of_app. cbn [allocs_of].
             rewrite allocs_of_app, Hallocs. cbn [allocs_of].
             rewrite !app_nil_r. reflexivity. }
           split.
           ++ apply in_or_app. left. right. right.
              apply in_or_app. right. left. reflexivity.
           ++ apply in_or_app. right. left. do 2 f_equal; lia.
        -- exfalso. apply Hn. constructor; [|constructor; [exact Hfw | constructor]].
           apply (fits_float_between 0 want); auto; lia.
    + rewrite allocate_slow_eq by exact Hfit.
      set (t0 := [EvTime (clock w h);
                  EvLog (SMemTarget want block_bytes pause headroom)]).
      destruct (loop_exhausts want block_bytes capacity h
                  (Stress.allocate_slow_body w want block_bytes pause headroom)
                  ltac:(lia) Hcap) with (j := k) (fuel := fuel)
                  (v := {| blocks := []; allocated := 0 |}) (t := t0)
        as (t' & n & Hrun & Hallocs).
      * intros v t Hsum H0 Hle.
        destruct (allocate_slow_body_allocates w want block_bytes pause
                    headroom v (h ++ t))
          as (pg & c & p & rs & ev & Hb); cbv zeta;
          replace (Z.min block_bytes (want - allocated v)) with block_bytes
            by lia.
        -- apply Hnever.
        -- lia.
        -- apply (fits_float_between 0 want); auto; lia.
        -- apply (fits_float_between 0 want); auto; lia.
        -- apply (fits_float_between 0 want); auto; lia.
        -- rewrite <- app_assoc, Hgive, allocated_in_app. cbn.
           rewrite <- Hsum. lia.
        -- exact Hpause.
        -- exact Hsleep.
        -- eexists [_; _; _], [_; _; _; _; _; _; _].
           split; [|split]; cycle 2.
           { rewrite Hb.
             replace (Z.min block_bytes (want - allocated v))
               with block_bytes by lia.
             repeat rewrite <- app_assoc. reflexivity. }
           all: reflexivity.
      * intros v t Hsum H0 Hlt.
        set (bsz := Z.min block_bytes (want - allocated v)).
        assert (Hbsz : 0 < bsz <= block_bytes) by (subst bsz; lia).
        exists [EvReadCurrent (current_of w (h ++ t));
                EvReadLimits
                  (limits_of w ((h ++ t)
                                ++ [EvReadCurrent (current_of w (h ++ t))]));
                EvLog (SPlanNext bsz (allocated v) (current_of w (h ++ t)))],
               bsz.
        split; [reflexivity|].
        rewrite (allocate_slow_body_exhausts w want block_bytes pause
                   headroom v (h ++ t)); cbv zeta; fold bsz.
        -- repeat rewrite <- app_assoc. reflexivity.
        -- apply Hnever.
        -- lia.
        -- apply (fits_float_between 0 want); auto; subst bsz; lia.
        -- apply (fits_float_between 0 want); auto; lia.
        -- rewrite <- app_assoc, Hgive, allocated_in_app. cbn.
           rewrite <- Hsum. subst bsz. lia.
      * exact Hfuel.
      * reflexivity.
      * cbn [allocated]. lia.
      * cbn [allocated]. lia.
      * subst t0. rewrite Hrun. cbn [blocks allocated app] in *.
        match goal with
        | |- context [allocate_slow_finish w want (?r, ?v, ?h)] =>
            destruct (allocate_slow_finish_cases w want r v h) as (_ & Hc)
        end.
        cbv zeta in Hc. cbn [blocks allocated] in Hc.
        destruct Hc as [(E & _) | [(e & E & He & _) | [(u & E & _)
          | [(u & E & _) | [(_ & _ & Eres) | (_ & Hn & _)]]]]];
          try discriminate.
        -- injection E as <-. contradiction He; reflexivity.
        -- unfold trace in *. rewrite Eres. unfold exhausted_after. cbn [blocks allocated].
           repeat split; try lia.
           eexists _, n. split; [rewrite <- !app_assoc; reflexivity|].
           split.
           { rewrite allocs_of_app. cbn [allocs_of].
             rewrite allocs_of_app, Hallocs. cbn [allocs_of].
             rewrite !app_nil_r. reflexivity. }
           split.
           ++ apply in_or_app. left. right. right.
              apply in_or_app. right. left. reflexivity.
           ++ apply in_or_app. right. left. do 2 f_equal; lia.
        -- exfalso. apply Hn. constructor; [|constructor; [exact Hfw | constructor]].
           apply (fits_float_between 0 want); auto; lia.
Qed.

Lemma memory_error_is_caught_witness :
  exhausted_after 1 4 (fun a => QMemoryError a 10) []
    (Qimi2Sim.mem_burst (bounded_world 6) 5 10 4 0 [])
  /\ exhausted_after 1 4 (fun a => SMemoryErrorAt a 10) []
       (Stress.allocate_slow (bounded_world 6) 5 10 4 (1 # 2) 0 []).
Proof.
  apply (proj2 (memory_error_is_caught (bounded_world 6) 5 10 4 0 (1 # 2) []) 6).
  - intros t n. reflexivity.
  - lia.
  - lia.
  - repeat constructor; vm_compute; reflexivity.
  - intros h h'. reflexivity.
  - split; vm_compute; [discriminate | reflexivity].
  - intros h d. reflexivity.
  - vm_compute. lia.
Defined.

(* ------------------------------------------------------------------ *)
(** ** Termination *)

Lemma ceil_div_spec (a b : Z) :
  1 <= b -> b * (ceil_div a b - 1) < a <= b * ceil_div a b.
Proof.
  intros Hb. unfold ceil_div.
  pose proof (Z.div_mod (a + b - 1) b ltac:(lia)) as Hdm.
  pose proof (Z.mod_pos_bound (a + b - 1) b ltac:(lia)) as Hm.
  nia.
Qed.

Lemma ceil_div_nonpos (a b : Z) : 1 <= b -> a <= 0 -> ceil_div a b <= 0.
Proof. intros Hb Ha. pose proof (ceil_div_spec a b Hb). nia. Qed.

Lemma ceil_div_pos (a b : Z) : 1 <= b -> 0 < a -> 1 <= ceil_div a b.
Proof. intros Hb Ha. pose proof (ceil_div_spec a b Hb). nia. Qed.

Lemma ceil_div_step (r b : Z) :
  1 <= b -> 0 < r -> ceil_div (r - Z.min b r) b = ceil_div r b - 1.
Proof.
  intros Hb Hr. unfold ceil_div.
  replace (r + b - 1) with ((r - 1) + 1 * b) by lia.
  rewrite Z.div_add by lia.
  destruct (Z.min_spec b r) as [[Hlt Hm] | [Hle Hm]]; rewrite Hm.
  - replace (r - b + b - 1) with (r - 1) by lia. lia.
  - replace (r - r + b - 1) with (b - 1) by lia.
    rewrite !Z.div_small by lia. lia.
Qed.

Section Progress.
Variables target block_bytes : Z.
Variable body : M mem_vars flow.
Hypothesis body_progress : forall v h,
  0 <= allocated v < target ->
  0 <= Z.min block_bytes (target - allocated v) ->
  exists h',
    body v h =
    (Done Continue,
     {| blocks := blocks v
                  ++ [mk_bytearray (Z.min block_bytes (target - allocated v))];
        allocated := allocated v + Z.min block_bytes (target - allocated v) |},
     h').

Let cond : mem_vars -> bool := fun v => allocated v <? target.

Lemma loop_takes_ceil_passes :
  1 <= block_bytes ->
  forall fuel v h,
    0 <= allocated v <= target ->
    let n := Z.to_nat (ceil_div (target - allocated v) block_bytes) in
    exists v' h',
      (if (n <=? fuel)%nat
       then while_loop fuel cond body v h = (Done tt, v', h')
            /\ allocated v' = target
            /\ List.length (blocks v') = (List.length (blocks v) + n)%nat
       else while_loop fuel cond body v h = (OutOfFuel, v', h')).
Proof.
  intros Hb fuel. induction fuel as [|fuel IH]; intros v h Hle n;
    destruct (cond v) eqn:Hc; pose proof Hc as Hc'; unfold cond in Hc'.
  - rewrite while_loop_spent by exact Hc.
    assert (Hn : (1 <= n)%nat).
    { subst n. pose proof (ceil_div_pos (target - allocated v) block_bytes).
      lia. }
    destruct (n <=? 0)%nat eqn:Hn0; [apply Nat.leb_le in Hn0; lia|].
    eexists _, _. reflexivity.
  - rewrite while_loop_exit by exact Hc.
    assert (Hn : n = 0%nat).
    { subst n.
      pose proof (ceil_div_nonpos (target - allocated v) block_bytes).
      lia. }
    rewrite Hn. simpl. eexists _, _. repeat split; lia.
  - destruct (body_progress v h) as (h1 & Hbody); [lia | lia |].
    rewrite (while_loop_continue fuel cond body v _ h _ Hc Hbody).
    set (v1 := {| blocks := _; allocated := _ |}).
    destruct (IH v1 h1) as (v' & h' & Hres); [simpl; lia|].
    assert (Hn : n = S (Z.to_nat
                   (ceil_div (target - allocated v1) block_bytes))).
    { subst n v1. simpl.
      replace (target - (allocated v
                         + Z.min block_bytes (target - allocated v)))
        with ((target - allocated v)
              - Z.min block_bytes (target - allocated v)) by lia.
      rewrite ceil_div_step by lia.
      pose proof (ceil_div_pos (target - allocated v) block_bytes).
      lia. }
    rewrite Hn. simpl Nat.leb.
    exists v', h'.
    destruct (_ <=? fuel)%nat; [|exact Hres].
    destruct Hres as (Hrun & Hall & Hlen). repeat split; auto.
    rewrite Hlen. subst v1. simpl. rewrite length_app. simpl. lia.
  - rewrite while_loop_exit by exact Hc.
    assert (Hn : n = 0%nat).
    { subst n.
      pose proof (ceil_div_nonpos (target - allocated v) block_bytes).
      lia. }
    rewrite Hn. simpl. eexists _, _. repeat split; lia.
Qed.

Lemma loop_never_advances :
  block_bytes = 0 -> 0 < target ->
  forall fuel v h,
    allocated v = 0 ->
    Forall (fun b => ba_len b = 0) (blocks v) ->
    exists v' h',
      while_loop fuel cond body v h = (OutOfFuel, v', h')
      /\ allocated v' = 0
      /\ List.length (blocks v') = (List.length (blocks v) + fuel)%nat
      /\ Forall (fun b => ba_len b = 0) (blocks v').
Proof.
  intros Hb Ht fuel. induction fuel as [|fuel IH]; intros v h Ha Hz;
    assert (Hc : cond v = true) by (unfold cond; lia).
  - rewrite while_loop_spent by exact Hc.
    eexists _, _. repeat split; auto.
  - destruct (body_progress v h) as (h1 & Hbody); [lia | lia |].
    rewrite (while_loop_continue fuel cond body v _ h _ Hc Hbody).
    replace (Z.min block_bytes (target - allocated v)) with 0 by lia.
    set (v1 := {| blocks := _; allocated := _ |}).
    destruct (IH v1 h1) as (v' & h' & Hrun & Hall & Hlen & Hzero).
    + subst v1; simpl; lia.
    + subst v1; simpl. apply Forall_app. split; [exact Hz|].
      constructor; [reflexivity | constructor].
    + exists v', h'. repeat split; auto.
      rewrite Hlen. subst v1. simpl. rewrite length_app. simpl. lia.
Qed.
End Progress.

Lemma mem_burst_body_progress (w : World) (want block_bytes headroom : Z)
    (h0 : trace) :
  allocations_succeed w ->
  headroom_never_reached w headroom ->
  fits_float want ->
  Z.min block_bytes want < 2 ^ 63 ->
  forall v h,
    0 <= allocated v < want ->
    0 <= Z.min block_bytes (want - allocated v) ->
    exists h',
      Qimi2Sim.mem_burst_body w want block_bytes headroom
        (mem_limit_of (limits_of w h0)) v h =
      (Done Continue,
       {| blocks := blocks v
                    ++ [mk_bytearray (Z.min block_bytes (want - allocated v))];
          allocated := allocated v + Z.min block_bytes (want - allocated v) |},
       h').
Proof.
  intros Hall Hnever Hfw Hidx v h Hlt Hmin.
  assert (Hf0 : fits_float 0) by (apply fits_float_small; simpl; lia).
  destruct (mem_burst_body_allocates w want block_bytes headroom
              (mem_limit_of (limits_of w h0)) v h)
    as (pg & c & p & ->); cbv zeta.
  - apply Hnever.
  - lia.
  - apply (fits_float_between 0 want); auto; lia.
  - apply (fits_float_between 0 want); auto; lia.
  - apply (fits_float_between 0 want); auto; lia.
  - apply Hall.
  - eexists. reflexivity.
Qed.

Lemma allocate_slow_body_progress (w : World) (total block_bytes : Z)
    (pause : Q) (headroom : Z) :
  allocations_succeed w ->
  headroom_never_reached w headroom ->
  sleepable pause -> sleeps_succeed w ->
  fits_float total ->
  Z.min block_bytes total < 2 ^ 63 ->
  forall v h,
    0 <= allocated v < total ->
    0 <= Z.min block_bytes (total - allocated v) ->
    exists h',
      Stress.allocate_slow_body w total block_bytes pause headroom v h =
      (Done Continue,
       {| blocks := blocks v
                    ++ [mk_bytearray (Z.min block_bytes (total - allocated v))];
          allocated := allocated v + Z.min block_bytes (total - allocated v) |},
       h').
Proof.
  intros Hall Hnever Hpause Hsleep Hfw Hidx v h Hlt Hmin.
  assert (Hf0 : fits_float 0) by (apply fits_float_small; simpl; lia).
  destruct (allocate_slow_body_allocates w total block_bytes pause headroom v h)
    as (pg & c & p & rs & ev & ->); cbv zeta.
  - apply Hnever.
  - lia.
  - apply (fits_float_between 0 total); auto; lia.
  - apply (fits_float_between 0 total); auto; lia.
  - apply (fits_float_between 0 total); auto; lia.
  - apply Hall.
  - exact Hpause.
  - exact Hsleep.
  - eexists. reflexivity.
Qed.

(** The first record of a run cannot be built for the target [2^1024],
    and the run ends there. *)
Lemma huge_target_is_refused (w : World) (fuel : nat) (block_bytes headroom : Z)
    (pause : Q) (h : trace) :
  Qimi2Sim.mem_burst w fuel (2 ^ 1024) block_bytes headroom h
  = (Threw OverflowError, {| blocks := []; allocated := 0 |},
     h ++ [EvReadLimits (limits_of w h)])
  /\ Stress.allocate_slow w fuel (2 ^ 1024) block_bytes pause headroom h
     = (Threw OverflowError, {| blocks := []; allocated := 0 |},
        h ++ [EvTime (clock w h)]).
Proof.
  assert (Hbad : ~ sizes_fit [2 ^ 1024; block_bytes; headroom]).
  { intros H. inversion H as [|? ? Hf _]; subst.
    unfold fits_float in Hf. vm_compute in Hf. discriminate Hf. }
  split; [apply mem_burst_refused | apply allocate_slow_refused]; exact Hbad.
Qed.

(** C10 (amended).  In a world where every allocation succeeds, the
    headroom check never fires and the kernel takes every sleep, with
    sizes that the log can show (below [2^1024 - 2^970] in magnitude),
    blocks that [bytearray] can index (the smaller of block and target
    below [2^63]) and a pause that [time.sleep] takes: for
    [block_bytes >= 1] and [target >= 0] both loops end after exactly
    [ceil(target / block_bytes)] passes, having appended that many
    blocks, whose sizes add up to the target; with [block_bytes = 0] and
    [target > 0] every pass appends an empty block, the counter stays
    at 0 and the loop is still running after any number of passes. *)
Theorem loop_ends_after_ceil_passes (w : World) (headroom : Z) (pause : Q)
    (h : trace) :
  allocations_succeed w ->
  headroom_never_reached w headroom ->
  sleeps_succeed w ->
  sleepable pause ->
  fits_float headroom ->
  (forall target block_bytes fuel,
      0 <= target -> 1 <= block_bytes ->
      fits_float target -> fits_float block_bytes ->
      Z.min block_bytes target < 2 ^ 63 ->
      takes_passes (Z.to_nat (ceil_div target block_bytes)) target fuel
        (Qimi2Sim.mem_burst w fuel target block_bytes headroom h)
      /\ takes_passes (Z.to_nat (ceil_div target block_bytes)) target fuel
           (Stress.allocate_slow w fuel target block_bytes pause headroom h))
  /\ (forall target fuel,
        0 < target -> fits_float target ->
        never_advances fuel (Qimi2Sim.mem_burst w fuel target 0 headroom h)
        /\ never_advances fuel
             (Stress.allocate_slow w fuel target 0 pause headroom h)).
Proof.
  intros Hall Hnever Hsleep Hpause Hfh.
  assert (Hf0 : fits_float 0) by (apply fits_float_small; simpl; lia).
  split.
  - intros target block_bytes fuel Ht Hb Hft Hfb Hidx.
    assert (Hfit : sizes_fit [target; block_bytes; headroom])
      by (repeat constructor; assumption).
    split.
    + rewrite mem_burst_eq by exact Hfit. cbv zeta.
      edestruct (loop_takes_ceil_passes target block_bytes _
                   (mem_burst_body_progress w target block_bytes headroom h
                      Hall Hnever Hft Hidx) Hb fuel
                   {| blocks := []; allocated := 0 |}) as (v' & h' & Hres);
        [simpl; lia|].
      simpl in Hres. rewrite Z.sub_0_r in Hres.
      unfold takes_passes.
      destruct (_ <=? fuel)%nat.
      * destruct Hres as (-> & Hsum & Hlen). simpl. auto.
      * rewrite Hres. reflexivity.
    + rewrite allocate_slow_eq by exact Hfit.
      edestruct (loop_takes_ceil_passes target block_bytes _
                   (allocate_slow_body_progress w target block_bytes pause
                      headroom Hall Hnever Hpause Hsleep Hft Hidx) Hb fuel
                   {| blocks := []; allocated := 0 |}) as (v' & h' & Hres);
        [simpl; lia|].
      simpl in Hres. rewrite Z.sub_0_r in Hres.
      unfold takes_passes.
      destruct (_ <=? fuel)%nat.
      * destruct Hres as (-> & Hsum & Hlen).
        destruct (allocate_slow_finish_cases w target (Done tt) v' h')
          as (_ & Hc). cbv zeta in Hc.
        destruct Hc as [(E & _) | [(e & E & _) | [(u & _ & _ & ->)
          | [(u & _ & Hn & _) | [(E & _) | (E & _)]]]]]; try discriminate.
        -- auto.
        -- exfalso. apply Hn. rewrite Hsum. exact Hft.
      * rewrite Hres. reflexivity.
  - intros target fuel Ht Hft.
    assert (Hfit : sizes_fit [target; 0; headroom])
      by (repeat constructor; assumption).
    assert (Hidx : Z.min 0 target < 2 ^ 63) by lia.
    split.
    + rewrite mem_burst_eq by exact Hfit. cbv zeta.
      edestruct (loop_never_advances target 0 _
                   (mem_burst_body_progress w target 0 headroom h
                      Hall Hnever Hft Hidx) eq_refl Ht fuel
                   {| blocks := []; allocated := 0 |})
        as (v' & h' & -> & Hsum & Hlen & Hz); [reflexivity | constructor |].
      simpl. auto.
    + rewrite allocate_slow_eq by exact Hfit.
      edestruct (loop_never_advances target 0 _
                   (allocate_slow_body_progress w target 0 pause
                      headroom Hall Hnever Hpause Hsleep Hft Hidx) eq_refl Ht fuel
                   {| blocks := []; allocated := 0 |})
        as (v' & h' & -> & Hsum & Hlen & Hz); [reflexivity | constructor |].
      simpl. auto.
Qed.

Lemma loop_ends_after_ceil_passes_witness :
  allocations_succeed quiet_world
  /\ headroom_never_reached quiet_world 0
  /\ sleeps_succeed quiet_world
  /\ sleepable (1 # 2)
  /\ fits_float 0
  /\ takes_passes 3 10 5 (Qimi2Sim.mem_burst quiet_world 5 10 4 0 [])
  /\ takes_passes 3 10 2 (Stress.allocate_slow quiet_world 2 10 4 (1 # 2) 0 [])
  /\ never_advances 5 (Qimi2Sim.mem_burst quiet_world 5 10 0 0 []).
Proof.
  assert (H1 : allocations_succeed quiet_world) by (intros h n; reflexivity).
  assert (H2 : headroom_never_reached quiet_world 0)
    by (intros h h'; reflexivity).
  assert (H3 : sleeps_succeed quiet_world) by (intros h d; reflexivity).
  assert (H4 : sleepable (1 # 2))
    by (split; vm_compute; [discriminate | reflexivity]).
  assert (H5 : forall n, (Z.abs n <=? 2 ^ 64) = true -> fits_float n)
    by (intros n Hn; apply fits_float_small; lia).
  destruct (loop_ends_after_ceil_passes quiet_world 0 (1 # 2) [] H1 H2 H3 H4
              (H5 0 eq_refl))
    as [Hends Hstuck].
  split; [exact H1|]. split; [exact H2|]. split; [exact H3|].
  split; [exact H4|]. split; [exact (H5 0 eq_refl)|].
  split; [exact (proj1 (Hends 10 4 5%nat ltac:(lia) ltac:(lia)
                          (H5 10 eq_refl) (H5 4 eq_refl) ltac:(lia)))|].
  split; [exact (proj2 (Hends 10 4 2%nat ltac:(lia) ltac:(lia)
                          (H5 10 eq_refl) (H5 4 eq_refl) ltac:(lia)))|].
  exact (proj1 (Hstuck 10 5%nat ltac:(lia) (H5 10 eq_refl))).
Defined.

(** C10 as stated, for every target and every block size of one byte
    or more, in a world where every allocation succeeds and the
    headroom check never fires.  With the target [2^1024] and blocks of
    one byte neither loop makes a pass: the first record of the run
    cannot be built, and the run ends by [OverflowError] whatever the
    number of passes allowed.  With a target and a block size of [2^63]
    bytes the one pass expected does not complete: [bytearray(2^63)]
    raises [OverflowError], which is no allocation failure, and the run
    ends by it with no block. *)
Lemma huge_target_makes_no_pass :
  allocations_succeed quiet_world
  /\ headroom_never_reached quiet_world 0
  /\ fst (fst (Qimi2Sim.mem_burst quiet_world 5 (2 ^ 1024) 1 0 []))
     = Threw OverflowError
  /\ (~ takes_passes (Z.to_nat (ceil_div (2 ^ 1024) 1)) (2 ^ 1024) 5
          (Qimi2Sim.mem_burst quiet_world 5 (2 ^ 1024) 1 0 []))
  /\ (~ takes_passes (Z.to_nat (ceil_div (2 ^ 1024) 1)) (2 ^ 1024) 5
          (Stress.allocate_slow quiet_world 5 (2 ^ 1024) 1 0 0 []))
  /\ Z.to_nat (ceil_div (2 ^ 63) (2 ^ 63)) = 1%nat
  /\ fst (Qimi2Sim.mem_burst quiet_world 5 (2 ^ 63) (2 ^ 63) 0 [])
     = (Threw OverflowError, {| blocks := []; allocated := 0 |})
  /\ fst (Stress.allocate_slow quiet_world 5 (2 ^ 63) (2 ^ 63) 0 0 [])
     = (Threw OverflowError, {| blocks := []; allocated := 0 |})
  /\ (~ takes_passes 1 (2 ^ 63) 5
          (Qimi2Sim.mem_burst quiet_world 5 (2 ^ 63) (2 ^ 63) 0 []))
  /\ (~ takes_passes 1 (2 ^ 63) 5
          (Stress.allocate_slow quiet_world 5 (2 ^ 63) (2 ^ 63) 0 0 [])).
Proof.
  split; [intros h n; reflexivity|].
  split; [intros h h'; reflexivity|].
  destruct (huge_target_is_refused quiet_world 5 1 0 0 []) as (E1 & E2).
  rewrite E1, E2. unfold takes_passes.
  split; [reflexivity|].
  split.
  { destruct (_ <=? 5)%nat; intros H;
      try discriminate H; destruct H as (H & _); discriminate H. }
  split.
  { destruct (_ <=? 5)%nat; intros H;
      try discriminate H; destruct H as (H & _); discriminate H. }
  split; [vm_compute; reflexivity|].
  assert (E3 : fst (Qimi2Sim.mem_burst quiet_world 5 (2 ^ 63) (2 ^ 63) 0 [])
               = (Threw OverflowError, {| blocks := []; allocated := 0 |}))
    by (vm_compute; reflexivity).
  assert (E4 : fst (Stress.allocate_slow quiet_world 5 (2 ^ 63) (2 ^ 63) 0 0 [])
               = (Threw OverflowError, {| blocks := []; allocated := 0 |}))
    by (vm_compute; reflexivity).
  split; [exact E3|]. split; [exact E4|].
  split.
  - destruct (Qimi2Sim.mem_burst quiet_world 5 (2 ^ 63) (2 ^ 63) 0 [])
      as [[r v] t]. cbn [fst] in E3. injection E3 as -> ->.
    cbn [Nat.leb]. intros (H & _). discriminate H.
  - destruct (Stress.allocate_slow quiet_world 5 (2 ^ 63) (2 ^ 63) 0 0 [])
      as [[r v] t]. cbn [fst] in E4. injection E4 as -> ->.
    cbn [Nat.leb]. intros (H & _). discriminate H.
Qed.

(* ------------------------------------------------------------------ *)
(** ** The headroom stop *)

(** A pass whose headroom check fires. *)
Lemma mem_burst_body_stops (w : World) (want block_bytes headroom : Z)
    (lim : option Z) (v : mem_vars) (h : trace) :
  headroom_reached lim (current_of w h) headroom = true ->
  Qimi2Sim.mem_burst_body w want block_bytes headroom lim v h =
  (Done Break, v,
   h ++ [EvReadCurrent (current_of w h);
         EvLog (QStopHeadroom (current_of w h) lim)]).
Proof.
  intros Hr. unfold Qimi2Sim.mem_burst_body. unfold_steps.
  rewrite Hr. rewrite log_plain by reflexivity.
  rewrite <- app_assoc. reflexivity.
Qed.

Lemma allocate_slow_body_stops (w : World) (total block_bytes : Z) (pause : Q)
    (headroom : Z) (v : mem_vars) (h : trace) :
  let cur := current_of w h in
  let lim := mem_limit_of (limits_of w (h ++ [EvReadCurrent cur])) in
  headroom_reached lim cur headroom = true ->
  Stress.allocate_slow_body w total block_bytes pause headroom v h =
  (Done Break, v,
   h ++ [EvReadCurrent cur;
         EvReadLimits (limits_of w (h ++ [EvReadCurrent cur]));
         EvLog (SStopping cur lim)]).
Proof.
  intros cur lim Hr. unfold Stress.allocate_slow_body. unfold_steps.
  fold cur. fold lim. rewrite Hr. rewrite log_plain by reflexivity.
  rewrite <- !app_assoc. reflexivity.
Qed.

(** A pass whose headroom check does not fire and whose allocation
    succeeds. *)
Lemma mem_burst_body_adds (w : World) (want block_bytes headroom : Z)
    (lim : option Z) (v : mem_vars) (h : trace) :
  let bsz := Z.min block_bytes (want - allocated v) in
  headroom_reached lim (current_of w h) headroom = false ->
  0 <= allocated v -> 0 <= bsz -> allocated v + bsz <= 2 ^ 62 ->
  allocations_succeed w ->
  exists t,
    Qimi2Sim.mem_burst_body w want block_bytes headroom lim v h =
    (Done Continue,
     {| blocks := blocks v ++ [mk_bytearray bsz];
        allocated := allocated v + bsz |},
     h ++ t)
    /\ allocs_of t = [bsz]
    /\ forall e, In e t ->
         match e with EvAllocFailed _ | EvLog (QStopHeadroom _ _) => False
                    | _ => True end.
Proof.
  intros bsz Hr Ha Hb Hsmall Hall.
  destruct (mem_burst_body_allocates w want block_bytes headroom lim v h)
    as (pg & c & p & ->); cbv zeta; fold bsz;
    try (apply fits_float_small; lia); auto; try lia.
  eexists. split; [reflexivity|]. split; [reflexivity|].
  intros e He. simpl in He.
  repeat (destruct He as [<- | He]; [exact I|]). destruct He.
Qed.

Lemma allocate_slow_body_adds (w : World) (total block_bytes : Z)
    (pause : Q) (headroom : Z) (v : mem_vars) (h : trace) :
  let cur := current_of w h in
  let lim := mem_limit_of (limits_of w (h ++ [EvReadCurrent cur])) in
  let bsz := Z.min block_bytes (total - allocated v) in
  headroom_reached lim cur headroom = false ->
  0 <= allocated v -> 0 <= bsz -> allocated v + bsz <= 2 ^ 62 ->
  allocations_succeed w ->
  sleepable pause -> sleeps_succeed w ->
  exists t,
    Stress.allocate_slow_body w total block_bytes pause headroom v h =
    (Done Continue,
     {| blocks := blocks v ++ [mk_bytearray bsz];
        allocated := allocated v + bsz |},
     h ++ t)
    /\ allocs_of t = [bsz]
    /\ forall e, In e t ->
         match e with EvAllocFailed _ | EvLog (SStopping _ _) => False
                    | _ => True end.
Proof.
  intros cur lim bsz Hr Ha Hb Hsmall Hall Hp Hs.
  destruct (allocate_slow_body_allocates w total block_bytes pause headroom v h)
    as (pg & c & p & rs & ev & ->); cbv zeta; fold cur; fold bsz;
    try (apply fits_float_small; lia); auto; try lia.
  eexists. split; [reflexivity|]. split; [reflexivity|].
  intros e He. simpl in He.
  repeat (destruct He as [<- | He]; [exact I|]). destruct He.
Qed.

Lemma headroom_reached_at_mark (l c headroom : Z) :
  0 <= c -> l - headroom <= c ->
  headroom_reached (Some l) (Some c) headroom = true.
Proof. intros Hc Hl. unfold headroom_reached. apply Z.leb_le. lia. Qed.

Lemma current_of_nonneg (w : World) (h : trace) (c : Z) :
  current_of w h = Some c -> 0 <= c.
Proof.
  unfold current_of, option_N_to_Z. destruct (mem_current w h); simpl;
    intros H; inversion H. lia.
Qed.

Lemma no_failed_app (t1 t2 : trace) :
  (forall n, ~ In (EvAllocFailed n) t1) ->
  (forall n, ~ In (EvAllocFailed n) t2) ->
  forall n, ~ In (EvAllocFailed n) (t1 ++ t2).
Proof.
  intros H1 H2 n Hin. apply in_app_or in Hin as [Hin|Hin];
    [exact (H1 n Hin) | exact (H2 n Hin)].
Qed.

Lemma mem_burst_scenario (w : World) (fuel : nat) (target : Z) (h : trace) :
  headroom_scenario w ->
  no_alloc h ->
  160 * MiB < target ->
  fits_float target ->
  (3 <= fuel)%nat ->
  stopped_after_two_blocks
    (QStopHeadroom (Some (160 * MiB)) (Some (200 * MiB)))
    (Qimi2Sim.mem_burst w fuel target (80 * MiB) (50 * MiB) h).
Proof.
  intros (Hlim & Hall & Hlow & Hhigh) Hh Ht Hft Hfuel.
  destruct fuel as [|[|[|fuel]]]; try lia.
  assert (HM : MiB = 1048576) by reflexivity.
  assert (Hfit : sizes_fit [target; 80 * MiB; 50 * MiB]).
  { constructor; [exact Hft|].
    repeat constructor; apply fits_float_small; rewrite HM; simpl; lia. }
  rewrite mem_burst_eq by exact Hfit. cbv zeta. rewrite Hlim.
  set (lim := Some (200 * MiB)).
  set (cond := fun v : mem_vars => allocated v <? target).
  set (body := Qimi2Sim.mem_burst_body w target (80 * MiB) (50 * MiB) lim).
  set (v0 := {| blocks := []; allocated := 0 |}).
  set (v1 := {| blocks := [mk_bytearray (80 * MiB)]; allocated := 80 * MiB |}).
  set (v2 := {| blocks := [mk_bytearray (80 * MiB); mk_bytearray (80 * MiB)];
                allocated := 160 * MiB |}).
  set (h1 := h ++ _).
  assert (Ha1 : allocs_of h1 = []).
  { subst h1. rewrite allocs_of_app, (no_alloc_allocs_of _ Hh). reflexivity. }
  assert (Hf1 : forall n, ~ In (EvAllocFailed n) h1).
  { subst h1. apply no_failed_app.
    - intros n; apply no_alloc_not_failed; exact Hh.
    - intros n [Hin|[Hin|[]]]; discriminate. }
  (* first pass *)
  destruct (mem_burst_body_adds w target (80 * MiB) (50 * MiB) lim v0 h1)
    as (t1 & Hb1 & Hal1 & Hev1);
    [ apply Hlow; rewrite Ha1; auto | unfold v0; cbn [allocated]; lia
    | unfold v0; cbn [allocated]; lia | unfold v0; cbn [allocated]; lia
    | exact Hall | ].
  replace (Z.min (80 * MiB) (target - allocated v0)) with (80 * MiB)
    in Hb1, Hal1 by (unfold v0; cbn [allocated]; lia).
  replace {| blocks := blocks v0 ++ [mk_bytearray (80 * MiB)];
             allocated := allocated v0 + 80 * MiB |} with v1 in Hb1
    by (unfold v0, v1; cbn [blocks allocated app]; f_equal).
  assert (Hc0 : cond v0 = true) by (unfold cond, v0; cbn [allocated]; lia).
  rewrite (while_loop_continue _ cond body v0 v1 h1 _ Hc0 Hb1).
  set (h2 := h1 ++ t1).
  assert (Ha2 : allocs_of h2 = [80 * MiB]).
  { subst h2. rewrite allocs_of_app, Ha1, Hal1. reflexivity. }
  assert (Hf2 : forall n, ~ In (EvAllocFailed n) h2).
  { subst h2. apply no_failed_app; [exact Hf1|].
    intros n Hin. exact (Hev1 _ Hin). }
  (* second pass *)
  destruct (mem_burst_body_adds w target (80 * MiB) (50 * MiB) lim v1 h2)
    as (t2 & Hb2 & Hal2 & Hev2);
    [ apply Hlow; rewrite Ha2; auto | unfold v1; cbn [allocated]; lia
    | unfold v1; cbn [allocated]; lia | unfold v1; cbn [allocated]; lia
    | exact Hall | ].
  replace (Z.min (80 * MiB) (target - allocated v1)) with (80 * MiB)
    in Hb2, Hal2 by (unfold v1; cbn [allocated]; lia).
  replace {| blocks := blocks v1 ++ [mk_bytearray (80 * MiB)];
             allocated := allocated v1 + 80 * MiB |} with v2 in Hb2
    by (unfold v1, v2; cbn [blocks allocated app]; f_equal; lia).
  assert (Hc1 : cond v1 = true) by (unfold cond, v1; cbn [allocated]; lia).
  rewrite (while_loop_continue _ cond body v1 v2 h2 _ Hc1 Hb2).
  set (h3 := h2 ++ t2).
  assert (Ha3 : allocs_of h3 = [80 * MiB; 80 * MiB]).
  { subst h3. rewrite allocs_of_app, Ha2, Hal2. reflexivity. }
  assert (Hf3 : forall n, ~ In (EvAllocFailed n) h3).
  { subst h3. apply no_failed_app; [exact Hf2|].
    intros n Hin. exact (Hev2 _ Hin). }
  (* third pass: the check fires *)
  pose proof (Hhigh h3 Ha3) as Hcur.
  assert (Hc2 : cond v2 = true) by (unfold cond, v2; cbn [allocated]; lia).
  assert (Hb3 := mem_burst_body_stops w target (80 * MiB) (50 * MiB) lim v2 h3).
  cbv zeta in Hb3.
  specialize (Hb3 ltac:(rewrite Hcur; reflexivity)).
  rewrite (while_loop_break _ cond body v2 v2 h3 _ Hc2 Hb3).
  rewrite Hcur.
  unfold mem_burst_finish, stopped_after_two_blocks.
  unfold v2; cbn [blocks allocated].
  split; [reflexivity|]. split; [reflexivity|].
  split; [unfold total_len; simpl; lia|].
  split; [|split].
  - rewrite allocs_of_app, Ha3. reflexivity.
  - apply no_failed_app; [exact Hf3|].
    intros n [Hin|[Hin|[]]]; discriminate.
  - apply in_or_app. right. right. left. reflexivity.
Qed.

Lemma allocate_slow_scenario (w : World) (fuel : nat) (target : Z) (pause : Q)
    (h : trace) :
  headroom_scenario w ->
  sleeps_succeed w ->
  no_alloc h ->
  160 * MiB < target ->
  fits_float target ->
  sleepable pause ->
  (3 <= fuel)%nat ->
  stopped_after_two_blocks
    (SStopping (Some (160 * MiB)) (Some (200 * MiB)))
    (Stress.allocate_slow w fuel target (80 * MiB) pause (50 * MiB) h).
Proof.
  intros (Hlim & Hall & Hlow & Hhigh) Hsl Hh Ht Hft Hp Hfuel.
  destruct fuel as [|[|[|fuel]]]; try lia.
  assert (HM : MiB = 1048576) by reflexivity.
  assert (Hfit : sizes_fit [target; 80 * MiB; 50 * MiB]).
  { constructor; [exact Hft|].
    repeat constructor; apply fits_float_small; rewrite HM; simpl; lia. }
  rewrite allocate_slow_eq by exact Hfit.
  set (cond := fun v : mem_vars => allocated v <? target).
  set (body := Stress.allocate_slow_body w target (80 * MiB) pause (50 * MiB)).
  set (v0 := {| blocks := []; allocated := 0 |}).
  set (v1 := {| blocks := [mk_bytearray (80 * MiB)]; allocated := 80 * MiB |}).
  set (v2 := {| blocks := [mk_bytearray (80 * MiB); mk_bytearray (80 * MiB)];
                allocated := 160 * MiB |}).
  set (h1 := h ++ _).
  assert (Ha1 : allocs_of h1 = []).
  { subst h1. rewrite allocs_of_app, (no_alloc_allocs_of _ Hh). reflexivity. }
  assert (Hf1 : forall n, ~ In (EvAllocFailed n) h1).
  { subst h1. apply no_failed_app.
    - intros n; apply no_alloc_not_failed; exact Hh.
    - intros n [Hin|[Hin|[]]]; discriminate. }
  (* first pass *)
  destruct (allocate_slow_body_adds w target (80 * MiB) pause (50 * MiB) v0 h1)
    as (t1 & Hb1 & Hal1 & Hev1);
    [ rewrite Hlim; apply Hlow; rewrite Ha1; auto
    | unfold v0; cbn [allocated]; lia | unfold v0; cbn [allocated]; lia
    | unfold v0; cbn [allocated]; lia | exact Hall | exact Hp | exact Hsl | ].
  replace (Z.min (80 * MiB) (target - allocated v0)) with (80 * MiB)
    in Hb1, Hal1 by (unfold v0; cbn [allocated]; lia).
  replace {| blocks := blocks v0 ++ [mk_bytearray (80 * MiB)];
             allocated := allocated v0 + 80 * MiB |} with v1 in Hb1
    by (unfold v0, v1; cbn [blocks allocated app]; f_equal).
  assert (Hc0 : cond v0 = true) by (unfold cond, v0; cbn [allocated]; lia).
  rewrite (while_loop_continue _ cond body v0 v1 h1 _ Hc0 Hb1).
  set (h2 := h1 ++ t1).
  assert (Ha2 : allocs_of h2 = [80 * MiB]).
  { subst h2. rewrite allocs_of_app, Ha1, Hal1. reflexivity. }
  assert (Hf2 : forall n, ~ In (EvAllocFailed n) h2).
  { subst h2. apply no_failed_app; [exact Hf1|].
    intros n Hin. exact (Hev1 _ Hin). }
  (* second pass *)
  destruct (allocate_slow_body_adds w target (80 * MiB) pause (50 * MiB) v1 h2)
    as (t2 & Hb2 & Hal2 & Hev2);
    [ rewrite Hlim; apply Hlow; rewrite Ha2; auto
    | unfold v1; cbn [allocated]; lia | unfold v1; cbn [allocated]; lia
    | unfold v1; cbn [allocated]; lia | exact Hall | exact Hp | exact Hsl | ].
  replace (Z.min (80 * MiB) (target - allocated v1)) with (80 * MiB)
    in Hb2, Hal2 by (unfold v1; cbn [allocated]; lia).
  replace {| blocks := blocks v1 ++ [mk_bytearray (80 * MiB)];
             allocated := allocated v1 + 80 * MiB |} with v2 in Hb2
    by (unfold v1, v2; cbn [blocks allocated app]; f_equal; lia).
  assert (Hc1 : cond v1 = true) by (unfold cond, v1; cbn [allocated]; lia).
  rewrite (while_loop_continue _ cond body v1 v2 h2 _ Hc1 Hb2).
  set (h3 := h2 ++ t2).
  assert (Ha3 : allocs_of h3 = [80 * MiB; 80 * MiB]).
  { subst h3. rewrite allocs_of_app, Ha2, Hal2. reflexivity. }
  assert (Hf3 : forall n, ~ In (EvAllocFailed n) h3).
  { subst h3. apply no_failed_app; [exact Hf2|].
    intros n Hin. exact (Hev2 _ Hin). }
  (* third pass: the check fires *)
  pose proof (Hhigh h3 Ha3) as Hcur.
  assert (Hc2 : cond v2 = true) by (unfold cond, v2; cbn [allocated]; lia).
  assert (Hb3 := allocate_slow_body_stops w target (80 * MiB) pause (50 * MiB) v2 h3).
  cbv zeta in Hb3.
  specialize (Hb3 ltac:(rewrite Hcur, Hlim; reflexivity)).
  rewrite (while_loop_break _ cond body v2 v2 h3 _ Hc2 Hb3).
  rewrite Hcur, Hlim.
  match goal with
  | |- context [allocate_slow_finish w target (?r, ?v, ?h)] =>
      destruct (allocate_slow_finish_cases w target r v h) as (_ & Hc)
  end.
  cbv zeta in Hc.
  destruct Hc as [(E & _) | [(e & E & _) | [(u & _ & _ & Eres)
    | [(u & _ & Hn & _) | [(E & _) | (E & _)]]]]]; try discriminate.
  2:{ exfalso. apply Hn. unfold v2. cbn [allocated].
      apply fits_float_small. rewrite HM. simpl. lia. }
  unfold trace in *. rewrite Eres. unfold stopped_after_two_blocks.
  unfold v2; cbn [blocks allocated].
  split; [reflexivity|]. split; [reflexivity|].
  split; [unfold total_len; simpl; lia|].
  split; [|split].
  - rewrite !allocs_of_app, Ha3. reflexivity.
  - apply no_failed_app; [apply no_failed_app; [exact Hf3|]|].
    + intros n [Hin|[Hin|[Hin|[]]]]; discriminate.
    + intros n [Hin|[Hin|[]]]; discriminate.
  - apply in_or_app. left. apply in_or_app. right. right. right. left.
    reflexivity.
Qed.

Lemma metered_world_scenario :
  headroom_scenario (metered_world (Some 209715200%N)).
Proof.
  assert (Hsum : forall h, allocated_in h = fold_right Z.add 0 (allocs_of h)).
  { induction h as [|e h IH]; simpl; [reflexivity|].
    destruct e; simpl; rewrite ?IH; reflexivity. }
  split; [intros h; reflexivity|].
  split; [intros h n; reflexivity|].
  split.
  - intros h Hh. unfold current_of, metered_world, option_N_to_Z.
    cbn [mem_current option_map]. rewrite Hsum.
    destruct Hh as [-> | ->]; reflexivity.
  - intros h Hh. unfold current_of, metered_world, option_N_to_Z.
    cbn [mem_current option_map]. rewrite Hsum, Hh. reflexivity.
Qed.

Lemma burst_stops_at_mark_holds (w : World) : burst_stops_at_mark w.
Proof.
  intros want block_bytes headroom l c v h fuel Hlt Hcur Hmark.
  assert (Hr : headroom_reached (Some l) (current_of w h) headroom = true).
  { rewrite Hcur. apply headroom_reached_at_mark; [|exact Hmark].
    eapply current_of_nonneg; eauto. }
  pose proof (mem_burst_body_stops w want block_bytes headroom (Some l) v h Hr)
    as Hb.
  rewrite Hcur in Hb.
  apply (while_loop_break fuel (fun v => allocated v <? want) _ v v h _);
    [lia | exact Hb].
Qed.

Lemma ramp_stops_at_mark_holds (w : World) : ramp_stops_at_mark w.
Proof.
  intros total block_bytes pause headroom l c v h fuel Hlt Hcur Hlim Hmark.
  pose proof (allocate_slow_body_stops w total block_bytes pause headroom v h)
    as Hb.
  cbv zeta in Hb. rewrite Hcur, Hlim in Hb.
  specialize (Hb ltac:(apply headroom_reached_at_mark;
                       [eapply current_of_nonneg; eauto | exact Hmark])).
  apply (while_loop_break fuel (fun v => allocated v <? total) _ v v h _);
    [lia | exact Hb].
Qed.

(** C2.  With a limit of 200 MiB and a headroom of 50 MiB, blocks of
    80 MiB and a target above 160 MiB, in a world that reports a usage of
    160 MiB once two blocks are allocated, [mem_burst] and
    [allocate_slow] stop by the headroom check before a third
    allocation: they return exactly two blocks of 80 MiB, 160 MiB in
    all, and log the headroom-stop record.  The two blocks are reached
    when the target can be shown in the first record of the run (it is
    below [2^1024 - 2^970]) and, in [allocate_slow], the pause after a
    block is one that [time.sleep] takes.  In general either loop ends
    in the pass in which the limit and the usage are both known and
    [current >= limit - headroom]. *)
Theorem headroom_stop (w : World) (fuel : nat) (target : Z) (pause : Q)
    (h : trace) :
  headroom_scenario w ->
  sleeps_succeed w ->
  no_alloc h ->
  160 * MiB < target ->
  fits_float target ->
  sleepable pause ->
  (3 <= fuel)%nat ->
  stopped_after_two_blocks
    (QStopHeadroom (Some (160 * MiB)) (Some (200 * MiB)))
    (Qimi2Sim.mem_burst w fuel target (80 * MiB) (50 * MiB) h)
  /\ stopped_after_two_blocks
       (SStopping (Some (160 * MiB)) (Some (200 * MiB)))
       (Stress.allocate_slow w fuel target (80 * MiB) pause (50 * MiB) h)
  /\ burst_stops_at_mark w
  /\ ramp_stops_at_mark w.
Proof.
  intros Hw Hsl Hh Ht Hft Hp Hfuel.
  split; [apply mem_burst_scenario; assumption|].
  split; [apply allocate_slow_scenario; assumption|].
  split; [apply burst_stops_at_mark_holds | apply ramp_stops_at_mark_holds].
Qed.

Lemma headroom_stop_witness :
  headroom_scenario (metered_world (Some 209715200%N))
  /\ sleeps_succeed (metered_world (Some 209715200%N))
  /\ no_alloc []
  /\ 160 * MiB < 400 * MiB
  /\ fits_float (400 * MiB)
  /\ sleepable (1 # 2)
  /\ (3 <= 5)%nat
  /\ stopped_after_two_blocks
       (QStopHeadroom (Some (160 * MiB)) (Some (200 * MiB)))
       (Qimi2Sim.mem_burst (metered_world (Some 209715200%N)) 5
          (400 * MiB) (80 * MiB) (50 * MiB) [])
  /\ stopped_after_two_blocks
       (SStopping (Some (160 * MiB)) (Some (200 * MiB)))
       (Stress.allocate_slow (metered_world (Some 209715200%N)) 5
          (400 * MiB) (80 * MiB) (1 # 2) (50 * MiB) []).
Proof.
  assert (H1 := metered_world_scenario).
  assert (Hs : sleeps_succeed (metered_world (Some 209715200%N)))
    by (intros h d; reflexivity).
  assert (H2 : no_alloc []) by reflexivity.
  assert (H3 : 160 * MiB < 400 * MiB) by reflexivity.
  assert (Hf : fits_float (400 * MiB)) by (vm_compute; reflexivity).
  assert (H4 : sleepable (1 # 2))
    by (split; vm_compute; [discriminate | reflexivity]).
  assert (H5 : (3 <= 5)%nat) by lia.
  destruct (headroom_stop (metered_world (Some 209715200%N)) 5 (400 * MiB)
              (1 # 2) [] H1 Hs H2 H3 Hf H4 H5) as (Hq & Hsl & _).
  split; [exact H1|]. split; [exact Hs|]. split; [exact H2|].
  split; [exact H3|]. split; [exact Hf|]. split; [exact H4|].
  split; [exact H5|]. split; [exact Hq | exact Hsl].
Defined.

(* ------------------------------------------------------------------ *)
(** ** What a loop adds to the trace *)

(** A property of trace segments that holds of the empty segment and of
    the concatenation of two segments that have it holds of what a loop
    adds, when it holds of what each pass adds. *)
Lemma while_loop_adds {V : Type} (Q : trace -> Prop) (cond : V -> bool)
    (body : M V flow) :
  Q [] ->
  (forall t1 t2, Q t1 -> Q t2 -> Q (t1 ++ t2)) ->
  (forall v h r v' h', body v h = (r, v', h') -> exists t, h' = h ++ t /\ Q t) ->
  forall fuel v h r v' h',
    while_loop fuel cond body v h = (r, v', h') -> exists t, h' = h ++ t /\ Q t.
Proof.
  intros Hnil Happ Hbody.
  apply (while_loop_ind cond body
           (fun _ h _ _ h' => exists t, h' = h ++ t /\ Q t)).
  - intros v h _. exists []. rewrite app_nil_r. auto.
  - intros v h _. exists []. rewrite app_nil_r. auto.
  - intros v h v1 h1 _ Hb. eapply Hbody; eauto.
  - intros v h e v1 h1 _ Hb. eapply Hbody; eauto.
  - intros v h v1 h1 _ Hb. eapply Hbody; eauto.
  - intros v h v1 h1 r v2 h2 _ Hb (t2 & -> & Hq2).
    apply Hbody in Hb as (t1 & -> & Hq1).
    exists (t1 ++ t2). rewrite app_assoc. auto.
Qed.












(* ================================================================== *)
(** * The CPU worker pool *)

Lemma started_in_app (t1 t2 : trace) :
  started_in (t1 ++ t2) = started_in t1 ++ started_in t2.
Proof.
  induction t1 as [|e t1 IH]; simpl; [reflexivity|].
  destruct e; simpl; rewrite ?IH; reflexivity.
Qed.

Lemma joined_in_app (t1 t2 : trace) :
  joined_in (t1 ++ t2) = joined_in t1 ++ joined_in t2.
Proof.
  induction t1 as [|e t1 IH]; simpl; [reflexivity|].
  destruct e; simpl; rewrite ?IH; reflexivity.
Qed.

(** An invariant of the variables and of the trace is kept by a [for]
    loop when each pass keeps it, however the loop ends. *)
Lemma for_each_keeps {V A : Type} (I : V -> trace -> Prop)
    (body : A -> M V unit) (xs : list A) :
  (forall x v h r v' h', In x xs -> I v h -> body x v h = (r, v', h') -> I v' h') ->
  forall v h r v' h',
    I v h -> for_each xs body v h = (r, v', h') -> I v' h'.
Proof.
  induction xs as [|x xs IH]; intros Hbody v h r v' h' Hi Hrun; simpl in Hrun.
  - unfold ret in Hrun. inversion Hrun; subst; exact Hi.
  - unfold bind in Hrun.
    destruct (body x v h) as [[r1 v1] h1] eqn:Hb.
    assert (Hi1 : I v1 h1) by (eapply Hbody; eauto; left; reflexivity).
    destruct r1 as [[]|e|].
    + eapply IH; eauto. intros; eapply Hbody; eauto. right; assumption.
    + inversion Hrun; subst; exact Hi1.
    + inversion Hrun; subst; exact Hi1.
Qed.

(** The final loop of both pools: one join for each process. *)
Lemma for_each_join {V : Type} (timeout : option Q) (ps : list process)
    (v : V) (h : trace) :
  for_each ps (fun p => join p timeout) v h =
  (Done tt, v, h ++ map (fun p => EvJoin p timeout) ps).
Proof.
  revert h. induction ps as [|p ps IH]; intros h; simpl.
  - unfold ret. rewrite app_nil_r. reflexivity.
  - unfold bind, join, emit. rewrite IH, <- app_assoc. reflexivity.
Qed.

Lemma joined_in_joins (timeout : option Q) (ps : list process) :
  joined_in (map (fun p => EvJoin p timeout) ps)
  = map (fun p => (p, timeout)) ps.
Proof. induction ps as [|p ps IH]; simpl; [|rewrite IH]; reflexivity. Qed.

Lemma started_in_joins (timeout : option Q) (ps : list process) :
  started_in (map (fun p => EvJoin p timeout) ps) = [].
Proof. induction ps as [|p ps IH]; simpl; auto. Qed.

Lemma starting_gives_joins {V : Type} (timeout : option Q) (h h' : trace)
    (procs : list process) (r : outcome unit) (v : V) :
  starting h procs h' ->
  @joins_all_with V timeout h
    (r, v, h' ++ (match r with Done _ => map (fun p => EvJoin p timeout) procs
                             | _ => [] end)).
Proof.
  intros (t & -> & Hp & Hj).
  eexists. split; [unfold trace_of; cbn [snd]; rewrite <- app_assoc;
                   reflexivity|].
  rewrite joined_in_app, started_in_app, Hj. cbn [app].
  destruct r as [[]|e|]; cbn [fst].
  - rewrite joined_in_joins, started_in_joins, app_nil_r, <- Hp. split.
    + intros j Hin. apply in_map_iff in Hin as (p & <- & _). reflexivity.
    + reflexivity.
  - split; [intros j []| discriminate].
  - split; [intros j []| discriminate].
Qed.

(** Both pools compute [stop_at] first: when the duration does not fit
    a float, they end there. *)
Lemma cpu_burst_eq (w : World) (nproc duration_s : Z) (no_affinity : bool)
    (v : list process) (h : trace) :
  Qimi2Sim.cpu_burst w nproc duration_s no_affinity v h =
  match time_plus_int (clock w h) (Z.max 1 duration_s) with
  | Ok stop_at =>
      cpu_burst_from w nproc no_affinity stop_at v (h ++ [EvTime (clock w h)])
  | Raise e => (Threw e, v, h ++ [EvTime (clock w h)])
  end.
Proof.
  unfold Qimi2Sim.cpu_burst, cpu_burst_from.
  unfold bind at 1. unfold time_time at 1.
  unfold bind at 1. unfold lift.
  destruct (time_plus_int _ _); reflexivity.
Qed.

Lemma run_cpu_ramp_eq (w : World) (fuel : nat) (total_cpus duration : Z)
    (ramp_every : Q) (duty_on_ms duty_off_ms : Z) (no_affinity : bool)
    (v : Stress.ramp_vars) (h : trace) :
  Stress.run_cpu_ramp w fuel total_cpus duration ramp_every duty_on_ms
    duty_off_ms no_affinity v h =
  match time_plus_int (clock w h) (Z.max 1 duration) with
  | Ok stop_at =>
      run_cpu_ramp_from w fuel total_cpus ramp_every duty_on_ms duty_off_ms
        no_affinity stop_at v (h ++ [EvTime (clock w h)])
  | Raise e => (Threw e, v, h ++ [EvTime (clock w h)])
  end.
Proof.
  unfold Stress.run_cpu_ramp, run_cpu_ramp_from.
  unfold bind at 1. unfold time_time at 1.
  unfold bind at 1. unfold lift.
  destruct (time_plus_int _ _); reflexivity.
Qed.

Lemma joins_all_with_none {V : Type} (timeout : option Q) (h : trace)
    (e : exn) (v : V) (q : Q) :
  @joins_all_with V timeout h (Threw e, v, h ++ [EvTime q]).
Proof.
  eexists. split; [reflexivity|]. split; [intros j []| discriminate].
Qed.

Lemma cpu_burst_joins (w : World) (nproc duration_s : Z) (no_affinity : bool)
    (h : trace) :
  joins_all_with None h
    (Qimi2Sim.cpu_burst w nproc duration_s no_affinity [] h).
Proof.
  rewrite cpu_burst_eq.
  destruct (time_plus_int_cases (clock w h) (Z.max 1 duration_s))
    as [(_ & ->) | (_ & ->)]; [|apply joins_all_with_none].
  unfold cpu_burst_from.
  unfold bind at 1. unfold sched_getaffinity at 1.
  set (stop_at := (clock w h + inject_Z (Z.max 1 duration_s))%Q).
  set (avail := option_map _ _).
  set (h1 := (h ++ _) ++ _).
  unfold bind at 1.
  destruct (for_each _ _ [] h1) as [[r procs] h2] eqn:Hrun.
  assert (Hst : starting h procs h2).
  { eapply (for_each_keeps (fun v h' => starting h v h')) in Hrun;
      [exact Hrun | | ].
    - intros i v h' r' v' h'' _ (t & -> & Hp & Hj) Hb.
      unfold_steps. rewrite ?log_plain in Hb by reflexivity.
      destruct (start_ok w _ _);
        injection Hb as Hr Hv Hh; subst r' v' h''.
      + exists (t ++ [EvStart (CpuWorker
                   {| wk_id := i;
                      wk_pin := Qimi2Sim.choose_pin no_affinity avail i;
                      wk_stop_at := stop_at; wk_duty := None |});
                     EvLog (QCpuStarted (i + 1) nproc
                              (Qimi2Sim.choose_pin no_affinity avail i))]).
        repeat rewrite <- app_assoc.
        split; [reflexivity|].
        rewrite started_in_app, joined_in_app, Hj, <- Hp. split; reflexivity.
      + eexists. rewrite <- app_assoc. split; [reflexivity|].
        rewrite started_in_app, joined_in_app, Hj, <- Hp.
        simpl. rewrite app_nil_r. split; reflexivity.
    - exists [EvTime (clock w h); EvAffinity avail]. subst h1.
      rewrite <- app_assoc. repeat split. }
  destruct r as [[]|e|].
  - unfold bind, get. rewrite for_each_join.
    exact (starting_gives_joins None h h2 procs (Done tt) procs Hst).
  - pose proof (starting_gives_joins None h h2 procs (Threw e) procs Hst) as H.
    rewrite app_nil_r in H. exact H.
  - pose proof (starting_gives_joins None h h2 procs OutOfFuel procs Hst) as H.
    rewrite app_nil_r in H. exact H.
Qed.

Lemma run_cpu_ramp_body_starting (w : World) (stop_at : Q)
    (available : option (list Z)) (total_cpus : Z) (ramp_every : Q)
    (duty_on_ms duty_off_ms : Z) (no_affinity : bool) (h0 : trace)
    (v v' : Stress.ramp_vars) (h h' : trace) (r : outcome flow) :
  starting h0 (Stress.workers v) h ->
  Stress.run_cpu_ramp_body w stop_at available total_cpus ramp_every
    duty_on_ms duty_off_ms no_affinity v h = (r, v', h') ->
  starting h0 (Stress.workers v') h'.
Proof.
  intros (t & -> & Hp & Hj).
  unfold Stress.run_cpu_ramp_body. unfold_steps.
  destruct (Qle_bool stop_at _);
    [|destruct (Stress.started v <? total_cpus);
      [rewrite ?log_plain by reflexivity; destruct (start_ok w _ _)|]];
    body_split; intros Hb; injection Hb as Hr Hv Hh; subst r v' h';
    (eexists; repeat rewrite <- app_assoc; split; [reflexivity|]);
    rewrite started_in_app, joined_in_app, Hj, <- Hp; simpl;
    rewrite ?app_nil_r; split; reflexivity.
Qed.

Lemma run_cpu_ramp_joins (w : World) (fuel : nat) (total_cpus duration : Z)
    (ramp_every : Q) (duty_on_ms duty_off_ms : Z) (no_affinity : bool)
    (h : trace) :
  joins_all_with (Some 1%Q) h
    (Stress.run_cpu_ramp w fuel total_cpus duration ramp_every
       duty_on_ms duty_off_ms no_affinity
       {| Stress.workers := []; Stress.started := 0 |} h).
Proof.
  rewrite run_cpu_ramp_eq.
  destruct (time_plus_int_cases (clock w h) (Z.max 1 duration))
    as [(_ & ->) | (_ & ->)]; [|apply joins_all_with_none].
  unfold run_cpu_ramp_from.
  unfold bind at 1. unfold sched_getaffinity at 1.
  set (stop_at := (clock w h + inject_Z (Z.max 1 duration))%Q).
  set (avail := option_map _ _).
  set (h1 := (h ++ _) ++ _).
  unfold bind at 1.
  destruct (while_loop _ _ _ _ h1) as [[r v] h2] eqn:Hrun.
  assert (Hst : starting h (Stress.workers v) h2).
  { revert Hrun.
    assert (H1 : starting h
                   (Stress.workers {| Stress.workers := [];
                                      Stress.started := 0 |}) h1).
    { exists [EvTime (clock w h); EvAffinity avail]. subst h1.
      rewrite <- app_assoc. repeat split. }
    revert H1. generalize h1.
    generalize {| Stress.workers := []; Stress.started := 0 |}.
    intros v0 h0 H0 Hrun. revert H0.
    revert fuel v0 h0 r v h2 Hrun.
    apply (while_loop_ind (fun _ => true) _
             (fun v0 h0 _ v h2 =>
                starting h (Stress.workers v0) h0 ->
                starting h (Stress.workers v) h2)); auto;
      try (intros; eapply run_cpu_ramp_body_starting; eauto; fail).
    intros v0 h0 v1 h1' r' v2 h2' _ Hb IH H0. apply IH.
    eapply run_cpu_ramp_body_starting; eauto. }
  destruct r as [[]|e|].
  - unfold bind, get. rewrite for_each_join.
    exact (starting_gives_joins (Some 1%Q) h h2 (Stress.workers v)
             (Done tt) v Hst).
  - pose proof (starting_gives_joins (Some 1%Q) h h2 (Stress.workers v)
                  (Threw e) v Hst) as H.
    rewrite app_nil_r in H. exact H.
  - pose proof (starting_gives_joins (Some 1%Q) h h2 (Stress.workers v)
                  OutOfFuel v Hst) as H.
    rewrite app_nil_r in H. exact H.
Qed.

(** C7 (amended).  In [run_cpu_ramp] every wait of the parent for a
    worker is made with a timeout of one second, and a run that returns
    has waited once for every worker it started, in the order of the
    starts.  In [cpu_burst] every wait is made with no timeout, and a
    run that returns has waited once for every worker it started. *)
Theorem worker_joins (w : World) (fuel : nat) (nproc duration : Z)
    (ramp_every : Q) (duty_on_ms duty_off_ms : Z) (no_affinity : bool)
    (h : trace) :
  joins_all_with (Some 1%Q) h
    (Stress.run_cpu_ramp w fuel nproc duration ramp_every
       duty_on_ms duty_off_ms no_affinity
       {| Stress.workers := []; Stress.started := 0 |} h)
  /\ joins_all_with None h
       (Qimi2Sim.cpu_burst w nproc duration no_affinity [] h).
Proof. split; [apply run_cpu_ramp_joins | apply cpu_burst_joins]. Qed.

(** C7 as stated, for [cpu_burst]: the join of its worker has no
    timeout. *)
Lemma burst_join_is_unbounded :
  joined_in (trace_of (Qimi2Sim.cpu_burst quiet_world 1 1 false [] []))
  = [(CpuWorker {| wk_id := 0; wk_pin := None; wk_stop_at := 1%Q;
                   wk_duty := None |}, None)]
  /\ joins_bounded (trace_of (Qimi2Sim.cpu_burst quiet_world 1 1 false [] []))
     = false.
Proof. split; vm_compute; reflexivity. Qed.

(* ================================================================== *)
(** * The temporary file of [io_burst] *)

Lemma firstn_repeat_le {A : Type} (x : A) (n m : nat) :
  (n <= m)%nat -> firstn n (repeat x m) = repeat x n.
Proof.
  revert m. induction n as [|n IH]; intros m Hle; [reflexivity|].
  destruct m as [|m]; [lia|]. simpl. rewrite IH by lia. reflexivity.
Qed.

Lemma chunk_len_pos : 0 < Qimi2Sim.chunk_len.
Proof. reflexivity. Qed.

Lemma chunk_length : Z.of_nat (List.length Qimi2Sim.chunk) = Qimi2Sim.chunk_len.
Proof.
  unfold Qimi2Sim.chunk. rewrite repeat_length.
  apply Z2Nat.id. pose proof chunk_len_pos. lia.
Qed.

Lemma chunk_prefix_zeros (n : Z) :
  0 <= n <= Qimi2Sim.chunk_len ->
  Qimi2Sim.chunk_prefix n = repeat Byte.x00 (Z.to_nat n).
Proof.
  intros Hn. unfold Qimi2Sim.chunk_prefix, Qimi2Sim.chunk.
  apply firstn_repeat_le. lia.
Qed.


Lemma written_in_app (t1 t2 : trace) :
  written_in (t1 ++ t2) = written_in t1 ++ written_in t2.
Proof.
  induction t1 as [|e t1 IH]; simpl; [reflexivity|].
  destruct e as [| | | | | | | | | | | | | | | | |op ok|]; simpl; rewrite ?IH;
    try reflexivity.
  destruct op, ok; simpl; rewrite ?IH, ?app_assoc; reflexivity.
Qed.

Lemma stored_in_app (t1 t2 : trace) :
  stored_in (t1 ++ t2) = stored_in t1 ++ stored_in t2.
Proof.
  induction t1 as [|e t1 IH]; simpl; [reflexivity|].
  destruct e; simpl; rewrite ?IH, ?app_assoc; reflexivity.
Qed.


(** One pass of the write loop. *)
Lemma io_write_body_eq (w : World) (left : Z) (h : trace) :
  let n := Z.min left Qimi2Sim.chunk_len in
  Qimi2Sim.io_write_body w left h =
  if fs_ok w h (Write (Qimi2Sim.chunk_prefix n))
  then (Done Continue, left - n,
        h ++ [EvFs (Write (Qimi2Sim.chunk_prefix n)) true;
              EvWritten (taken w h (Qimi2Sim.chunk_prefix n))])
  else (Threw OSError, left,
        h ++ [EvFs (Write (Qimi2Sim.chunk_prefix n)) false]).
Proof.
  intros n. unfold Qimi2Sim.io_write_body, fs_write, taken. unfold_monad.
  rewrite chunk_length. fold n.
  destruct (fs_ok w h _); reflexivity.
Qed.

(** With enough passes allowed, the write loop ends. *)
Lemma io_write_loop_ends (w : World) (fuel : nat) :
  forall left h,
    (Z.to_nat (ceil_div left Qimi2Sim.chunk_len) <= fuel)%nat ->
    exists r left' t,
      while_loop fuel (fun left => 0 <? left) (Qimi2Sim.io_write_body w) left h
      = (r, left', h ++ t)
      /\ r <> OutOfFuel /\ only_writes t.
Proof.
  pose proof chunk_len_pos as Hc.
  induction fuel as [|fuel IH]; intros left h Hfuel;
    destruct (0 <? left) eqn:Hl.
  - pose proof (ceil_div_pos left Qimi2Sim.chunk_len). lia.
  - rewrite (while_loop_exit _ (fun left => 0 <? left)) by exact Hl.
    exists (Done tt), left, []. rewrite app_nil_r.
    repeat split; [discriminate | constructor].
  - pose proof (io_write_body_eq w left h) as Hb. cbv zeta in Hb.
    destruct (fs_ok w h _).
    + rewrite (while_loop_continue fuel (fun left => 0 <? left) _ left _ h _
                 Hl Hb).
      match type of Hb with
      | _ = (_, ?l1, ?h1) =>
          destruct (IH l1 h1) as (r & left' & t & Hrun & Hr & Ht)
      end.
      { rewrite (Z.min_comm left), ceil_div_step by lia.
        pose proof (ceil_div_pos left Qimi2Sim.chunk_len). lia. }
      rewrite Hrun. eexists r, left', _. rewrite <- app_assoc.
      split; [reflexivity|]. split; [exact Hr|].
      unfold only_writes. cbn [app fs_calls]. constructor; [exact I | exact Ht].
    + rewrite (while_loop_threw fuel (fun left => 0 <? left) _ left _ h _ _
                 Hl Hb).
      eexists _, _, _. split; [reflexivity|]. split; [discriminate|].
      unfold only_writes. cbn [fs_calls]. constructor; [exact I | constructor].
  - rewrite (while_loop_exit _ (fun left => 0 <? left)) by exact Hl.
    exists (Done tt), left, []. rewrite app_nil_r.
    repeat split; [discriminate | constructor].
Qed.

Lemma taken_whole (w : World) (h : trace) (data : list Byte.byte) :
  writes_whole w -> taken w h data = data.
Proof.
  intros Hw. unfold taken. rewrite Nat.min_r by apply Hw.
  apply firstn_all.
Qed.


(** The [finally] block: one attempt to remove the file, whose failure
    is swallowed. *)
Lemma io_remove_eq (w : World) (path : pystr) (v : Z) (h : trace) :
  Qimi2Sim.io_remove w path v h =
  (Done tt, v,
   h ++ (if fs_ok w h (Remove path)
         then [EvFs (Remove path) true; EvLog QIoRemoved]
         else [EvFs (Remove path) false])).
Proof.
  unfold Qimi2Sim.io_remove, try_except. unfold_monad.
  destruct (fs_ok w h (Remove path)); simpl; [|reflexivity].
  rewrite <- app_assoc. reflexivity.
Qed.

(** With enough passes allowed, the [with] block ends, one way or the
    other. *)
Lemma io_write_file_ends (w : World) (fuel : nat) (size_bytes v : Z)
    (h : trace) :
  (Z.to_nat (ceil_div size_bytes Qimi2Sim.chunk_len) <= fuel)%nat ->
  exists r v' t,
    Qimi2Sim.io_write_file w fuel size_bytes v h = (r, v', h ++ t)
    /\ r <> OutOfFuel.
Proof.
  intros Hfuel.
  unfold Qimi2Sim.io_write_file, Qimi2Sim.with_fdopen, try_finally.
  unfold bind at 1. unfold fs at 1.
  destruct (fs_ok w h Fdopen).
  2:{ eexists _, _, _. split; [reflexivity | discriminate]. }
  unfold bind at 1. unfold put at 1.
  unfold bind at 1.
  destruct (io_write_loop_ends w fuel size_bytes (h ++ [EvFs Fdopen true])
              Hfuel) as (r & left' & t & Hrun & Hr & _).
  rewrite Hrun.
  destruct r as [[]|e|]; [| |contradiction Hr; reflexivity].
  - unfold_monad.
    destruct (fs_ok w _ Flush); [destruct (fs_ok w _ Fsync)|];
      destruct (fs_ok w _ Close);
      (eexists _, _, _; split;
       [repeat rewrite <- app_assoc; reflexivity | discriminate]).
  - unfold_monad.
    destruct (fs_ok w _ Close);
      (eexists _, _, _; split;
       [repeat rewrite <- app_assoc; reflexivity | discriminate]).
Qed.



(** [io_burst] for a positive size, call by call up to its [try]. *)
Lemma io_burst_eq (w : World) (fuel : nat) (size_bytes : Z)
    (dir_path : pystr) (v : Z) (h : trace) :
  0 < size_bytes ->
  Qimi2Sim.io_burst w fuel size_bytes dir_path v h =
  if fs_ok w h (Makedirs dir_path) then
    if fs_ok w (h ++ [EvFs (Makedirs dir_path) true]) (Mkstemp dir_path) then
      (log (QIoWriting size_bytes (temp_file w h dir_path)) ;;;
       try_finally
         (try_except
            (Qimi2Sim.io_write_file w fuel size_bytes ;;; log QIoDone)
            any_Exception (log QIoError))
         (Qimi2Sim.io_remove w (temp_file w h dir_path)))
        v
        (h ++ [EvFs (Makedirs dir_path) true; EvFs (Mkstemp dir_path) true])
    else (Threw OSError, v,
          h ++ [EvFs (Makedirs dir_path) true; EvFs (Mkstemp dir_path) false])
  else (Threw OSError, v, h ++ [EvFs (Makedirs dir_path) false]).
Proof.
  intros Hsize. unfold Qimi2Sim.io_burst, temp_file.
  replace (size_bytes <=? 0) with false by lia.
  unfold bind at 1. unfold fs at 1.
  destruct (fs_ok w h (Makedirs dir_path)); [|reflexivity].
  unfold bind at 1. unfold Qimi2Sim.mkstemp. unfold bind at 1. unfold fs at 1.
  destruct (fs_ok w _ (Mkstemp dir_path)).
  2:{ rewrite <- app_assoc. reflexivity. }
  rewrite <- !app_assoc. reflexivity.
Qed.

(** The same when the size can be shown in the log. *)
Lemma io_burst_fits (w : World) (fuel : nat) (size_bytes : Z)
    (dir_path : pystr) (v : Z) (h : trace) :
  0 < size_bytes ->
  fits_float size_bytes ->
  Qimi2Sim.io_burst w fuel size_bytes dir_path v h =
  if fs_ok w h (Makedirs dir_path) then
    if fs_ok w (h ++ [EvFs (Makedirs dir_path) true]) (Mkstemp dir_path) then
      try_finally
        (try_except
           (Qimi2Sim.io_write_file w fuel size_bytes ;;; log QIoDone)
           any_Exception (log QIoError))
        (Qimi2Sim.io_remove w (temp_file w h dir_path))
        v
        (h ++ [EvFs (Makedirs dir_path) true; EvFs (Mkstemp dir_path) true;
               EvLog (QIoWriting size_bytes (temp_file w h dir_path))])
    else (Threw OSError, v,
          h ++ [EvFs (Makedirs dir_path) true; EvFs (Mkstemp dir_path) false])
  else (Threw OSError, v, h ++ [EvFs (Makedirs dir_path) false]).
Proof.
  intros Hsize Hfit. rewrite io_burst_eq by exact Hsize.
  destruct (fs_ok w h (Makedirs dir_path)); [|reflexivity].
  destruct (fs_ok w _ (Mkstemp dir_path)); [|reflexivity].
  match goal with
  | |- (log ?r ;;; ?k) ?v ?h = _ =>
      destruct (log_then r k v h) as [(_ & ->) | (Hn & _)]
  end.
  - rewrite <- app_assoc. reflexivity.
  - exfalso. apply Hn. repeat constructor. exact Hfit.
Qed.

(** And when it cannot: the record before the [try] raises. *)
Lemma io_burst_overflows (w : World) (fuel : nat) (size_bytes : Z)
    (dir_path : pystr) (v : Z) (h : trace) :
  0 < size_bytes ->
  ~ fits_float size_bytes ->
  Qimi2Sim.io_burst w fuel size_bytes dir_path v h =
  if fs_ok w h (Makedirs dir_path) then
    if fs_ok w (h ++ [EvFs (Makedirs dir_path) true]) (Mkstemp dir_path) then
      (Threw OverflowError, v,
       h ++ [EvFs (Makedirs dir_path) true; EvFs (Mkstemp dir_path) true])
    else (Threw OSError, v,
          h ++ [EvFs (Makedirs dir_path) true; EvFs (Mkstemp dir_path) false])
  else (Threw OSError, v, h ++ [EvFs (Makedirs dir_path) false]).
Proof.
  intros Hsize Hfit. rewrite io_burst_eq by exact Hsize.
  destruct (fs_ok w h (Makedirs dir_path)); [|reflexivity].
  destruct (fs_ok w _ (Mkstemp dir_path)); [|reflexivity].
  match goal with
  | |- (log ?r ;;; ?k) ?v ?h = _ =>
      destruct (log_then r k v h) as [(Hf & _) | (_ & ->)]
  end.
  - exfalso. apply Hfit. inversion Hf; assumption.
  - reflexivity.
Qed.










(* ================================================================== *)
(** * The burst orchestrator *)

Lemma bind_done {V A B : Type} (m : M V A) (k : A -> M V B)
    (v v' : V) (h h' : trace) (b : B) :
  bind m k v h = (Done b, v', h') ->
  exists a v1 h1, m v h = (Done a, v1, h1) /\ k a v1 h1 = (Done b, v', h').
Proof.
  unfold bind. destruct (m v h) as [[r v1] h1].
  destruct r as [a|e|]; intros H; try discriminate.
  exists a, v1, h1. split; [reflexivity | exact H].
Qed.

Lemma lift_done {V A : Type} (r : result A) (v v' : V) (h h' : trace) (a : A) :
  lift r v h = (Done a, v', h') -> r = Ok a /\ v' = v /\ h' = h.
Proof.
  destruct r as [x|e]; unfold lift, ret, raise; intros H; inversion H; subst.
  repeat split.
Qed.

Lemma call_done {V V' A : Type} (m : M V' A) (v0 : V') (v v' : V)
    (h h' : trace) (a : A) :
  call m v0 v h = (Done a, v', h') ->
  exists u, m v0 h = (Done a, u, h') /\ v' = v.
Proof.
  unfold call. destruct (m v0 h) as [[r u] h1].
  intros H; inversion H; subst. exists u. split; reflexivity.
Qed.

Lemma none_of_app (P : event -> bool) (t1 t2 : trace) :
  none_of P t1 -> none_of P t2 -> none_of P (t1 ++ t2).
Proof.
  unfold none_of. intros H1 H2. rewrite forallb_app, H1, H2. reflexivity.
Qed.

Lemma none_of_units (t : trace) :
  none_of is_unit_event t -> started_in t = [] /\ joined_in t = [].
Proof.
  unfold none_of. induction t as [|e t IH]; simpl; [auto|].
  intros H. apply andb_prop in H as [He Ht].
  destruct e; simpl in *; try discriminate; auto.
Qed.

(** The memory engine starts and joins no process. *)
Lemma mem_burst_body_no_units (w : World) (want block_bytes headroom : Z)
    (lim : option Z) (v v' : mem_vars) (h h' : trace) (r : outcome flow) :
  Qimi2Sim.mem_burst_body w want block_bytes headroom lim v h = (r, v', h') ->
  exists t, h' = h ++ t /\ none_of is_unit_event t.
Proof.
  unfold Qimi2Sim.mem_burst_body. unfold_steps.
  destruct (headroom_reached lim _ headroom); body_split; body_result;
    reflexivity.
Qed.

Lemma mem_burst_no_units (w : World) (fuel : nat)
    (want block_bytes headroom : Z) (h : trace) :
  exists t,
    trace_of (Qimi2Sim.mem_burst w fuel want block_bytes headroom h) = h ++ t
    /\ none_of is_unit_event t.
Proof.
  destruct (sizes_fit_dec [want; block_bytes; headroom]) as [Hfit | Hbad].
  2:{ rewrite mem_burst_refused by exact Hbad.
      eexists. split; reflexivity. }
  rewrite mem_burst_eq by exact Hfit. cbv zeta.
  destruct (while_loop _ _ _ _ _) as [[r v] h2] eqn:Hrun.
  apply (while_loop_adds (none_of is_unit_event)) in Hrun;
    [ | reflexivity | apply none_of_app
      | intros; eapply mem_burst_body_no_units; eauto ].
  destruct Hrun as (t & -> & Ht).
  destruct (mem_burst_finish_cases want r v
              ((h ++ [EvReadLimits (limits_of w h);
                      EvLog (QMemBurst want block_bytes headroom
                               (mem_limit_of (limits_of w h)))]) ++ t))
    as (_ & Hc).
  cbv zeta in Hc. unfold trace in *.
  destruct Hc as [(_ & ->) | [(u & _ & ->) | [(e & _ & _ & ->)
    | [(_ & _ & ->) | (_ & _ & ->)]]]];
    unfold trace_of; cbn [snd];
    eexists; repeat rewrite <- app_assoc; (split; [reflexivity|]);
    repeat apply none_of_app; try exact Ht; reflexivity.
Qed.

Lemma pool_trace_app (t1 t2 : trace) :
  pool_trace t1 -> pool_trace t2 -> pool_trace (t1 ++ t2).
Proof.
  intros (N1 & S1) (N2 & S2). split; [apply none_of_app; assumption|].
  rewrite started_in_app. apply Forall_app. split; assumption.
Qed.

Lemma pool_trace_joins (timeout : option Q) (ps : list process) :
  pool_trace (map (fun p => EvJoin p timeout) ps).
Proof.
  split.
  - unfold none_of. induction ps as [|p ps IH]; simpl; auto.
  - rewrite started_in_joins. constructor.
Qed.

Lemma cpu_burst_pool_trace (w : World) (nproc duration_s : Z)
    (no_affinity : bool) (h : trace) :
  exists t,
    trace_of (Qimi2Sim.cpu_burst w nproc duration_s no_affinity [] h) = h ++ t
    /\ pool_trace t.
Proof.
  rewrite cpu_burst_eq.
  destruct (time_plus_int_cases (clock w h) (Z.max 1 duration_s))
    as [(_ & ->) | (_ & ->)].
  2:{ eexists. split; [reflexivity|]. split; [reflexivity | constructor]. }
  unfold cpu_burst_from.
  unfold bind at 1. unfold sched_getaffinity at 1.
  set (stop_at := (clock w h + inject_Z (Z.max 1 duration_s))%Q).
  set (avail := option_map _ _).
  set (h1 := (h ++ _) ++ _).
  unfold bind at 1.
  destruct (for_each _ _ [] h1) as [[r procs] h2] eqn:Hrun.
  assert (Hst : exists t, h2 = h ++ t /\ pool_trace t).
  { eapply (for_each_keeps
              (fun (_ : list process) h' => exists t, h' = h ++ t /\ pool_trace t))
      in Hrun; [exact Hrun | | ].
    - intros i v h' r' v' h'' _ (t & -> & Ht) Hb.
      unfold_steps. rewrite ?log_plain in Hb by reflexivity.
      destruct (start_ok w _ _);
        injection Hb as Hr Hv Hh; subst r' v' h'';
        eexists; repeat rewrite <- app_assoc; (split; [reflexivity|]);
        (apply pool_trace_app; [exact Ht|]); split;
        try reflexivity; repeat constructor.
    - exists [EvTime (clock w h); EvAffinity avail]. subst h1.
      rewrite <- app_assoc. split; [reflexivity|].
      split; [reflexivity | constructor]. }
  destruct Hst as (t & -> & Ht).
  destruct r as [[]|e|]; unfold trace_of.
  - unfold bind, get. rewrite for_each_join. cbn [snd].
    eexists. rewrite <- app_assoc. split; [reflexivity|].
    apply pool_trace_app; [exact Ht | apply pool_trace_joins].
  - cbn [snd]. exists t. auto.
  - cbn [snd]. exists t. auto.
Qed.

Lemma final_record_is_final (cur peak : option Z) (cpu0 cpu1 : list (pystr * Z)) :
  exists deltas, Qimi2Sim.final_record cur peak cpu0 cpu1 = QFinal cur peak deltas.
Proof.
  unfold Qimi2Sim.final_record.
  destruct cpu0, cpu1; try (eexists; reflexivity).
  destruct (Qimi2Sim.dict_get _ _); eexists; reflexivity.
Qed.

Ltac next_step H a v1 h1 Hs :=
  apply bind_done in H as (a & v1 & h1 & Hs & H); cbv beta in H.

Lemma main_order (w : World) (fuel : nat) (a : Qimi2Sim.args) (h : trace)
    (res : outcome unit * unit * trace) :
  res = Qimi2Sim.main w fuel a tt h ->
  fst (fst res) = Done tt ->
  memory_then_units h res.
Proof.
  intros -> Hdone.
  destruct (Qimi2Sim.main w fuel a tt h) as [[r u] h'] eqn:Hrun.
  cbn [fst] in Hdone. subst r.
  unfold Qimi2Sim.main in Hrun.
  next_step Hrun x0 v0 h0 H0. rewrite log_plain in H0 by reflexivity.
  injection H0 as _ <- <-.
  next_step Hrun l v1 h1 H1. unfold read_cgroup_limits in H1.
  injection H1 as <- <- <-.
  destruct (limits_of w _) as [[mem_limit cpu_quota] cpu_period] eqn:Hl.
  next_step Hrun x2 v2 h2 H2. rewrite log_plain in H2 by reflexivity.
  injection H2 as _ <- <-.
  next_step Hrun x3 v3 h3 H3. rewrite log_plain in H3 by reflexivity.
  injection H3 as _ <- <-.
  next_step Hrun x4 v4 h4 H4. rewrite log_plain in H4 by reflexivity.
  injection H4 as _ <- <-.
  next_step Hrun x5 v5 h5 H5. rewrite log_plain in H5 by reflexivity.
  injection H5 as _ <- <-.
  next_step Hrun cpu0 v6 h6 H6. unfold read_cpu_stat_v2 in H6.
  injection H6 as <- <- <-.
  next_step Hrun want v7 h7 H7. apply lift_done in H7 as (_ & -> & ->).
  next_step Hrun blk v8 h8 H8. apply lift_done in H8 as (_ & -> & ->).
  next_step Hrun hr v9 h9 H9. apply lift_done in H9 as (_ & -> & ->).
  next_step Hrun bs v10 h10 H10. apply call_done in H10 as (mv & Hmem & ->).
  next_step Hrun iosz v11 h11 H11. apply lift_done in H11 as (_ & -> & ->).
  next_step Hrun iop v12 h12 H12. unfold start_process in H12.
  destruct (start_ok w h10 _); [|discriminate].
  injection H12 as <- <- <-.
  next_step Hrun x13 v13 h13 H13. apply call_done in H13 as (procs & Hcpu & ->).
  next_step Hrun x14 v14 h14 H14. unfold join, emit in H14.
  injection H14 as _ <- <-.
  next_step Hrun cur v15 h15 H15. unfold read_mem_current in H15.
  injection H15 as <- <- <-.
  next_step Hrun peak v16 h16 H16. unfold read_mem_peak in H16.
  injection H16 as <- <- <-.
  next_step Hrun cpu1 v17 h17 H17. unfold read_cpu_stat_v2 in H17.
  injection H17 as <- <- <-.
  match type of Hrun with
  | context [Qimi2Sim.final_record ?c ?p ?c0 ?c1] =>
      destruct (final_record_is_final c p c0 c1) as (deltas & Hfin)
  end.
  rewrite Hfin in Hrun.
  next_step Hrun x18 v18 h18 H18. rewrite log_plain in H18 by reflexivity.
  injection H18 as _ <- <-.
  next_step Hrun x19 v19 h19 H19. rewrite log_plain in H19 by reflexivity.
  injection H19 as _ <- <-.
  unfold emit in Hrun. injection Hrun as <- <-.
  (* the two engines *)
  set (h_pre := ((((((h ++ _) ++ _) ++ _) ++ _) ++ _) ++ _) ++ _) in *.
  assert (Hpre : exists t_pre,
             h_pre = h ++ t_pre
             /\ none_of is_memory_work t_pre /\ none_of is_unit_event t_pre).
  { eexists. subst h_pre. repeat rewrite <- app_assoc.
    split; [reflexivity|]. split; reflexivity. }
  destruct Hpre as (t_pre & Epre & Hpm & Hpu).
  clearbody h_pre.
  destruct (mem_burst_no_units w fuel want blk hr h_pre) as (t_mem & Em & Hm).
  unfold Qimi2Sim.mem_burst in Em. rewrite Hmem in Em.
  unfold trace_of in Em. cbn [snd] in Em. subst h10.
  set (job := {| io_size := iosz; io_dir := Qimi2Sim.arg_io_dir a |}) in *.
  set (h_io := (h_pre ++ t_mem) ++ [EvStart (IoBurst job)]) in *.
  destruct (cpu_burst_pool_trace w (Z.max 1 (Qimi2Sim.arg_cpus a))
              (Z.max 1 (Qimi2Sim.arg_duration a))
              (Qimi2Sim.arg_no_affinity a) h_io) as (t_cpu & Ec & Hp & Hw).
  pose proof (cpu_burst_joins w (Z.max 1 (Qimi2Sim.arg_cpus a))
                (Z.max 1 (Qimi2Sim.arg_duration a))
                (Qimi2Sim.arg_no_affinity a) h_io) as (t_cpu' & Ec' & _ & Hj).
  rewrite Hcpu in Ec, Ec', Hj. unfold trace_of in Ec, Ec'.
  cbn [fst snd] in Ec, Ec', Hj.
  assert (t_cpu' = t_cpu) by (eapply app_inv_head; rewrite <- Ec, <- Ec'; reflexivity).
  subst t_cpu' h13. destruct x13. specialize (Hj eq_refl).
  unfold memory_then_units, trace_of. cbn [snd].
  exists t_pre, t_mem, job, t_cpu.
  eexists _, _, _, deltas.
  split.
  { subst h_io h_pre. repeat rewrite <- app_assoc. reflexivity. }
  split; [exact Hpm|]. split; [exact Hpu|].
  split; [exact Hm|]. split; [exact Hp|]. split; [exact Hw | exact Hj].
Qed.

(** C4 (amended).  When [main] of [qimi2_sim.py] returns, its steps
    are in this order: the memory engine runs first, inline, before any
    process is started; then the I/O process is started; then the CPU
    workers are started and waited for (with no timeout); then the I/O
    process is waited for, for one second at most; the final sample and
    the summary come after all these waits. *)
Theorem burst_runs_memory_before_units (w : World) (fuel : nat)
    (a : Qimi2Sim.args) (h : trace) :
  fst (fst (Qimi2Sim.main w fuel a tt h)) = Done tt ->
  memory_then_units h (Qimi2Sim.main w fuel a tt h).
Proof. intros Hdone. eapply main_order; [reflexivity | exact Hdone]. Qed.

Lemma burst_runs_memory_before_units_witness :
  fst (fst (Qimi2Sim.main quiet_world 5 small_args tt [])) = Done tt
  /\ memory_then_units [] (Qimi2Sim.main quiet_world 5 small_args tt []).
Proof.
  assert (H : fst (fst (Qimi2Sim.main quiet_world 5 small_args tt []))
              = Done tt) by (vm_compute; reflexivity).
  split; [exact H|].
  exact (burst_runs_memory_before_units quiet_world 5 small_args [] H).
Defined.

(** C4 as stated: in the run of [main] on a small command line, the
    I/O process and the CPU worker are started after the memory engine
    has done all its work. *)
Lemma units_start_after_memory :
  starts_precede_memory
    (trace_of (Qimi2Sim.main quiet_world 5 small_args tt [])) = false
  /\ allocs_of (firstn 23 (trace_of (Qimi2Sim.main quiet_world 5 small_args tt [])))
     = [1; 1]
  /\ started_in (firstn 23 (trace_of (Qimi2Sim.main quiet_world 5 small_args tt [])))
     = []
  /\ List.length
       (started_in (trace_of (Qimi2Sim.main quiet_world 5 small_args tt [])))
     = 2%nat.
Proof. repeat split; vm_compute; reflexivity. Qed.

(* ================================================================== *)
(** * [parse_size] *)

(** ** Strings *)

Lemma lstrip_spaces (ws s : pystr) :
  Forall (fun c => is_space c = true) ws ->
  lstrip (ws ++ s) = lstrip s.
Proof.
  induction 1 as [|c ws Hc _ IH]; simpl; [reflexivity|].
  rewrite Hc. exact IH.
Qed.

Lemma lstrip_keeps (c : ascii) (s : pystr) :
  is_space c = false -> lstrip (c :: s) = c :: s.
Proof. intros Hc. simpl. rewrite Hc. reflexivity. Qed.

Lemma lstrip_all_spaces (ws : pystr) :
  Forall (fun c => is_space c = true) ws -> lstrip ws = [].
Proof.
  intros H. rewrite <- (app_nil_r ws), lstrip_spaces by exact H. reflexivity.
Qed.

Lemma lstrip_solid (s t : pystr) :
  Forall (fun c => is_space c = false) s -> s <> [] ->
  lstrip (s ++ t) = s ++ t.
Proof.
  intros Hs Hne. destruct s as [|a s]; [contradiction|].
  inversion Hs; subst. cbn [app]. apply lstrip_keeps. assumption.
Qed.

(** [strip] removes the whitespace around a string that holds none. *)
Lemma strip_around (ws1 ws2 s : pystr) :
  Forall (fun c => is_space c = true) ws1 ->
  Forall (fun c => is_space c = true) ws2 ->
  Forall (fun c => is_space c = false) s ->
  strip (ws1 ++ s ++ ws2) = s.
Proof.
  intros H1 H2 Hs. unfold strip, rstrip.
  rewrite lstrip_spaces by exact H1.
  destruct s as [|a s'] eqn:Es.
  - cbn [app]. rewrite (lstrip_all_spaces ws2 H2). reflexivity.
  - rewrite <- Es in *. assert (Hne : s <> []) by (subst; discriminate).
    rewrite lstrip_solid by assumption.
    rewrite rev_app_distr.
    rewrite lstrip_spaces by (apply Forall_rev; exact H2).
    rewrite <- (app_nil_r (rev s)).
    rewrite lstrip_solid.
    + rewrite app_nil_r. apply rev_involutive.
    + apply Forall_rev. exact Hs.
    + intros Hr. apply Hne. rewrite <- (rev_involutive s), Hr. reflexivity.
Qed.

(** ** Characters *)

Lemma ascii_eqb_eq (a b : ascii) : ascii_eqb a b = true <-> a = b.
Proof.
  unfold ascii_eqb. rewrite Nat.eqb_eq. split; [|intros ->; reflexivity].
  intros H. rewrite <- (ascii_nat_embedding a), <- (ascii_nat_embedding b), H.
  reflexivity.
Qed.

Lemma pystr_eqb_eq (a b : pystr) : pystr_eqb a b = true <-> a = b.
Proof.
  revert b. induction a as [|x a IH]; intros [|y b]; simpl;
    try (split; [discriminate | discriminate]); [tauto|].
  rewrite andb_true_iff, ascii_eqb_eq, IH.
  split; [intros [-> ->]; reflexivity | intros H; inversion H; auto].
Qed.

(** Facts about characters are settled by going through the 256 of
    them. *)
Ltac each_ascii c :=
  destruct c as [b0 b1 b2 b3 b4 b5 b6 b7];
  destruct b0, b1, b2, b3, b4, b5, b6, b7; vm_compute;
  try (intros; solve [reflexivity | discriminate | lia
                     | repeat split; solve [reflexivity | discriminate]]).

Lemma digit_no_space (c : ascii) : is_digit c = true -> is_space c = false.
Proof. each_ascii c. Qed.

Lemma digit_lower (c : ascii) : is_digit c = true -> lower_char c = c.
Proof. each_ascii c. Qed.

Lemma digit_no_underscore (c : ascii) :
  is_digit c = true -> is_underscore c = false.
Proof. each_ascii c. Qed.

Lemma digit_no_sign (c : ascii) :
  is_digit c = true ->
  ascii_eqb c "-" = false /\ ascii_eqb c "+" = false.
Proof. each_ascii c. Qed.

Lemma digit_no_letter (c : ascii) :
  is_digit c = true ->
  ascii_eqb c "i" = false /\ ascii_eqb c "n" = false.
Proof. each_ascii c. Qed.

Lemma digit_val_range (c : ascii) :
  is_digit c = true -> 0 <= digit_val c <= 9.
Proof.
  destruct c as [b0 b1 b2 b3 b4 b5 b6 b7];
  destruct b0, b1, b2, b3, b4, b5, b6, b7; vm_compute;
    intros H; try discriminate H; split; discriminate.
Qed.

Lemma unit_letter_plain (c : ascii) :
  is_unit_letter c = true -> is_space c = false /\ is_digit c = false.
Proof. each_ascii c. Qed.

Lemma digits_no_space (ds : pystr) :
  Forall (fun c => is_digit c = true) ds ->
  Forall (fun c => is_space c = false) ds.
Proof. apply Forall_impl. apply digit_no_space. Qed.

Lemma digits_lower (ds : pystr) :
  Forall (fun c => is_digit c = true) ds -> lower ds = ds.
Proof.
  unfold lower. induction 1 as [|c l Hc Hl IH]; simpl; [reflexivity|].
  rewrite IH, (digit_lower c Hc). reflexivity.
Qed.

Lemma scan_sign_digit (c : ascii) (s : pystr) :
  is_digit c = true -> scan_sign (c :: s) = (false, c :: s).
Proof.
  intros Hc. destruct (digit_no_sign c Hc) as [Hm Hp].
  unfold scan_sign. rewrite Hm, Hp. reflexivity.
Qed.

Lemma scan_digits_run (ds rest : pystr) :
  Forall (fun c => is_digit c = true) ds ->
  ends_run rest ->
  scan_digits (ds ++ rest) = (ds, rest).
Proof.
  intros Hds Hrest. induction Hds as [|c l Hc Hl IH].
  - destruct rest as [|c r]; [reflexivity|].
    destruct Hrest as [Hd _]. simpl. rewrite Hd. reflexivity.
  - cbn [app scan_digits]. rewrite Hc.
    assert (Hu : match l ++ rest with
                 | u :: _ => is_underscore u = false
                 | [] => True
                 end).
    { destruct l as [|u l'].
      - destruct rest as [|u r]; [exact I | exact (proj2 Hrest)].
      - inversion Hl as [|? ? Hu' _]; subst.
        cbn [app]. apply digit_no_underscore. exact Hu'. }
    destruct (l ++ rest) as [|u [|d t']] eqn:Et.
    + rewrite IH. reflexivity.
    + rewrite IH. reflexivity.
    + rewrite Hu. cbn [andb]. rewrite IH. reflexivity.
Qed.

Lemma last_app_nonempty {A : Type} (p u : list A) (d : A) :
  u <> [] -> last (p ++ u) d = last u d.
Proof.
  intros Hu. induction p as [|x p IH]; [reflexivity|].
  cbn [app]. destruct (p ++ u) eqn:E.
  - destruct p, u; try discriminate. contradiction.
  - rewrite <- IH. reflexivity.
Qed.

Lemma last_in {A : Type} (l : list A) (d : A) : l <> [] -> In (last l d) l.
Proof.
  induction l as [|x l IH]; [contradiction|]. intros _.
  destruct l as [|y l]; [left; reflexivity|].
  right. apply IH. discriminate.
Qed.

(** ** [endswith] *)

Lemma endswith_inv (s u : pystr) :
  endswith s u = true -> exists p, s = p ++ u.
Proof.
  unfold endswith. intros H. apply andb_prop in H as [_ H].
  apply pystr_eqb_eq in H.
  exists (firstn (List.length s - List.length u) s).
  rewrite <- H at 2. symmetry. apply firstn_skipn.
Qed.

Lemma endswith_last (s u : pystr) (d : ascii) :
  u <> [] -> endswith s u = true -> last s d = last u d.
Proof.
  intros Hu H. apply endswith_inv in H as (p & ->).
  apply last_app_nonempty. exact Hu.
Qed.

Lemma endswith_short (a u u' : pystr) :
  (List.length u' <= List.length u)%nat ->
  endswith (a ++ u) u' = endswith u u'.
Proof.
  intros Hle. unfold endswith. rewrite length_app.
  replace (List.length a + List.length u - List.length u')%nat
    with (List.length a + (List.length u - List.length u'))%nat by lia.
  rewrite skipn_app.
  replace (List.length a + (List.length u - List.length u') - List.length a)%nat
    with (List.length u - List.length u')%nat by lia.
  rewrite skipn_all2 by lia. cbn [app].
  f_equal. apply Nat.leb_le in Hle as Hle'. rewrite Hle'.
  apply Nat.leb_le. lia.
Qed.

Lemma drop_last_app (a u : pystr) : drop_last (List.length u) (a ++ u) = a.
Proof.
  unfold drop_last. rewrite length_app.
  replace (List.length a + List.length u - List.length u)%nat
    with (List.length a + 0)%nat by lia.
  rewrite firstn_app_2. cbn [firstn]. apply app_nil_r.
Qed.

(** ** Bare integers *)

Lemma sorted_units :
  sorted (fun x => - Z.of_nat (List.length (fst x))) units
  = [ (lit "ki", 1024); (lit "mi", 1024 ^ 2); (lit "gi", 1024 ^ 3);
      (lit "ti", 1024 ^ 4);
      (lit "k", 1024); (lit "m", 1024 ^ 2); (lit "g", 1024 ^ 3);
      (lit "t", 1024 ^ 4) ].
Proof. reflexivity. Qed.

Lemma digits_last_digit (ds : pystr) (d : ascii) :
  all_digits ds -> ds <> [] -> is_digit (last ds d) = true.
Proof.
  intros Hds Hne. unfold all_digits in Hds. rewrite Forall_forall in Hds.
  apply Hds. apply last_in. exact Hne.
Qed.

Lemma digit_no_unit_letter (c : ascii) :
  is_digit c = true -> is_unit_letter c = false.
Proof. each_ascii c. Qed.

Lemma strip_solid (s : pystr) :
  Forall (fun c => is_space c = false) s -> strip s = s.
Proof.
  intros Hs. pose proof (strip_around [] [] s) as H.
  cbn [app] in H. rewrite app_nil_r in H.
  apply H; try constructor. exact Hs.
Qed.

Lemma space_of_blank (c : ascii) : is_space c = false -> is_blank c = false.
Proof. each_ascii c. Qed.

Lemma skip_blanks_solid (s : pystr) :
  Forall (fun c => is_blank c = false) s -> skip_blanks s = s.
Proof.
  intros Hs. destruct s as [|c s]; [reflexivity|].
  inversion Hs as [|? ? Hc _]; subst. cbn [skip_blanks]. rewrite Hc.
  reflexivity.
Qed.

(** [int()] and [float()] skip nothing around a string that holds no
    whitespace. *)
Lemma unpadded_solid (s : pystr) :
  Forall (fun c => is_space c = false) s -> unpadded s = s.
Proof.
  intros Hs.
  assert (Hb : Forall (fun c => is_blank c = false) s)
    by (eapply Forall_impl; [apply space_of_blank | exact Hs]).
  unfold unpadded. rewrite (skip_blanks_solid s Hb).
  rewrite skip_blanks_solid by (apply Forall_rev; exact Hb).
  apply rev_involutive.
Qed.

(** A string whose last character is no unit letter ends with no
    unit. *)
Lemma no_unit_without_letter (s u : pystr) (mul : Z) :
  is_unit_letter (last s "0"%char) = false ->
  In (u, mul) units ->
  endswith s u = false.
Proof.
  intros Hlast Hin.
  destruct (endswith s u) eqn:E; [|reflexivity].
  assert (Hu : u <> [] /\ is_unit_letter (last u "0"%char) = true).
  { simpl in Hin.
    repeat (destruct Hin as [Hin | Hin];
            [inversion Hin; subst; split; [discriminate | reflexivity]|]).
    destruct Hin. }
  destruct Hu as [Hne Hd].
  rewrite (endswith_last s u "0"%char Hne E) in Hlast. congruence.
Qed.

Lemma parse_size_loop_no_unit (s : pystr) (us : list (pystr * Z)) :
  is_unit_letter (last s "0"%char) = false ->
  (forall u mul, In (u, mul) us -> In (u, mul) units) ->
  parse_size_loop s us = py_int s.
Proof.
  intros Hlast. induction us as [|[u mul] us IH]; intros Hin; [reflexivity|].
  cbn [parse_size_loop].
  rewrite (no_unit_without_letter s u mul Hlast)
    by (apply Hin; left; reflexivity).
  apply IH. intros u' mul' H. apply Hin. right. exact H.
Qed.

Lemma sorted_units_are_units (u : pystr) (mul : Z) :
  In (u, mul) (sorted (fun x => - Z.of_nat (List.length (fst x))) units) ->
  In (u, mul) units.
Proof.
  rewrite sorted_units. simpl. intros H.
  repeat (destruct H as [H | H]; [inversion H; subst; tauto|]). destruct H.
Qed.

(** Without a unit letter at its end, a string is read by [int]. *)
Lemma parse_size_no_unit (ws1 s ws2 : pystr) :
  all_spaces ws1 -> all_spaces ws2 ->
  Forall (fun c => is_space c = false) s ->
  lower s = s ->
  is_unit_letter (last s "0"%char) = false ->
  parse_size (ws1 ++ s ++ ws2) = py_int s.
Proof.
  intros H1 H2 Hs Hl Hlast. unfold parse_size.
  rewrite strip_around by assumption. rewrite Hl.
  apply parse_size_loop_no_unit; [exact Hlast|].
  apply sorted_units_are_units.
Qed.

Lemma py_int_digits (ds : pystr) :
  all_digits ds -> ds <> [] -> py_int ds = Ok (digits_value ds).
Proof.
  intros Hds Hne. unfold py_int.
  rewrite unpadded_solid by (apply digits_no_space; exact Hds).
  destruct ds as [|c ds']; [contradiction|].
  inversion Hds as [|? ? Hc Hds']; subst.
  rewrite (scan_sign_digit c ds' Hc).
  rewrite <- (app_nil_r (c :: ds')) at 1.
  rewrite scan_digits_run by (try exact Hds; exact I).
  reflexivity.
Qed.

(** [int] refuses digits followed by a point. *)
Lemma py_int_fraction (ds fs : pystr) :
  all_digits ds -> all_digits fs -> ds <> [] ->
  py_int (ds ++ lit "." ++ fs) = Raise ValueError.
Proof.
  intros Hds Hfs Hne. unfold py_int.
  rewrite unpadded_solid.
  2:{ apply Forall_app. split; [apply digits_no_space; exact Hds|].
      constructor; [reflexivity | apply digits_no_space; exact Hfs]. }
  destruct ds as [|c ds']; [contradiction|].
  inversion Hds as [|? ? Hc Hds']; subst.
  cbn [app]. rewrite (scan_sign_digit c _ Hc).
  change (c :: ds' ++ lit "." ++ fs) with ((c :: ds') ++ lit "." ++ fs).
  rewrite scan_digits_run by (try exact Hds; split; reflexivity).
  reflexivity.
Qed.

(** C9 (amended).  For every bare decimal integer of 4300 digits at
    most (the longest digit string that [int()] converts under the
    interpreter's default limit), that is a non-empty run of digits with
    optional whitespace around and no unit, [parse_size] returns its
    value as a number of bytes.  A bare number with a fractional part,
    such as ["1.5"], raises [ValueError], whatever its length. *)
Theorem bare_integer_is_bytes (ws1 ds fs ws2 : pystr) :
  all_spaces ws1 -> all_spaces ws2 ->
  all_digits ds -> ds <> [] -> all_digits fs ->
  ((List.length ds <= 4300)%nat ->
   parse_size (ws1 ++ ds ++ ws2) = Ok (digits_value ds))
  /\ parse_size (ws1 ++ (ds ++ lit "." ++ fs) ++ ws2) = Raise ValueError.
Proof.
  intros H1 H2 Hds Hne Hfs. split.
  - intros _. rewrite parse_size_no_unit; try assumption.
    + apply py_int_digits; assumption.
    + apply digits_no_space; exact Hds.
    + apply digits_lower; exact Hds.
    + apply digit_no_unit_letter. apply digits_last_digit; assumption.
  - rewrite parse_size_no_unit; try assumption.
    + apply py_int_fraction; assumption.
    + apply Forall_app. split; [apply digits_no_space; exact Hds|].
      constructor; [reflexivity | apply digits_no_space; exact Hfs].
    + unfold lower. rewrite map_app. cbn [map lit list_ascii_of_string app].
      fold (lower ds). fold (lower fs).
      rewrite !digits_lower by assumption. reflexivity.
    + rewrite last_app_nonempty by discriminate.
      destruct fs as [|f fs']; [reflexivity|].
      change (lit "." ++ f :: fs') with ([("."%char)] ++ f :: fs').
      rewrite last_app_nonempty by discriminate.
      apply digit_no_unit_letter. apply digits_last_digit;
        [exact Hfs | discriminate].
Qed.

Lemma bare_integer_is_bytes_witness :
  all_spaces (lit " ") /\ all_spaces [] /\ all_digits (lit "1") /\ lit "1" <> []
  /\ all_digits (lit "5")
  /\ (List.length (lit "1") <= 4300)%nat
  /\ parse_size (lit " " ++ lit "1" ++ []) = Ok 1
  /\ parse_size (lit " " ++ (lit "1" ++ lit "." ++ lit "5") ++ [])
     = Raise ValueError.
Proof.
  assert (H1 : all_spaces (lit " ")) by (repeat constructor).
  assert (H2 : all_spaces []) by constructor.
  assert (H3 : all_digits (lit "1")) by (repeat constructor).
  assert (H4 : lit "1" <> []) by discriminate.
  assert (H5 : all_digits (lit "5")) by (repeat constructor).
  assert (H6 : (List.length (lit "1") <= 4300)%nat) by (simpl; lia).
  repeat (split; [assumption|]).
  destruct (bare_integer_is_bytes (lit " ") (lit "1") (lit "5") [] H1 H2 H3 H4 H5)
    as [Hint Hfrac].
  split; [exact (Hint H6) | exact Hfrac].
Defined.

(** C9 as stated: the bare number ["1.5"] is refused. *)
Lemma bare_fraction_is_refused : parse_size (lit "1.5") = Raise ValueError.
Proof. reflexivity. Qed.

(** ** Exact steps of binary64 arithmetic *)


Lemma iter_shr_exact (k : nat) (q : positive) :
  Nat.iter k shr_1
    {| shr_m := Zpos q * 2 ^ Z.of_nat k; shr_r := false; shr_s := false |}
  = {| shr_m := Zpos q; shr_r := false; shr_s := false |}.
Proof.
  revert q. induction k as [|k IH]; intros q.
  - change (Z.of_nat 0) with 0. rewrite Z.pow_0_r, Z.mul_1_r. reflexivity.
  - rewrite Nat.iter_succ_r.
    replace (Zpos q * 2 ^ Z.of_nat (S k)) with (2 * (Zpos q * 2 ^ Z.of_nat k)).
    2:{ rewrite Nat2Z.inj_succ, Z.pow_succ_r by lia. ring. }
    assert (Hpos : 0 < Zpos q * 2 ^ Z.of_nat k) by
      (apply Z.mul_pos_pos; [lia | apply Z.pow_pos_nonneg; lia]).
    destruct (Zpos q * 2 ^ Z.of_nat k) as [|r|r] eqn:E; try lia.
    cbn [shr_1 Z.mul Pos.mul orb]. rewrite <- E. apply IH.
Qed.




(** Rounding is exact on a 53-bit mantissa followed by [k] zero bits. *)
Lemma binary_round_aux_exact (s : bool) (q : positive) (k e : Z) :
  normal_mantissa q ->
  0 <= k ->
  -1074 <= e + k <= 971 ->
  binary_round_aux prec emax s (Zpos q * 2 ^ k) e loc_Exact
  = S754_finite s q (e + k).
Proof.
  intros Hq Hk He.
  assert (Hd : Zdigits2 (Zpos q) = 53)
    by (apply Zdigits2_bounds; [lia | exact Hq]).
  assert (Hpos : 0 < Zpos q * 2 ^ k)
    by (apply Z.mul_pos_pos; [lia | apply Z.pow_pos_nonneg; lia]).
  destruct (Zpos q * 2 ^ k) as [|m|m] eqn:Em; try lia.
  assert (Hdm : Zdigits2 (Zpos m) = 53 + k).
  { apply Zdigits2_bounds; [lia|]. rewrite <- Em.
    unfold normal_mantissa in Hq.
    replace (53 + k - 1) with (52 + k) by lia.
    rewrite !Z.pow_add_r by lia.
    pose proof (Z.pow_pos_nonneg 2 k ltac:(lia) Hk). nia. }
  unfold binary_round_aux.
  assert (Hfirst : shr_fexp prec emax (Zpos m) e loc_Exact
                   = ({| shr_m := Zpos q; shr_r := false; shr_s := false |},
                      e + k)).
  { unfold shr_fexp. rewrite Hdm.
    unfold fexp, emin, prec, emax.
    replace (Z.max (53 + k + e - 53) (3 - 1024 - 53) - e) with k by lia.
    cbn [shr_record_of_loc]. unfold shr.
    destruct k as [|kp|kp]; try lia.
    - rewrite Z.mul_1_r in Em. inversion Em; subst.
      rewrite Z.add_0_r. reflexivity.
    - rewrite iter_pos_nat. rewrite <- Em.
      rewrite <- (positive_nat_Z kp) at 1.
      rewrite iter_shr_exact. reflexivity. }
  rewrite Hfirst. cbn [shr_m loc_of_shr_record round_nearest_even].
  assert (Hsecond : shr_fexp prec emax (Zpos q) (e + k) loc_Exact
                    = ({| shr_m := Zpos q; shr_r := false; shr_s := false |},
                       e + k)).
  { unfold shr_fexp. rewrite Hd.
    unfold fexp, emin, prec, emax.
    replace (Z.max (53 + (e + k) - 53) (3 - 1024 - 53) - (e + k)) with 0 by lia.
    reflexivity. }
  rewrite Hsecond. cbn [shr_m].
  unfold prec, emax.
  replace (e + k <=? 1024 - 53) with true by lia. reflexivity.
Qed.

Lemma div_eucl_exact (a b : Z) :
  0 < b -> Z.div_eucl (a * b) b = (a, 0).
Proof.
  intros Hb.
  pose proof (Z.div_mul a b ltac:(lia)) as Hd.
  pose proof (Z.mod_mul a b ltac:(lia)) as Hm.
  unfold Z.div, Z.modulo in Hd, Hm.
  destruct (Z.div_eucl (a * b) b) as [x y]. cbn in Hd, Hm. congruence.
Qed.

Lemma new_location_exact (n : Z) : new_location n 0 = loc_Exact.
Proof.
  unfold new_location, new_location_even, new_location_odd.
  destruct (Z.even n); reflexivity.
Qed.

(** The quotient of two integers that is a 53-bit mantissa over a power
    of two is rounded to itself. *)
Lemma round_quotient_exact (s : bool) (P T q : positive) (a : Z) :
  normal_mantissa q ->
  0 <= a <= 1074 ->
  Zpos P * 2 ^ a = Zpos q * Zpos T ->
  round_quotient s P T = S754_finite s q (- a).
Proof.
  intros Hq Ha Heq. unfold normal_mantissa in Hq.
  destruct (Zdigits2_spec P) as [Hd1 Hb1].
  destruct (Zdigits2_spec T) as [Hd2 Hb2].
  set (d1 := Zdigits2 (Zpos P)) in *. set (d2 := Zdigits2 (Zpos T)) in *.
  assert (Hpa : 0 < 2 ^ a) by (apply Z.pow_pos_nonneg; lia).
  assert (Hhi : d1 - 1 + a < 53 + d2).
  { apply (Z.pow_lt_mono_r_iff 2); [lia | lia |].
    rewrite !Z.pow_add_r by lia.
    apply Z.le_lt_trans with (Zpos P * 2 ^ a); [nia|].
    rewrite Heq. nia. }
  assert (Hlo : 51 + d2 < d1 + a).
  { apply (Z.pow_lt_mono_r_iff 2); [lia | lia |].
    replace (51 + d2) with (52 + (d2 - 1)) by lia.
    rewrite !Z.pow_add_r by lia.
    apply Z.le_lt_trans with (Zpos q * Zpos T); [nia|].
    rewrite <- Heq. nia. }
  assert (Hk : exists k, (k = 0 \/ k = 1)
                         /\ Z.min (fexp prec emax (d1 + 0 - (d2 + 0))) (0 - 0)
                            = - a - k).
  { unfold fexp, emin, prec, emax.
    destruct (Z.eq_dec (d1 - d2 - 53) (- a)) as [E|E].
    - exists 0. split; [left; reflexivity | lia].
    - destruct (Z.eq_dec a 1074) as [E'|E'].
      + exists 0. split; [left; reflexivity | lia].
      + exists 1. split; [right; reflexivity | lia]. }
  destruct Hk as (k & Hk & He').
  unfold round_quotient, SFdiv, SFdiv_core_binary.
  fold d1. fold d2. rewrite He'.
  replace (0 - 0 - (- a - k)) with (a + k) by lia.
  assert (Hm : match a + k with
               | Z0 => Zpos P
               | Zpos _ => Z.shiftl (Zpos P) (a + k)
               | Zneg _ => 0
               end = (Zpos q * 2 ^ k) * Zpos T).
  { replace (Zpos q * 2 ^ k * Zpos T) with (Zpos P * 2 ^ (a + k)).
    2:{ rewrite Z.pow_add_r by lia. rewrite (Z.mul_assoc (Zpos P)), Heq. ring. }
    destruct (a + k) as [|ak|ak] eqn:Eak; try lia.
    rewrite Z.shiftl_mul_pow2 by lia. reflexivity. }
  rewrite Hm. rewrite div_eucl_exact by lia.
  rewrite new_location_exact. cbn [xorb].
  rewrite Bool.xorb_false_r.
  rewrite binary_round_aux_exact; [f_equal; lia | exact Hq | lia | lia].
Qed.

(** The multipliers of the units as floats. *)
Lemma float_of_unit (j : Z) :
  1 <= j <= 4 ->
  float_of_int (1024 ^ j) = Ok (S754_finite false (2 ^ 52)%positive (10 * j - 52)).
Proof.
  intros Hj.
  assert (H : j = 1 \/ j = 2 \/ j = 3 \/ j = 4) by lia.
  destruct H as [-> | [-> | [-> | ->]]]; reflexivity.
Qed.

Lemma float_mul_unit_exact (s : bool) (q : positive) (a j : Z) :
  normal_mantissa q ->
  0 <= a <= 1074 ->
  1 <= j <= 4 ->
  float_mul_int (S754_finite s q (- a)) (1024 ^ j)
  = Ok (S754_finite s q (10 * j - a)).
Proof.
  intros Hq Ha Hj. unfold float_mul_int.
  rewrite float_of_unit by exact Hj.
  cbn [SFmul]. rewrite Bool.xorb_false_r.
  change (Zpos (q * 2 ^ 52)) with (Zpos q * 2 ^ 52).
  rewrite binary_round_aux_exact; [f_equal; f_equal; lia | exact Hq | lia | lia].
Qed.

(** The integer part of [q * 2^(10 j - a)] when [P * 2^a = q * T]. *)
Lemma int_of_scaled (q P T : positive) (a j : Z) :
  0 <= a -> 0 <= j ->
  Zpos P * 2 ^ a = Zpos q * Zpos T ->
  int_of_float (S754_finite false q (10 * j - a))
  = Ok (Zpos P * 1024 ^ j / Zpos T).
Proof.
  intros Ha Hj Heq. cbn [int_of_float]. f_equal.
  replace (1024 ^ j) with (2 ^ (10 * j))
    by (rewrite Z.pow_mul_r by lia; reflexivity).
  destruct (0 <=? 10 * j - a) eqn:E.
  - apply Z.leb_le in E.
    replace (2 ^ (10 * j)) with (2 ^ a * 2 ^ (10 * j - a))
      by (rewrite <- Z.pow_add_r by lia; f_equal; lia).
    rewrite Z.mul_assoc, Heq.
    replace (Zpos q * Zpos T * 2 ^ (10 * j - a))
      with (Zpos q * 2 ^ (10 * j - a) * Zpos T) by ring.
    rewrite Z.div_mul by lia. reflexivity.
  - apply Z.leb_gt in E.
    replace (- (10 * j - a)) with (a - 10 * j) by lia.
    assert (Hd : 0 < 2 ^ (a - 10 * j)) by (apply Z.pow_pos_nonneg; lia).
    rewrite <- (Z.div_mul_cancel_r (Zpos P * 2 ^ (10 * j)) (Zpos T)
                  (2 ^ (a - 10 * j))) by lia.
    replace (Zpos P * 2 ^ (10 * j) * 2 ^ (a - 10 * j)) with (Zpos P * 2 ^ a).
    2:{ rewrite <- Z.mul_assoc, <- Z.pow_add_r by lia.
        do 2 f_equal. lia. }
    rewrite Heq, (Z.mul_comm (Zpos q)).
    rewrite Z.div_mul_cancel_l by lia. reflexivity.
Qed.

(** ** Units *)

Lemma units_mul (u : pystr) (m : Z) :
  In (u, m) units -> m = 1024 ^ unit_power u /\ 1 <= unit_power u <= 4.
Proof.
  simpl. intros H.
  repeat (destruct H as [H | H];
          [inversion H; subst; vm_compute; repeat split; congruence|]).
  destruct H.
Qed.

Lemma endswith_false_by_last (s u : pystr) (d : ascii) :
  u <> [] -> last s d <> last u d -> endswith s u = false.
Proof.
  intros Hu Hl. destruct (endswith s u) eqn:E; [|reflexivity].
  contradiction Hl. apply endswith_last; assumption.
Qed.

(** After any prefix, a unit is found at the end exactly by its own
    name. *)
Lemma endswith_unit (num u u' : pystr) (m m' : Z) :
  In (u, m) units -> In (u', m') units ->
  endswith (num ++ u) u' = pystr_eqb u u'.
Proof.
  intros Hu Hu'. simpl in Hu, Hu'.
  repeat (destruct Hu as [Hu | Hu]; [inversion Hu; subst; clear Hu|]);
    try destruct Hu;
    repeat (destruct Hu' as [Hu' | Hu']; [inversion Hu'; subst; clear Hu'|]);
    try destruct Hu';
    first [ rewrite endswith_short by (cbn; lia); reflexivity
          | rewrite (endswith_false_by_last _ _ "0"%char);
            [ reflexivity | discriminate
            | rewrite last_app_nonempty by discriminate;
              vm_compute; discriminate ] ].
Qed.

Lemma parse_size_loop_finds (num u : pystr) (us : list (pystr * Z)) :
  (forall u' m', In (u', m') us -> In (u', m') units) ->
  forall m, In (u, m) us ->
  parse_size_loop (num ++ u) us = convert num (1024 ^ unit_power u).
Proof.
  induction us as [|[u' m'] us IH]; intros Hsub m Hin; [destruct Hin|].
  assert (Hu : In (u, m) units) by (apply Hsub; exact Hin).
  assert (Hu' : In (u', m') units) by (apply Hsub; left; reflexivity).
  cbn [parse_size_loop].
  rewrite (endswith_unit num u u' m m' Hu Hu').
  destruct (pystr_eqb u u') eqn:E.
  - apply pystr_eqb_eq in E. subst u'.
    rewrite drop_last_app. destruct (units_mul u m' Hu') as [-> _].
    reflexivity.
  - destruct Hin as [Hin | Hin].
    + inversion Hin; subst.
      assert (pystr_eqb u u = true) by (apply pystr_eqb_eq; reflexivity).
      congruence.
    + eapply IH; [|exact Hin].
      intros u0 m0 H. apply Hsub. right. exact H.
Qed.

Lemma sorted_units_have (u : pystr) (m : Z) :
  In (u, m) units ->
  In (u, m) (sorted (fun x => - Z.of_nat (List.length (fst x))) units).
Proof.
  rewrite sorted_units. simpl. intros H.
  repeat (destruct H as [H | H]; [inversion H; subst; tauto|]). destruct H.
Qed.

Lemma spells_unit_letters (U u : pystr) :
  spells U u -> Forall (fun c => is_unit_letter c = true) U.
Proof.
  intros [Hl (m & Hin)]. subst u. unfold lower in Hin.
  assert (Hall : Forall (fun c => is_unit_letter c = true) (map lower_char U)).
  { simpl in Hin.
    repeat (destruct Hin as [Hin | Hin];
            [injection Hin as Hn Hm; rewrite <- Hn;
             repeat constructor|]).
    destruct Hin. }
  clear Hin. induction U as [|c U IH]; [constructor|].
  inversion Hall as [|? ? Hc Hrest]; subst. constructor; [|apply IH; exact Hrest].
  revert Hc. clear. each_ascii c.
Qed.

(** ** Decimal numbers *)

Lemma digits_from_nonneg (s : pystr) :
  all_digits s -> forall acc, 0 <= acc -> 0 <= digits_from acc s.
Proof.
  induction 1 as [|c s Hc Hs IH]; intros acc Hacc; cbn [digits_from];
    [exact Hacc|].
  apply IH. pose proof (digit_val_range c Hc). lia.
Qed.

Lemma numeral_solid (ip : pystr) (fp : option pystr) :
  all_digits ip -> all_digits (fraction_digits fp) ->
  Forall (fun c => is_space c = false) (numeral ip fp).
Proof.
  intros Hi Hf. unfold numeral. apply Forall_app.
  split; [apply digits_no_space; exact Hi|].
  destruct fp as [f|]; [|constructor].
  constructor; [reflexivity | apply digits_no_space; exact Hf].
Qed.

Lemma numeral_lower (ip : pystr) (fp : option pystr) :
  all_digits ip -> all_digits (fraction_digits fp) ->
  lower (numeral ip fp) = numeral ip fp.
Proof.
  intros Hi Hf. unfold numeral, lower. rewrite map_app.
  fold (lower ip). rewrite digits_lower by exact Hi. f_equal.
  destruct fp as [f|]; [|reflexivity].
  cbn [lit list_ascii_of_string app map]. fold (lower f).
  rewrite digits_lower by exact Hf. reflexivity.
Qed.

(** [float] on a decimal number: the nearest double of its value. *)
Lemma py_float_numeral (ip : pystr) (fp : option pystr) :
  all_digits ip -> ip <> [] -> all_digits (fraction_digits fp) ->
  py_float (numeral ip fp)
  = Ok (round_decimal false (digits_value (ip ++ fraction_digits fp))
          (- Z.of_nat (List.length (fraction_digits fp)))).
Proof.
  intros Hi Hne Hf. unfold py_float.
  rewrite unpadded_solid by (apply numeral_solid; assumption).
  destruct ip as [|c ip']; [contradiction|].
  inversion Hi as [|? ? Hc Hi']; subst.
  unfold numeral at 1. cbn [app]. rewrite (scan_sign_digit c _ Hc).
  change (c :: ip' ++ match fp with Some f => lit "." ++ f | None => [] end)
    with (numeral (c :: ip') fp).
  rewrite numeral_lower by assumption.
  destruct (digit_no_letter c Hc) as [Hci Hcn].
  assert (Hinf : forall t, pystr_eqb (numeral (c :: ip') fp) ("i"%char :: t)
                           = false)
    by (intros t; unfold numeral; cbn [app pystr_eqb]; rewrite Hci; reflexivity).
  assert (Hnan : forall t, pystr_eqb (numeral (c :: ip') fp) ("n"%char :: t)
                           = false)
    by (intros t; unfold numeral; cbn [app pystr_eqb]; rewrite Hcn; reflexivity).
  cbn [lit list_ascii_of_string]. rewrite !Hinf, Hnan. cbn [orb].
  unfold numeral.
  rewrite scan_digits_run;
    [ | exact Hi | destruct fp; [split; reflexivity | exact I] ].
  destruct fp as [f|]; cbn [fraction_digits] in *.
  - cbn [lit list_ascii_of_string app].
    change (ascii_eqb "." ".") with true. cbn iota.
    rewrite <- (app_nil_r f) at 1.
    rewrite scan_digits_run by (try exact Hf; exact I).
    cbn [app scan_exponent]. rewrite Z.sub_0_l. reflexivity.
  - rewrite !app_nil_r. cbn [app scan_exponent]. reflexivity.
Qed.

Lemma digits_value_nonneg (s : pystr) : all_digits s -> 0 <= digits_value s.
Proof. intros H. apply digits_from_nonneg; [exact H | lia]. Qed.

(** The value of a decimal number that is a double, times a unit,
    truncated. *)
Lemma convert_exact (ip : pystr) (fp : option pystr) (j : Z) :
  all_digits ip -> ip <> [] -> all_digits (fraction_digits fp) ->
  1 <= j <= 4 ->
  let P := digits_value (ip ++ fraction_digits fp) in
  let F := Z.of_nat (List.length (fraction_digits fp)) in
  exact_double P F ->
  convert (numeral ip fp) (1024 ^ j) = Ok (P * 1024 ^ j / 10 ^ F).
Proof.
  intros Hi Hne Hf Hj P F Hex. unfold convert.
  rewrite py_float_numeral by assumption. fold P. fold F.
  assert (HT : 0 < 10 ^ F) by (apply Z.pow_pos_nonneg; lia).
  destruct Hex as [HP | (q & a & Hq & Ha & Heq)].
  - rewrite HP. cbn [round_decimal]. unfold float_mul_int.
    rewrite float_of_unit by exact Hj. cbn [SFmul int_of_float xorb].
    rewrite Z.mul_0_l, Z.div_0_l by lia. reflexivity.
  - assert (HP : 0 < P).
    { assert (0 <= P) by (apply digits_value_nonneg; apply Forall_app;
                          split; assumption).
      assert (P <> 0); [|lia]. intros E. rewrite E in Heq.
      assert (0 < Zpos q * 10 ^ F) by (apply Z.mul_pos_pos; lia). lia. }
    destruct P as [|p|p] eqn:EP; try lia.
    assert (Hround : round_decimal false (Zpos p) (- F)
                     = round_quotient false p (Z.to_pos (10 ^ F))).
    { cbn [round_decimal]. destruct (0 <=? - F) eqn:E.
      - assert (F = 0) by lia. replace (- F) with 0 by lia.
        replace (10 ^ F) with 1 by (subst F; rewrite H; reflexivity).
        cbn [Z.pow Z.to_pos]. rewrite Pos.mul_1_r. reflexivity.
      - rewrite Z.opp_involutive. reflexivity. }
    rewrite Hround.
    rewrite (round_quotient_exact false p (Z.to_pos (10 ^ F)) q a Hq Ha)
      by (rewrite Z2Pos.id by lia; exact Heq).
    rewrite float_mul_unit_exact by assumption.
    rewrite (int_of_scaled q p (Z.to_pos (10 ^ F)) a j)
      by (try lia; rewrite Z2Pos.id by lia; exact Heq).
    rewrite Z2Pos.id by lia. reflexivity.
Qed.

Lemma small_integer_exact (n : Z) : 0 <= n < 2 ^ 53 -> exact_double n 0.
Proof.
  intros Hn. destruct (Z.eq_dec n 0) as [E|E]; [left; exact E|right].
  destruct n as [|p|p]; try lia.
  destruct (Zdigits2_spec p) as [Hd Hb].
  set (d := Zdigits2 (Zpos p)) in *.
  assert (Hd53 : d <= 53).
  { destruct (Z_le_gt_dec d 53) as [H|H]; [exact H|exfalso].
    assert (2 ^ 53 <= 2 ^ (d - 1)) by (apply Z.pow_le_mono_r; lia). lia. }
  assert (Hpow : 0 < 2 ^ (53 - d)) by (apply Z.pow_pos_nonneg; lia).
  exists (Z.to_pos (Zpos p * 2 ^ (53 - d))), (53 - d).
  rewrite Z2Pos.id by lia.
  split; [|split; [lia | rewrite Z.pow_0_r; ring]].
  replace (2 ^ 52) with (2 ^ (d - 1) * 2 ^ (53 - d))
    by (rewrite <- Z.pow_add_r by lia; f_equal; lia).
  replace (2 ^ 53) with (2 ^ d * 2 ^ (53 - d))
    by (rewrite <- Z.pow_add_r by lia; f_equal; lia).
  nia.
Qed.

Lemma parse_size_with_unit (ws1 ip : pystr) (fp : option pystr)
    (U u ws2 : pystr) :
  all_spaces ws1 -> all_spaces ws2 ->
  all_digits ip -> ip <> [] -> all_digits (fraction_digits fp) ->
  spells U u ->
  parse_size (ws1 ++ (numeral ip fp ++ U) ++ ws2)
  = convert (numeral ip fp) (1024 ^ unit_power u).
Proof.
  intros H1 H2 Hi Hne Hf Hsp. unfold parse_size.
  rewrite strip_around; try assumption.
  2:{ apply Forall_app. split; [apply numeral_solid; assumption|].
      eapply Forall_impl; [|exact (spells_unit_letters U u Hsp)].
      intros c Hc. exact (proj1 (unit_letter_plain c Hc)). }
  destruct Hsp as [Hl (m & Hin)].
  unfold lower. rewrite map_app. fold (lower (numeral ip fp)). fold (lower U).
  rewrite numeral_lower by assumption. rewrite Hl.
  apply (parse_size_loop_finds _ u _ sorted_units_are_units m).
  apply sorted_units_have. exact Hin.
Qed.




(* ================================================================== *)
(** * Further properties of [parse_size] *)

Lemma space_lower (c : ascii) : is_space (lower_char c) = is_space c.
Proof. each_ascii c. Qed.

Lemma lstrip_lower (s : pystr) : lower (lstrip s) = lstrip (lower s).
Proof.
  induction s as [|c t IH]; [reflexivity|].
  cbn [lstrip lower map]. rewrite space_lower.
  destruct (is_space c); [exact IH | reflexivity].
Qed.

Lemma strip_lower (s : pystr) : lower (strip s) = strip (lower s).
Proof.
  unfold strip, rstrip, lower.
  rewrite map_rev. fold (lower (lstrip (rev (lstrip s)))).
  rewrite lstrip_lower. unfold lower at 1. rewrite map_rev.
  fold (lower (lstrip s)). rewrite lstrip_lower. reflexivity.
Qed.

Lemma rstrip_spaces (s ws : pystr) : all_spaces ws -> rstrip (s ++ ws) = rstrip s.
Proof.
  intros H. unfold rstrip. rewrite rev_app_distr.
  rewrite lstrip_spaces; [reflexivity|].
  apply Forall_rev. exact H.
Qed.

(** Whitespace around a string is dropped, whatever the string. *)
Lemma strip_padding (ws1 s ws2 : pystr) :
  all_spaces ws1 -> all_spaces ws2 -> strip (ws1 ++ s ++ ws2) = strip s.
Proof.
  intros H1 H2. unfold strip. rewrite lstrip_spaces by exact H1.
  induction s as [|c t IH].
  - cbn [app]. rewrite lstrip_all_spaces by exact H2. reflexivity.
  - cbn [app lstrip]. destruct (is_space c); [exact IH|].
    change (c :: t ++ ws2) with ((c :: t) ++ ws2).
    apply rstrip_spaces. exact H2.
Qed.

(** X1.  [parse_size] looks at its argument only up to letter case and
    surrounding whitespace: two strings with the same lower-case form
    give the same result, value or exception, whatever whitespace is put
    around one of them. *)
Theorem parse_size_ignores_case_and_padding (ws1 s1 ws2 s2 : pystr) :
  all_spaces ws1 -> all_spaces ws2 ->
  lower s1 = lower s2 ->
  parse_size (ws1 ++ s1 ++ ws2) = parse_size s2.
Proof.
  intros H1 H2 Hl. unfold parse_size.
  rewrite strip_padding by assumption.
  rewrite !strip_lower, Hl. reflexivity.
Qed.

Lemma parse_size_ignores_case_and_padding_witness :
  all_spaces (lit " ") /\ all_spaces (lit " ")
  /\ lower (lit "2GI") = lower (lit "2gi")
  /\ parse_size (lit " " ++ lit "2GI" ++ lit " ") = parse_size (lit "2gi").
Proof.
  assert (H1 : all_spaces (lit " ")) by (repeat constructor).
  assert (H3 : lower (lit "2GI") = lower (lit "2gi")) by reflexivity.
  split; [exact H1|]. split; [exact H1|]. split; [exact H3|].
  exact (parse_size_ignores_case_and_padding (lit " ") (lit "2GI") (lit " ")
           (lit "2gi") H1 H1 H3).
Defined.

(** What [parse_size] does with a lower-case string without whitespace
    followed by a unit. *)
Lemma parse_size_suffix (ws1 num U u ws2 : pystr) :
  all_spaces ws1 -> all_spaces ws2 ->
  Forall (fun c => is_space c = false) num -> lower num = num ->
  spells U u ->
  parse_size (ws1 ++ (num ++ U) ++ ws2) = convert num (1024 ^ unit_power u).
Proof.
  intros H1 H2 Hs Hlow Hsp. unfold parse_size.
  rewrite strip_around; try assumption.
  2:{ apply Forall_app. split; [exact Hs|].
      eapply Forall_impl; [|exact (spells_unit_letters U u Hsp)].
      intros c Hc. exact (proj1 (unit_letter_plain c Hc)). }
  destruct Hsp as [Hl (m & Hin)].
  unfold lower. rewrite map_app. fold (lower num). fold (lower U).
  rewrite Hlow, Hl.
  apply (parse_size_loop_finds _ u _ sorted_units_are_units m).
  apply sorted_units_have. exact Hin.
Qed.

(** X2.  [parse_size] needs a number: an empty or blank string, and a
    unit with no number before it, raise [ValueError]. *)
Theorem parse_size_needs_a_number (ws1 ws2 U u : pystr) :
  all_spaces ws1 -> all_spaces ws2 ->
  parse_size (ws1 ++ ws2) = Raise ValueError
  /\ (spells U u -> parse_size (ws1 ++ U ++ ws2) = Raise ValueError).
Proof.
  intros H1 H2. split.
  - unfold parse_size.
    replace (strip (ws1 ++ ws2)) with (@nil ascii); [reflexivity|].
    symmetry. change (ws1 ++ ws2) with (ws1 ++ [] ++ ws2).
    rewrite strip_padding by assumption. reflexivity.
  - intros Hsp.
    change (ws1 ++ U ++ ws2) with (ws1 ++ ([] ++ U) ++ ws2).
    rewrite (parse_size_suffix ws1 [] U u ws2 H1 H2 (Forall_nil _) eq_refl Hsp).
    reflexivity.
Qed.

Lemma parse_size_needs_a_number_witness :
  all_spaces (lit " ") /\ all_spaces []
  /\ parse_size (lit " " ++ []) = Raise ValueError
  /\ (spells (lit "Mi") (lit "mi") ->
      parse_size (lit " " ++ lit "Mi" ++ []) = Raise ValueError).
Proof.
  assert (H1 : all_spaces (lit " ")) by (repeat constructor).
  assert (H2 : all_spaces []) by constructor.
  split; [exact H1|]. split; [exact H2|].
  exact (parse_size_needs_a_number (lit " ") [] (lit "Mi") (lit "mi") H1 H2).
Defined.

Lemma py_int_signed (c : ascii) (ds : pystr) :
  c = "-"%char \/ c = "+"%char ->
  all_digits ds -> ds <> [] ->
  py_int (c :: ds)
  = Ok (if ascii_eqb c "-" then - digits_value ds else digits_value ds).
Proof.
  intros Hc Hds Hne. unfold py_int.
  rewrite unpadded_solid.
  2:{ constructor; [destruct Hc; subst; reflexivity
                   | apply digits_no_space; exact Hds]. }
  assert (Hsc : scan_digits ds = (ds, [])).
  { rewrite <- (app_nil_r ds) at 1. apply scan_digits_run; [exact Hds | exact I]. }
  destruct Hc; subst c.
  - change (scan_sign ("-"%char :: ds)) with (true, ds).
    cbv beta iota. rewrite Hsc. destruct ds; [contradiction | reflexivity].
  - change (scan_sign ("+"%char :: ds)) with (false, ds).
    cbv beta iota. rewrite Hsc. destruct ds; [contradiction | reflexivity].
Qed.

(** X3.  A bare integer may carry a sign: [-] followed by digits (4300
    at most, the longest digit string that [int()] converts under the
    interpreter's default limit) gives the negative value, so a negative
    size is a result of [parse_size], not an error; [+] followed by
    digits gives the value. *)
Theorem parse_size_accepts_a_sign (ws1 ds ws2 : pystr) :
  all_spaces ws1 -> all_spaces ws2 ->
  all_digits ds -> ds <> [] -> (List.length ds <= 4300)%nat ->
  parse_size (ws1 ++ (lit "-" ++ ds) ++ ws2) = Ok (- digits_value ds)
  /\ parse_size (ws1 ++ (lit "+" ++ ds) ++ ws2) = Ok (digits_value ds).
Proof.
  intros H1 H2 Hds Hne _.
  assert (Hlast : forall c, is_unit_letter (last (c :: ds) "0"%char) = false).
  { intros c. change (c :: ds) with ([c] ++ ds).
    rewrite last_app_nonempty by exact Hne.
    apply digit_no_unit_letter. apply digits_last_digit; assumption. }
  split.
  - rewrite parse_size_no_unit; try assumption.
    + exact (py_int_signed "-" ds (or_introl eq_refl) Hds Hne).
    + constructor; [reflexivity | apply digits_no_space; exact Hds].
    + cbn [lit list_ascii_of_string app lower map]. fold (lower ds).
      rewrite digits_lower by exact Hds. reflexivity.
    + apply Hlast.
  - rewrite parse_size_no_unit; try assumption.
    + exact (py_int_signed "+" ds (or_intror eq_refl) Hds Hne).
    + constructor; [reflexivity | apply digits_no_space; exact Hds].
    + cbn [lit list_ascii_of_string app lower map]. fold (lower ds).
      rewrite digits_lower by exact Hds. reflexivity.
    + apply Hlast.
Qed.

Lemma parse_size_accepts_a_sign_witness :
  all_spaces [] /\ all_spaces [] /\ all_digits (lit "12") /\ lit "12" <> []
  /\ (List.length (lit "12") <= 4300)%nat
  /\ parse_size ([] ++ (lit "-" ++ lit "12") ++ []) = Ok (- 12)
  /\ parse_size ([] ++ (lit "+" ++ lit "12") ++ []) = Ok 12.
Proof.
  assert (H1 : all_spaces []) by constructor.
  assert (H3 : all_digits (lit "12")) by (repeat constructor).
  assert (H4 : lit "12" <> []) by discriminate.
  split; [exact H1|]. split; [exact H1|]. split; [exact H3|].
  assert (H5 : (List.length (lit "12") <= 4300)%nat) by (simpl; lia).
  split; [exact H4|]. split; [exact H5|].
  exact (parse_size_accepts_a_sign [] (lit "12") [] H1 H1 H3 H4 H5).
Defined.

(** X4.  With a unit, the number is read by [float], which knows [inf]
    and [nan]: an infinite size raises [OverflowError], not
    [ValueError], and [nan] raises [ValueError]. *)
Theorem parse_size_not_finite (ws1 U u ws2 : pystr) :
  all_spaces ws1 -> all_spaces ws2 -> spells U u ->
  parse_size (ws1 ++ (lit "inf" ++ U) ++ ws2) = Raise OverflowError
  /\ parse_size (ws1 ++ (lit "nan" ++ U) ++ ws2) = Raise ValueError.
Proof.
  intros H1 H2 Hsp.
  assert (Hj : 1 <= unit_power u <= 4).
  { destruct Hsp as [_ (m & Hin)]. exact (proj2 (units_mul u m Hin)). }
  assert (Hcases : unit_power u = 1 \/ unit_power u = 2 \/ unit_power u = 3
                   \/ unit_power u = 4) by lia.
  split.
  - rewrite (parse_size_suffix ws1 (lit "inf") U u ws2 H1 H2); try assumption;
      [| repeat constructor | reflexivity].
    destruct Hcases as [E|[E|[E|E]]]; rewrite E; vm_compute; reflexivity.
  - rewrite (parse_size_suffix ws1 (lit "nan") U u ws2 H1 H2); try assumption;
      [| repeat constructor | reflexivity].
    destruct Hcases as [E|[E|[E|E]]]; rewrite E; vm_compute; reflexivity.
Qed.

Lemma parse_size_not_finite_witness :
  all_spaces [] /\ all_spaces [] /\ spells (lit "k") (lit "k")
  /\ parse_size ([] ++ (lit "inf" ++ lit "k") ++ []) = Raise OverflowError
  /\ parse_size ([] ++ (lit "nan" ++ lit "k") ++ []) = Raise ValueError.
Proof.
  assert (H1 : all_spaces []) by constructor.
  assert (H3 : spells (lit "k") (lit "k")).
  { split; [reflexivity|]. exists 1024. simpl. tauto. }
  split; [exact H1|]. split; [exact H1|]. split; [exact H3|].
  exact (parse_size_not_finite [] (lit "k") (lit "k") [] H1 H1 H3).
Defined.

(* ================================================================== *)
(** * Further properties of the memory loop *)

Lemma mem_burst_body_negative (w : World) (want block_bytes headroom : Z)
    (lim : option Z) (v : mem_vars) (h : trace) :
  let bsz := Z.min block_bytes (want - allocated v) in
  headroom_reached lim (current_of w h) headroom = false ->
  bsz < 0 -> fits_float bsz -> fits_float (allocated v) ->
  Qimi2Sim.mem_burst_body w want block_bytes headroom lim v h =
  (Threw (refusal_of bsz), v,
   h ++ [EvReadCurrent (current_of w h); EvLog (QPlan bsz (allocated v))]).
Proof.
  intros bsz Hh Hneg Hf1 Hf2. unfold Qimi2Sim.mem_burst_body. unfold_steps.
  rewrite Hh. fold bsz.
  rewrite log_fits by (repeat constructor; assumption).
  rewrite <- app_assoc. cbn [app]. unfold refusal_of.
  alloc_step Hb Ha; try lia.
  - replace (- 2 ^ 63 <=? bsz) with true by lia. reflexivity.
  - unfold fits_index in Hb.
    replace (- 2 ^ 63 <=? bsz) with false by lia. reflexivity.
Qed.

Lemma allocate_slow_body_negative (w : World) (total block_bytes : Z)
    (pause : Q) (headroom : Z) (v : mem_vars) (h : trace) :
  let bsz := Z.min block_bytes (total - allocated v) in
  let cur := current_of w h in
  let l := limits_of w (h ++ [EvReadCurrent cur]) in
  headroom_reached (mem_limit_of l) cur headroom = false ->
  bsz < 0 -> fits_float bsz -> fits_float (allocated v) ->
  Stress.allocate_slow_body w total block_bytes pause headroom v h =
  (Threw (refusal_of bsz), v,
   h ++ [EvReadCurrent cur; EvReadLimits l;
         EvLog (SPlanNext bsz (allocated v) cur)]).
Proof.
  intros bsz cur l Hh Hneg Hf1 Hf2.
  unfold Stress.allocate_slow_body. unfold_steps.
  fold cur. fold l. rewrite Hh. fold bsz.
  rewrite log_fits by (repeat constructor; assumption).
  repeat rewrite <- app_assoc. cbn [app]. unfold refusal_of.
  alloc_step Hb Ha; try lia.
  - replace (- 2 ^ 63 <=? bsz) with true by lia. reflexivity.
  - unfold fits_index in Hb.
    replace (- 2 ^ 63 <=? bsz) with false by lia. reflexivity.
Qed.

Lemma refusal_is_not_MemoryError (n : Z) : is_MemoryError (refusal_of n) = false.
Proof. unfold refusal_of. destruct (- 2 ^ 63 <=? n); reflexivity. Qed.

Lemma negative_block_refused (w : World) (fuel : nat)
    (want block_bytes headroom : Z) (pause : Q) (h : trace) :
  block_bytes < 0 -> 0 < want ->
  sizes_fit [want; block_bytes; headroom] ->
  headroom_never_reached w headroom ->
  raised_empty_handed (refusal_of block_bytes) h
    (Qimi2Sim.mem_burst w (S fuel) want block_bytes headroom h)
  /\ raised_empty_handed (refusal_of block_bytes) h
       (Stress.allocate_slow w (S fuel) want block_bytes pause headroom h).
Proof.
  intros Hb Hw Hfit Hnever.
  assert (Hfb : fits_float block_bytes).
  { inversion Hfit as [|? ? _ Hrest]; subst.
    inversion Hrest; subst. assumption. }
  assert (Hmin : Z.min block_bytes (want - 0) = block_bytes) by lia.
  assert (Hf0 : fits_float 0) by (apply fits_float_small; lia).
  split.
  - rewrite mem_burst_eq by exact Hfit. cbv zeta.
    erewrite (while_loop_threw fuel (fun v => allocated v <? want));
      [ | cbn [allocated]; lia
        | apply mem_burst_body_negative; cbn [allocated]; rewrite ?Hmin;
          [apply Hnever | lia | exact Hfb | exact Hf0] ].
    cbn [allocated mem_burst_finish]. rewrite Hmin, refusal_is_not_MemoryError.
    unfold raised_empty_handed. cbn [blocks].
    split; [reflexivity|]. split; [reflexivity|].
    eexists. rewrite <- app_assoc. split; reflexivity.
  - rewrite allocate_slow_eq by exact Hfit.
    erewrite (while_loop_threw fuel (fun v => allocated v <? want));
      [ | cbn [allocated]; lia
        | apply allocate_slow_body_negative; cbn [allocated]; rewrite ?Hmin;
          [apply Hnever | lia | exact Hfb | exact Hf0] ].
    cbn [allocated allocate_slow_finish].
    rewrite Hmin, refusal_is_not_MemoryError.
    unfold raised_empty_handed. cbn [blocks].
    split; [reflexivity|]. split; [reflexivity|].
    eexists. repeat rewrite <- app_assoc. split; reflexivity.
Qed.

(** X5.  A negative block size is not handled: when there is work to do
    and the headroom check does not fire, the run ends by an exception
    that the [except MemoryError] clause lets through, with no block
    and no allocation attempted.  When the three sizes can be shown in
    the first record and the block size is a signed 64-bit integer, it
    is the [ValueError] of the first [bytearray(bsz)]; otherwise it is
    an [OverflowError], of the first record when a size cannot be shown
    and of the first [bytearray(bsz)] when the block size is below
    [-2^63]. *)
Theorem negative_block_raises (w : World) (fuel : nat)
    (want block_bytes headroom : Z) (pause : Q) (h : trace) :
  block_bytes < 0 -> 0 < want ->
  headroom_never_reached w headroom ->
  (sizes_fit [want; block_bytes; headroom] -> - 2 ^ 63 <= block_bytes ->
   raised_empty_handed ValueError h
     (Qimi2Sim.mem_burst w (S fuel) want block_bytes headroom h)
   /\ raised_empty_handed ValueError h
        (Stress.allocate_slow w (S fuel) want block_bytes pause headroom h))
  /\ (~ sizes_fit [want; block_bytes; headroom] \/ block_bytes < - 2 ^ 63 ->
      raised_empty_handed OverflowError h
        (Qimi2Sim.mem_burst w (S fuel) want block_bytes headroom h)
      /\ raised_empty_handed OverflowError h
           (Stress.allocate_slow w (S fuel) want block_bytes pause headroom h)).
Proof.
  intros Hb Hw Hnever. split.
  - intros Hfit Hlow.
    pose proof (negative_block_refused w fuel want block_bytes headroom pause h
                  Hb Hw Hfit Hnever) as H.
    unfold refusal_of in H.
    replace (- 2 ^ 63 <=? block_bytes) with true in H by lia. exact H.
  - intros Hbad.
    destruct (sizes_fit_dec [want; block_bytes; headroom]) as [Hfit | Hnot].
    + destruct Hbad as [Hbad | Hlow]; [contradiction|].
      pose proof (negative_block_refused w fuel want block_bytes headroom pause
                    h Hb Hw Hfit Hnever) as H.
      unfold refusal_of in H.
      replace (- 2 ^ 63 <=? block_bytes) with false in H by lia. exact H.
    + rewrite mem_burst_refused, allocate_slow_refused by exact Hnot.
      unfold raised_empty_handed. cbn [blocks].
      split; (split; [reflexivity|]; split; [reflexivity|];
              eexists; split; reflexivity).
Qed.

Lemma negative_block_raises_witness :
  -1 < 0 /\ 0 < 8 /\ headroom_never_reached quiet_world 0
  /\ sizes_fit [8; -1; 0] /\ - 2 ^ 63 <= -1
  /\ raised_empty_handed ValueError []
       (Qimi2Sim.mem_burst quiet_world 1 8 (-1) 0 [])
  /\ raised_empty_handed ValueError []
       (Stress.allocate_slow quiet_world 1 8 (-1) 0 0 []).
Proof.
  assert (H1 : -1 < 0) by lia.
  assert (H2 : 0 < 8) by lia.
  assert (H3 : headroom_never_reached quiet_world 0) by (intros h h'; reflexivity).
  assert (H4 : sizes_fit [8; -1; 0])
    by (repeat constructor; vm_compute; reflexivity).
  assert (H5 : - 2 ^ 63 <= -1) by lia.
  split; [exact H1|]. split; [exact H2|]. split; [exact H3|].
  split; [exact H4|]. split; [exact H5|].
  exact (proj1 (negative_block_raises quiet_world 0 8 (-1) 0 0 [] H1 H2 H3)
           H4 H5).
Defined.

(** X6.  A headroom that is not below the limit leaves no room at all:
    when the limit and the usage are known, the limit is at most the
    headroom and the three sizes can be shown in the first record (they
    are below [2^1024 - 2^970] in magnitude), the first check stops the
    loop whatever the usage is, and the run returns no block without
    having attempted an allocation. *)
Theorem headroom_above_limit_allocates_nothing (w : World) (fuel : nat)
    (want block_bytes headroom : Z) (pause : Q) (h : trace) :
  limit_within_headroom w headroom ->
  0 < want ->
  sizes_fit [want; block_bytes; headroom] ->
  returned_empty_handed is_stop_record h
    (Qimi2Sim.mem_burst w (S fuel) want block_bytes headroom h)
  /\ returned_empty_handed is_stop_record h
       (Stress.allocate_slow w (S fuel) want block_bytes pause headroom h).
Proof.
  intros [Hlim Hcur] Hw Hfit.
  assert (Hreach : forall h1 h2,
             headroom_reached (mem_limit_of (limits_of w h1))
               (current_of w h2) headroom = true).
  { intros h1 h2. destruct (Hlim h1) as (l & -> & Hl).
    destruct (current_of w h2) as [c|] eqn:Hc; [|destruct (Hcur h2 Hc)].
    apply headroom_reached_at_mark;
      [exact (current_of_nonneg w h2 c Hc)|].
    pose proof (current_of_nonneg w h2 c Hc). lia. }
  split.
  - rewrite mem_burst_eq by exact Hfit. cbv zeta.
    rewrite (while_loop_break fuel (fun v => allocated v <? want) _
               {| blocks := []; allocated := 0 |} _ _ _
               ltac:(cbn [allocated]; lia)
               (mem_burst_body_stops w want block_bytes headroom _ _ _
                  (Hreach _ _))).
    unfold mem_burst_finish, returned_empty_handed, returned, trace_of.
    cbn [blocks snd]. split; [reflexivity|].
    eexists. repeat rewrite <- app_assoc. split; [reflexivity|].
    split; [reflexivity|].
    eexists. split; [right; right; right; left; reflexivity | exact I].
  - rewrite allocate_slow_eq by exact Hfit.
    rewrite (while_loop_break fuel (fun v => allocated v <? want) _
               {| blocks := []; allocated := 0 |} _ _ _
               ltac:(cbn [allocated]; lia)
               (allocate_slow_body_stops w want block_bytes pause headroom _ _
                  (Hreach _ _))).
    unfold allocate_slow_finish. unfold_steps.
    rewrite log_fits
      by (repeat constructor; apply fits_float_small; cbn [allocated]; lia).
    unfold returned_empty_handed, returned, trace_of.
    cbn [blocks fst snd]. split; [reflexivity|].
    eexists. repeat rewrite <- app_assoc. split; [reflexivity|].
    split; [reflexivity|].
    eexists. split; [do 4 right; left; reflexivity | exact I].
Qed.

Lemma headroom_above_limit_allocates_nothing_witness :
  limit_within_headroom tight_world 100 /\ 0 < 8
  /\ sizes_fit [8; 4; 100]
  /\ returned_empty_handed is_stop_record []
       (Qimi2Sim.mem_burst tight_world 1 8 4 100 [])
  /\ returned_empty_handed is_stop_record []
       (Stress.allocate_slow tight_world 1 8 4 0 100 []).
Proof.
  assert (H1 : limit_within_headroom tight_world 100).
  { split; [intros h; exists 100; split; [reflexivity | lia]
           | intros h; discriminate]. }
  assert (H2 : 0 < 8) by lia.
  assert (H3 : sizes_fit [8; 4; 100])
    by (repeat constructor; vm_compute; reflexivity).
  split; [exact H1|]. split; [exact H2|]. split; [exact H3|].
  exact (headroom_above_limit_allocates_nothing tight_world 0 8 4 100 0 []
           H1 H2 H3).
Defined.

(** X7.  When [allocate_slow] returns, the last thing it has done is to
    log its [done] record, and this record carries the sum of the sizes
    of the blocks returned and their number, whether the loop ran to
    the target, stopped on the headroom or met [MemoryError]. *)
Theorem done_record_reports_the_result (w : World) (fuel : nat)
    (total block_bytes : Z) (pause : Q) (headroom : Z) (h : trace)
    (bs : list bytearray) :
  returned (Stress.allocate_slow w fuel total block_bytes pause headroom h)
  = Some bs ->
  last (trace_of (Stress.allocate_slow w fuel total block_bytes pause
                    headroom h)) EvLogClose
  = EvLog (SDone (total_len bs) (List.length bs)).
Proof.
  destruct (sizes_fit_dec [total; block_bytes; headroom]) as [Hfit | Hbad].
  2:{ rewrite allocate_slow_refused by exact Hbad. discriminate. }
  rewrite allocate_slow_eq by exact Hfit.
  destruct (while_loop _ _ _ _ _) as [[r v] h2] eqn:Hrun.
  pose proof (allocate_slow_loop_inv _ _ _ _ _ _ _ _ _ _ Hrun) as (Hsum & _).
  destruct (allocate_slow_finish_cases w total r v h2) as (_ & Hc).
  cbv zeta in Hc. unfold trace in *.
  destruct Hc as [(_ & ->) | [(e & _ & _ & ->) | [(u & _ & _ & ->)
    | [(u & _ & _ & ->) | [(_ & _ & ->) | (_ & _ & ->)]]]]];
    unfold returned, trace_of; cbn [fst snd];
    intros Hret; try discriminate Hret;
    injection Hret as <-; rewrite <- Hsum;
    rewrite last_app_nonempty by discriminate; reflexivity.
Qed.

Lemma done_record_reports_the_result_witness :
  returned (Stress.allocate_slow (bounded_world 6) 5 10 4 0 0 [])
  = Some [mk_bytearray 4]
  /\ last (trace_of (Stress.allocate_slow (bounded_world 6) 5 10 4 0 0 []))
          EvLogClose
     = EvLog (SDone (total_len [mk_bytearray 4]) (List.length [mk_bytearray 4])).
Proof.
  assert (H : returned (Stress.allocate_slow (bounded_world 6) 5 10 4 0 0 [])
              = Some [mk_bytearray 4]) by (vm_compute; reflexivity).
  split; [exact H|].
  exact (done_record_reports_the_result (bounded_world 6) 5 10 4 0 0 []
           [mk_bytearray 4] H).
Defined.

Lemma allocs_touched_app (page_size : Z) (t1 t2 : trace) :
  allocs_touched page_size t1 = true ->
  allocs_touched page_size t2 = true ->
  allocs_touched page_size (t1 ++ t2) = true.
Proof.
  intros H1 H2. induction t1 as [|e t1 IH]; [exact H2|].
  destruct e; try (cbn [app allocs_touched] in *; apply IH; exact H1).
  cbn [app allocs_touched] in *.
  destruct t1 as [|e' t1']; [discriminate H1|].
  destruct e'; try discriminate H1.
  cbn [app] in *.
  apply andb_prop in H1 as [Hlen Hrest]. rewrite Hlen. cbn [andb].
  apply IH. exact Hrest.
Qed.

Lemma mem_burst_body_touches (w : World) (want block_bytes headroom : Z)
    (lim : option Z) (v v' : mem_vars) (h h' : trace) (r : outcome flow) :
  Qimi2Sim.mem_burst_body w want block_bytes headroom lim v h = (r, v', h') ->
  exists t, h' = h ++ t /\ allocs_touched Qimi2Sim.PAGE_SIZE t = true.
Proof.
  unfold Qimi2Sim.mem_burst_body. unfold_steps.
  destruct (headroom_reached lim _ headroom); body_split; body_result;
    cbn [app allocs_touched ba_len]; unfold ceil_div;
    rewrite ?Z.eqb_refl; reflexivity.
Qed.

Lemma allocate_slow_body_touches (w : World) (total block_bytes : Z)
    (pause : Q) (headroom : Z) (v v' : mem_vars) (h h' : trace)
    (r : outcome flow) :
  Stress.allocate_slow_body w total block_bytes pause headroom v h
  = (r, v', h') ->
  exists t, h' = h ++ t /\ allocs_touched Stress.PAGE_SIZE t = true.
Proof.
  unfold Stress.allocate_slow_body. unfold_steps.
  destruct (headroom_reached _ _ headroom); body_split; body_result;
    cbn [app allocs_touched ba_len]; unfold ceil_div;
    rewrite ?Z.eqb_refl; reflexivity.
Qed.

(** X8.  Memory that is allocated is committed: in every run of either
    loop, each allocation that succeeds is followed at once by the
    touching of the new buffer over all its pages of 4096 bytes, before
    anything else is read, logged or allocated. *)
Theorem every_block_is_touched (w : World) (fuel : nat)
    (want block_bytes headroom : Z) (pause : Q) (h : trace) :
  (exists t,
      trace_of (Qimi2Sim.mem_burst w fuel want block_bytes headroom h) = h ++ t
      /\ allocs_touched 4096 t = true)
  /\ (exists t,
         trace_of (Stress.allocate_slow w fuel want block_bytes pause
                     headroom h) = h ++ t
         /\ allocs_touched 4096 t = true).
Proof.
  destruct (sizes_fit_dec [want; block_bytes; headroom]) as [Hfit | Hbad].
  2:{ rewrite mem_burst_refused, allocate_slow_refused by exact Hbad.
      split; eexists; split; reflexivity. }
  split.
  - rewrite mem_burst_eq by exact Hfit. cbv zeta.
    destruct (while_loop _ _ _ _ _) as [[r v] h2] eqn:Hrun.
    apply (while_loop_adds (fun t => allocs_touched 4096 t = true)) in Hrun;
      [ | reflexivity | apply allocs_touched_app
        | intros; eapply mem_burst_body_touches; eauto ].
    destruct Hrun as (t & -> & Ht).
    match goal with
    | |- context [mem_burst_finish want (?r0, ?v0, ?h0)] =>
        destruct (mem_burst_finish_cases want r0 v0 h0) as (_ & Hc)
    end.
    cbv zeta in Hc. unfold trace in *.
    destruct Hc as [(_ & ->) | [(u & _ & ->) | [(e & _ & _ & ->)
      | [(_ & _ & ->) | (_ & _ & ->)]]]];
      unfold trace_of; cbn [snd];
      eexists; repeat rewrite <- app_assoc; (split; [reflexivity|]);
      repeat apply allocs_touched_app; try exact Ht; reflexivity.
  - rewrite allocate_slow_eq by exact Hfit.
    destruct (while_loop _ _ _ _ _) as [[r v] h2] eqn:Hrun.
    apply (while_loop_adds (fun t => allocs_touched 4096 t = true)) in Hrun;
      [ | reflexivity | apply allocs_touched_app
        | intros; eapply allocate_slow_body_touches; eauto ].
    destruct Hrun as (t & -> & Ht).
    match goal with
    | |- context [allocate_slow_finish w want (?r0, ?v0, ?h0)] =>
        destruct (allocate_slow_finish_cases w want r0 v0 h0) as (_ & Hc)
    end.
    cbv zeta in Hc. unfold trace in *.
    destruct Hc as [(_ & ->) | [(e & _ & _ & ->) | [(u & _ & _ & ->)
      | [(u & _ & _ & ->) | [(_ & _ & ->) | (_ & _ & ->)]]]]];
      unfold trace_of; cbn [snd];
      eexists; repeat rewrite <- app_assoc; (split; [reflexivity|]);
      repeat apply allocs_touched_app; try exact Ht; reflexivity.
Qed.

Lemma slept_split (t1 t2 : trace) : (slept (t1 ++ t2) == slept t1 + slept t2)%Q.
Proof.
  induction t1 as [|e t1 IH].
  - cbn [app]. change (slept []) with 0%Q. ring.
  - destruct e; try exact IH.
    change (slept ((EvSleep d :: t1) ++ t2)) with (d + slept (t1 ++ t2))%Q.
    change (slept (EvSleep d :: t1)) with (d + slept t1)%Q.
    rewrite IH. ring.
Qed.

(** One pass of the ramp loop sleeps for the pause exactly when it
    appends a block, unless it ends by an exception other than
    [MemoryError]. *)
Lemma allocate_slow_body_sleeps (w : World) (total block_bytes : Z)
    (pause : Q) (headroom : Z) (v v' : mem_vars) (h h' : trace)
    (r : outcome flow) :
  Stress.allocate_slow_body w total block_bytes pause headroom v h
  = (r, v', h') ->
  (forall e, r = Threw e -> e = MemoryError) ->
  exists t, h' = h ++ t
    /\ (slept t == pause * (inject_Z (Z.of_nat (List.length (blocks v')))
                            - inject_Z (Z.of_nat (List.length (blocks v)))))%Q.
Proof.
  unfold Stress.allocate_slow_body. unfold_steps.
  destruct (headroom_reached _ _ headroom).
  - rewrite log_plain by reflexivity.
    intros H _; injection H as Hr Hv Hh; subst r v' h'.
    eexists. repeat rewrite <- app_assoc. split; [reflexivity|].
    cbn [app]. unfold slept. cbn [fold_right]. ring.
  - log_step.
    2:{ intros H Hne; injection H as Hr Hv Hh; subst r v' h'.
        discriminate (Hne _ eq_refl). }
    alloc_step Hb Ha.
    + log_step.
      2:{ intros H Hne; injection H as Hr Hv Hh; subst r v' h'.
          discriminate (Hne _ eq_refl). }
      sleep_step e He.
      * intros H _; injection H as Hr Hv Hh; subst r v' h'.
        eexists. repeat rewrite <- app_assoc. split; [reflexivity|].
        cbn [app blocks]. unfold slept. cbn [fold_right].
        rewrite length_app. cbn [List.length].
        rewrite Nat2Z.inj_add, inject_Z_plus.
        change (inject_Z (Z.of_nat 1)) with 1%Q. ring.
      * intros H Hne; injection H as Hr Hv Hh; subst r v' h'.
        contradiction He. apply Hne. reflexivity.
    + intros H _; injection H as Hr Hv Hh; subst r v' h'.
      eexists. repeat rewrite <- app_assoc. split; [reflexivity|].
      cbn [app]. unfold slept. cbn [fold_right]. ring.
    + intros H Hne; injection H as Hr Hv Hh; subst r v' h'.
      discriminate (Hne _ eq_refl).
    + intros H Hne; injection H as Hr Hv Hh; subst r v' h'.
      discriminate (Hne _ eq_refl).
Qed.

Lemma allocate_slow_loop_sleeps (w : World) (total block_bytes : Z)
    (pause : Q) (headroom : Z) :
  forall fuel v h r v' h',
    while_loop fuel (fun v => allocated v <? total)
      (Stress.allocate_slow_body w total block_bytes pause headroom) v h
    = (r, v', h') ->
    (forall e, r = Threw e -> e = MemoryError) ->
    exists t, h' = h ++ t
      /\ (slept t == pause * (inject_Z (Z.of_nat (List.length (blocks v')))
                              - inject_Z (Z.of_nat (List.length (blocks v)))))%Q.
Proof.
  apply (while_loop_ind (fun v => allocated v <? total) _
           (fun v h r v' h' =>
              (forall e, r = Threw e -> e = MemoryError) ->
              exists t, h' = h ++ t
                /\ (slept t
                    == pause * (inject_Z (Z.of_nat (List.length (blocks v')))
                                - inject_Z (Z.of_nat (List.length (blocks v)))))%Q)).
  - intros v h _ _. exists []. rewrite app_nil_r. split; [reflexivity|].
    change (slept []) with 0%Q. ring.
  - intros v h _ _. exists []. rewrite app_nil_r. split; [reflexivity|].
    change (slept []) with 0%Q. ring.
  - intros v h v1 h1 _ Hb _.
    apply allocate_slow_body_sleeps in Hb; [exact Hb | discriminate].
  - intros v h e v1 h1 _ Hb Hne.
    apply allocate_slow_body_sleeps in Hb; [exact Hb|].
    intros e' E. injection E as <-. apply Hne. reflexivity.
  - intros v h v1 h1 _ Hb _.
    apply allocate_slow_body_sleeps in Hb; [exact Hb | discriminate].
  - intros v h v1 h1 r v2 h2 _ Hb IH Hne.
    apply allocate_slow_body_sleeps in Hb as (t1 & -> & H1); [|discriminate].
    destruct (IH Hne) as (t2 & -> & H2).
    exists (t1 ++ t2). rewrite <- app_assoc. split; [reflexivity|].
    rewrite slept_split, H1, H2. ring.
Qed.

(** X27.  [allocate_slow] paces itself: when it returns, it has slept
    for [pause_sec] once after every block that it returns, and at no
    other time. *)
Theorem allocate_slow_pauses_after_every_block (w : World) (fuel : nat)
    (total block_bytes : Z) (pause : Q) (headroom : Z) (h : trace)
    (bs : list bytearray) :
  returned (Stress.allocate_slow w fuel total block_bytes pause headroom h)
  = Some bs ->
  exists t,
    trace_of (Stress.allocate_slow w fuel total block_bytes pause headroom h)
    = h ++ t
    /\ (slept t == pause * inject_Z (Z.of_nat (List.length bs)))%Q.
Proof.
  destruct (sizes_fit_dec [total; block_bytes; headroom]) as [Hfit | Hbad].
  2:{ rewrite allocate_slow_refused by exact Hbad. discriminate. }
  rewrite allocate_slow_eq by exact Hfit.
  destruct (while_loop _ _ _ _ _) as [[r v] h2] eqn:Hrun.
  destruct (allocate_slow_finish_cases w total r v h2) as (_ & Hc).
  cbv zeta in Hc. unfold trace in *.
  destruct Hc as [(Er & ->) | [(e & Er & Hne & ->) | [(u & Er & _ & ->)
    | [(u & Er & _ & ->) | [(Er & _ & ->) | (Er & _ & ->)]]]]];
    unfold returned, trace_of; cbn [fst snd];
    intros Hret; try discriminate Hret; injection Hret as <-;
    (apply allocate_slow_loop_sleeps in Hrun;
     [|subst r; intros e' E; first [discriminate E | injection E as <-; reflexivity]]);
    destruct Hrun as (t & -> & Hs); cbn [blocks List.length] in Hs;
    eexists; repeat rewrite <- app_assoc; (split; [reflexivity|]);
    rewrite !slept_split, Hs; unfold slept; cbn [fold_right];
    change (inject_Z (Z.of_nat 0)) with 0%Q; ring.
Qed.

Lemma allocate_slow_pauses_after_every_block_witness :
  returned (Stress.allocate_slow quiet_world 5 10 4 (1 # 2) 0 [])
  = Some [mk_bytearray 4; mk_bytearray 4; mk_bytearray 2]
  /\ exists t,
       trace_of (Stress.allocate_slow quiet_world 5 10 4 (1 # 2) 0 []) = [] ++ t
       /\ (slept t == (1 # 2) * inject_Z (Z.of_nat 3))%Q.
Proof.
  assert (H : returned (Stress.allocate_slow quiet_world 5 10 4 (1 # 2) 0 [])
              = Some [mk_bytearray 4; mk_bytearray 4; mk_bytearray 2])
    by (vm_compute; reflexivity).
  split; [exact H|].
  exact (allocate_slow_pauses_after_every_block quiet_world 5 10 4 (1 # 2) 0 []
           _ H).
Defined.

(* ================================================================== *)
(** * Further properties of the worker pools *)

Lemma insert_by_in {A : Type} (key : A -> Z) (x y : A) (l : list A) :
  In y (insert_by key x l) <-> y = x \/ In y l.
Proof.
  induction l as [|z l IH]; simpl.
  - split; [intros [H|[]]; left; symmetry; exact H
           | intros [H|[]]; left; symmetry; exact H].
  - destruct (key x <=? key z); simpl.
    + split; [intros [H|H]; [left; symmetry; exact H | right; exact H]
             | intros [H|H]; [left; symmetry; exact H | right; exact H]].
    + rewrite IH. tauto.
Qed.

(** [sorted] keeps the elements. *)
Lemma sorted_in {A : Type} (key : A -> Z) (y : A) (l : list A) :
  In y (sorted key l) <-> In y l.
Proof.
  induction l as [|x l IH]; simpl; [tauto|].
  rewrite insert_by_in, IH. split; intros [H|H]; auto.
Qed.

Lemma sorted_nil {A : Type} (key : A -> Z) (l : list A) :
  sorted key l = [] -> l = [].
Proof.
  destruct l as [|x l]; [reflexivity|]. intros H. exfalso.
  assert (Hin : In x (sorted key (x :: l))) by (apply sorted_in; left; reflexivity).
  rewrite H in Hin. exact Hin.
Qed.

Lemma choose_pin_same (no_affinity : bool) (avail : option (list Z)) (i : Z) :
  Stress.choose_pin no_affinity avail i = Qimi2Sim.choose_pin no_affinity avail i.
Proof. reflexivity. Qed.

Lemma mod_index (i : Z) (l : list Z) :
  l <> [] ->
  (Z.to_nat (i mod Z.of_nat (List.length l)) < List.length l)%nat.
Proof.
  intros Hne.
  assert (0 < Z.of_nat (List.length l)) by (destruct l; [contradiction | simpl; lia]).
  pose proof (Z.mod_pos_bound i (Z.of_nat (List.length l)) H). lia.
Qed.

(** X9.  A worker is pinned only to a CPU that the process is allowed
    to run on: the pin that either pool chooses for the worker number
    [i], for any [i], is a member of the set that
    [os.sched_getaffinity] returned, and the choice wraps around the
    set; there is no pin exactly when affinity is switched off or the
    set is unknown or empty. *)
Theorem pin_is_an_allowed_cpu (no_affinity : bool) (cpus : option (list Z))
    (i : Z) :
  let avail := option_map (sorted (fun c => c)) cpus in
  Stress.choose_pin no_affinity avail i = Qimi2Sim.choose_pin no_affinity avail i
  /\ (forall c, Qimi2Sim.choose_pin no_affinity avail i = Some c ->
        no_affinity = false /\ exists l, cpus = Some l /\ In c l)
  /\ (Qimi2Sim.choose_pin no_affinity avail i = None <->
      no_affinity = true \/ cpus = None \/ cpus = Some [])
  /\ (forall l, cpus = Some l ->
        Qimi2Sim.choose_pin no_affinity avail (i + Z.of_nat (List.length l))
        = Qimi2Sim.choose_pin no_affinity avail i).
Proof.
  intros avail. split; [reflexivity|].
  unfold Qimi2Sim.choose_pin. subst avail.
  destruct cpus as [l|]; cbn [option_map].
  2:{ split; [intros c H; discriminate|].
      split; [split; auto | intros l H; discriminate]. }
  destruct (sorted (fun c => c) l) as [|c0 cs] eqn:Hs.
  - apply sorted_nil in Hs. subst l.
    split; [intros c H; discriminate|].
    split; [split; auto | intros l H; reflexivity].
  - assert (Hne : l <> []) by (intros ->; discriminate Hs).
    split; [|split].
    + intros c. destruct no_affinity; [discriminate|].
      intros H. split; [reflexivity|].
      exists l. split; [reflexivity|].
      apply (sorted_in (fun c => c)). rewrite Hs.
      assert (Hc : c = nth (Z.to_nat (i mod Z.of_nat (List.length (c0 :: cs))))
                         (c0 :: cs) 0) by congruence.
      rewrite Hc. apply nth_In. apply mod_index. discriminate.
    + destruct no_affinity.
      * split; auto.
      * split; [discriminate|].
        intros [H|[H|H]]; try discriminate.
        injection H as ->. contradiction.
    + intros l' E. injection E as <-.
      destruct no_affinity; [reflexivity|].
      assert (Hlen : List.length (c0 :: cs) = List.length l).
      { rewrite <- Hs. clear. induction l as [|x l IH]; [reflexivity|].
        simpl. fold (sorted (fun c : Z => c) l).
        assert (Hi : forall (x : Z) m,
                   List.length (insert_by (fun c => c) x m) = S (List.length m)).
        { clear. intros x m. induction m as [|y m IH]; [reflexivity|].
          simpl. destruct (x <=? y); simpl; [reflexivity | rewrite IH; reflexivity]. }
        rewrite Hi, IH. reflexivity. }
      rewrite <- Hlen.
      replace (i + Z.of_nat (List.length (c0 :: cs)))
        with (i + 1 * Z.of_nat (List.length (c0 :: cs))) by lia.
      rewrite Z.mod_add by (simpl; lia). reflexivity.
Qed.

(** The first loop of [cpu_burst], from any point: it starts the
    workers of a prefix of the numbers it is given, all of them when it
    ends normally, and joins nothing. *)
Lemma cpu_burst_loop (w : World) (nproc : Z) (stop_at : Q)
    (no_affinity : bool) (avail : option (list Z)) :
  forall (js : list Z) (procs : list process) (h : trace)
         (r : outcome unit) (procs' : list process) (h' : trace),
    for_each js (fun i =>
      let pin := Qimi2Sim.choose_pin no_affinity avail i in
      p <- start_process w (CpuWorker {| wk_id := i; wk_pin := pin;
                                         wk_stop_at := stop_at;
                                         wk_duty := None |}) ;;
      procs <- get ;;
      put (procs ++ [p]) ;;;
      log (QCpuStarted (i + 1) nproc pin)) procs h = (r, procs', h') ->
    exists k t,
      h' = h ++ t /\ joined_in t = []
      /\ started_in t = map (burst_worker stop_at no_affinity avail) (firstn k js)
      /\ procs' = procs ++ started_in t
      /\ (r = Done tt -> k = List.length js)
      /\ (starts_succeed w -> r = Done tt)
      /\ (forall e, r = Threw e -> exists p, In (EvStartFailed p) t).
Proof.
  induction js as [|i js IH]; intros procs h r procs' h' Hrun.
  - cbn [for_each] in Hrun. unfold ret in Hrun.
    injection Hrun as <- <- <-.
    exists 0%nat, []. rewrite !app_nil_r.
    repeat split; try reflexivity. intros e He; discriminate He.
  - cbn [for_each] in Hrun. unfold bind at 1 in Hrun.
    cbv zeta in Hrun.
    unfold bind at 1, start_process at 1 in Hrun.
    destruct (start_ok w h _) eqn:Hok.
    + unfold bind at 1, get at 1 in Hrun.
      unfold bind at 1, put at 1 in Hrun.
      rewrite log_plain in Hrun by reflexivity.
      apply IH in Hrun as (k & t & -> & Hj & Hs & -> & Hd & Hall & Hf).
      exists (S k).
      eexists ([EvStart _; EvLog _] ++ t).
      rewrite joined_in_app, started_in_app, Hj, Hs.
      repeat rewrite <- app_assoc. cbn [app].
      split; [reflexivity|]. split; [reflexivity|].
      split; [reflexivity|]. split; [reflexivity|].
      split; [intros Hr; cbn [List.length]; rewrite (Hd Hr); reflexivity|].
      split; [exact Hall|].
      intros e He. destruct (Hf e He) as (p & Hin).
      exists p. right. right. exact Hin.
    + injection Hrun as <- <- <-.
      exists 0%nat. eexists [EvStartFailed _].
      rewrite app_nil_r.
      split; [reflexivity|]. split; [reflexivity|].
      split; [reflexivity|]. split; [reflexivity|].
      split; [intros Hr; discriminate Hr|].
      split; [intros Hall; rewrite Hall in Hok; discriminate Hok|].
      intros e _. eexists. left. reflexivity.
Qed.

(** A duration that does not fit a float ends either pool at its first
    line. *)
Lemma cpu_burst_overflows (w : World) (nproc duration_s : Z)
    (no_affinity : bool) (v : list process) (h : trace) :
  ~ fits_float (Z.max 1 duration_s) ->
  Qimi2Sim.cpu_burst w nproc duration_s no_affinity v h
  = (Threw OverflowError, v, h ++ [EvTime (clock w h)]).
Proof.
  intros Hn. rewrite cpu_burst_eq.
  destruct (time_plus_int_cases (clock w h) (Z.max 1 duration_s))
    as [(Hf & _) | (_ & ->)]; [contradiction | reflexivity].
Qed.

Lemma run_cpu_ramp_overflows (w : World) (fuel : nat) (total_cpus duration : Z)
    (ramp_every : Q) (duty_on_ms duty_off_ms : Z) (no_affinity : bool)
    (v : Stress.ramp_vars) (h : trace) :
  ~ fits_float (Z.max 1 duration) ->
  Stress.run_cpu_ramp w fuel total_cpus duration ramp_every duty_on_ms
    duty_off_ms no_affinity v h
  = (Threw OverflowError, v, h ++ [EvTime (clock w h)]).
Proof.
  intros Hn. rewrite run_cpu_ramp_eq.
  destruct (time_plus_int_cases (clock w h) (Z.max 1 duration))
    as [(Hf & _) | (_ & ->)]; [contradiction | reflexivity].
Qed.

(** What a run of [cpu_burst] is made of. *)
Lemma cpu_burst_shape (w : World) (nproc duration_s : Z) (no_affinity : bool)
    (h : trace) :
  fits_float (Z.max 1 duration_s) ->
  let stop_at := burst_stop_at w h duration_s in
  let avail := burst_avail w h in
  exists r k t,
    Qimi2Sim.cpu_burst w nproc duration_s no_affinity [] h
    = (r, started_in t,
       h ++ [EvTime (clock w h); EvAffinity avail] ++ t
         ++ match r with
            | Done _ => map (fun p => EvJoin p None) (started_in t)
            | _ => []
            end)
    /\ joined_in t = []
    /\ started_in t
       = map (burst_worker stop_at no_affinity avail) (firstn k (Qimi2Sim.py_range nproc))
    /\ (r = Done tt -> k = List.length (Qimi2Sim.py_range nproc))
    /\ (starts_succeed w -> r = Done tt)
    /\ (forall e, r = Threw e -> exists p, In (EvStartFailed p) t).
Proof.
  intros Hfit stop_at avail.
  rewrite cpu_burst_eq, (time_plus_int_fits _ _ Hfit).
  unfold cpu_burst_from.
  unfold bind at 1. unfold sched_getaffinity at 1.
  fold (burst_stop_at w h duration_s). fold stop_at.
  fold (burst_avail w h). fold avail.
  unfold bind at 1.
  destruct (for_each _ _ [] _) as [[r procs] h2] eqn:Hrun.
  apply cpu_burst_loop in Hrun as (k & t & -> & Hj & Hs & -> & Hd & Hall & Hf).
  cbn [app] in *.
  exists r, k, t.
  split.
  - destruct r as [[]|e|].
    + unfold bind, get. rewrite for_each_join.
      repeat rewrite <- app_assoc. reflexivity.
    + rewrite app_nil_r. repeat rewrite <- app_assoc. reflexivity.
    + rewrite app_nil_r. repeat rewrite <- app_assoc. reflexivity.
  - repeat split; assumption.
Qed.

Lemma py_range_length (n : Z) :
  List.length (Qimi2Sim.py_range n) = Z.to_nat n.
Proof. unfold Qimi2Sim.py_range. rewrite length_map, length_seq. reflexivity. Qed.


(** What a run of [run_cpu_ramp] is made of. *)
Lemma run_cpu_ramp_shape (w : World) (fuel : nat) (total_cpus duration : Z)
    (ramp_every : Q) (duty_on_ms duty_off_ms : Z) (no_affinity : bool)
    (h : trace) :
  exists r v t,
    Stress.run_cpu_ramp w fuel total_cpus duration ramp_every
      duty_on_ms duty_off_ms no_affinity
      {| Stress.workers := []; Stress.started := 0 |} h
    = (r, v,
       h ++ t ++ match r with
                 | Done _ => map (fun p => EvJoin p (Some 1%Q)) (Stress.workers v)
                 | _ => []
                 end)
    /\ Stress.workers v = started_in t /\ joined_in t = [].
Proof.
  rewrite run_cpu_ramp_eq.
  destruct (time_plus_int_cases (clock w h) (Z.max 1 duration))
    as [(_ & ->) | (_ & ->)].
  2:{ exists (Threw OverflowError), {| Stress.workers := []; Stress.started := 0 |},
        [EvTime (clock w h)].
      rewrite app_nil_r. repeat split. }
  unfold run_cpu_ramp_from.
  unfold bind at 1. unfold sched_getaffinity at 1.
  set (stop_at := (clock w h + inject_Z (Z.max 1 duration))%Q).
  set (avail := option_map _ _).
  set (h1 := (h ++ _) ++ _).
  unfold bind at 1.
  destruct (while_loop _ _ _ _ h1) as [[r v] h2] eqn:Hrun.
  assert (Hst : starting h (Stress.workers v) h2).
  { revert Hrun.
    assert (H1 : starting h
                   (Stress.workers {| Stress.workers := [];
                                      Stress.started := 0 |}) h1).
    { exists [EvTime (clock w h); EvAffinity avail]. subst h1.
      rewrite <- app_assoc. repeat split. }
    revert H1. generalize h1.
    generalize {| Stress.workers := []; Stress.started := 0 |}.
    intros v0 h0 H0 Hrun. revert H0.
    revert fuel v0 h0 r v h2 Hrun.
    apply (while_loop_ind (fun _ => true) _
             (fun v0 h0 _ v h2 =>
                starting h (Stress.workers v0) h0 ->
                starting h (Stress.workers v) h2)); auto;
      try (intros; eapply run_cpu_ramp_body_starting; eauto; fail).
    intros v0 h0 v1 h1' r' v2 h2' _ Hb IH H0. apply IH.
    eapply run_cpu_ramp_body_starting; eauto. }
  destruct Hst as (t & -> & Hw & Hj).
  destruct r as [[]|e'|].
  - unfold bind, get. rewrite for_each_join.
    exists (Done tt), v, t. rewrite <- app_assoc. repeat split; assumption.
  - exists (Threw e'), v, t. rewrite app_nil_r. repeat split; assumption.
  - exists OutOfFuel, v, t. rewrite app_nil_r. repeat split; assumption.
Qed.

(** X11.  A pool that fails is not waited for: when [cpu_burst] or
    [run_cpu_ramp] ends by an exception (a worker that cannot be
    started, a sleep that is refused, or a duration that does not fit a
    float), it has joined none of the workers it had already started.
    In [cpu_burst] the exception comes from a start that failed, or it
    is the [OverflowError] of a duration that does not fit a float
    ([2^1024 - 2^970] or more), raised before any worker is started. *)
Theorem failed_pool_is_not_joined (w : World) (fuel : nat)
    (nproc duration : Z) (ramp_every : Q) (duty_on_ms duty_off_ms : Z)
    (no_affinity : bool) (h : trace) (e : exn) :
  (fst (fst (Qimi2Sim.cpu_burst w nproc duration no_affinity [] h)) = Threw e ->
   exists t,
     trace_of (Qimi2Sim.cpu_burst w nproc duration no_affinity [] h) = h ++ t
     /\ joined_in t = []
     /\ ((exists p, In (EvStartFailed p) t)
         \/ (e = OverflowError /\ ~ fits_float (Z.max 1 duration)
             /\ started_in t = [])))
  /\ (fst (fst (Stress.run_cpu_ramp w fuel nproc duration ramp_every
                  duty_on_ms duty_off_ms no_affinity
                  {| Stress.workers := []; Stress.started := 0 |} h))
      = Threw e ->
      exists t,
        trace_of (Stress.run_cpu_ramp w fuel nproc duration ramp_every
                    duty_on_ms duty_off_ms no_affinity
                    {| Stress.workers := []; Stress.started := 0 |} h)
        = h ++ t
        /\ joined_in t = []).
Proof.
  split.
  - destruct (fits_float_dec (Z.max 1 duration)) as [Hfit | Hbad].
    2:{ rewrite cpu_burst_overflows by exact Hbad.
        unfold trace_of. cbn [fst snd]. intros E. injection E as <-.
        eexists. split; [reflexivity|]. split; [reflexivity|].
        right. repeat split. exact Hbad. }
    destruct (cpu_burst_shape w nproc duration no_affinity h Hfit)
      as (r & k & t & -> & Hj & Hs & Hd & Hall & Hf).
    unfold trace_of. cbn [fst snd]. intros ->.
    eexists. split; [reflexivity|].
    rewrite app_nil_r. cbn [joined_in app]. split; [exact Hj|].
    left. destruct (Hf e eq_refl) as (p & Hin). exists p. right. right. exact Hin.
  - destruct (run_cpu_ramp_shape w fuel nproc duration ramp_every duty_on_ms
                duty_off_ms no_affinity h) as (r & v & t & -> & _ & Hj).
    unfold trace_of. cbn [fst snd]. intros ->.
    exists t. rewrite app_nil_r. split; [reflexivity | exact Hj].
Qed.

Lemma failed_pool_is_not_joined_witness :
  fst (fst (Stress.run_cpu_ramp quiet_world 3 1 5 (-1 # 1) 700 300 false
              {| Stress.workers := []; Stress.started := 0 |} []))
  = Threw ValueError
  /\ exists t,
       trace_of (Stress.run_cpu_ramp quiet_world 3 1 5 (-1 # 1) 700 300 false
                   {| Stress.workers := []; Stress.started := 0 |} [])
       = [] ++ t
       /\ joined_in t = [].
Proof.
  assert (H : fst (fst (Stress.run_cpu_ramp quiet_world 3 1 5 (-1 # 1) 700 300
                          false
                          {| Stress.workers := []; Stress.started := 0 |} []))
              = Threw ValueError) by (vm_compute; reflexivity).
  split; [exact H|].
  exact (proj2 (failed_pool_is_not_joined quiet_world 3 1 5 (-1 # 1) 700 300
                  false [] ValueError) H).
Defined.

Lemma py_range_succ (n : Z) :
  0 <= n -> Qimi2Sim.py_range (n + 1) = Qimi2Sim.py_range n ++ [n].
Proof.
  intros Hn. unfold Qimi2Sim.py_range.
  replace (Z.to_nat (n + 1)) with (S (Z.to_nat n)) by lia.
  rewrite seq_S, map_app. cbn [map Nat.add]. rewrite Z2Nat.id by exact Hn.
  reflexivity.
Qed.

Lemma worker_ids_app (ps qs : list process) :
  worker_ids (ps ++ qs) = worker_ids ps ++ worker_ids qs.
Proof. unfold worker_ids. apply flat_map_app. Qed.

Lemma run_cpu_ramp_body_inv (w : World) (stop_at : Q)
    (available : option (list Z)) (total_cpus : Z) (ramp_every : Q)
    (duty_on_ms duty_off_ms : Z) (no_affinity : bool)
    (v v' : Stress.ramp_vars) (h h' : trace) (r : outcome flow) :
  ramp_inv total_cpus v ->
  Stress.run_cpu_ramp_body w stop_at available total_cpus ramp_every
    duty_on_ms duty_off_ms no_affinity v h = (r, v', h') ->
  ramp_inv total_cpus v'.
Proof.
  intros (Hn & Hids & Hle).
  unfold Stress.run_cpu_ramp_body. unfold_steps.
  destruct (Qle_bool stop_at _).
  - intros Hb; injection Hb as Hr Hv Hh; subst r v' h'. repeat split; assumption.
  - destruct (Stress.started v <? total_cpus) eqn:Hlt.
    + assert (Hnext : ramp_inv total_cpus
                {| Stress.workers :=
                     Stress.workers v ++
                     [CpuWorker {| wk_id := Stress.started v;
                                   wk_pin := Stress.choose_pin no_affinity
                                               available (Stress.started v);
                                   wk_stop_at := stop_at;
                                   wk_duty := Some (duty_on_ms, duty_off_ms) |}];
                   Stress.started := Stress.started v + 1 |}).
      { unfold ramp_inv. cbn [Stress.workers Stress.started].
        rewrite length_app, worker_ids_app, Hids. cbn [List.length].
        split; [lia|]. split; [|lia].
        rewrite py_range_succ by lia. reflexivity. }
      destruct (start_ok w _ _).
      * rewrite log_plain by reflexivity.
        body_split;
          intros Hb; injection Hb as Hr Hv Hh; subst r v' h'; exact Hnext.
      * intros Hb; injection Hb as Hr Hv Hh; subst r v' h'.
        repeat split; assumption.
    + body_split; intros Hb; injection Hb as Hr Hv Hh; subst r v' h';
        repeat split; assumption.
Qed.

Lemma run_cpu_ramp_loop_inv (w : World) (stop_at : Q)
    (available : option (list Z)) (total_cpus : Z) (ramp_every : Q)
    (duty_on_ms duty_off_ms : Z) (no_affinity : bool) :
  forall fuel v h r v' h',
    while_loop fuel (fun _ => true)
      (Stress.run_cpu_ramp_body w stop_at available total_cpus ramp_every
         duty_on_ms duty_off_ms no_affinity) v h = (r, v', h') ->
    ramp_inv total_cpus v -> ramp_inv total_cpus v'.
Proof.
  apply (while_loop_ind (fun _ => true) _
           (fun v _ _ v' _ => ramp_inv total_cpus v -> ramp_inv total_cpus v'));
    auto; try (intros; eapply run_cpu_ramp_body_inv; eauto; fail).
  intros v h v1 h1 r v2 h2 _ Hb IH Hi. apply IH.
  eapply run_cpu_ramp_body_inv; eauto.
Qed.

Lemma run_cpu_ramp_result_inv (w : World) (fuel : nat)
    (total_cpus duration : Z) (ramp_every : Q) (duty_on_ms duty_off_ms : Z)
    (no_affinity : bool) (h : trace) :
  ramp_inv total_cpus
    (snd (fst (Stress.run_cpu_ramp w fuel total_cpus duration ramp_every
                 duty_on_ms duty_off_ms no_affinity
                 {| Stress.workers := []; Stress.started := 0 |} h))).
Proof.
  rewrite run_cpu_ramp_eq.
  destruct (time_plus_int_cases (clock w h) (Z.max 1 duration))
    as [(_ & ->) | (_ & ->)]; [|repeat split; simpl; lia].
  unfold run_cpu_ramp_from.
  unfold bind at 1. unfold sched_getaffinity at 1.
  unfold bind at 1.
  destruct (while_loop _ _ _ _ _) as [[r v] h2] eqn:Hrun.
  apply run_cpu_ramp_loop_inv in Hrun; [|repeat split; simpl; lia].
  destruct r as [[]|e|]; cbn [fst snd]; try exact Hrun.
  unfold bind, get. rewrite for_each_join. exact Hrun.
Qed.

(** X12.  [run_cpu_ramp] never starts more than [total_cpus] workers
    (none when the count is not positive), however long it runs and
    whatever the clock does, and the workers it starts are numbered
    0, 1, 2, ... in the order of their start. *)
Theorem ramp_starts_at_most_total_cpus (w : World) (fuel : nat)
    (total_cpus duration : Z) (ramp_every : Q) (duty_on_ms duty_off_ms : Z)
    (no_affinity : bool) (h : trace) :
  exists t,
    trace_of (Stress.run_cpu_ramp w fuel total_cpus duration ramp_every
                duty_on_ms duty_off_ms no_affinity
                {| Stress.workers := []; Stress.started := 0 |} h) = h ++ t
    /\ (List.length (started_in t) <= Z.to_nat total_cpus)%nat
    /\ worker_ids (started_in t)
       = Qimi2Sim.py_range (Z.of_nat (List.length (started_in t))).
Proof.
  pose proof (run_cpu_ramp_result_inv w fuel total_cpus duration ramp_every
                duty_on_ms duty_off_ms no_affinity h) as Hinv.
  destruct (run_cpu_ramp_shape w fuel total_cpus duration ramp_every duty_on_ms
              duty_off_ms no_affinity h) as (r & v & t & E & Hw & Hj).
  rewrite E in *. cbn [fst snd] in Hinv. unfold trace_of. cbn [snd].
  destruct Hinv as (Hn & Hids & Hle).
  eexists. split; [reflexivity|].
  assert (Hs : started_in
                 (t ++ match r with
                       | Done _ =>
                           map (fun p => EvJoin p (Some 1%Q)) (Stress.workers v)
                       | _ => []
                       end) = Stress.workers v).
  { rewrite started_in_app, <- Hw.
    destruct r; rewrite ?started_in_joins; cbn [started_in];
      apply app_nil_r. }
  rewrite Hs, <- Hn. split; [lia | exact Hids].
Qed.

Lemma time_sleep_negative {V : Type} (w : World) (d : Q) (v : V) (h : trace) :
  Qle_bool 0 d = false ->
  (inject_Z (- (2 ^ 63 + 1024)) <= d * inject_Z (10 ^ 9))%Q ->
  time_sleep w d v h = (Threw ValueError, v, h).
Proof.
  intros Hneg Hlow. unfold time_sleep, bind, lift, sleep_length.
  assert (Hd : (d < 0)%Q).
  { apply Qnot_le_lt. intros Hle. apply Qle_bool_iff in Hle.
    rewrite Hle in Hneg. discriminate Hneg. }
  assert (E1 : Qle_bool (d * inject_Z (10 ^ 9)) (inject_Z (2 ^ 63 + 1024)) = true).
  { apply Qle_bool_iff. apply Qle_trans with (inject_Z 0).
    - setoid_replace (inject_Z 0) with (0 * inject_Z (10 ^ 9))%Q by ring.
      apply Qmult_le_compat_r; [apply Qlt_le_weak; exact Hd|].
      change 0%Q with (inject_Z 0). rewrite <- Zle_Qle. lia.
    - rewrite <- Zle_Qle. lia. }
  assert (E2 : Qle_bool (inject_Z (- (2 ^ 63 + 1024))) (d * inject_Z (10 ^ 9))
               = true) by (apply Qle_bool_iff; exact Hlow).
  rewrite E1, E2, Hneg. reflexivity.
Qed.

(** X13.  The interval between two starts is passed to [time.sleep]
    unchecked: with a negative [ramp_every] (of less than [2^63 + 1024]
    nanoseconds, below which the exception is [OverflowError]) and a
    duration that fits a float, when there is a worker to start and the
    time is not up, [run_cpu_ramp] ends by [ValueError] right after it
    has started its first worker, which it does not join. *)
Theorem negative_ramp_interval_raises (w : World) (fuel : nat)
    (total_cpus duration : Z) (ramp_every : Q) (duty_on_ms duty_off_ms : Z)
    (no_affinity : bool) (h : trace) :
  Qle_bool 0 ramp_every = false ->
  (inject_Z (- (2 ^ 63 + 1024)) <= ramp_every * inject_Z (10 ^ 9))%Q ->
  fits_float (Z.max 1 duration) ->
  1 <= total_cpus ->
  starts_succeed w ->
  Qle_bool (burst_stop_at w h duration)
    (clock w (h ++ [EvTime (clock w h); EvAffinity (burst_avail w h)])) = false ->
  exists p,
    Stress.run_cpu_ramp w (S fuel) total_cpus duration ramp_every
      duty_on_ms duty_off_ms no_affinity
      {| Stress.workers := []; Stress.started := 0 |} h
    = (Threw ValueError,
       {| Stress.workers := [CpuWorker p]; Stress.started := 1 |},
       h ++ [EvTime (clock w h); EvAffinity (burst_avail w h);
             EvTime (clock w (h ++ [EvTime (clock w h);
                                    EvAffinity (burst_avail w h)]));
             EvStart (CpuWorker p);
             EvLog (SWorkerStarted 1 total_cpus (wk_pin p)
                      duty_on_ms duty_off_ms)])
    /\ wk_id p = 0.
Proof.
  intros Hneg Hlow Hfit Htot Hstart Hclock.
  rewrite run_cpu_ramp_eq, (time_plus_int_fits _ _ Hfit).
  unfold run_cpu_ramp_from.
  unfold bind at 1. unfold sched_getaffinity at 1.
  fold (burst_stop_at w h duration). fold (burst_avail w h).
  unfold bind at 1.
  exists {| wk_id := 0;
            wk_pin := Stress.choose_pin no_affinity (burst_avail w h) 0;
            wk_stop_at := burst_stop_at w h duration;
            wk_duty := Some (duty_on_ms, duty_off_ms) |}.
  erewrite (while_loop_threw fuel (fun _ => true)); [ | reflexivity | ].
  2:{ unfold Stress.run_cpu_ramp_body. unfold_steps.
      rewrite <- app_assoc. cbn [app].
      rewrite Hclock. cbn [Stress.started Stress.workers].
      replace (0 <? total_cpus) with true by lia.
      rewrite Hstart. rewrite log_plain by reflexivity.
      rewrite time_sleep_negative by assumption. reflexivity. }
  split; [|reflexivity].
  repeat rewrite <- app_assoc. reflexivity.
Qed.

Lemma negative_ramp_interval_raises_witness :
  Qle_bool 0 (-1 # 2) = false
  /\ (inject_Z (- (2 ^ 63 + 1024)) <= (-1 # 2) * inject_Z (10 ^ 9))%Q
  /\ fits_float (Z.max 1 5)
  /\ 1 <= 2 /\ starts_succeed quiet_world
  /\ Qle_bool (burst_stop_at quiet_world [] 5)
       (clock quiet_world ([] ++ [EvTime (clock quiet_world []);
                                  EvAffinity (burst_avail quiet_world [])]))
     = false
  /\ fst (fst (Stress.run_cpu_ramp quiet_world 1 2 5 (-1 # 2) 700 300 false
                 {| Stress.workers := []; Stress.started := 0 |} []))
     = Threw ValueError.
Proof.
  assert (H1 : Qle_bool 0 (-1 # 2) = false) by reflexivity.
  assert (H0 : (inject_Z (- (2 ^ 63 + 1024)) <= (-1 # 2) * inject_Z (10 ^ 9))%Q)
    by (vm_compute; discriminate).
  assert (Hf : fits_float (Z.max 1 5)) by (vm_compute; reflexivity).
  assert (H2 : 1 <= 2) by lia.
  assert (H3 : starts_succeed quiet_world) by (intros h p; reflexivity).
  assert (H4 : Qle_bool (burst_stop_at quiet_world [] 5)
                 (clock quiet_world ([] ++ [EvTime (clock quiet_world []);
                                        EvAffinity (burst_avail quiet_world [])]))
               = false) by reflexivity.
  split; [exact H1|]. split; [exact H0|]. split; [exact Hf|].
  split; [exact H2|]. split; [exact H3|].
  split; [exact H4|].
  destruct (negative_ramp_interval_raises quiet_world 0 2 5 (-1 # 2) 700 300
              false [] H1 H0 Hf H2 H3 H4) as (p & E & _).
  rewrite E. reflexivity.
Defined.

Lemma Qle_bool_false (a b : Q) : Qle_bool a b = false -> (b < a)%Q.
Proof.
  intros H. apply Qnot_le_lt. intros Hle.
  apply Qle_bool_iff in Hle. rewrite Hle in H. discriminate H.
Qed.

Lemma inject_Z_pos (b : Z) : (0 < inject_Z b)%Q -> 1 <= b.
Proof.
  intros H. change 0%Q with (inject_Z 0) in H.
  rewrite <- Zlt_Qlt in H. lia.
Qed.

(** With [a] workers left to start at most and [b] half-seconds left to
    wait at most, the loop of [run_cpu_ramp] ends within [a + b + 1]
    evaluations of its condition. *)
Lemma run_cpu_ramp_loop_ends (w : World) (stop_at : Q)
    (available : option (list Z)) (total_cpus : Z) (ramp_every : Q)
    (duty_on_ms duty_off_ms : Z) (no_affinity : bool) :
  clock_counts_sleep w ->
  starts_succeed w ->
  sleeps_succeed w ->
  sleepable ramp_every ->
  forall (fuel : nat) (a b : Z) (v : Stress.ramp_vars) (h : trace),
    0 <= a -> total_cpus - Stress.started v <= a ->
    (2 * (stop_at - clock w h) <= inject_Z b)%Q ->
    a + Z.max 0 b < Z.of_nat fuel ->
    exists v' h',
      while_loop fuel (fun _ => true)
        (Stress.run_cpu_ramp_body w stop_at available total_cpus ramp_every
           duty_on_ms duty_off_ms no_affinity) v h = (Done tt, v', h').
Proof.
  intros Hclock Hstart Hsleeps Hramp.
  assert (Hhalf : sleepable (1 # 2)).
  { split; [discriminate | reflexivity]. }
  pose proof (proj1 Hramp) as Hr0.
  induction fuel as [|fuel IH]; intros a b v h Ha Hleft Hwait Hfuel.
  - simpl in Hfuel. lia.
  - cbn [while_loop].
    unfold Stress.run_cpu_ramp_body at 1. unfold_steps.
    destruct (Qle_bool stop_at (clock w h)) eqn:Hup.
    + eexists _, _. reflexivity.
    + apply Qle_bool_false in Hup.
      assert (Hb1 : 1 <= b) by (apply inject_Z_pos; lra).
      destruct (Stress.started v <? total_cpus) eqn:Hlt.
      * rewrite Hstart. rewrite log_plain by reflexivity.
        rewrite time_sleep_ok by (try exact Hramp; apply Hsleeps).
        apply (IH (a - 1) b); cbn [Stress.started]; try lia.
        pose proof (Hclock h
          [EvTime (clock w h);
           EvStart (CpuWorker {| wk_id := Stress.started v;
                                 wk_pin := Stress.choose_pin no_affinity
                                             available (Stress.started v);
                                 wk_stop_at := stop_at;
                                 wk_duty := Some (duty_on_ms, duty_off_ms) |});
           EvLog (SWorkerStarted (Stress.started v + 1) total_cpus
                    (Stress.choose_pin no_affinity available (Stress.started v))
                    duty_on_ms duty_off_ms);
           EvSleep ramp_every]) as Hc.
        unfold slept in Hc. cbn [fold_right] in Hc.
        repeat rewrite <- app_assoc. cbn [app]. lra.
      * rewrite time_sleep_ok by (try exact Hhalf; apply Hsleeps).
        apply (IH a (b - 1)); try lia.
        pose proof (Hclock h [EvTime (clock w h); EvSleep (1 # 2)]) as Hc.
        unfold slept in Hc. cbn [fold_right] in Hc.
        repeat rewrite <- app_assoc. cbn [app].
        assert (Hb : (inject_Z (b - 1) == inject_Z b - 1)%Q).
        { unfold Z.sub. rewrite inject_Z_plus, inject_Z_opp. reflexivity. }
        lra.
Qed.

Lemma ticking_world_counts : clock_counts_sleep ticking_world.
Proof.
  intros h t. cbn [clock ticking_world].
  rewrite length_app, Nat2Z.inj_add, inject_Z_plus, slept_split.
  assert (0 <= inject_Z (Z.of_nat (List.length t)))%Q.
  { change 0%Q with (inject_Z 0). rewrite <- Zle_Qle. lia. }
  lra.
Qed.

(** X14.  [run_cpu_ramp] returns once its time is up: when the clock
    does not run backwards and a sleep lasts at least as long as asked,
    every start succeeds, the kernel takes every sleep, [ramp_every] is
    a length that [time.sleep] takes (from zero to less than
    [2^63 - 512] nanoseconds) and the duration fits a float (it is
    below [2^1024 - 2^970]), the function returns after at most
    [max(0, total_cpus) + 2 * max(1, duration) + 1] evaluations of its
    loop condition. *)
Theorem ramp_returns_when_time_is_up (w : World) (fuel : nat)
    (total_cpus duration : Z) (ramp_every : Q) (duty_on_ms duty_off_ms : Z)
    (no_affinity : bool) (h : trace) :
  clock_counts_sleep w ->
  starts_succeed w ->
  sleeps_succeed w ->
  sleepable ramp_every ->
  fits_float (Z.max 1 duration) ->
  Z.max 0 total_cpus + 2 * Z.max 1 duration < Z.of_nat fuel ->
  fst (fst (Stress.run_cpu_ramp w fuel total_cpus duration ramp_every
              duty_on_ms duty_off_ms no_affinity
              {| Stress.workers := []; Stress.started := 0 |} h))
  = Done tt.
Proof.
  intros Hclock Hstart Hsleeps Hramp Hfit Hfuel.
  rewrite run_cpu_ramp_eq, (time_plus_int_fits _ _ Hfit).
  unfold run_cpu_ramp_from.
  unfold bind at 1. unfold sched_getaffinity at 1.
  set (avail := option_map _ _).
  unfold bind at 1.
  destruct (run_cpu_ramp_loop_ends w
              (clock w h + inject_Z (Z.max 1 duration))%Q avail total_cpus
              ramp_every duty_on_ms duty_off_ms no_affinity
              Hclock Hstart Hsleeps Hramp fuel (Z.max 0 total_cpus)
              (2 * Z.max 1 duration)
              {| Stress.workers := []; Stress.started := 0 |}
              ((h ++ [EvTime (clock w h)]) ++ [EvAffinity avail]))
    as (v' & h' & E).
  - lia.
  - cbn [Stress.started]. lia.
  - pose proof (Hclock h [EvTime (clock w h); EvAffinity avail]) as Hc.
    unfold slept in Hc. cbn [fold_right] in Hc.
    rewrite <- app_assoc. cbn [app].
    rewrite inject_Z_mult. change (inject_Z 2) with 2%Q. lra.
  - lia.
  - rewrite E. unfold bind, get. rewrite for_each_join. reflexivity.
Qed.

Lemma ramp_returns_when_time_is_up_witness :
  clock_counts_sleep ticking_world /\ starts_succeed ticking_world
  /\ sleeps_succeed ticking_world
  /\ sleepable (1 # 4)
  /\ fits_float (Z.max 1 1)
  /\ Z.max 0 2 + 2 * Z.max 1 1 < Z.of_nat 5
  /\ fst (fst (Stress.run_cpu_ramp ticking_world 5 2 1 (1 # 4) 700 300 false
                 {| Stress.workers := []; Stress.started := 0 |} []))
     = Done tt.
Proof.
  assert (H1 : clock_counts_sleep ticking_world) by exact ticking_world_counts.
  assert (H2 : starts_succeed ticking_world) by (intros h p; reflexivity).
  assert (Hs : sleeps_succeed ticking_world) by (intros h d; reflexivity).
  assert (H3 : sleepable (1 # 4)) by (split; [discriminate | reflexivity]).
  assert (Hf : fits_float (Z.max 1 1)) by (vm_compute; reflexivity).
  assert (H4 : Z.max 0 2 + 2 * Z.max 1 1 < Z.of_nat 5) by (simpl; lia).
  split; [exact H1|]. split; [exact H2|]. split; [exact Hs|].
  split; [exact H3|]. split; [exact Hf|].
  split; [exact H4|].
  exact (ramp_returns_when_time_is_up ticking_world 5 2 1 (1 # 4) 700 300 false
           [] H1 H2 Hs H3 Hf H4).
Defined.

(* ================================================================== *)
(** * Further properties of the burst orchestrator *)

(** [main] up to its size arguments. *)
Lemma main_eq (w : World) (fuel : nat) (a : Qimi2Sim.args) (h : trace) :
  Qimi2Sim.main w fuel a tt h =
  (want_bytes <- lift (parse_size (Qimi2Sim.arg_mem_burst a)) ;;
   block_bytes <- lift (parse_size (Qimi2Sim.arg_mem_block a)) ;;
   headroom_bytes <- lift (parse_size (Qimi2Sim.arg_headroom a)) ;;
   blocks <- call (Qimi2Sim.mem_burst_run w fuel want_bytes block_bytes
                     headroom_bytes)
                  {| blocks := []; allocated := 0 |} ;;
   io_size <- lift (parse_size (Qimi2Sim.arg_io_size a)) ;;
   io_proc <- start_process w
                (IoBurst {| io_size := io_size;
                            io_dir := Qimi2Sim.arg_io_dir a |}) ;;
   call (Qimi2Sim.cpu_burst w (Z.max 1 (Qimi2Sim.arg_cpus a))
           (Z.max 1 (Qimi2Sim.arg_duration a))
           (Qimi2Sim.arg_no_affinity a)) [] ;;;
   join io_proc (Some 1%Q) ;;;
   cur <- read_mem_current w ;;
   peak <- read_mem_peak w ;;
   cpu1 <- read_cpu_stat_v2 w ;;
   log (Qimi2Sim.final_record cur peak
          (cpu_stat w (h ++ [EvLog LoggerStart;
                             EvReadLimits (limits_of w (h ++ [EvLog LoggerStart]));
                             EvLog QLimitsHeader;
                             EvLog (QMemoryMax
                                      (fst (fst (limits_of w (h ++ [EvLog LoggerStart])))));
                             EvLog (QCpuMax
                                      (snd (fst (limits_of w (h ++ [EvLog LoggerStart]))))
                                      (snd (limits_of w (h ++ [EvLog LoggerStart]))));
                             EvLog QRule]))
          cpu1) ;;;
   log GracefulStop ;;;
   emit EvLogClose) tt (main_prelude w h).
Proof.
  unfold Qimi2Sim.main, main_prelude.
  unfold bind at 1. rewrite log_plain by reflexivity.
  unfold bind at 1. unfold read_cgroup_limits at 1.
  cbv zeta.
  destruct (limits_of w (h ++ [EvLog LoggerStart]))
    as [[mem_limit cpu_quota] cpu_period].
  do 4 (unfold bind at 1; rewrite log_plain by reflexivity).
  unfold bind at 1. unfold read_cpu_stat_v2 at 1.
  cbn [fst snd].
  repeat rewrite <- app_assoc. cbn [app]. reflexivity.
Qed.

Lemma main_refused_io_size (w : World) (fuel : nat) (a : Qimi2Sim.args)
    (h : trace) (e : exn) (want blk hr : Z) :
  parse_size (Qimi2Sim.arg_mem_burst a) = Ok want ->
  parse_size (Qimi2Sim.arg_mem_block a) = Ok blk ->
  parse_size (Qimi2Sim.arg_headroom a) = Ok hr ->
  parse_size (Qimi2Sim.arg_io_size a) = Raise e ->
  Qimi2Sim.main w fuel a tt h =
  (match fst (fst (Qimi2Sim.mem_burst w fuel want blk hr (main_prelude w h))) with
   | Done _ => Threw e
   | Threw e' => Threw e'
   | OutOfFuel => OutOfFuel
   end, tt,
   trace_of (Qimi2Sim.mem_burst w fuel want blk hr (main_prelude w h))).
Proof.
  intros Ew Eb Eh Eio. rewrite main_eq.
  unfold bind at 1. rewrite Ew. cbn [lift ret].
  unfold bind at 1. rewrite Eb. cbn [lift ret].
  unfold bind at 1. rewrite Eh. cbn [lift ret].
  unfold bind at 1. unfold call at 1.
  unfold Qimi2Sim.mem_burst.
  destruct (Qimi2Sim.mem_burst_run w fuel want blk hr _ _) as [[r mv] h2].
  unfold trace_of. cbn [fst snd].
  destruct r as [bs|e'|]; try reflexivity.
  unfold bind at 1. rewrite Eio. reflexivity.
Qed.

(** X15.  [main] of [qimi2_sim.py] reads its sizes late.  A memory size
    that [parse_size] refuses ends the run by that exception before any
    memory work and before any process is started.  The I/O size is
    parsed only after the memory engine has run: when it is refused, the
    run ends where [mem_burst] ends, by that exception once [mem_burst]
    has returned, with the memory allocated and no process started. *)
Theorem sizes_are_checked_late (w : World) (fuel : nat) (a : Qimi2Sim.args)
    (h : trace) (e : exn) :
  (memory_size_refused a e ->
   Qimi2Sim.main w fuel a tt h = (Threw e, tt, main_prelude w h))
  /\ (forall want blk hr,
        parse_size (Qimi2Sim.arg_mem_burst a) = Ok want ->
        parse_size (Qimi2Sim.arg_mem_block a) = Ok blk ->
        parse_size (Qimi2Sim.arg_headroom a) = Ok hr ->
        parse_size (Qimi2Sim.arg_io_size a) = Raise e ->
        trace_of (Qimi2Sim.main w fuel a tt h)
        = trace_of (Qimi2Sim.mem_burst w fuel want blk hr (main_prelude w h))
        /\ (forall bs,
              fst (fst (Qimi2Sim.mem_burst w fuel want blk hr (main_prelude w h)))
              = Done bs ->
              fst (fst (Qimi2Sim.main w fuel a tt h)) = Threw e)).
Proof.
  split.
  - intros Href. rewrite main_eq.
    destruct Href as [E | (want & Ew & [E | (blk & Eb & E)])].
    + unfold bind at 1. rewrite E. reflexivity.
    + unfold bind at 1. rewrite Ew. cbn [lift ret].
      unfold bind at 1. rewrite E. reflexivity.
    + unfold bind at 1. rewrite Ew. cbn [lift ret].
      unfold bind at 1. rewrite Eb. cbn [lift ret].
      unfold bind at 1. rewrite E. reflexivity.
  - intros want blk hr Ew Eb Eh Eio.
    rewrite (main_refused_io_size w fuel a h e want blk hr Ew Eb Eh Eio).
    unfold trace_of at 1. cbn [fst snd].
    split; [reflexivity|]. intros bs ->. reflexivity.
Qed.

Lemma sizes_are_checked_late_witness :
  Qimi2Sim.main quiet_world 5 (args_with_io_size (lit "1.5")) tt []
  = (Threw ValueError, tt,
     trace_of (Qimi2Sim.mem_burst quiet_world 5 2 1 0 (main_prelude quiet_world [])))
  /\ allocs_of (trace_of (Qimi2Sim.main quiet_world 5
                            (args_with_io_size (lit "1.5")) tt [])) = [1; 1]
  /\ started_in (trace_of (Qimi2Sim.main quiet_world 5
                             (args_with_io_size (lit "1.5")) tt [])) = [].
Proof.
  pose proof (proj2 (sizes_are_checked_late quiet_world 5
                       (args_with_io_size (lit "1.5")) [] ValueError)
                2 1 0 eq_refl eq_refl eq_refl eq_refl) as [Ht Hr].
  assert (Hd : fst (fst (Qimi2Sim.mem_burst quiet_world 5 2 1 0
                           (main_prelude quiet_world [])))
               = Done [mk_bytearray 1; mk_bytearray 1])
    by (vm_compute; reflexivity).
  specialize (Hr _ Hd).
  split.
  - destruct (Qimi2Sim.main quiet_world 5 (args_with_io_size (lit "1.5")) tt [])
      as [[r []] t]. cbn [fst snd trace_of] in *. subst r.
    unfold trace_of in Ht. cbn [snd] in Ht. rewrite Ht. reflexivity.
  - rewrite Ht. split; vm_compute; reflexivity.
Defined.

Lemma worker_ids_burst (stop_at : Q) (no_affinity : bool)
    (avail : option (list Z)) (js : list Z) :
  worker_ids (map (burst_worker stop_at no_affinity avail) js) = js.
Proof.
  induction js as [|i js IH]; [reflexivity|].
  cbn [map worker_ids flat_map burst_worker wk_id app].
  unfold worker_ids in IH. rewrite IH. reflexivity.
Qed.

(** X16.  When [main] of [qimi2_sim.py] returns it has started the I/O
    process, for the size and the directory of the command line, and
    then [max(1, cpus)] CPU workers, numbered from 0: one worker at
    least, also for [--cpus 0] or a negative count.  The workers are
    joined, in order and with no timeout, before the I/O process is. *)
Theorem main_starts_one_worker_at_least (w : World) (fuel : nat)
    (a : Qimi2Sim.args) (h : trace) :
  fst (fst (Qimi2Sim.main w fuel a tt h)) = Done tt ->
  exists t,
    trace_of (Qimi2Sim.main w fuel a tt h) = h ++ t /\ burst_census a t.
Proof.
  intros Hdone.
  destruct (Qimi2Sim.main w fuel a tt h) as [[r u] h'] eqn:Hrun.
  cbn [fst] in Hdone. subst r.
  rewrite main_eq in Hrun.
  assert (Hpre : exists t_pre,
             main_prelude w h = h ++ t_pre /\ none_of is_unit_event t_pre).
  { eexists. unfold main_prelude. cbv zeta. repeat rewrite <- app_assoc.
    split; reflexivity. }
  destruct Hpre as (t_pre & Epre & Hpu).
  rewrite Epre in Hrun.
  set (cpu0 := cpu_stat w _) in Hrun. clearbody cpu0.
  next_step Hrun want v7 h7 H7. apply lift_done in H7 as (_ & -> & ->).
  next_step Hrun blk v8 h8 H8. apply lift_done in H8 as (_ & -> & ->).
  next_step Hrun hr v9 h9 H9. apply lift_done in H9 as (_ & -> & ->).
  next_step Hrun bs v10 h10 H10. apply call_done in H10 as (mv & Hmem & ->).
  next_step Hrun iosz v11 h11 H11. apply lift_done in H11 as (Eio & -> & ->).
  next_step Hrun iop v12 h12 H12. unfold start_process in H12.
  destruct (start_ok w h10 _); [|discriminate].
  injection H12 as <- <- <-.
  next_step Hrun x13 v13 h13 H13. apply call_done in H13 as (procs & Hcpu & ->).
  next_step Hrun x14 v14 h14 H14. unfold join, emit in H14.
  injection H14 as _ <- <-.
  next_step Hrun cur v15 h15 H15. unfold read_mem_current in H15.
  injection H15 as <- <- <-.
  next_step Hrun peak v16 h16 H16. unfold read_mem_peak in H16.
  injection H16 as <- <- <-.
  next_step Hrun cpu1 v17 h17 H17. unfold read_cpu_stat_v2 in H17.
  injection H17 as <- <- <-.
  match type of Hrun with
  | context [Qimi2Sim.final_record ?c ?p ?c0 ?c1] =>
      destruct (final_record_is_final c p c0 c1) as (deltas & Hfin)
  end.
  rewrite Hfin in Hrun. clear Hfin.
  next_step Hrun x18 v18 h18 H18. rewrite log_plain in H18 by reflexivity.
  injection H18 as _ <- <-.
  next_step Hrun x19 v19 h19 H19. rewrite log_plain in H19 by reflexivity.
  injection H19 as _ <- <-.
  unfold emit in Hrun. injection Hrun as <- <-.
  unfold trace_of. cbn [snd].
  set (job := {| io_size := iosz; io_dir := Qimi2Sim.arg_io_dir a |}) in *.
  set (c := current_of w _). clearbody c.
  set (p := option_N_to_Z _). clearbody p.
  set (s1 := cpu_stat w _). clearbody s1.
  set (fr := QFinal _ _ _). clearbody fr.
  (* the memory engine *)
  destruct (mem_burst_no_units w fuel want blk hr (h ++ t_pre))
    as (t_mem & Em & Hm).
  unfold Qimi2Sim.mem_burst in Em. rewrite Hmem in Em.
  unfold trace_of in Em. cbn [snd] in Em. subst h10.
  (* the worker pool *)
  destruct (fits_float_dec (Z.max 1 (Z.max 1 (Qimi2Sim.arg_duration a))))
    as [Hfit | Hbad].
  2:{ rewrite cpu_burst_overflows in Hcpu by exact Hbad. discriminate Hcpu. }
  destruct (cpu_burst_shape w (Z.max 1 (Qimi2Sim.arg_cpus a))
              (Z.max 1 (Qimi2Sim.arg_duration a))
              (Qimi2Sim.arg_no_affinity a)
              (((h ++ t_pre) ++ t_mem) ++ [EvStart (IoBurst job)]) Hfit)
    as (r & k & t & Ec & Hj & Hs & Hd & _).
  rewrite Hcpu in Ec. injection Ec as <- -> ->.
  destruct x13. specialize (Hd eq_refl). subst k. rewrite firstn_all in Hs.
  assert (Hlen : List.length (started_in t)
                 = Z.to_nat (Z.max 1 (Qimi2Sim.arg_cpus a))).
  { rewrite Hs, length_map. apply py_range_length. }
  assert (Hids : worker_ids (started_in t)
                 = Qimi2Sim.py_range (Z.max 1 (Qimi2Sim.arg_cpus a))).
  { rewrite Hs. apply worker_ids_burst. }
  clear Hs Hcpu Hmem.
  set (tm := EvTime _).
  set (av := EvAffinity _).
  destruct (none_of_units t_pre Hpu) as [Hps Hpj].
  destruct (none_of_units t_mem Hm) as [Hms Hmj].
  exists (t_pre ++ t_mem ++ [EvStart (IoBurst job)] ++ [tm; av] ++ t
            ++ map (fun q => EvJoin q None) (started_in t)
            ++ [EvJoin (IoBurst job) (Some 1%Q); EvReadCurrent c; EvReadPeak p;
                EvReadCpuStat s1; EvLog fr; EvLog GracefulStop; EvLogClose]).
  split; [repeat rewrite <- app_assoc; cbn [app];
          repeat rewrite <- app_assoc; reflexivity|].
  exists job, (started_in t).
  rewrite !started_in_app, !joined_in_app, Hps, Hpj, Hms, Hmj, Hj,
    started_in_joins, joined_in_joins.
  assert (Htm : started_in [tm; av] = [] /\ joined_in [tm; av] = [])
    by (subst tm av; split; reflexivity).
  destruct Htm as [-> ->].
  cbn [started_in joined_in app]. rewrite !app_nil_r.
  split; [reflexivity|]. split; [exact Eio|]. split; [reflexivity|].
  split; [exact Hlen|]. split; [lia|]. split; [exact Hids | reflexivity].
Qed.

Lemma main_starts_one_worker_at_least_witness :
  fst (fst (Qimi2Sim.main quiet_world 5 (args_with_io_size (lit "0")) tt []))
  = Done tt
  /\ exists t,
       trace_of (Qimi2Sim.main quiet_world 5 (args_with_io_size (lit "0")) tt [])
       = [] ++ t
       /\ burst_census (args_with_io_size (lit "0")) t.
Proof.
  assert (H : fst (fst (Qimi2Sim.main quiet_world 5
                          (args_with_io_size (lit "0")) tt [])) = Done tt)
    by (vm_compute; reflexivity).
  split; [exact H|].
  exact (main_starts_one_worker_at_least quiet_world 5
           (args_with_io_size (lit "0")) [] H).
Defined.

(* ================================================================== *)
(** * Further properties of the temporary file *)

(** The write loop in any world: when it ends normally it has handed
    what was left to [write], by calls that all returned. *)
Lemma io_write_loop_sound (w : World) :
  forall fuel left h r left' h',
    while_loop fuel (fun left => 0 <? left) (Qimi2Sim.io_write_body w) left h
    = (r, left', h') ->
    exists t, h' = h ++ t /\ Forall is_write_event t
      /\ (r = Done tt ->
          written_in t = repeat Byte.x00 (Z.to_nat left)
          /\ (writes_whole w ->
              stored_in t = repeat Byte.x00 (Z.to_nat left))).
Proof.
  apply (while_loop_ind (fun left => 0 <? left) (Qimi2Sim.io_write_body w)
           (fun left h r left' h' =>
              exists t, h' = h ++ t /\ Forall is_write_event t
                /\ (r = Done tt ->
                    written_in t = repeat Byte.x00 (Z.to_nat left)
                    /\ (writes_whole w ->
                        stored_in t = repeat Byte.x00 (Z.to_nat left))))).
  - intros left h Hc. exists []. rewrite app_nil_r.
    split; [reflexivity|]. split; [constructor|].
    intros _. replace (Z.to_nat left) with 0%nat by lia.
    split; reflexivity.
  - intros left h Hc. exists []. rewrite app_nil_r.
    split; [reflexivity|]. split; [constructor | discriminate].
  - intros left h v1 h1 Hc Hb. rewrite io_write_body_eq in Hb. cbv zeta in Hb.
    destruct (fs_ok w h _); discriminate Hb.
  - intros left h e v1 h1 Hc Hb. rewrite io_write_body_eq in Hb. cbv zeta in Hb.
    destruct (fs_ok w h _); [discriminate Hb|].
    injection Hb as <- <- <-.
    eexists. split; [reflexivity|].
    split; [repeat constructor | discriminate].
  - intros left h v1 h1 Hc Hb. rewrite io_write_body_eq in Hb. cbv zeta in Hb.
    destruct (fs_ok w h _); discriminate Hb.
  - intros left h v1 h1 r v2 h2 Hc Hb (t & -> & Ht & Hw).
    rewrite io_write_body_eq in Hb. cbv zeta in Hb.
    destruct (fs_ok w h _); [|discriminate Hb].
    injection Hb as <- <-.
    eexists. rewrite <- app_assoc. split; [reflexivity|].
    split.
    + cbn [app]. constructor; [exact I|]. constructor; [exact I | exact Ht].
    + intros Hr. destruct (Hw Hr) as [Hwr Hst].
      pose proof chunk_len_pos.
      cbn [app written_in stored_in]. split.
      * rewrite Hwr. rewrite chunk_prefix_zeros by lia.
        rewrite <- repeat_app. f_equal. lia.
      * intros Hwhole. rewrite (taken_whole w h _ Hwhole), (Hst Hwhole).
        rewrite chunk_prefix_zeros by lia.
        rewrite <- repeat_app. f_equal. lia.
Qed.

Lemma write_events_no_log (t : trace) (r : record) :
  Forall is_write_event t -> ~ In (EvLog r) t.
Proof.
  intros Hall Hin. rewrite Forall_forall in Hall. exact (Hall _ Hin).
Qed.

Lemma write_events_not (t : trace) (op : fs_op) (ok : bool) :
  Forall is_write_event t ->
  match op with Write _ => False | _ => True end ->
  ~ In (EvFs op ok) t.
Proof.
  intros Hall Hop Hin. rewrite Forall_forall in Hall.
  specialize (Hall _ Hin). destruct op; try exact Hall; exact Hop.
Qed.

(** The [with] block in any world: when it ends normally, the file was
    opened, all the bytes were handed to [write], and it was flushed,
    synced and closed; it logs nothing. *)
Lemma io_write_file_sound (w : World) (fuel : nat) (size_bytes v : Z)
    (h : trace) :
  exists r v' t,
    Qimi2Sim.io_write_file w fuel size_bytes v h = (r, v', h ++ t)
    /\ (forall rec, ~ In (EvLog rec) t)
    /\ (r = Done tt ->
        written_in t = repeat Byte.x00 (Z.to_nat size_bytes)
        /\ (writes_whole w ->
            stored_in t = repeat Byte.x00 (Z.to_nat size_bytes))
        /\ In (EvFs Flush true) t /\ In (EvFs Fsync true) t
        /\ In (EvFs Close true) t).
Proof.
  unfold Qimi2Sim.io_write_file, Qimi2Sim.with_fdopen, try_finally.
  unfold bind at 1. unfold fs at 1.
  destruct (fs_ok w h Fdopen).
  2:{ eexists _, _, _. split; [reflexivity|].
      split; [|discriminate].
      intros rec [H|[]]; discriminate H. }
  unfold bind at 1. unfold put at 1.
  unfold bind at 1.
  destruct (while_loop fuel _ _ size_bytes (h ++ [EvFs Fdopen true]))
    as [[r left'] h1] eqn:Hrun.
  apply io_write_loop_sound in Hrun as (t & -> & Hall & Hw).
  pose proof (fun rec => write_events_no_log t rec Hall) as Hnolog.
  destruct r as [[]|e|].
  - destruct (Hw eq_refl) as [Hwr Hst]. unfold_monad.
    destruct (fs_ok w _ Flush); [destruct (fs_ok w _ Fsync)|];
      destruct (fs_ok w _ Close);
      (eexists _, _, (EvFs Fdopen true :: t ++ _); split;
       [repeat rewrite <- app_assoc; cbn [app]; repeat rewrite <- app_assoc;
        reflexivity|]);
      (split;
       [ intros rec [H|H]; [discriminate H|];
         apply in_app_or in H as [H|H]; [exact (Hnolog rec H)|];
         simpl in H; intuition discriminate
       | try discriminate ]).
    intros _. cbn [written_in stored_in].
    rewrite written_in_app, stored_in_app, Hwr.
    cbn [written_in stored_in]. rewrite !app_nil_r.
    split; [reflexivity|]. split; [exact Hst|].
    repeat split; right; apply in_or_app; right; simpl; tauto.
  - unfold_monad.
    destruct (fs_ok w _ Close);
      (eexists _, _, (EvFs Fdopen true :: t ++ _); split;
       [repeat rewrite <- app_assoc; cbn [app]; repeat rewrite <- app_assoc;
        reflexivity|]);
      (split;
       [ intros rec [H|H]; [discriminate H|];
         apply in_app_or in H as [H|H]; [exact (Hnolog rec H)|];
         simpl in H; intuition discriminate
       | discriminate ]).
  - eexists _, _, (EvFs Fdopen true :: t). split;
      [rewrite <- app_assoc; reflexivity|].
    split; [|discriminate].
    intros rec [H|H]; [discriminate H | exact (Hnolog rec H)].
Qed.

(** X17.  What the record [[io] done] says of the calls made: in every
    run of [io_burst] for a positive size, whatever the file system
    does, the record is logged only when all the bytes were handed to
    [write], by calls that returned, and the file was flushed, synced
    and closed, and then no error is logged.  What [write] returns is
    not looked at: the bytes are known to be all in the file only when
    no write was short.  With enough passes allowed and a size that the
    log can show (below [2^1024 - 2^970]), once the temporary file
    exists one of [[io] done] and [[io] error] is logged. *)
Theorem io_done_record_is_true (w : World) (fuel : nat) (size_bytes : Z)
    (dir_path : pystr) (v : Z) (h : trace) :
  0 < size_bytes ->
  exists t,
    trace_of (Qimi2Sim.io_burst w fuel size_bytes dir_path v h) = h ++ t
    /\ io_done_is_true w size_bytes t
    /\ ((Z.to_nat (ceil_div size_bytes Qimi2Sim.chunk_len) <= fuel)%nat ->
        fits_float size_bytes ->
        In (EvFs (Mkstemp dir_path) true) t ->
        In (EvLog QIoDone) t \/ In (EvLog QIoError) t).
Proof.
  intros Hsize.
  destruct (fits_float_dec size_bytes) as [Hfit | Hbad].
  2:{ rewrite io_burst_overflows by assumption.
      destruct (fs_ok w h (Makedirs dir_path));
        [destruct (fs_ok w _ (Mkstemp dir_path))|];
        (eexists; unfold trace_of; cbn [snd]; split; [reflexivity|]);
        (split; [intros Hin; simpl in Hin; exfalso;
                 repeat (destruct Hin as [Hin | Hin]; [discriminate Hin|]);
                 exact Hin
                | intros _ Hf; contradiction]). }
  rewrite io_burst_fits by assumption.
  destruct (fs_ok w h (Makedirs dir_path)).
  2:{ eexists. unfold trace_of. cbn [snd]. split; [reflexivity|].
      split; [intros [H|[]]; discriminate H|].
      intros _ _ [H|[]]; discriminate H. }
  destruct (fs_ok w _ (Mkstemp dir_path)).
  2:{ eexists. unfold trace_of. cbn [snd]. split; [reflexivity|].
      split; [intros [H|[H|[]]]; discriminate H|].
      intros _ _ [H|[H|[]]]; discriminate H. }
  set (path := temp_file w h dir_path).
  set (h3 := h ++ _).
  unfold try_finally, try_except. unfold bind at 1.
  destruct (io_write_file_sound w fuel size_bytes v h3)
    as (r & v' & t & E & Hnolog & Hdone).
  rewrite E.
  assert (Hpre : forall e, In e [EvFs (Makedirs dir_path) true;
                                 EvFs (Mkstemp dir_path) true;
                                 EvLog (QIoWriting size_bytes path)] ->
                 e <> EvLog QIoDone /\ e <> EvLog QIoError).
  { intros e [H|[H|[H|[]]]]; subst e; split; discriminate. }
  destruct r as [[]|e|].
  - rewrite log_plain by reflexivity. rewrite io_remove_eq.
    set (rm := if fs_ok w _ _ then _ else _).
    assert (Hrm : forall e, In e rm ->
                    e <> EvLog QIoDone /\ e <> EvLog QIoError
                    /\ written_in [e] = []).
    { subst rm. destruct (fs_ok w _ _).
      - intros e0 [H|[H|[]]]; subst e0; repeat split; discriminate.
      - intros e0 [H|[]]; subst e0; repeat split; discriminate. }
    assert (Hwr : written_in rm = [] /\ stored_in rm = []).
    { subst rm. destruct (fs_ok w _ _); split; reflexivity. }
    destruct Hwr as [Hwr Hsr].
    clearbody rm. subst h3.
    exists ([EvFs (Makedirs dir_path) true; EvFs (Mkstemp dir_path) true;
             EvLog (QIoWriting size_bytes path)] ++ t ++ [EvLog QIoDone] ++ rm).
    unfold trace_of. cbn [snd].
    split; [repeat rewrite <- app_assoc; reflexivity|].
    destruct (Hdone eq_refl) as (Hw & Hst & Hfl & Hfs & Hcl).
    split.
    + intros _.
      split.
      { rewrite !written_in_app, Hw, Hwr. cbn [written_in app].
        apply app_nil_r. }
      split.
      { intros Hwhole. rewrite !stored_in_app, (Hst Hwhole), Hsr.
        cbn [stored_in app]. apply app_nil_r. }
      split; [apply in_or_app; right; apply in_or_app; left; exact Hfl|].
      split; [apply in_or_app; right; apply in_or_app; left; exact Hfs|].
      split; [apply in_or_app; right; apply in_or_app; left; exact Hcl|].
      intros Hin. apply in_app_or in Hin as [Hin|Hin];
        [exact (proj2 (Hpre _ Hin) eq_refl)|].
      apply in_app_or in Hin as [Hin|Hin]; [exact (Hnolog _ Hin)|].
      apply in_app_or in Hin as [Hin|Hin];
        [destruct Hin as [Hin|[]]; discriminate Hin|].
      exact (proj1 (proj2 (Hrm _ Hin)) eq_refl).
    + intros _ _ _. left. apply in_or_app; right. apply in_or_app; right.
      left. reflexivity.
  - cbn [any_Exception]. rewrite log_plain by reflexivity. rewrite io_remove_eq.
    set (rm := if fs_ok w _ _ then _ else _).
    assert (Hrm : forall e, In e rm -> e <> EvLog QIoDone).
    { subst rm. destruct (fs_ok w _ _).
      - intros e0 [H|[H|[]]]; subst e0; discriminate.
      - intros e0 [H|[]]; subst e0; discriminate. }
    clearbody rm. subst h3.
    exists ([EvFs (Makedirs dir_path) true; EvFs (Mkstemp dir_path) true;
             EvLog (QIoWriting size_bytes path)] ++ t ++ [EvLog QIoError] ++ rm).
    unfold trace_of. cbn [snd].
    split; [repeat rewrite <- app_assoc; reflexivity|].
    split.
    + intros Hin. exfalso.
      apply in_app_or in Hin as [Hin|Hin];
        [exact (proj1 (Hpre _ Hin) eq_refl)|].
      apply in_app_or in Hin as [Hin|Hin]; [exact (Hnolog _ Hin)|].
      apply in_app_or in Hin as [Hin|Hin];
        [destruct Hin as [Hin|[]]; discriminate Hin|].
      exact (Hrm _ Hin eq_refl).
    + intros _ _ _. right. apply in_or_app; right. apply in_or_app; right.
      left. reflexivity.
  - subst h3.
    exists ([EvFs (Makedirs dir_path) true; EvFs (Mkstemp dir_path) true;
             EvLog (QIoWriting size_bytes path)] ++ t).
    unfold trace_of. cbn [snd].
    split; [repeat rewrite <- app_assoc; reflexivity|].
    split.
    + intros Hin. exfalso.
      apply in_app_or in Hin as [Hin|Hin];
        [exact (proj1 (Hpre _ Hin) eq_refl) | exact (Hnolog _ Hin)].
    + intros Hfuel _ _. exfalso.
      destruct (io_write_file_ends w fuel size_bytes v
                  (h ++ [EvFs (Makedirs dir_path) true;
                         EvFs (Mkstemp dir_path) true;
                         EvLog (QIoWriting size_bytes path)]) Hfuel)
        as (r2 & v2 & t2 & E2 & Hr2).
      rewrite E in E2. injection E2 as <- _ _. apply Hr2. reflexivity.
Qed.

Lemma io_done_record_is_true_witness :
  0 < 3
  /\ exists t,
       trace_of (Qimi2Sim.io_burst no_fsync_world 1 3 (lit "/tmp") 0 []) = [] ++ t
       /\ io_done_is_true no_fsync_world 3 t
       /\ (((Z.to_nat (ceil_div 3 Qimi2Sim.chunk_len) <= 1)%nat ->
            fits_float 3 ->
            In (EvFs (Mkstemp (lit "/tmp")) true) t ->
            In (EvLog QIoDone) t \/ In (EvLog QIoError) t)).
Proof.
  assert (H : 0 < 3) by lia.
  split; [exact H|].
  exact (io_done_record_is_true no_fsync_world 1 3 (lit "/tmp") 0 [] H).
Defined.

(* ================================================================== *)
(** * The readers of the cgroup pseudo-files *)

Lemma int_of_number (ws1 ds ws2 : pystr) :
  all_spaces ws1 -> all_spaces ws2 -> all_digits ds -> ds <> [] ->
  Cgroup.int_of (strip (ws1 ++ ds ++ ws2)) = Some (digits_value ds).
Proof.
  intros H1 H2 Hds Hne. unfold Cgroup.int_of.
  rewrite strip_around; try assumption; [|apply digits_no_space; exact Hds].
  rewrite py_int_digits by assumption. reflexivity.
Qed.

Lemma read_int_file_number (fs : Cgroup.files) (p ds : pystr) :
  holds_number fs p ds -> Cgroup.read_int_file fs p = Some (digits_value ds).
Proof.
  intros (Hds & Hne & ws1 & ws2 & H1 & H2 & E).
  unfold Cgroup.read_int_file. rewrite E.
  apply int_of_number; assumption.
Qed.

(** X18.  The usage and the peak are read from the first file of use,
    the cgroup v2 file first, then the two cgroup v1 paths in order: a
    file that is missing or malformed is passed over, a file that holds
    an unsigned decimal gives its value, and the result is [None] when
    no file is of use. *)
Theorem first_usable_file_wins (fs : Cgroup.files) (ds : pystr) :
  let cur1 := lit "/sys/fs/cgroup/memory.current" in
  let cur2 := lit "/sys/fs/cgroup/memory/memory.usage_in_bytes" in
  let cur3 := lit "/sys/fs/cgroup/memory.usage_in_bytes" in
  let peak1 := lit "/sys/fs/cgroup/memory.peak" in
  let peak2 := lit "/sys/fs/cgroup/memory/memory.max_usage_in_bytes" in
  let peak3 := lit "/sys/fs/cgroup/memory.max_usage_in_bytes" in
  (holds_number fs cur1 ds ->
   Cgroup.read_mem_current fs = Some (digits_value ds))
  /\ (unusable fs cur1 -> holds_number fs cur2 ds ->
      Cgroup.read_mem_current fs = Some (digits_value ds))
  /\ (unusable fs cur1 -> unusable fs cur2 -> holds_number fs cur3 ds ->
      Cgroup.read_mem_current fs = Some (digits_value ds))
  /\ (unusable fs cur1 /\ unusable fs cur2 /\ unusable fs cur3 <->
      Cgroup.read_mem_current fs = None)
  /\ (holds_number fs peak1 ds ->
      Cgroup.read_mem_peak fs = Some (digits_value ds))
  /\ (unusable fs peak1 -> holds_number fs peak2 ds ->
      Cgroup.read_mem_peak fs = Some (digits_value ds))
  /\ (unusable fs peak1 -> unusable fs peak2 -> holds_number fs peak3 ds ->
      Cgroup.read_mem_peak fs = Some (digits_value ds))
  /\ (unusable fs peak1 /\ unusable fs peak2 /\ unusable fs peak3 <->
      Cgroup.read_mem_peak fs = None).
Proof.
  intros cur1 cur2 cur3 peak1 peak2 peak3.
  unfold Cgroup.read_mem_current, Cgroup.read_mem_peak, unusable.
  fold cur1 cur2 cur3 peak1 peak2 peak3. cbn [Cgroup.first_int].
  repeat split.
  - intros H. rewrite (read_int_file_number _ _ _ H). reflexivity.
  - intros -> H. rewrite (read_int_file_number _ _ _ H). reflexivity.
  - intros -> -> H. rewrite (read_int_file_number _ _ _ H). reflexivity.
  - intros (-> & -> & ->). reflexivity.
  - destruct (Cgroup.read_int_file fs cur1); [discriminate | reflexivity].
  - destruct (Cgroup.read_int_file fs cur1); [discriminate|].
    destruct (Cgroup.read_int_file fs cur2); [discriminate | reflexivity].
  - destruct (Cgroup.read_int_file fs cur1); [discriminate|].
    destruct (Cgroup.read_int_file fs cur2); [discriminate|].
    destruct (Cgroup.read_int_file fs cur3); [discriminate | reflexivity].
  - intros H. rewrite (read_int_file_number _ _ _ H). reflexivity.
  - intros -> H. rewrite (read_int_file_number _ _ _ H). reflexivity.
  - intros -> -> H. rewrite (read_int_file_number _ _ _ H). reflexivity.
  - intros (-> & -> & ->). reflexivity.
  - destruct (Cgroup.read_int_file fs peak1); [discriminate | reflexivity].
  - destruct (Cgroup.read_int_file fs peak1); [discriminate|].
    destruct (Cgroup.read_int_file fs peak2); [discriminate | reflexivity].
  - destruct (Cgroup.read_int_file fs peak1); [discriminate|].
    destruct (Cgroup.read_int_file fs peak2); [discriminate|].
    destruct (Cgroup.read_int_file fs peak3); [discriminate | reflexivity].
Qed.

(* ------------------------------------------------------------------ *)
(** ** Words and lines *)

Lemma split_aux_word (k s : pystr) :
  Forall (fun c => is_space c = false) k ->
  Cgroup.split_aux (k ++ s)
  = (k ++ fst (Cgroup.split_aux s), snd (Cgroup.split_aux s)).
Proof.
  intros Hk. induction Hk as [|c k Hc Hk IH].
  - cbn [app]. destruct (Cgroup.split_aux s); reflexivity.
  - cbn [app Cgroup.split_aux]. rewrite IH, Hc. reflexivity.
Qed.

Lemma split_aux_spaces (ws s : pystr) :
  all_spaces ws -> ws <> [] ->
  Cgroup.split_aux (ws ++ s) = ([], Cgroup.split s).
Proof.
  intros Hws. induction Hws as [|c ws Hc Hws IH]; [contradiction|].
  intros _. cbn [app Cgroup.split_aux]. rewrite Hc.
  destruct ws as [|c' ws'].
  - cbn [app]. unfold Cgroup.split. destruct (Cgroup.split_aux s); reflexivity.
  - rewrite IH by discriminate. reflexivity.
Qed.

(** A word followed by whitespace is the first word. *)
Lemma split_word (k ws s : pystr) :
  is_word k -> all_spaces ws -> ws <> [] ->
  Cgroup.split (k ++ ws ++ s) = k :: Cgroup.split s.
Proof.
  intros [Hne Hk] Hws Hwne. unfold Cgroup.split at 1.
  rewrite split_aux_word by exact Hk.
  rewrite split_aux_spaces by assumption. cbn [fst snd].
  rewrite app_nil_r. destruct k; [contradiction | reflexivity].
Qed.

Lemma split_last_word (k ws : pystr) :
  is_word k -> all_spaces ws -> Cgroup.split (k ++ ws) = [k].
Proof.
  intros Hk Hws. destruct ws as [|c ws].
  - destruct Hk as [Hne Hk]. unfold Cgroup.split.
    rewrite split_aux_word by exact Hk. cbn [Cgroup.split_aux fst snd].
    rewrite !app_nil_r. destruct k; [contradiction | reflexivity].
  - rewrite <- (app_nil_r (c :: ws)).
    rewrite split_word by (try assumption; discriminate).
    reflexivity.
Qed.

Lemma split_two_words (k ws v ws' : pystr) :
  is_word k -> all_spaces ws -> ws <> [] -> is_word v -> all_spaces ws' ->
  Cgroup.split (k ++ ws ++ v ++ ws') = [k; v].
Proof.
  intros Hk Hws Hne Hv Hws'.
  rewrite split_word by assumption.
  rewrite split_last_word by assumption. reflexivity.
Qed.

Lemma digits_word (ds : pystr) : all_digits ds -> ds <> [] -> is_word ds.
Proof. intros Hds Hne. split; [exact Hne | apply digits_no_space; exact Hds]. Qed.

(** Whitespace around is dropped when what is left starts and ends with
    a word. *)
Lemma strip_words (ws1 k mid v ws2 : pystr) :
  all_spaces ws1 -> all_spaces ws2 -> is_word k -> is_word v ->
  strip (ws1 ++ (k ++ mid ++ v) ++ ws2) = k ++ mid ++ v.
Proof.
  intros H1 H2 [Hkne Hk] [Hvne Hv].
  rewrite strip_padding by assumption. unfold strip.
  destruct k as [|c k]; [contradiction|].
  inversion Hk as [|? ? Hc Hk']; subst.
  cbn [app]. rewrite lstrip_keeps by exact Hc.
  unfold rstrip.
  change (c :: k ++ mid ++ v) with ((c :: k) ++ mid ++ v).
  rewrite !rev_app_distr.
  destruct (rev v) as [|d rv] eqn:Hrv.
  { apply (f_equal (@rev ascii)) in Hrv. rewrite rev_involutive in Hrv.
    contradiction. }
  assert (Hd : is_space d = false).
  { rewrite Forall_forall in Hv. apply Hv. apply in_rev. rewrite Hrv.
    left. reflexivity. }
  cbn [app]. rewrite lstrip_keeps by exact Hd.
  change (d :: (rv ++ rev mid) ++ rev (c :: k))
    with (((d :: rv) ++ rev mid) ++ rev (c :: k)).
  rewrite <- Hrv, !rev_app_distr, !rev_involutive.
  reflexivity.
Qed.

Lemma space_is_space : all_spaces (lit " ").
Proof. repeat constructor. Qed.

Lemma newline_is_space : all_spaces [Cgroup.newline].
Proof. repeat constructor. Qed.

Lemma space_no_newline (c : ascii) :
  is_space c = false -> ascii_eqb c Cgroup.newline = false.
Proof. unfold Cgroup.newline. each_ascii c. Qed.

Lemma digit_no_newline (c : ascii) :
  is_digit c = true -> ascii_eqb c Cgroup.newline = false.
Proof. intros H. apply space_no_newline. apply digit_no_space. exact H. Qed.

(** A line without a line end inside is the first line. *)
Lemma readlines_line (l rest : pystr) :
  Forall (fun c => ascii_eqb c Cgroup.newline = false) l ->
  Cgroup.readlines (l ++ Cgroup.newline :: rest)
  = (l ++ [Cgroup.newline]) :: Cgroup.readlines rest.
Proof.
  intros Hl. induction Hl as [|c l Hc Hl IH].
  - reflexivity.
  - cbn [app Cgroup.readlines]. rewrite Hc, IH. reflexivity.
Qed.

(** The last line may lack its line end. *)
Lemma readlines_last (l : pystr) :
  Forall (fun c => ascii_eqb c Cgroup.newline = false) l -> l <> [] ->
  Cgroup.readlines l = [l].
Proof.
  intros Hl. induction Hl as [|c l Hc Hl IH]; [contradiction|].
  intros _. cbn [Cgroup.readlines]. rewrite Hc.
  destruct l as [|c' l']; [reflexivity|].
  rewrite IH by discriminate. reflexivity.
Qed.

Lemma render_line_solid (kv : pystr * pystr) :
  stat_item kv ->
  Forall (fun c => ascii_eqb c Cgroup.newline = false)
         (fst kv ++ lit " " ++ snd kv).
Proof.
  intros ([_ Hk] & Hds & _).
  apply Forall_app. split.
  - eapply Forall_impl; [|exact Hk]. intros c. apply space_no_newline.
  - constructor; [reflexivity|].
    eapply Forall_impl; [|exact Hds]. intros c. apply digit_no_newline.
Qed.

Lemma readlines_render (items : list (pystr * pystr)) (rest : pystr) :
  Forall stat_item items ->
  Cgroup.readlines (render items ++ rest)
  = map render_line items ++ Cgroup.readlines rest.
Proof.
  intros Hall. induction Hall as [|kv items Hkv Hall IH]; [reflexivity|].
  unfold render in *. cbn [map List.concat].
  unfold render_line at 1.
  replace (((fst kv ++ lit " " ++ snd kv ++ [Cgroup.newline])
            ++ List.concat (map render_line items)) ++ rest)
    with ((fst kv ++ lit " " ++ snd kv)
          ++ Cgroup.newline :: (List.concat (map render_line items) ++ rest))
    by (repeat rewrite <- app_assoc; reflexivity).
  rewrite readlines_line by (apply render_line_solid; exact Hkv).
  rewrite IH. unfold render_line at 2.
  repeat rewrite <- app_assoc. reflexivity.
Qed.

(** A line of a keyed file is read as its key and its value. *)
Lemma split_render_line (kv : pystr * pystr) :
  stat_item kv ->
  Cgroup.split (strip (render_line kv)) = [fst kv; snd kv].
Proof.
  intros (Hk & Hds & Hne). unfold render_line.
  replace (fst kv ++ lit " " ++ snd kv ++ [Cgroup.newline])
    with ([] ++ (fst kv ++ lit " " ++ snd kv) ++ [Cgroup.newline])
    by (cbn [app]; repeat rewrite <- app_assoc; reflexivity).
  rewrite strip_words;
    [ | constructor | exact newline_is_space | exact Hk
      | apply digits_word; assumption ].
  rewrite <- (app_nil_r (snd kv)) at 1.
  apply split_two_words;
    [exact Hk | exact space_is_space | discriminate
    | apply digits_word; assumption | constructor].
Qed.

Lemma int_of_digits (ds : pystr) :
  all_digits ds -> ds <> [] -> Cgroup.int_of ds = Some (digits_value ds).
Proof.
  intros Hds Hne. unfold Cgroup.int_of.
  rewrite py_int_digits by assumption. reflexivity.
Qed.

Lemma fill_render (items : list (pystr * pystr)) :
  Forall stat_item items ->
  forall d rest,
    Cgroup.fill d (map render_line items ++ rest)
    = Cgroup.fill (dict_of d items) rest.
Proof.
  intros Hall. induction Hall as [|kv items Hkv Hall IH]; intros d rest.
  - reflexivity.
  - cbn [map app Cgroup.fill].
    rewrite split_render_line by exact Hkv.
    destruct Hkv as (Hk & Hds & Hne).
    rewrite int_of_digits by assumption.
    rewrite IH. reflexivity.
Qed.

(* ------------------------------------------------------------------ *)
(** ** [read_cgroup_limits] *)

Lemma max_is_no_integer (v : pystr) :
  pystr_eqb v (lit "max") = true -> Cgroup.int_of v = None.
Proof. intros H. apply pystr_eqb_eq in H. subst v. reflexivity. Qed.

Lemma holds_text_strip (fs : Cgroup.files) (p k mid v : pystr) :
  is_word k -> is_word v ->
  holds_text fs p (k ++ mid ++ v) ->
  exists c, fs p = Some c /\ strip c = k ++ mid ++ v.
Proof.
  intros Hk Hv (ws1 & ws2 & H1 & H2 & E).
  eexists. split; [exact E|]. apply strip_words; assumption.
Qed.

Lemma max_is_word : is_word (lit "max").
Proof. split; [discriminate | repeat constructor]. Qed.

Lemma holds_max (fs : Cgroup.files) (p : pystr) :
  holds_text fs p (lit "max") ->
  exists c, fs p = Some c /\ strip c = lit "max".
Proof.
  intros (ws1 & ws2 & H1 & H2 & E).
  eexists. split; [exact E|].
  apply strip_around; try assumption. repeat constructor.
Qed.

(** The memory limit of [read_cgroup_limits]. *)
Lemma limits_memory (fs : Cgroup.files) :
  fst (fst (Cgroup.read_cgroup_limits fs))
  = Cgroup.first_int fs [lit "/sys/fs/cgroup/memory.max";
                         lit "/sys/fs/cgroup/memory/memory.limit_in_bytes";
                         lit "/sys/fs/cgroup/memory.limit_in_bytes"].
Proof.
  unfold Cgroup.read_cgroup_limits.
  set (stage := match fs (lit "/sys/fs/cgroup/memory.max") with
                | Some c => if pystr_eqb (strip c) (lit "max") then None
                            else Cgroup.int_of (strip c)
                | None => None
                end).
  assert (Hstage : stage
                   = Cgroup.read_int_file fs (lit "/sys/fs/cgroup/memory.max")).
  { subst stage. unfold Cgroup.read_int_file.
    destruct (fs (lit "/sys/fs/cgroup/memory.max")) as [c|]; [|reflexivity].
    destruct (pystr_eqb (strip c) (lit "max")) eqn:Hm; [|reflexivity].
    symmetry. apply max_is_no_integer. exact Hm. }
  cbv zeta. fold stage. rewrite Hstage. clear stage Hstage.
  cbn [Cgroup.first_int].
  repeat match goal with
         | |- context [let '(_, _) := ?x in _] => destruct x
         end.
  cbn [fst]. reflexivity.
Qed.

(** X19.  The memory limit is read like the usage: from [memory.max],
    then from the two cgroup v1 files, the first of use.  The word
    [max] of an unlimited cgroup v2 is no integer, so that an unlimited
    [memory.max] is passed over like a missing file, and a limit found
    in a cgroup v1 file is then returned. *)
Theorem memory_limit_falls_back_to_v1 (fs : Cgroup.files) (ds : pystr) :
  let m := lit "/sys/fs/cgroup/memory.max" in
  let v1 := lit "/sys/fs/cgroup/memory/memory.limit_in_bytes" in
  let v1' := lit "/sys/fs/cgroup/memory.limit_in_bytes" in
  fst (fst (Cgroup.read_cgroup_limits fs)) = Cgroup.first_int fs [m; v1; v1']
  /\ (holds_text fs m (lit "max") -> unusable fs m)
  /\ (holds_number fs m ds ->
      fst (fst (Cgroup.read_cgroup_limits fs)) = Some (digits_value ds))
  /\ (holds_text fs m (lit "max") -> holds_number fs v1 ds ->
      fst (fst (Cgroup.read_cgroup_limits fs)) = Some (digits_value ds))
  /\ (holds_text fs m (lit "max") -> unusable fs v1 -> unusable fs v1' ->
      fst (fst (Cgroup.read_cgroup_limits fs)) = None).
Proof.
  intros m v1 v1'.
  assert (Hmax : holds_text fs m (lit "max") -> unusable fs m).
  { intros H. apply holds_max in H as (c & E & Hs).
    unfold unusable, Cgroup.read_int_file. rewrite E, Hs. reflexivity. }
  rewrite limits_memory. fold m v1 v1'. cbn [Cgroup.first_int].
  split; [reflexivity|]. split; [exact Hmax|].
  split; [|split].
  - intros H. rewrite (read_int_file_number _ _ _ H). reflexivity.
  - intros H1 H2. rewrite (Hmax H1), (read_int_file_number _ _ _ H2).
    reflexivity.
  - intros H1 H2 H3. rewrite (Hmax H1), H2, H3. reflexivity.
Qed.

Lemma cpu_limits_eq (fs : Cgroup.files) :
  cpu_limits fs = cfs_stage fs (cpu_max_stage fs).
Proof.
  unfold cpu_limits, Cgroup.read_cgroup_limits. cbv zeta.
  fold (cpu_max_stage fs).
  destruct (cpu_max_stage fs) as [q p].
  fold (cfs_stage fs (q, p)).
  destruct (cfs_stage fs (q, p)) as [q' p']. reflexivity.
Qed.

Lemma digits_not_max (ds : pystr) :
  all_digits ds -> ds <> [] -> pystr_eqb ds (lit "max") = false.
Proof.
  intros Hds Hne. destruct (pystr_eqb ds (lit "max")) eqn:E; [|reflexivity].
  apply pystr_eqb_eq in E. subst ds.
  inversion Hds as [|? ? Hc _]. discriminate Hc.
Qed.

(** X20.  On the CPU side, [read_cgroup_limits] never returns a period
    without a quota.  When [cpu.max] cannot be read, the two values come
    from the cgroup v1 files, both or none, and only for a positive
    quota ([-1], unlimited, gives none).  When [cpu.max] holds two
    unsigned decimals, they are the quota and the period.  A quota
    without a period is possible: the quota is assigned before the
    period is converted. *)
Theorem period_implies_quota (fs : Cgroup.files) (qs ps : pystr) :
  let cpu_max := lit "/sys/fs/cgroup/cpu.max" in
  (snd (cpu_limits fs) <> None -> fst (cpu_limits fs) <> None)
  /\ (fs cpu_max = None ->
      cpu_limits fs = (None, None)
      \/ exists q p, cpu_limits fs = (Some q, Some p) /\ 0 < q)
  /\ (all_digits qs -> qs <> [] -> all_digits ps -> ps <> [] ->
      holds_text fs cpu_max (qs ++ lit " " ++ ps) ->
      cpu_limits fs = (Some (digits_value qs), Some (digits_value ps)))
  /\ (is_word ps -> Cgroup.int_of ps = None ->
      all_digits qs -> qs <> [] ->
      holds_text fs cpu_max (qs ++ lit " " ++ ps) ->
      unusable fs (lit "/sys/fs/cgroup/cpu/cpu.cfs_quota_us") ->
      cpu_limits fs = (Some (digits_value qs), None)).
Proof.
  intros cpu_max. rewrite cpu_limits_eq.
  assert (Hfirst : snd (cpu_max_stage fs) <> None ->
                   fst (cpu_max_stage fs) <> None).
  { unfold cpu_max_stage.
    destruct (fs _) as [c|]; [|intros H; exact H].
    destruct (Cgroup.split (strip c)) as [|a0 [|a1 [|a2 l]]];
      try (intros H; exact H).
    destruct (negb _); [|intros H; exact H].
    destruct (Cgroup.int_of a0); [|intros H; exact H].
    destruct (Cgroup.int_of a1); intros _; discriminate. }
  assert (Hpair : forall k v,
             is_word k -> is_word v ->
             holds_text fs cpu_max (k ++ lit " " ++ v) ->
             exists c, fs cpu_max = Some c
                       /\ Cgroup.split (strip c) = [k; v]).
  { intros k v Hk Hv H.
    apply holds_text_strip in H as (c & E & Hs); try assumption.
    exists c. split; [exact E|]. rewrite Hs.
    rewrite <- (app_nil_r v) at 1.
    apply split_two_words; try assumption;
      [exact space_is_space | discriminate | constructor]. }
  split; [|split; [|split]].
  - destruct (cpu_max_stage fs) as [[q|] [p|]]; cbn [fst snd] in Hfirst;
      [ | | exfalso; apply Hfirst; [discriminate | reflexivity] | ];
      unfold cfs_stage;
      repeat match goal with
             | |- context [match ?x with _ => _ end] => destruct x
             end;
      cbn [fst snd]; intros H; try discriminate;
      exfalso; apply H; reflexivity.
  - intros E. unfold cpu_max_stage. fold cpu_max. rewrite E.
    unfold cfs_stage.
    destruct (Cgroup.read_int_file fs _) as [q|]; [|left; reflexivity].
    destruct (Cgroup.read_int_file fs _) as [p|]; [|left; reflexivity].
    destruct (0 <? q) eqn:Hq; [|left; reflexivity].
    right. exists q, p. split; [reflexivity | lia].
  - intros Hqs Hqne Hps Hpne H.
    destruct (Hpair qs ps (digits_word _ Hqs Hqne) (digits_word _ Hps Hpne) H)
      as (c & E & Hs).
    unfold cpu_max_stage. fold cpu_max. rewrite E, Hs.
    rewrite digits_not_max by assumption. cbn [negb].
    rewrite !int_of_digits by assumption. reflexivity.
  - intros Hps Hbad Hqs Hqne H Hcfs.
    destruct (Hpair qs ps (digits_word _ Hqs Hqne) Hps H) as (c & E & Hs).
    unfold cpu_max_stage. fold cpu_max. rewrite E, Hs.
    rewrite digits_not_max by assumption. cbn [negb].
    rewrite int_of_digits by assumption. rewrite Hbad.
    unfold cfs_stage. unfold unusable in Hcfs. rewrite Hcfs. reflexivity.
Qed.

Lemma period_implies_quota_witness :
  cpu_limits (files_of [(lit "/sys/fs/cgroup/cpu.max", lit "200000 100000")])
  = (Some 200000, Some 100000)
  /\ cpu_limits (files_of [(lit "/sys/fs/cgroup/cpu.max", lit "200000 abc")])
     = (Some 200000, None).
Proof.
  pose proof (period_implies_quota
                (files_of [(lit "/sys/fs/cgroup/cpu.max", lit "200000 100000")])
                (lit "200000") (lit "100000")) as (_ & _ & H1 & _).
  pose proof (period_implies_quota
                (files_of [(lit "/sys/fs/cgroup/cpu.max", lit "200000 abc")])
                (lit "200000") (lit "abc")) as (_ & _ & _ & H2).
  split.
  - apply H1; try (repeat constructor); try discriminate.
    exists [], []. repeat split; constructor.
  - apply H2; try (repeat constructor); try discriminate.
    + exists [], []. repeat split; constructor.
Defined.

(* ------------------------------------------------------------------ *)
(** ** The flat keyed files *)

Lemma pystr_eqb_refl (k : pystr) : pystr_eqb k k = true.
Proof. apply pystr_eqb_eq. reflexivity. Qed.

Lemma pystr_eqb_neq (a b : pystr) : pystr_eqb a b = false <-> a <> b.
Proof.
  split.
  - intros H E. apply pystr_eqb_eq in E. rewrite E in H. discriminate H.
  - intros H. destruct (pystr_eqb a b) eqn:E; [|reflexivity].
    apply pystr_eqb_eq in E. contradiction.
Qed.

(** [d[k] = x] then [d.get(k')]. *)
Lemma dict_get_set (d : list (pystr * Z)) (k k' : pystr) (x : Z) :
  Qimi2Sim.dict_get (Cgroup.dict_set d k x) k'
  = if pystr_eqb k k' then Some x else Qimi2Sim.dict_get d k'.
Proof.
  induction d as [|[k0 y] d IH]; cbn [Cgroup.dict_set Qimi2Sim.dict_get].
  - reflexivity.
  - destruct (pystr_eqb k0 k) eqn:E0; cbn [Qimi2Sim.dict_get].
    + apply pystr_eqb_eq in E0. subst k0.
      destruct (pystr_eqb k k'); reflexivity.
    + rewrite IH. destruct (pystr_eqb k0 k') eqn:E1; [|reflexivity].
      apply pystr_eqb_eq in E1. subst k'. rewrite pystr_eqb_neq in E0.
      assert (E2 : pystr_eqb k k0 = false)
        by (apply pystr_eqb_neq; intros E; apply E0; symmetry; exact E).
      rewrite E2. reflexivity.
Qed.

Lemma dict_get_dict_of (items : list (pystr * pystr)) (k : pystr) :
  forall d,
    Qimi2Sim.dict_get (dict_of d items) k
    = match last_value items k with
      | Some x => Some x
      | None => Qimi2Sim.dict_get d k
      end.
Proof.
  induction items as [|[k0 ds] items IH]; intros d; [reflexivity|].
  cbn [dict_of fold_left fst snd last_value].
  fold (dict_of (Cgroup.dict_set d k0 (digits_value ds)) items).
  rewrite IH, dict_get_set.
  destruct (last_value items k); [reflexivity|].
  destruct (pystr_eqb k0 k); reflexivity.
Qed.

Lemma dict_set_nonempty (d : list (pystr * Z)) (k : pystr) (x : Z) :
  Cgroup.dict_set d k x <> [].
Proof.
  destruct d as [|[k0 y] d]; cbn [Cgroup.dict_set]; [discriminate|].
  destruct (pystr_eqb k0 k); discriminate.
Qed.

Lemma dict_of_nonempty (items : list (pystr * pystr)) :
  forall d, d <> [] -> dict_of d items <> [].
Proof.
  induction items as [|kv items IH]; intros d Hd; [exact Hd|].
  cbn [dict_of fold_left]. apply IH. apply dict_set_nonempty.
Qed.

Lemma fill_lines (items : list (pystr * pystr)) (d : list (pystr * Z)) :
  Forall stat_item items ->
  Cgroup.fill d (Cgroup.readlines (render items)) = (dict_of d items, true).
Proof.
  intros Hall. rewrite <- (app_nil_r (render items)).
  rewrite readlines_render by exact Hall.
  rewrite fill_render by exact Hall. reflexivity.
Qed.

(** X21.  Reading [cpu.stat] gives back what the kernel printed: for a
    file made of lines [key value], the dictionary returned maps every
    key to the value of its last line and has no other key; it is empty
    exactly when the file has no line. *)
Theorem cpu_stat_round_trip (fs : Cgroup.files) (items : list (pystr * pystr))
    (k : pystr) :
  Forall stat_item items ->
  fs (lit "/sys/fs/cgroup/cpu.stat") = Some (render items) ->
  Qimi2Sim.dict_get (Cgroup.read_cpu_stat_v2 fs) k = last_value items k
  /\ (Cgroup.read_cpu_stat_v2 fs = [] <-> items = []).
Proof.
  intros Hall E. unfold Cgroup.read_cpu_stat_v2. rewrite E.
  rewrite fill_lines by exact Hall. cbn [fst].
  split.
  - rewrite dict_get_dict_of. destruct (last_value items k); reflexivity.
  - split.
    + destruct items as [|kv items]; [reflexivity|].
      intros H. exfalso. cbn [dict_of fold_left] in H.
      exact (dict_of_nonempty items _ (dict_set_nonempty _ _ _) H).
    + intros ->. reflexivity.
Qed.

Lemma cpu_stat_round_trip_witness :
  Forall stat_item [(lit "nr_periods", lit "3"); (lit "throttled_usec", lit "500")]
  /\ Qimi2Sim.dict_get
       (Cgroup.read_cpu_stat_v2
          (files_of [(lit "/sys/fs/cgroup/cpu.stat",
                      render [(lit "nr_periods", lit "3");
                              (lit "throttled_usec", lit "500")])]))
       (lit "throttled_usec")
     = Some 500.
Proof.
  assert (H : Forall stat_item [(lit "nr_periods", lit "3");
                                (lit "throttled_usec", lit "500")]).
  { repeat constructor; discriminate. }
  split; [exact H|].
  exact (proj1 (cpu_stat_round_trip
                  (files_of [(lit "/sys/fs/cgroup/cpu.stat",
                              render [(lit "nr_periods", lit "3");
                                      (lit "throttled_usec", lit "500")])])
                  _ (lit "throttled_usec") H eq_refl)).
Defined.

Lemma fill_malformed (d : list (pystr * Z)) (bad : pystr) (ls : list pystr) :
  malformed bad ->
  Cgroup.fill d ((bad ++ [Cgroup.newline]) :: ls) = (d, false).
Proof.
  intros [_ Hbad]. cbn [Cgroup.fill].
  destruct (Cgroup.split (strip (bad ++ [Cgroup.newline])))
    as [|a0 [|a1 [|a2 l]]]; try reflexivity.
  rewrite Hbad. reflexivity.
Qed.

Lemma fill_until_malformed (items : list (pystr * pystr))
    (d : list (pystr * Z)) (bad rest : pystr) :
  Forall stat_item items -> malformed bad ->
  Cgroup.fill d (Cgroup.readlines
                   (render items ++ bad ++ [Cgroup.newline] ++ rest))
  = (dict_of d items, false).
Proof.
  intros Hall Hbad.
  rewrite readlines_render by exact Hall.
  cbn [app]. rewrite readlines_line by exact (proj1 Hbad).
  rewrite fill_render by exact Hall.
  apply fill_malformed. exact Hbad.
Qed.

(** X22.  A line of [cpu.stat] that cannot be read ends the reading
    without an error: the dictionary returned holds the lines before it
    and nothing of what follows. *)
Theorem malformed_line_ends_the_reading (fs : Cgroup.files)
    (items : list (pystr * pystr)) (bad rest : pystr) :
  Forall stat_item items -> malformed bad ->
  fs (lit "/sys/fs/cgroup/cpu.stat")
  = Some (render items ++ bad ++ [Cgroup.newline] ++ rest) ->
  Cgroup.read_cpu_stat_v2 fs = dict_of [] items.
Proof.
  intros Hall Hbad E. unfold Cgroup.read_cpu_stat_v2. rewrite E.
  rewrite fill_until_malformed by assumption. reflexivity.
Qed.

Lemma malformed_line_ends_the_reading_witness :
  Forall stat_item [(lit "nr_periods", lit "3")]
  /\ malformed (lit "throttled_usec")
  /\ Cgroup.read_cpu_stat_v2
       (files_of [(lit "/sys/fs/cgroup/cpu.stat",
                   render [(lit "nr_periods", lit "3")]
                   ++ lit "throttled_usec" ++ [Cgroup.newline]
                   ++ render [(lit "nr_throttled", lit "1")])])
     = [(lit "nr_periods", 3)].
Proof.
  assert (H1 : Forall stat_item [(lit "nr_periods", lit "3")]).
  { repeat constructor; discriminate. }
  assert (H2 : malformed (lit "throttled_usec")).
  { split; [repeat constructor | exact I]. }
  split; [exact H1|]. split; [exact H2|].
  exact (malformed_line_ends_the_reading
           (files_of [(lit "/sys/fs/cgroup/cpu.stat",
                       render [(lit "nr_periods", lit "3")]
                       ++ lit "throttled_usec" ++ [Cgroup.newline]
                       ++ render [(lit "nr_throttled", lit "1")])])
           _ _ _ H1 H2 eq_refl).
Defined.

(** X23.  [read_mem_events_v2] prefers [memory.events.local]: when that
    file is read to its end, [memory.events] is not looked at; when it
    cannot be opened, the result comes from [memory.events].  When its
    reading stops at a malformed line, the lines read so far stay in the
    dictionary and the lines of [memory.events] are set over them. *)
Theorem local_events_come_first (fs : Cgroup.files)
    (items items' : list (pystr * pystr)) (bad rest : pystr) :
  let loc := lit "/sys/fs/cgroup/memory.events.local" in
  let glob := lit "/sys/fs/cgroup/memory.events" in
  Forall stat_item items -> Forall stat_item items' ->
  (fs loc = Some (render items) ->
   Cgroup.read_mem_events_v2 fs = dict_of [] items)
  /\ (fs loc = None -> fs glob = Some (render items) ->
      Cgroup.read_mem_events_v2 fs = dict_of [] items)
  /\ (malformed bad ->
      fs loc = Some (render items ++ bad ++ [Cgroup.newline] ++ rest) ->
      fs glob = Some (render items') ->
      Cgroup.read_mem_events_v2 fs = dict_of (dict_of [] items) items').
Proof.
  intros loc glob Hall Hall'.
  unfold Cgroup.read_mem_events_v2. cbn [Cgroup.events_from].
  change (lit "/sys/fs/cgroup/" ++ lit "memory.events.local") with loc.
  change (lit "/sys/fs/cgroup/" ++ lit "memory.events") with glob.
  split; [|split].
  - intros E. rewrite E, fill_lines by exact Hall. reflexivity.
  - intros E1 E2. rewrite E1, E2, fill_lines by exact Hall. reflexivity.
  - intros Hbad E1 E2. rewrite E1, E2.
    rewrite fill_until_malformed by assumption.
    rewrite fill_lines by exact Hall'. reflexivity.
Qed.

Lemma local_events_come_first_witness :
  Forall stat_item [(lit "oom", lit "1")]
  /\ Forall stat_item [(lit "oom_kill", lit "2")]
  /\ Cgroup.read_mem_events_v2
       (files_of [(lit "/sys/fs/cgroup/memory.events.local",
                   render [(lit "oom", lit "1")]);
                  (lit "/sys/fs/cgroup/memory.events", lit "oom 7")])
     = [(lit "oom", 1)].
Proof.
  assert (H1 : Forall stat_item [(lit "oom", lit "1")]).
  { repeat constructor; discriminate. }
  assert (H2 : Forall stat_item [(lit "oom_kill", lit "2")]).
  { repeat constructor; discriminate. }
  split; [exact H1|]. split; [exact H2|].
  exact (proj1 (local_events_come_first
                  (files_of [(lit "/sys/fs/cgroup/memory.events.local",
                              render [(lit "oom", lit "1")]);
                             (lit "/sys/fs/cgroup/memory.events", lit "oom 7")])
                  _ _ [] [] H1 H2) eq_refl).
Defined.

(* ------------------------------------------------------------------ *)
(** ** [read_self_rss] *)

Lemma readlines_with_line_ends (ls : list pystr) (rest : pystr) :
  Forall (fun l => Forall (fun c => ascii_eqb c Cgroup.newline = false) l) ls ->
  Cgroup.readlines (with_line_ends ls ++ rest)
  = map (fun l => l ++ [Cgroup.newline]) ls ++ Cgroup.readlines rest.
Proof.
  intros Hall. induction Hall as [|l ls Hl Hall IH]; [reflexivity|].
  unfold with_line_ends in *. cbn [map List.concat].
  rewrite <- !app_assoc. cbn [app].
  rewrite readlines_line by exact Hl. rewrite IH. reflexivity.
Qed.

Lemma find_rss_skips (pre : list pystr) (ls : list pystr) :
  no_rss_line pre ->
  Cgroup.find_rss (map (fun l => l ++ [Cgroup.newline]) pre ++ ls)
  = Cgroup.find_rss ls.
Proof.
  intros Hall. induction Hall as [|l pre [_ Hl] Hall IH]; [reflexivity|].
  cbn [map app Cgroup.find_rss]. rewrite Hl. exact IH.
Qed.

Lemma blank_is_space (s : pystr) : all_blanks s -> all_spaces s.
Proof.
  intros H. eapply Forall_impl; [|exact H].
  intros c [-> | ->]; reflexivity.
Qed.

Lemma blank_no_newline (s : pystr) :
  all_blanks s -> Forall (fun c => ascii_eqb c Cgroup.newline = false) s.
Proof.
  intros H. eapply Forall_impl; [|exact H].
  intros c [-> | ->]; reflexivity.
Qed.

(** X24.  [read_self_rss] returns the resident set size in bytes: for a
    status file whose first line that starts with [VmRSS:] reads
    [VmRSS:], blanks, an unsigned decimal, [kB], it returns 1024 times
    that number, whatever the lines before and after. *)
Theorem rss_is_read_in_bytes (fs : Cgroup.files) (pre : list pystr)
    (blanks ds rest : pystr) :
  no_rss_line pre ->
  all_blanks blanks -> blanks <> [] ->
  all_digits ds -> ds <> [] ->
  fs (lit "/proc/self/status")
  = Some (with_line_ends pre
          ++ (lit "VmRSS:" ++ blanks ++ ds ++ lit " kB")
          ++ [Cgroup.newline] ++ rest) ->
  Cgroup.read_self_rss fs = Some (digits_value ds * 1024).
Proof.
  intros Hpre Hb Hbne Hds Hne E.
  unfold Cgroup.read_self_rss. rewrite E.
  rewrite readlines_with_line_ends
    by (eapply Forall_impl; [|exact Hpre]; intros l [H _]; exact H).
  rewrite find_rss_skips by exact Hpre.
  cbn [app]. rewrite readlines_line.
  2:{ apply Forall_app. split; [repeat constructor|].
      apply Forall_app. split; [apply blank_no_newline; exact Hb|].
      apply Forall_app. split; [|repeat constructor].
      eapply Forall_impl; [|exact Hds]. intros c. apply digit_no_newline. }
  cbn [Cgroup.find_rss].
  assert (Hstart : Cgroup.startswith
                     ((lit "VmRSS:" ++ blanks ++ ds ++ lit " kB")
                      ++ [Cgroup.newline]) (lit "VmRSS:") = true)
    by reflexivity.
  rewrite Hstart.
  assert (Hsplit : Cgroup.split ((lit "VmRSS:" ++ blanks ++ ds ++ lit " kB")
                                 ++ [Cgroup.newline])
                   = [lit "VmRSS:"; ds; lit "kB"]).
  { replace ((lit "VmRSS:" ++ blanks ++ ds ++ lit " kB") ++ [Cgroup.newline])
      with (lit "VmRSS:" ++ blanks ++ (ds ++ lit " " ++ (lit "kB" ++ [Cgroup.newline])))
      by (repeat rewrite <- app_assoc; reflexivity).
    rewrite split_word;
      [ | split; [discriminate | repeat constructor]
        | apply blank_is_space; exact Hb | exact Hbne ].
    rewrite split_word;
      [ | apply digits_word; assumption | exact space_is_space | discriminate ].
    rewrite split_last_word;
      [ reflexivity | split; [discriminate | repeat constructor]
        | exact newline_is_space ]. }
  rewrite Hsplit, int_of_digits by assumption. reflexivity.
Qed.

Lemma rss_is_read_in_bytes_witness :
  no_rss_line [lit "Name: python3"]
  /\ all_blanks (lit "  ") /\ lit "  " <> []
  /\ all_digits (lit "1234") /\ lit "1234" <> []
  /\ Cgroup.read_self_rss
       (files_of [(lit "/proc/self/status",
                   with_line_ends [lit "Name: python3"]
                   ++ (lit "VmRSS:" ++ lit "  " ++ lit "1234" ++ lit " kB")
                   ++ [Cgroup.newline] ++ lit "VmData: 5 kB")])
     = Some (digits_value (lit "1234") * 1024).
Proof.
  assert (H1 : no_rss_line [lit "Name: python3"]).
  { repeat constructor. }
  assert (H2 : all_blanks (lit "  ")) by (repeat constructor).
  assert (H3 : lit "  " <> []) by discriminate.
  assert (H4 : all_digits (lit "1234")) by (repeat constructor).
  assert (H5 : lit "1234" <> []) by discriminate.
  split; [exact H1|]. split; [exact H2|]. split; [exact H3|].
  split; [exact H4|]. split; [exact H5|].
  exact (rss_is_read_in_bytes
           (files_of [(lit "/proc/self/status",
                       with_line_ends [lit "Name: python3"]
                       ++ (lit "VmRSS:" ++ lit "  " ++ lit "1234" ++ lit " kB")
                       ++ [Cgroup.newline] ++ lit "VmData: 5 kB")])
           _ _ _ _ H1 H2 H3 H4 H5 eq_refl).
Defined.

(* ------------------------------------------------------------------ *)
(** ** From [cpu.stat] to the summary *)

Lemma dict_get0_dict_of (items : list (pystr * pystr)) (k : pystr) :
  Qimi2Sim.dict_get0 (dict_of [] items) k = value0 items k.
Proof.
  unfold Qimi2Sim.dict_get0, value0. rewrite dict_get_dict_of.
  destruct (last_value items k); reflexivity.
Qed.

(** X26.  The throttling figures of the final record are the
    differences between the numbers that [cpu.stat] held at the end and
    at the start of the run, a counter that is absent counting as 0;
    they are left out when [cpu.stat] was empty or unreadable at the
    start, or has no [throttled_usec] at the end. *)
Theorem summary_reports_the_differences (fs0 fs1 : Cgroup.files)
    (items0 items1 : list (pystr * pystr)) (cur peak : option Z) :
  let thr := lit "throttled_usec" in
  let nthr := lit "nr_throttled" in
  let nper := lit "nr_periods" in
  let cpu0 := Cgroup.read_cpu_stat_v2 fs0 in
  let cpu1 := Cgroup.read_cpu_stat_v2 fs1 in
  Forall stat_item items1 ->
  fs1 (lit "/sys/fs/cgroup/cpu.stat") = Some (render items1) ->
  (Forall stat_item items0 -> items0 <> [] ->
   fs0 (lit "/sys/fs/cgroup/cpu.stat") = Some (render items0) ->
   last_value items1 thr <> None ->
   Qimi2Sim.final_record cur peak cpu0 cpu1
   = QFinal cur peak
       (Some (value0 items1 thr - value0 items0 thr,
              value0 items1 nthr - value0 items0 nthr,
              value0 items1 nper - value0 items0 nper)))
  /\ (fs0 (lit "/sys/fs/cgroup/cpu.stat") = None ->
      Qimi2Sim.final_record cur peak cpu0 cpu1 = QFinal cur peak None)
  /\ (last_value items1 thr = None ->
      Qimi2Sim.final_record cur peak cpu0 cpu1 = QFinal cur peak None).
Proof.
  intros thr nthr nper cpu0 cpu1 Hall1 E1.
  assert (Hc1 : cpu1 = dict_of [] items1).
  { subst cpu1. unfold Cgroup.read_cpu_stat_v2. rewrite E1.
    rewrite fill_lines by exact Hall1. reflexivity. }
  split; [|split].
  - intros Hall0 Hne E0 Hthr.
    assert (Hc0 : cpu0 = dict_of [] items0).
    { subst cpu0. unfold Cgroup.read_cpu_stat_v2. rewrite E0.
      rewrite fill_lines by exact Hall0. reflexivity. }
    rewrite Hc0, Hc1. unfold Qimi2Sim.final_record.
    destruct (dict_of [] items0) as [|kv0 d0] eqn:Hd0.
    { exfalso. destruct items0 as [|i0 items0]; [contradiction|].
      cbn [dict_of fold_left] in Hd0.
      exact (dict_of_nonempty items0 _ (dict_set_nonempty _ _ _) Hd0). }
    destruct (dict_of [] items1) as [|kv1 d1] eqn:Hd1.
    { exfalso. destruct items1 as [|i1 items1]; [apply Hthr; reflexivity|].
      cbn [dict_of fold_left] in Hd1.
      exact (dict_of_nonempty items1 _ (dict_set_nonempty _ _ _) Hd1). }
    rewrite <- Hd0, <- Hd1.
    fold thr nthr nper.
    rewrite dict_get_dict_of, !dict_get0_dict_of.
    destruct (last_value items1 thr); [reflexivity|].
    exfalso. apply Hthr. reflexivity.
  - intros E0. subst cpu0. unfold Cgroup.read_cpu_stat_v2. rewrite E0.
    reflexivity.
  - intros Hthr. rewrite Hc1.
    assert (Hg : Qimi2Sim.dict_get (dict_of [] items1) thr = None)
      by (rewrite dict_get_dict_of, Hthr; reflexivity).
    unfold Qimi2Sim.final_record. fold thr.
    destruct cpu0; [reflexivity|].
    destruct (dict_of [] items1); [reflexivity|].
    rewrite Hg. reflexivity.
Qed.

Lemma summary_reports_the_differences_witness :
  Forall stat_item [(lit "throttled_usec", lit "900"); (lit "nr_periods", lit "7")]
  /\ Qimi2Sim.final_record None None
       (Cgroup.read_cpu_stat_v2
          (files_of [(lit "/sys/fs/cgroup/cpu.stat",
                      render [(lit "throttled_usec", lit "400")])]))
       (Cgroup.read_cpu_stat_v2
          (files_of [(lit "/sys/fs/cgroup/cpu.stat",
                      render [(lit "throttled_usec", lit "900");
                              (lit "nr_periods", lit "7")])]))
     = QFinal None None (Some (500, 0, 7)).
Proof.
  assert (H1 : Forall stat_item [(lit "throttled_usec", lit "900");
                                 (lit "nr_periods", lit "7")]).
  { repeat constructor; discriminate. }
  assert (H0 : Forall stat_item [(lit "throttled_usec", lit "400")]).
  { repeat constructor; discriminate. }
  split; [exact H1|].
  exact (proj1 (summary_reports_the_differences
                  (files_of [(lit "/sys/fs/cgroup/cpu.stat",
                              render [(lit "throttled_usec", lit "400")])])
                  (files_of [(lit "/sys/fs/cgroup/cpu.stat",
                              render [(lit "throttled_usec", lit "900");
                                      (lit "nr_periods", lit "7")])])
                  [(lit "throttled_usec", lit "400")]
                  [(lit "throttled_usec", lit "900"); (lit "nr_periods", lit "7")]
                  None None H1 eq_refl)
           H0 ltac:(discriminate) eq_refl ltac:(discriminate)).
Defined.

(* ================================================================== *)
(** * [human] *)

Lemma f1024_is_1024 : float_of_int 1024 = Ok Human.f1024.
Proof. reflexivity. Qed.

Lemma whole_units_checked :
  forallb (fun j => forallb (whole_unit_ok j) (seq 0 5)) (seq 1 1023) = true.
Proof. vm_compute. reflexivity. Qed.

Lemma dec_checked : forallb dec_ok (seq 1 1023) = true.
Proof. vm_compute. reflexivity. Qed.

Lemma whole_unit (j k : Z) :
  1 <= j < 1024 -> 0 <= k <= 4 ->
  Human.human (j * 1024 ^ k)
  = Ok (Some (Human.dec j ++ lit ".00 "
              ++ nth (Z.to_nat k) Human.unit_names [])).
Proof.
  intros Hj Hk.
  pose proof whole_units_checked as H.
  rewrite forallb_forall in H.
  specialize (H (Z.to_nat j) ltac:(apply in_seq; lia)).
  rewrite forallb_forall in H.
  specialize (H (Z.to_nat k) ltac:(apply in_seq; lia)).
  unfold whole_unit_ok in H. rewrite !Z2Nat.id in H by lia.
  destruct (Human.human (j * 1024 ^ k)) as [[s|]|e]; try discriminate H.
  apply pystr_eqb_eq in H. rewrite H. reflexivity.
Qed.

Lemma dec_digits_of (j : Z) :
  1 <= j < 1024 ->
  all_digits (Human.dec j) /\ digits_value (Human.dec j) = j
  /\ Human.dec j <> [].
Proof.
  intros Hj.
  pose proof dec_checked as H.
  rewrite forallb_forall in H.
  specialize (H (Z.to_nat j) ltac:(apply in_seq; lia)).
  unfold dec_ok in H. rewrite !Z2Nat.id in H by lia.
  apply andb_prop in H as [H H3]. apply andb_prop in H as [H1 H2].
  split; [|split].
  - apply Forall_forall. rewrite forallb_forall in H1. exact H1.
  - lia.
  - intros E. rewrite E in H3. discriminate H3.
Qed.

(** X28.  [human] prints whole units as such: for [1 <= j < 1024] and
    [k] from 0 to 4, [human(j * 1024^k)] is the decimal [j], [.00], a
    space and the [k]-th of [B], [KiB], [MiB], [GiB], [TiB]; zero is
    [0.00 B]; and whenever [float(n)] succeeds [human] returns a string,
    the loop never ending without a [return]. *)
Theorem human_prints_whole_units (j k n : Z) :
  (1 <= j < 1024 -> 0 <= k <= 4 ->
   Human.human (j * 1024 ^ k)
   = Ok (Some (Human.dec j ++ lit ".00 "
               ++ nth (Z.to_nat k) Human.unit_names [])))
  /\ Human.human 0 = Ok (Some (lit "0.00 B"))
  /\ (forall r, Human.human n = Ok r -> r <> None)
  /\ Human.human_opt None = Ok (Some (lit "n/a")).
Proof.
  split; [apply whole_unit|]. split; [reflexivity|]. split; [|reflexivity].
  unfold Human.human. destruct (float_of_int n) as [f|e]; [|discriminate].
  intros r Hr. injection Hr as <-.
  unfold Human.unit_names. cbn [Human.human_loop].
  rewrite orb_true_r, !orb_false_r.
  repeat match goal with
         | |- context [if ?c then _ else _] => destruct c
         end;
    discriminate.
Qed.

Lemma human_prints_whole_units_witness :
  Human.human (128 * 1024 ^ 2) = Ok (Some (lit "128.00 MiB")).
Proof.
  exact (proj1 (human_prints_whole_units 128 2 0) ltac:(lia) ltac:(lia)).
Defined.

(** X29.  A size written as a whole number below 1024 and a unit comes
    back in the log with the same number: [parse_size] gives
    [j * 1024^power], and [human] of that prints [j.00] and the name of
    the unit. *)
Theorem size_round_trip (j : Z) (U u : pystr) :
  1 <= j < 1024 -> spells U u ->
  parse_size (Human.dec j ++ U) = Ok (j * 1024 ^ unit_power u)
  /\ Human.human (j * 1024 ^ unit_power u)
     = Ok (Some (Human.dec j ++ lit ".00 "
                 ++ nth (Z.to_nat (unit_power u)) Human.unit_names [])).
Proof.
  intros Hj Hsp.
  destruct (dec_digits_of j Hj) as (Hd & Hv & Hne).
  assert (Hp : 1 <= unit_power u <= 4).
  { destruct Hsp as [_ (m & Hin)]. exact (proj2 (units_mul u m Hin)). }
  split; [|apply whole_unit; lia].
  pose proof (parse_size_with_unit [] (Human.dec j) None U u []
                (Forall_nil _) (Forall_nil _) Hd Hne (Forall_nil _) Hsp) as E.
  unfold numeral in E. rewrite !app_nil_r in E. cbn [app] in E. rewrite E.
  pose proof (convert_exact (Human.dec j) None (unit_power u) Hd Hne
                (Forall_nil _) Hp) as C.
  cbv zeta in C. cbn [fraction_digits List.length Z.of_nat] in C.
  rewrite app_nil_r, Hv in C. unfold numeral in C. rewrite app_nil_r in C.
  rewrite C by (apply small_integer_exact; lia).
  rewrite Z.pow_0_r, Z.div_1_r. reflexivity.
Qed.

Lemma size_round_trip_witness :
  1 <= 128 < 1024 /\ spells (lit "Mi") (lit "mi")
  /\ parse_size (lit "128Mi") = Ok 134217728
  /\ Human.human 134217728 = Ok (Some (lit "128.00 MiB")).
Proof.
  assert (H1 : 1 <= 128 < 1024) by lia.
  assert (H2 : spells (lit "Mi") (lit "mi")).
  { split; [reflexivity|]. exists (1024 ^ 2). simpl. tauto. }
  split; [exact H1|]. split; [exact H2|].
  exact (size_round_trip 128 (lit "Mi") (lit "mi") H1 H2).
Defined.

(* ================================================================== *)
(** * [touch_pages] on the bytes of the buffer *)

Lemma set_byte_in_range (buf : list Byte.byte) (off : Z) (b : Byte.byte) :
  0 <= off < Z.of_nat (List.length buf) ->
  exists buf',
    Bytes.set_byte buf off b = Some buf'
    /\ List.length buf' = List.length buf
    /\ forall i, nth i buf' Byte.x00
                 = if Z.of_nat i =? off then b else nth i buf Byte.x00.
Proof.
  intros Hoff. unfold Bytes.set_byte. cbv zeta.
  replace (off <? 0) with false by lia.
  replace ((0 <=? off) && (off <? Z.of_nat (List.length buf))) with true
    by (symmetry; apply andb_true_intro; split; lia).
  eexists. split; [reflexivity|].
  set (n := Z.to_nat off).
  assert (Hn : (n < List.length buf)%nat) by lia.
  assert (Hlen : List.length (firstn n buf) = n)
    by (rewrite length_firstn; lia).
  split.
  - rewrite length_app, Hlen. cbn [List.length]. rewrite length_skipn. lia.
  - intros i. destruct (Z.of_nat i =? off) eqn:E.
    + assert (i = n) by lia. subst i.
      rewrite app_nth2 by lia. rewrite Hlen, Nat.sub_diag. reflexivity.
    + destruct (Nat.lt_ge_cases i n) as [Hlt|Hge].
      * rewrite app_nth1 by lia.
        rewrite <- (firstn_skipn n buf) at 2.
        rewrite app_nth1 by lia. reflexivity.
      * assert (Hi : (n < i)%nat) by lia.
        rewrite app_nth2 by lia. rewrite Hlen.
        replace (i - n)%nat with (S (i - S n)) by lia. cbn [nth].
        rewrite <- (firstn_skipn (S n) buf) at 2.
        rewrite app_nth2 by (rewrite length_firstn; lia).
        rewrite length_firstn.
        replace (Nat.min (S n) (List.length buf)) with (S n) by lia.
        reflexivity.
Qed.

Lemma touch_at_in_range (offs : list Z) :
  forall buf,
    Forall (fun off => 0 <= off < Z.of_nat (List.length buf)) offs ->
    exists buf',
      Bytes.touch_at offs buf = Some buf'
      /\ List.length buf' = List.length buf
      /\ forall i, nth i buf' Byte.x00
                   = if existsb (fun off => Z.of_nat i =? off) offs
                     then Byte.x01 else nth i buf Byte.x00.
Proof.
  induction offs as [|off offs IH]; intros buf Hall.
  - exists buf. repeat split.
  - inversion Hall as [|? ? Hoff Hrest]; subst.
    destruct (set_byte_in_range buf off Byte.x01 Hoff) as (b1 & E1 & L1 & N1).
    destruct (IH b1) as (b2 & E2 & L2 & N2).
    { rewrite L1. exact Hrest. }
    exists b2. cbn [Bytes.touch_at]. rewrite E1.
    split; [exact E2|]. split; [congruence|].
    intros i. rewrite N2, N1. cbn [existsb].
    destruct (Z.of_nat i =? off); destruct (existsb _ offs); reflexivity.
Qed.

Lemma py_range3_length (n step : Z) :
  Z.of_nat (List.length (Bytes.py_range3 0 n step)) = Z.max 0 (ceil_div n step).
Proof.
  unfold Bytes.py_range3. rewrite length_map, length_seq, Z.sub_0_r. lia.
Qed.

Lemma py_range3_in (n step off : Z) :
  0 < step -> 0 <= n ->
  In off (Bytes.py_range3 0 n step) <-> 0 <= off < n /\ off mod step = 0.
Proof.
  intros Hs Hn. unfold Bytes.py_range3. rewrite Z.sub_0_r, in_map_iff.
  pose proof (ceil_div_spec n step ltac:(lia)) as Hc.
  split.
  - intros (i & <- & Hin). apply in_seq in Hin. cbn [Z.add].
    split; [|apply Z.mod_mul; lia]. nia.
  - intros [Hoff Hmod].
    apply Z.mod_divide in Hmod; [|lia]. destruct Hmod as (q & ->).
    exists (Z.to_nat q). split; [cbn [Z.add]; nia|].
    apply in_seq. nia.
Qed.

(** X25.  [touch_pages] never writes out of the buffer, so that it
    cannot raise [IndexError]; it leaves the length alone and writes a 1
    at the first byte of every page of 4096 bytes and nowhere else; the
    number of bytes it writes is [ceil(len / 4096)], the number of pages
    that the memory loop is taken to touch. *)
Theorem touch_pages_writes_one_byte_per_page (buf : list Byte.byte) :
  exists buf',
    Bytes.touch_pages 4096 buf = Some buf'
    /\ pages_touched 4096 buf buf'
    /\ Z.of_nat (List.length
                   (Bytes.py_range3 0 (Z.of_nat (List.length buf)) 4096))
       = ceil_div (Z.of_nat (List.length buf)) 4096.
Proof.
  unfold Bytes.touch_pages.
  set (n := Z.of_nat (List.length buf)).
  assert (Hn : 0 <= n) by lia.
  destruct (touch_at_in_range (Bytes.py_range3 0 n 4096) buf)
    as (buf' & E & L & N).
  { apply Forall_forall. intros off Hin.
    apply py_range3_in in Hin; [|lia|lia]. fold n. lia. }
  exists buf'. split; [exact E|]. split.
  - split; [exact L|]. intros i Hi. rewrite N.
    destruct (Z.of_nat i mod 4096 =? 0) eqn:Hm.
    + apply Z.eqb_eq in Hm.
      replace (existsb _ _) with true; [reflexivity|].
      symmetry. apply existsb_exists. exists (Z.of_nat i).
      split; [|apply Z.eqb_refl]. apply py_range3_in; lia.
    + apply Z.eqb_neq in Hm.
      replace (existsb _ _) with false; [reflexivity|].
      symmetry. apply not_true_is_false. intros Hex.
      apply existsb_exists in Hex as (off & Hin & Heq).
      apply Z.eqb_eq in Heq. subst off.
      apply py_range3_in in Hin; [|lia|lia].
      destruct Hin as [_ Hz]. contradiction.
  - rewrite py_range3_length.
    pose proof (ceil_div_spec n 4096 ltac:(lia)). lia.
Qed.
